(* ===== verification/_CoqProject ===== *)
-Q . S2P
Prelude.v
Tracker.v
TrackerFacts.v
TrackerRef.v
Float64.v
GoStr.v
Payload.v
Hashes.v
Config.v
ConfigFacts.v
ConfigText.v
Metrics.v
Verdict.v
Report.v
VerdictFacts.v
VerdictTable.v
Transport.v
Cleanup.v
Console.v
Worker.v
WorkerFacts.v
Loops.v
LoopsFacts.v
RoundTrip.v
KeyedOrdering.v
ConsumerGroup.v
OffsetLag.v
AdminChurn.v
TransactionsEOS.v
WorkerGroup.v
WorkerGroupFacts.v
Heard.v
Snapshot.v
SnapshotFacts.v
Engine.v
EngineFacts.v
EngineLift.v
Lifecycle.v
Window.v
EngineTypes.v
Main.v
MainFacts.v
RunEnds.v
HeardRun.v
Disconnect.v
Api.v
Server.v
ServerFacts.v
FinalReport.v
Script.v
KafkaClient.v
KafkaFacts.v
KafkaHalt.v
ExProduce.v
ExConsume.v
ExGroups.v
ExAdmin.v
ExRebalance.v
ExProduceFacts.v
ExConsumeFacts.v
ExGroupsFacts.v
ExAdminFacts.v
ExRebalanceFacts.v
ExampleDemo.v
ExampleGaps.v
Examples.v
