(* ===== verification/Prelude.v ===== *)
(** * Verification development for the kubemq-kafka burn-in harness and Go examples

    The program (src/burnin/, Go) is a soak test for a Kafka-compatible broker.
    Six worker types produce and consume records through a third-party client and
    keep counters; the engine runs them through warmup, measurement and drain,
    freezes their counters into snapshots and judges the snapshots against
    thresholds; main turns the verdict into an exit code; an HTTP server starts,
    stops and watches runs.  A wrong count, a gate that cannot trip or a run that
    never ends makes the harness lie about the broker, so those are the claims.
    The Go examples (src/examples/go/) are thirteen programs that show one use of
    the client each and print PASS when the broker behaved; the claims are what
    the checks behind a PASS have seen and that no broker can keep a program from
    ending.

    ** Parts and files

    Pure components, bottom up:
    - Prelude: machine integers with their wrap-around, map-order lemmas, the
      [Eta]/[set_field] record updates [r <| f := v |>], shared automation.
    - Tracker, TrackerFacts (tracker/tracker.go): per-producer sequence windows.
      [Track.Tracker] is the struct, [Record_], [DetectGaps], [Reset], [Stats] the
      methods; a Go map is a gmap, the bitset a list of 64-bit words.  TrackerRef: a
      reference ([ideal]) kept as sets of delivered and missing sequences, which the
      tracker refines.
    - Float64: IEEE doubles as the Standard Library's SpecFloat, and the facts the
      gates need.  GoStr: strconv, fmt and time.ParseDuration on byte strings; an
      error is a [message] of literal and formatted fragments.
    - Payload (payload/payload.go): bodies, their CRC-32, size distributions.  Hashes:
      MD5 of bodies and of attribute maps.
    - Config, ConfigFacts (config/config.go): schema, defaults, Load, overrides,
      durations, Validate.  ConfigText: what an override and a duration text mean,
      from decimal numerals and the variables' names.
    - Metrics (metrics/metrics.go): every helper as the list of vector updates it makes
      ([metric_event]), the sliding and peak rate windows, the latency accumulator
      over an [HdrHistogram] interface (a class: the library is not in src/).
    - Verdict, Report, VerdictFacts (engine/verdict.go, report/report.go, RunReport
      of main.go): the gates, the structured report, their reconciliation.
      VerdictTable: the gates as a table of conditions and messages, written without
      the definitions of Verdict.  Console: the lines PrintConsole writes.
    - Transport (transport/*.go): names, client options, admin calls with their error
      treatment.  Cleanup (cmd/cleanup/main.go): the whole command.

    Workers (worker/*.go):
    - Worker, WorkerFacts: BaseWorker, header stamping, receiving.
    - Loops, LoopsFacts: the consume and produce loops as folds over what each turn
      finds outside ([consume_env], [produce_env]); the class [Worker] gives a
      worker's base and its update, and the loops are written against it.
    - RoundTrip, KeyedOrdering, ConsumerGroup, OffsetLag, AdminChurn,
      TransactionsEOS: one file per worker, its struct and all its methods.
      ConsumerGroup makes every access of a reconciliation a step ([reconcile_step]),
      AdminChurn gives every request of a cycle an answer of its own ([cycle_env]).
    - WorkerGroup, WorkerGroupFacts (engine/worker_group.go): the interface value
      [AnyWorker], the groups, the row of steps that stopping one is ([stop_item]),
      and [activity], one turn of any goroutine of a worker.
    - Heard: the same turns labelled with the records they deliver ([turn]), and the
      [tally] of a worker's counters that is a function of them.

    The process:
    - Snapshot, SnapshotFacts (engine/engine.go, extras.go): what the engine
      computes from its groups, the drain, one tick of each periodic task.
    - Engine, EngineFacts, EngineLift, Lifecycle, Window, EngineTypes, RunEnds
      (engine/engine.go, the lifecycle helpers of worker/worker.go): the engine's
      state, [phase] as the program counter of runLoop with warmup,
      shutdownWorkers and its deferred function, [phase_step], StartRunFromConfig
      and StopRun, and [sys_step], the steps of everything that runs at once.
      [threads] and [r_tasks] hold the goroutines that producerWG, consumerWG and
      periodicWG count, each with whether its context is done; [stop_step] and
      [Stopping] block while one of theirs is left, [return_step] and [leave_step]
      let a goroutine return.  EngineLift takes a relation between workers that
      their own operations keep (a class) to one that every step of the engine
      keeps.  Window: the times between which a run is measured.
    - Main, MainFacts, HeardRun (main.go): the checks before a run, the main
      goroutine, GracefulShutdown, the exit code; executions with the [log] of what
      each consumer was given.
    - Disconnect (disconnect/disconnect.go): forced disconnects over a [Target].
    - Api (api/models.go, the adapter of main.go), Server, ServerFacts
      (server/server.go): the overlay of a start request, the read models, the
      handlers against the class [RunController] with the adapter as instance.
    - FinalReport (main.go, WriteJSON of report/report.go): what main emits before it
      exits.

    The Go examples, over interaction trees (ITree):
    - Script: traces of a tree ([ends], [goes]), the rules of [wp] (what holds of
      every trace that ends) and of [twp] (it also ends, under the histories a
      predicate admits), monitors ([track], [obeys]), [exec].
    - KafkaClient (internal/kafkaclient/kafkaclient.go): the client's calls as the
      events [clientE], Go's synchronisation as [syncE], the statements and loops
      the examples share as combinators, every function of the helper.
    - ExProduce, ExConsume, ExGroups, ExAdmin: one Module per program, its main and
      helpers.  ExRebalance: join-rebalance, its main and the goroutines of its
      members as threads of the transition system [step].
    - KafkaFacts, KafkaHalt and the Facts file of each: their proofs.  ExampleDemo:
      an in-memory broker for the witnesses; ExampleGaps: brokers that misbehave
      under which an example passes.  Examples: the programs as one type.

    ** What the theorems show

    - Tracker: answers and accounting of one record (C1, C2), the invariant of all
      histories (C3), exactness inside the window (C4), refinement of a reference
      without a bitset (C5), exactly what DetectGaps streams (C8).
    - Data: burst errors are detected (C9), bodies (C10),
      Validate is its declarative specification (C12), overrides and durations
      text by text (C13, C14), Load (C15), the rate window (C16), naming (C22),
      header round trip (C25); also, without an id, size draws, the peak rate, the
      canonical attribute encoding, client options and the cleanup command.
    - Verdict: exact against a table of its gates (C18), blind to the KIP-890 residual (C19), passes a clean run
      (C20), and the printed report, the engine's verdict and the exit code tell one
      story (C21); the checks printed are the checks made ([console_tells_verdict]).
    - Workers: a faithful channel is counted exactly (C26), counters mirror their
      Prometheus vectors (C27), and per worker what its counter of violations
      means (C28-C35), in interleavings of producers and consumers where they
      share state.
    - Engine: snapshots refine their specification (C36), the drain terminates on
      time (C37), the lifecycle invariant (C6), every bounded or cancelled run
      ends unless a goroutine whose context is done never returns (C38), groups keep
      their type (C40).
    - Process: an exit with 0 or 2 is earned by groups that passed every gate over
      the run's own window, and so by the records delivered to them (C7), and every
      API request has exactly one outcome, errors included (C39).
    - Examples: the end of a program shows what its checks saw, which can be less
      than its PASS line says, and clients are closed (C11); join-rebalance loses
      no record in any interleaving (C17) and has no data race on its counts (C23);
      the twelve sequential programs end (C24).  murmur2 never indexes out of range
      and equals a recursive reference ([murmur2_reference]).

    A property with hypotheses is followed by a witness that applies it to a
    concrete input.  Examples compute the behaviours listed as findings.

    ** Bounds and fuel

    Fuel replaces a loop's own bound: [advance_loop] gets one turn per bit of the
    window, number formatting one per bit of the number, the text parsers one per
    character, each enough because every turn uses one up, as the theorems about
    their functions show.  [drain_loop] is proved to return for every fuel above
    [max_polls].  runLoop needs none: [work] bounds its steps (for a fresh run 48,
    two per poll of the drain, and three times what stopping all workers takes: six
    and seven per configured channel) and decreases with each.  The
    examples' loops have no fuel; [exec], [turns] and their fuel serve witnesses
    only.

    ** Assumptions of the model

    - What is not in src/ is an argument: the Kafka client's answers, the clock,
      random bytes, the environment, the YAML and request decoders, the HDR
      histogram, runtime.MemStats, and the order of every range over a map whose
      result could depend on it.
    - One step is atomic: a turn of a worker's goroutine, a stretch of runLoop
      between two blocking, locking or context-reading points, a tick, an API
      handler's call of the controller.  Finer interleavings are modelled where
      two goroutines race on the same cells (reconcileGroupLoss, StartRun).
    - A goroutine returns only once its context is done (lagSampler also when it
      gets no client), by [return_step] or [leave_step].  That one whose context is
      done does take that step, hence that the client's calls return, is what C38
      leaves to the reader: it shows that the step is enabled, that each one brings
      the Wait closer to its end, and that nothing sets it back.
    - [activity] lets a worker's goroutines take turns whenever the worker is in
      the engine's groups, started or not, with any answers and locals: the
      invariants hold for more behaviours than the program has.  Workers of a
      failed run that is replaced leave the engine's map, and with their goroutines
      the model; [failed_run_leaks] shows that these go on.  The steps of a group's
      StopProducers look the group up by name, which is the same group unless a
      racing start (below) has replaced it.
    - A run's context, done channel and goroutine are created together and share
      an index.  [serial] histories accept no start while a failed run is between
      its setError and its deferred function; [restart_race] shows what happens
      otherwise.
    - json.Marshal and json.Unmarshal are inverse on valid UTF-8 strings and finite
      floats, the only values a decoded configuration holds besides NaN and
      infinities, which are refused as encoding/json does.
    - In the examples every answer of the client, the clock and uuid is
      unconstrained, except where a history is [fair] (C24): each reading
      of the clock is later than the one before, and a context found alive [patience]
      times has expired.  A fatal error is an event without an answer.  A
      context is the list of its timeouts, a print its format string; strings.ToUpper
      is that of ASCII letters and splitComma goes byte by byte.

    ** Not modelled

    Log text (the banner, the slog handlers), sockets and path cleaning of
    net/http, the text of /metrics, the YAML decoder, and the examples in the other
    languages under src/examples. *)

From stdpp Require Export base list gmap strings.
From Stdlib Require Export ZArith Lia.

Create HintDb go discriminated.

Declare Scope go_scope.
Delimit Scope go_scope with go.
Open Scope Z_scope.

(** ** Machine integers

    A [uint64] is its value in [0, 2^64), an [int] (= [int64] on the
    64-bit targets of the Dockerfile) its value in [-2^63, 2^63); every
    conversion and every arithmetic operation that can leave the range is
    written with its wrap-around. *)

Definition u64_wrap (z : Z) : Z := z mod 2 ^ 64.
Definition i64_wrap (z : Z) : Z := (z + 2 ^ 63) mod 2 ^ 64 - 2 ^ 63.
Definition i32_wrap (z : Z) : Z := (z + 2 ^ 31) mod 2 ^ 32 - 2 ^ 31.
Definition i16_wrap (z : Z) : Z := (z + 2 ^ 15) mod 2 ^ 16 - 2 ^ 15.
Definition u32_wrap (z : Z) : Z := z mod 2 ^ 32.

Definition u64_ok (z : Z) : Prop := 0 <= z < 2 ^ 64.
Definition i64_ok (z : Z) : Prop := - 2 ^ 63 <= z < 2 ^ 63.

#[export] Instance u64_ok_dec z : Decision (u64_ok z).
Proof. unfold u64_ok. apply _. Defined.
#[export] Instance i64_ok_dec z : Decision (i64_ok z).
Proof. unfold i64_ok. apply _. Defined.

Notation "a +u b" := (u64_wrap (a + b)) (at level 50, left associativity) : go_scope.
Notation "a -u b" := (u64_wrap (a - b)) (at level 50, left associativity) : go_scope.
Notation "a +i b" := (i64_wrap (a + b)) (at level 50, left associativity) : go_scope.
Notation "a -i b" := (i64_wrap (a - b)) (at level 50, left associativity) : go_scope.
Notation "a *i b" := (i64_wrap (a * b)) (at level 40, left associativity) : go_scope.
Open Scope go_scope.

Lemma u64_wrap_id z : u64_ok z -> u64_wrap z = z.
Proof. apply Z.mod_small. Qed.

Lemma u64_wrap_ok z : u64_ok (u64_wrap z).
Proof. apply Z.mod_pos_bound. lia. Qed.

Lemma i64_wrap_id z : i64_ok z -> i64_wrap z = z.
Proof. unfold i64_ok, i64_wrap. intros. rewrite Z.mod_small; lia. Qed.

Lemma i64_wrap_ok z : i64_ok (i64_wrap z).
Proof.
  unfold i64_ok, i64_wrap.
  pose proof (Z.mod_pos_bound (z + 2 ^ 63) (2 ^ 64)). lia.
Qed.

Lemma u64_wrap_wrap z : u64_wrap (u64_wrap z) = u64_wrap z.
Proof. apply u64_wrap_id, u64_wrap_ok. Qed.

Lemma u64_wrap_add_l a b : u64_wrap (u64_wrap a + b) = u64_wrap (a + b).
Proof. apply Zplus_mod_idemp_l. Qed.

Lemma u64_wrap_add_r a b : u64_wrap (a + u64_wrap b) = u64_wrap (a + b).
Proof. apply Zplus_mod_idemp_r. Qed.

Lemma i64_wrap_add_l a b : i64_wrap (i64_wrap a + b) = i64_wrap (a + b).
Proof.
  unfold i64_wrap. f_equal.
  replace ((a + 2 ^ 63) mod 2 ^ 64 - 2 ^ 63 + b + 2 ^ 63)
    with ((a + 2 ^ 63) mod 2 ^ 64 + b) by lia.
  rewrite Zplus_mod_idemp_l. f_equal. lia.
Qed.

Lemma i64_wrap_mul_l a b : i64_wrap (i64_wrap a * b) = i64_wrap (a * b).
Proof.
  unfold i64_wrap. f_equal.
  replace ((a + 2 ^ 63) mod 2 ^ 64) with (a + 2 ^ 63 - 2 ^ 64 * ((a + 2 ^ 63) / 2 ^ 64))
    by (pose proof (Z.div_mod (a + 2 ^ 63) (2 ^ 64)); lia).
  set (q := (a + 2 ^ 63) / 2 ^ 64).
  replace ((a + 2 ^ 63 - 2 ^ 64 * q - 2 ^ 63) * b + 2 ^ 63)
    with (a * b + 2 ^ 63 + (- q * b) * 2 ^ 64) by lia.
  apply Z.mod_add. lia.
Qed.

(** A [uint64] below 2^63 keeps its value through [int(...)]. *)
Lemma i64_wrap_small z : 0 <= z < 2 ^ 63 -> i64_wrap z = z.
Proof. intros. apply i64_wrap_id. unfold i64_ok. lia. Qed.

(** Exclusive or stays within [n] bits. *)
Lemma lxor_range n a b :
  0 <= n -> 0 <= a < 2 ^ n -> 0 <= b < 2 ^ n -> 0 <= Z.lxor a b < 2 ^ n.
Proof.
  intros Hn Ha Hb. assert (0 <= Z.lxor a b) by (apply Z.lxor_nonneg; lia).
  split; [done|]. destruct (decide (Z.lxor a b = 0)) as [->|]; [lia|].
  destruct (decide (a = 0)) as [->|]; [rewrite Z.lxor_0_l; lia|].
  destruct (decide (b = 0)) as [->|]; [rewrite Z.lxor_0_r; lia|].
  apply Z.log2_lt_pow2; [lia|].
  pose proof (Z.log2_lxor a b ltac:(lia) ltac:(lia)).
  assert (Z.log2 a < n) by (apply Z.log2_lt_pow2; lia).
  assert (Z.log2 b < n) by (apply Z.log2_lt_pow2; lia). lia.
Qed.

Lemma lxor_swap a b c d : Z.lxor (Z.lxor a b) (Z.lxor c d) = Z.lxor (Z.lxor a c) (Z.lxor b d).
Proof. apply Z.bits_inj'. intros n Hn. rewrite !Z.lxor_spec. by repeat destruct (Z.testbit _ _). Qed.

#[export] Hint Resolve u64_wrap_ok i64_wrap_ok : go.
Create Rewrite HintDb go_wrap.
#[export] Hint Rewrite u64_wrap_wrap u64_wrap_add_l u64_wrap_add_r i64_wrap_add_l : go_wrap.

(** ** Iteration order

    A range statement over a Go map visits it in an unspecified order: the model
    takes the order as an argument, and this lemma discharges it. *)
Lemma foldl_permutation {A B} (f : B -> A -> B) l1 l2 :
  l1 ≡ₚ l2 ->
  (forall a1 a2 b, a1 ∈ l1 -> a2 ∈ l1 -> f (f b a1) a2 = f (f b a2) a1) ->
  forall b, foldl f b l1 = foldl f b l2.
Proof.
  induction 1 as [|x l1 l2 _ IH|x y l|l1 l2 l3 H1 IH1 _ IH2]; intros Hc b; simpl.
  - done.
  - apply IH. intros a1 a2 b' ??. by apply Hc; apply elem_of_cons; right.
  - f_equal. apply Hc; set_solver.
  - rewrite IH1 by done. apply IH2. intros a1 a2 b' ??. apply Hc; by rewrite H1.
Qed.

(** ** Shared tactics *)

(** Case analysis on the scrutinee of the first [match]/[if] of the goal. *)
Ltac dmatch :=
  match goal with
  | |- context [match ?x with _ => _ end] => destruct x eqn:?
  end.

(** Turn boolean comparisons on [Z] in the context into propositions. *)
Ltac zify_bool :=
  repeat match goal with
  | H : (_ =? _)%Z = true |- _ => apply Z.eqb_eq in H
  | H : (_ =? _)%Z = false |- _ => apply Z.eqb_neq in H
  | H : (_ <=? _)%Z = true |- _ => apply Z.leb_le in H
  | H : (_ <=? _)%Z = false |- _ => apply Z.leb_gt in H
  | H : (_ <? _)%Z = true |- _ => apply Z.ltb_lt in H
  | H : (_ <? _)%Z = false |- _ => apply Z.ltb_ge in H
  | H : (_ >=? _)%Z = true |- _ => rewrite Z.geb_leb in H; apply Z.leb_le in H
  | H : (_ >=? _)%Z = false |- _ => rewrite Z.geb_leb in H; apply Z.leb_gt in H
  | H : (_ >? _)%Z = true |- _ => rewrite Z.gtb_ltb in H; apply Z.ltb_lt in H
  | H : (_ >? _)%Z = false |- _ => rewrite Z.gtb_ltb in H; apply Z.ltb_ge in H
  | H : _ && _ = true |- _ => apply andb_true_iff in H as [? ?]
  | H : _ || _ = false |- _ => apply orb_false_iff in H as [? ?]
  end.

(** Remove a [u64_wrap] or [i64_wrap] whose argument is in range. *)
Ltac unwrap :=
  repeat match goal with
  | |- context [u64_wrap ?z] => rewrite (u64_wrap_id z) by (unfold u64_ok; lia)
  | |- context [i64_wrap ?z] => rewrite (i64_wrap_id z) by (unfold i64_ok; lia)
  end.
Ltac unwrap_in H :=
  repeat match type of H with
  | context [u64_wrap ?z] => rewrite (u64_wrap_id z) in H by (unfold u64_ok; lia)
  | context [i64_wrap ?z] => rewrite (i64_wrap_id z) in H by (unfold i64_ok; lia)
  end.

(** ** Record update

    [r <| f := v |>] is [r] with field [f] replaced by [v], and
    [r <| f ::= g |>] with the field mapped through [g]: the assignments
    [r.f = v] of the source. A record type opts in by giving its
    eta-expansion as an [Eta] instance. *)

Class Eta (R : Type) := eta_expand : R -> R.

Class Setter {R T : Type} (f : R -> T) := set_field : (T -> T) -> R -> R.
Arguments set_field {R T} f {_} _ _ : simpl never.

Ltac derive_setter :=
  match goal with
  | |- @Setter ?R ?T ?f =>
    let inst := constr:(_ : Eta R) in
    let upd := fresh "upd" in let r := fresh "r" in
    intros upd r;
    let e := eval hnf in (inst r) in
    let e' := eval pattern (f r) in e in
    match e' with ?g _ => let body := eval cbv beta in (g (upd (f r))) in exact body end
  end.

#[export] Hint Extern 1 (Setter _) => derive_setter : typeclass_instances.

Notation "r <| f := v |>" := (set_field f (fun _ => v) r)
  (at level 1, left associativity, f at level 0, v at level 200,
   format "r  <|  f  :=  v  |>") : go_scope.
Notation "r <| f ::= g |>" := (set_field f g r)
  (at level 1, left associativity, f at level 0, g at level 200,
   format "r  <|  f  ::=  g  |>") : go_scope.

(** Compute projections of updated records. *)
Ltac rsimpl := cbn [set_field] in *; cbv [set_field] in *; cbn in *.
