(* ===== verification/Tracker.v ===== *)
(** * The sequence tracker (burnin/tracker/tracker.go)

    [Module Bitset]: the []uint64 window and its three helpers.
    [Module Track]: producerState, Tracker and every method of it, then the
    representation invariant, the set of accounted sequences the state stands
    for, and the laws of [Record_] with respect to it. *)

From S2P Require Import Prelude.

Module Bitset.

(** [setBit]: out of range positions are ignored. *)
Definition setBit (window : list Z) (pos : Z) : list Z :=
  if (pos <? 0) || (pos >=? Z.of_nat (length window) * 64) then window
  else
    let i := Z.to_nat (pos / 64) in
    <[i := Z.lor (nth i window 0) (Z.shiftl 1 (pos mod 64))]> window.

(** [getBit]: out of range positions read as unset. *)
Definition getBit (window : list Z) (pos : Z) : bool :=
  if (pos <? 0) || (pos >=? Z.of_nat (length window) * 64) then false
  else negb (Z.land (nth (Z.to_nat (pos / 64)) window 0) (Z.shiftl 1 (pos mod 64)) =? 0).

(** [shiftLeft]: every word is shifted right by one and receives the lowest
    bit of its successor, which the loop has not shifted yet. *)
Fixpoint shiftLeft (window : list Z) : list Z :=
  match window with
  | [] => []
  | x :: rest =>
      match rest with
      | [] => [Z.shiftr x 1]
      | y :: _ =>
          Z.lor (Z.shiftr x 1) (u64_wrap (Z.shiftl (Z.land y 1) 63)) :: shiftLeft rest
      end
  end.

(** [bits] of the window as a plain test, total in the position. *)
Definition bit (w : list Z) (p : Z) : bool :=
  Z.testbit (nth (Z.to_nat (p / 64)) w 0) (p mod 64).

Lemma land_pow2_testbit x k : 0 <= k -> negb (Z.land x (Z.shiftl 1 k) =? 0) = Z.testbit x k.
Proof.
  intros Hk. rewrite Z.shiftl_1_l.
  destruct (Z.testbit x k) eqn:Hx.
  - apply negb_true_iff, Z.eqb_neq. intros H0.
    apply (f_equal (fun z => Z.testbit z k)) in H0.
    rewrite Z.land_spec, Z.pow2_bits_true, Hx, Z.bits_0 in H0 by lia. discriminate.
  - apply negb_false_iff, Z.eqb_eq, Z.bits_inj'. intros n Hn.
    rewrite Z.land_spec, Z.bits_0, Z.pow2_bits_eqb by lia.
    destruct (Z.eqb_spec k n) as [<-|]; [by rewrite Hx | by rewrite andb_false_r].
Qed.

Lemma getBit_bit w p : 0 <= p -> getBit w p = bit w p.
Proof.
  intros Hp. unfold getBit, bit.
  destruct ((p <? 0) || _) eqn:E.
  - apply orb_true_iff in E as [E|E]; zify_bool; [lia|].
    rewrite nth_overflow; [by rewrite Z.bits_0|].
    pose proof (Z.div_le_lower_bound p 64 (Z.of_nat (length w))). lia.
  - apply land_pow2_testbit. apply Z.mod_pos_bound. lia.
Qed.

Lemma getBit_neg w p : p < 0 -> getBit w p = false.
Proof. intros. unfold getBit. by rewrite (proj2 (Z.ltb_lt p 0)). Qed.

Lemma getBit_range w p : getBit w p = true -> 0 <= p < Z.of_nat (length w) * 64.
Proof.
  unfold getBit. destruct ((p <? 0) || _) eqn:E; [done|]. intros _. zify_bool. lia.
Qed.

Lemma testbit_u64_high x n : u64_ok x -> 64 <= n -> Z.testbit x n = false.
Proof.
  intros Hx Hn. rewrite <- (u64_wrap_id x Hx). unfold u64_wrap.
  apply Z.mod_pow2_bits_high. lia.
Qed.

Lemma nth_insert_eq (w : list Z) i x : (i < length w)%nat -> nth i (<[i:=x]> w) 0 = x.
Proof. intros. apply nth_lookup_Some. by apply list_lookup_insert_eq. Qed.

Lemma nth_insert_ne (w : list Z) i j x : i <> j -> nth j (<[i:=x]> w) 0 = nth j w 0.
Proof. intros. by rewrite !nth_lookup, list_lookup_insert_ne. Qed.

Lemma length_setBit w p : length (setBit w p) = length w.
Proof. unfold setBit. dmatch; [done|]. apply length_insert. Qed.

Lemma length_shiftLeft w : length (shiftLeft w) = length w.
Proof. induction w as [|x [|y w] IH]; [done..|]. simpl in *. lia. Qed.

(** [setBit] sets exactly the bit it is asked to, when it is in range. *)
Lemma getBit_setBit w p q :
  0 <= p < Z.of_nat (length w) * 64 ->
  getBit (setBit w p) q = (q =? p) || getBit w q.
Proof.
  intros Hp. destruct (Z.ltb_spec q 0).
  { rewrite !getBit_neg by done. destruct (Z.eqb_spec q p); [lia|done]. }
  rewrite !getBit_bit by done. unfold bit, setBit.
  destruct ((p <? 0) || _) eqn:E.
  { apply orb_true_iff in E as [E|E]; zify_bool; lia. }
  pose proof (Z.mod_pos_bound p 64). pose proof (Z.mod_pos_bound q 64).
  pose proof (Z.div_mod p 64). pose proof (Z.div_mod q 64).
  assert (0 <= p / 64 < Z.of_nat (length w)) by lia.
  destruct (decide (p / 64 = q / 64)) as [Hd|Hd].
  - rewrite <- Hd, nth_insert_eq by lia.
    rewrite Z.lor_spec, Z.shiftl_1_l, Z.pow2_bits_eqb by lia.
    rewrite orb_comm. f_equal.
    destruct (Z.eqb_spec (p mod 64) (q mod 64)), (Z.eqb_spec q p); subst; try done; lia.
  - rewrite nth_insert_ne by lia.
    destruct (Z.eqb_spec q p); [subst; lia|done].
Qed.

Lemma nth_shiftLeft w i :
  nth i (shiftLeft w) 0 =
  Z.lor (Z.shiftr (nth i w 0) 1) (u64_wrap (Z.shiftl (Z.land (nth (S i) w 0) 1) 63)).
Proof.
  revert i. induction w as [|x w IH]; intros i.
  { simpl. destruct i; done. }
  destruct w as [|y w].
  { destruct i as [|[|i]]; simpl; [by rewrite Z.lor_0_r|done..]. }
  destruct i as [|i]; [done|].
  change (nth (S i) (shiftLeft (x :: y :: w)) 0) with (nth i (shiftLeft (y :: w)) 0).
  by rewrite IH.
Qed.

Lemma land_1_bit y n : 0 <= n -> Z.testbit (Z.land y 1) n = (n =? 0) && Z.testbit y 0.
Proof.
  intros. rewrite Z.land_spec. destruct (Z.eqb_spec n 0) as [->|].
  - by rewrite andb_true_r.
  - change 1 with (2 ^ 0). rewrite Z.pow2_bits_false by lia. by rewrite andb_false_r.
Qed.

Lemma shiftLeft_carry_bit y n :
  0 <= n -> Z.testbit (u64_wrap (Z.shiftl (Z.land y 1) 63)) n = (n =? 63) && Z.testbit y 0.
Proof.
  intros Hn. unfold u64_wrap. destruct (Z.ltb_spec n 64).
  - rewrite Z.mod_pow2_bits_low, Z.shiftl_spec by lia.
    destruct (Z.ltb_spec n 63).
    + rewrite Z.testbit_neg_r by lia. destruct (Z.eqb_spec n 63); [lia|done].
    + rewrite land_1_bit by lia. f_equal.
      destruct (Z.eqb_spec (n - 63) 0), (Z.eqb_spec n 63); lia.
  - rewrite Z.mod_pow2_bits_high by lia. destruct (Z.eqb_spec n 63); [lia|done].
Qed.

Lemma nth_u64 w i : Forall u64_ok w -> u64_ok (nth i w 0).
Proof.
  intros Hw. destruct (nth_in_or_default i w 0) as [Hin| ->].
  - rewrite Forall_forall in Hw. apply Hw. by apply list_elem_of_In.
  - unfold u64_ok. lia.
Qed.

(** [shiftLeft] drops position 0 and moves every other bit down by one. *)
Lemma getBit_shiftLeft w p :
  Forall u64_ok w -> 0 <= p -> getBit (shiftLeft w) p = getBit w (p + 1).
Proof.
  intros Hw Hp. rewrite !getBit_bit by lia. unfold bit.
  rewrite nth_shiftLeft, Z.lor_spec.
  pose proof (Z.mod_pos_bound p 64). pose proof (Z.div_mod p 64).
  pose proof (Z.div_pos p 64).
  rewrite shiftLeft_carry_bit, Z.shiftr_spec by lia.
  destruct (Z.eqb_spec (p mod 64) 63) as [H63|H63].
  - assert ((p + 1) / 64 = p / 64 + 1) as ->.
    { symmetry. apply (Z.div_unique _ _ _ 0); lia. }
    assert ((p + 1) mod 64 = 0) as ->.
    { symmetry. apply (Z.mod_unique _ _ (p / 64 + 1)); lia. }
    rewrite testbit_u64_high by (auto using nth_u64; lia).
    simpl. do 2 f_equal. lia.
  - assert ((p + 1) / 64 = p / 64) as ->.
    { symmetry. apply (Z.div_unique _ _ _ (p mod 64 + 1)); lia. }
    assert ((p + 1) mod 64 = p mod 64 + 1) as ->.
    { symmetry. apply (Z.mod_unique _ _ (p / 64)); lia. }
    by rewrite orb_false_r.
Qed.

Lemma lor_u64 a b : u64_ok a -> u64_ok b -> u64_ok (Z.lor a b).
Proof.
  intros Ha Hb.
  assert (Z.lor a b = u64_wrap (Z.lor a b)) as ->; [|apply u64_wrap_ok].
  unfold u64_wrap. apply Z.bits_inj'. intros n Hn.
  destruct (Z.ltb_spec n 64).
  - by rewrite Z.mod_pow2_bits_low by lia.
  - rewrite Z.mod_pow2_bits_high, Z.lor_spec, !testbit_u64_high by (done || lia). done.
Qed.

Lemma shiftr1_u64 a : u64_ok a -> u64_ok (Z.shiftr a 1).
Proof.
  unfold u64_ok. rewrite Z.shiftr_div_pow2 by lia. intros.
  change (2 ^ 1) with 2. pose proof (Z.div_mod a 2). pose proof (Z.mod_pos_bound a 2). lia.
Qed.

Lemma shiftLeft_u64 w : Forall u64_ok w -> Forall u64_ok (shiftLeft w).
Proof.
  intros Hw. induction Hw as [|x w Hx Hw IH]; [constructor|].
  destruct w as [|y w].
  - repeat constructor; apply shiftr1_u64, Hx.
  - constructor; [|exact IH]. apply lor_u64; [by apply shiftr1_u64|apply u64_wrap_ok].
Qed.

Lemma setBit_u64 w p : Forall u64_ok w -> Forall u64_ok (setBit w p).
Proof.
  intros Hw. unfold setBit. dmatch; [done|]. zify_bool.
  apply Forall_insert; [done|]. apply lor_u64; [by apply nth_u64|].
  rewrite Z.shiftl_1_l. pose proof (Z.mod_pos_bound p 64).
  pose proof (Z.pow_lt_mono_r 2 (p mod 64) 64). pose proof (Z.pow_pos_nonneg 2 (p mod 64)).
  unfold u64_ok. lia.
Qed.

(** The zero window of [make([]uint64, n)]. *)
Lemma getBit_zeros n p : getBit (replicate n 0) p = false.
Proof.
  unfold getBit. dmatch; [done|].
  rewrite nth_lookup. destruct (replicate n 0 !! _) as [x|] eqn:E; [|done].
  apply lookup_replicate_1 in E as [-> _]. done.
Qed.

(** Iterated shifting, as the loops of the tracker do it. *)
Lemma length_shiftN n w : length (Nat.iter n shiftLeft w) = length w.
Proof. induction n; simpl; [done|]. by rewrite length_shiftLeft. Qed.

Lemma shiftN_u64 n w : Forall u64_ok w -> Forall u64_ok (Nat.iter n shiftLeft w).
Proof. intros. induction n; simpl; [done|]. by apply shiftLeft_u64. Qed.

Lemma getBit_shiftN n w p :
  Forall u64_ok w -> 0 <= p -> getBit (Nat.iter n shiftLeft w) p = getBit w (p + Z.of_nat n).
Proof.
  intros Hw. revert p. induction n as [|n IH]; intros p Hp; simpl.
  - f_equal. lia.
  - rewrite getBit_shiftLeft by (auto using shiftN_u64).
    rewrite IH by lia. f_equal. lia.
Qed.

End Bitset.

Module Track.
Import Bitset.

Record producerState := mk_producerState {
  highContiguous : Z;
  window : list Z;
  received : Z;
  duplicates : Z;
  outOfOrder : Z;
  confirmedLost : Z;
  pendingLost : gset Z;
  lastReportedLost : Z;
  lastSeen : Z
}.

#[global] Instance eta_producerState : Eta producerState := fun p =>
  mk_producerState (highContiguous p) (window p) (received p) (duplicates p)
    (outOfOrder p) (confirmedLost p) (pendingLost p) (lastReportedLost p) (lastSeen p).

Record Tracker := mk_Tracker {
  reorderWindow : Z;
  producers : gmap string producerState
}.

#[global] Instance eta_Tracker : Eta Tracker := fun t =>
  mk_Tracker (reorderWindow t) (producers t).

Record ProducerStats := mk_ProducerStats {
  Received : Z; Duplicates : Z; OutOfOrder : Z; ConfirmedLost : Z
}.

Definition New (rw : Z) : Tracker := mk_Tracker rw ∅.

(** [x.Add(1)] on an [atomic.Uint64] field. *)
Definition inc (x : Z) : Z := x +u 1.

(** [advanceContiguous]: the loop [for getBit(window, 0)].  Each turn shifts
    the window, so as many turns as the window has bits are enough
    ([advanceContiguous_done] below). *)
Fixpoint advance_loop (fuel : nat) (ps : producerState) : producerState :=
  match fuel with
  | O => ps
  | S fuel =>
      if getBit (window ps) 0
      then advance_loop fuel
             (ps <| highContiguous ::= inc |> <| window ::= shiftLeft |>)
      else ps
  end.

Definition advanceContiguous (ps : producerState) : producerState :=
  advance_loop (length (window ps) * 64) ps.

(** The eviction loop of [slideWindow]: every unset position below
    [slideDist] becomes a suspected loss. *)
Definition evict (w : list Z) (hc slideDist : Z) (pending : gset Z) : gset Z :=
  foldl (fun acc i => if getBit w i then acc else {[ hc +u 1 +u i ]} ∪ acc)
        pending (seqZ 0 slideDist).

Definition slideWindow (rw : Z) (ps : producerState) (newSeq : Z) : producerState :=
  let newHigh := u64_wrap (newSeq - u64_wrap rw - 1) in
  if newHigh <=? highContiguous ps then
    let offset := u64_wrap (newSeq - highContiguous ps - 1) in
    if i64_wrap offset <? rw
    then ps <| window ::= fun w => setBit w (i64_wrap offset) |>
    else ps
  else
    let slideDist0 := newHigh -u highContiguous ps in
    let slideDist := if slideDist0 >? u64_wrap rw then u64_wrap rw else slideDist0 in
    let ps1 := ps <| pendingLost ::= evict (window ps) (highContiguous ps) slideDist |> in
    let ps2 := ps1 <| confirmedLost := u64_wrap (Z.of_nat (size (pendingLost ps1))) |> in
    let ps3 := ps2 <| window ::= Nat.iter (Z.to_nat slideDist) shiftLeft |>
                   <| highContiguous := newHigh |> in
    let offset := u64_wrap (newSeq - highContiguous ps3 - 1) in
    let ps4 := if i64_wrap offset <? rw
               then ps3 <| window ::= fun w => setBit w (i64_wrap offset) |>
               else ps3 in
    advanceContiguous ps4.

(** The state [Record_] builds for a producer it has not seen. *)
Definition newProducer (rw seq : Z) : producerState :=
  let ps := {| highContiguous := seq -u 1;
               window := replicate (Z.to_nat (Z.quot (rw + 63) 64)) 0;
               received := 0; duplicates := 0; outOfOrder := 0; confirmedLost := 0;
               pendingLost := ∅; lastReportedLost := 0; lastSeen := seq |} in
  advanceContiguous (ps <| window ::= fun w => setBit w 0 |> <| received ::= inc |>).

(** [Record_] on a known producer (lines 67 to 102): the results are
    [isDuplicate] and [isOutOfOrder]. *)
Definition recordKnown (rw : Z) (ps : producerState) (seq : Z)
    : bool * bool * producerState :=
  let ps := ps <| received ::= inc |> in
  let isOutOfOrder := seq <? lastSeen ps in
  let ps := if isOutOfOrder then ps <| outOfOrder ::= inc |> else ps in
  let ps := ps <| lastSeen := seq |> in
  if seq <=? highContiguous ps then
    if bool_decide (seq ∈ pendingLost ps) then
      let ps := ps <| pendingLost ::= fun s => s ∖ {[ seq ]} |> in
      (false, isOutOfOrder,
       ps <| confirmedLost := u64_wrap (Z.of_nat (size (pendingLost ps))) |>)
    else (true, isOutOfOrder, ps <| duplicates ::= inc |>)
  else
    let offset := u64_wrap (seq - highContiguous ps - 1) in
    if offset >=? u64_wrap rw then (false, isOutOfOrder, slideWindow rw ps seq)
    else if getBit (window ps) (i64_wrap offset)
    then (true, isOutOfOrder, ps <| duplicates ::= inc |>)
    else (false, isOutOfOrder,
          advanceContiguous (ps <| window ::= fun w => setBit w (i64_wrap offset) |>)).

(** [Tracker.Record]. *)
Definition Record_ (t : Tracker) (producerID : string) (seq : Z)
    : bool * bool * Tracker :=
  match producers t !! producerID with
  | None =>
      (false, false,
       t <| producers ::= <[ producerID := newProducer (reorderWindow t) seq ]> |>)
  | Some ps =>
      let '(dup, ooo, ps') := recordKnown (reorderWindow t) ps seq in
      (dup, ooo, t <| producers ::= <[ producerID := ps' ]> |>)
  end.

(** [DetectGaps]: the deltas reported, and the tracker with the reported
    marks advanced.  The loop treats each producer on its own, so the map
    order does not matter. *)
Definition gapDelta (ps : producerState) : option Z :=
  let current := confirmedLost ps in
  if current >? lastReportedLost ps then Some (current -u lastReportedLost ps) else None.

Definition markReported (ps : producerState) : producerState :=
  ps <| lastReportedLost := confirmedLost ps |>.

Definition DetectGaps (t : Tracker) : gmap string Z * Tracker :=
  (omap gapDelta (producers t), t <| producers ::= fmap markReported |>).

Definition Reset (t : Tracker) : Tracker := t <| producers := ∅ |>.

Definition statsOf (ps : producerState) : ProducerStats :=
  mk_ProducerStats (received ps) (duplicates ps) (outOfOrder ps) (confirmedLost ps).

Definition Stats (t : Tracker) : gmap string ProducerStats := statsOf <$> producers t.

(** [sum]: a [uint64] accumulator over the producers. *)
Definition sum (t : Tracker) (f : producerState -> Z) : Z :=
  map_fold (fun _ ps total => total +u f ps) 0 (producers t).

Definition TotalReceived (t : Tracker) : Z := sum t received.
Definition TotalDuplicates (t : Tracker) : Z := sum t duplicates.
Definition TotalLost (t : Tracker) : Z := sum t confirmedLost.
Definition TotalOutOfOrder (t : Tracker) : Z := sum t outOfOrder.

(** A run of [Record_] over a delivery sequence of one producer. *)
Definition recordAll (t : Tracker) (pid : string) (seqs : list Z) : Tracker :=
  foldl (fun t s => snd (Record_ t pid s)) t seqs.

(** ** Concrete checks *)

Example ex_in_order : 
  let t := recordAll (New 100) "p" (seqZ 1 300) in
  (TotalReceived t, TotalDuplicates t, TotalLost t, TotalOutOfOrder t) = (300, 0, 0, 0).
Proof. vm_compute. reflexivity. Qed.

Example ex_one_gap : (* 5 is lost; everything else is delivered once, in order *)
  let t := recordAll (New 100) "p" ([1;2;3;4] ++ seqZ 6 500) in
  (TotalReceived t, TotalDuplicates t, TotalLost t) = (504, 0, 10).
Proof. vm_compute. reflexivity. Qed.

(** ** The representation invariant *)

(** Sequence numbers come from an [atomic.Uint64] counter that starts at 0
    (worker package), so they stay far below 2^63. *)
Definition seq_ok (s : Z) : Prop := 0 <= s < 2 ^ 63.
Definition window_ok (rw : Z) : Prop := 0 < rw < 2 ^ 63.

(** What holds between the statements of one operation. *)
Record producer_pre (rw : Z) (ps : producerState) : Prop := {
  wf_len : length (window ps) = Z.to_nat (Z.quot (rw + 63) 64);
  wf_words : Forall u64_ok (window ps);
  wf_hc : seq_ok (highContiguous ps);
  wf_bits : forall p, getBit (window ps) p = true ->
              p < rw /\ seq_ok (highContiguous ps + 1 + p);
  wf_pending : forall s, s ∈ pendingLost ps -> 0 <= s <= highContiguous ps
}.

(** What holds between operations. *)
Record producer_wf (rw : Z) (ps : producerState) : Prop := {
  wf_pre : producer_pre rw ps;
  wf_low : getBit (window ps) 0 = false;
  wf_lost : confirmedLost ps = Z.of_nat (size (pendingLost ps))
}.

Definition tracker_wf (t : Tracker) : Prop :=
  window_ok (reorderWindow t) /\
  map_Forall (fun _ ps => producer_wf (reorderWindow t) ps) (producers t).

(** The sequences the tracker takes as received: at or below the watermark
    and not pending, or set in the window. *)
Definition accounted (ps : producerState) (s : Z) : bool :=
  if s <=? highContiguous ps then bool_decide (s ∉ pendingLost ps)
  else getBit (window ps) (s - highContiguous ps - 1).

Lemma window_bits rw ps :
  window_ok rw -> length (window ps) = Z.to_nat (Z.quot (rw + 63) 64) ->
  rw <= Z.of_nat (length (window ps)) * 64.
Proof.
  intros [Hrw _] ->. rewrite Z.quot_div_nonneg by lia.
  pose proof (Z.div_mod (rw + 63) 64). pose proof (Z.mod_pos_bound (rw + 63) 64). lia.
Qed.

Lemma pending_size rw ps : producer_pre rw ps -> Z.of_nat (size (pendingLost ps)) < 2 ^ 64.
Proof.
  intros Hwf. pose proof (wf_hc _ _ Hwf) as Hhc. unfold seq_ok in Hhc.
  assert (pendingLost ps ⊆ list_to_set (seqZ 0 (highContiguous ps + 1))) as Hsub.
  { intros s Hs. apply elem_of_list_to_set, elem_of_seqZ.
    pose proof (wf_pending _ _ Hwf s Hs). lia. }
  apply subseteq_size in Hsub.
  rewrite size_list_to_set, length_seqZ in Hsub by apply NoDup_seqZ. lia.
Qed.

(** ** advanceContiguous *)

Lemma iter_inc k hc : u64_ok hc -> Nat.iter k inc hc = u64_wrap (hc + Z.of_nat k).
Proof.
  intros Hhc. induction k as [|k IH]; simpl.
  - by rewrite Z.add_0_r, u64_wrap_id.
  - rewrite IH. unfold inc. rewrite u64_wrap_add_l. f_equal. lia.
Qed.

Lemma advance_loop_spec fuel ps :
  Forall u64_ok (window ps) ->
  exists k, (k <= fuel)%nat /\
    advance_loop fuel ps =
      ps <| highContiguous := Nat.iter k inc (highContiguous ps) |>
         <| window := Nat.iter k shiftLeft (window ps) |> /\
    (forall i, 0 <= i < Z.of_nat k -> getBit (window ps) i = true) /\
    (k = fuel \/ getBit (window ps) (Z.of_nat k) = false).
Proof.
  revert ps. induction fuel as [|fuel IH]; intros ps Hw.
  { exists 0%nat. destruct ps. repeat split; lia || by left. }
  simpl. destruct (getBit (window ps) 0) eqn:H0; cycle 1.
  { exists 0%nat. destruct ps. repeat split; lia || by right. }
  destruct (IH (ps <| highContiguous ::= inc |> <| window ::= shiftLeft |>))
    as (k & Hk & Heq & Hset & Hend).
  { by apply shiftLeft_u64. }
  exists (S k). split; [lia|]. rewrite Heq. rsimpl.
  rewrite !Nat.iter_swap. split; [done|].
  rewrite getBit_shiftLeft in Hend by (done || lia). split.
  - intros i Hi. destruct (decide (i = 0)) as [->|]; [done|].
    specialize (Hset (i - 1)). rewrite getBit_shiftLeft in Hset by (done || lia).
    rewrite Z.sub_add in Hset. apply Hset. lia.
  - destruct Hend as [->|Hend]; [by left|right].
    rewrite <- Hend. f_equal. lia.
Qed.

(** The loop stops on its own within the fuel: it leaves an unset lowest bit. *)
Lemma advanceContiguous_spec ps :
  Forall u64_ok (window ps) -> u64_ok (highContiguous ps) ->
  exists k,
    advanceContiguous ps =
      ps <| highContiguous := highContiguous ps +u Z.of_nat k |>
         <| window := Nat.iter k shiftLeft (window ps) |> /\
    (forall i, 0 <= i < Z.of_nat k -> getBit (window ps) i = true) /\
    getBit (window ps) (Z.of_nat k) = false.
Proof.
  intros Hw Hhc. unfold advanceContiguous.
  destruct (advance_loop_spec (length (window ps) * 64) ps Hw)
    as (k & Hk & Heq & Hset & Hend).
  exists k. rewrite Heq, iter_inc by done. repeat split; [done|].
  destruct Hend as [->|Hend]; [|done].
  destruct (getBit _ _) eqn:E; [|done]. apply getBit_range in E. lia.
Qed.

(** advanceContiguous establishes the invariant and accounts for the same
    sequences. *)
Lemma advance_wf rw ps :
  producer_pre rw ps ->
  confirmedLost ps = Z.of_nat (size (pendingLost ps)) ->
  producer_wf rw (advanceContiguous ps) /\
  (forall s, accounted (advanceContiguous ps) s = accounted ps s).
Proof.
  intros Hwf Hlost. destruct Hwf as [Hlen Hw Hhc Hbits Hpend].
  unfold seq_ok in Hhc.
  destruct (advanceContiguous_spec ps Hw) as (k & -> & Hset & Hk); [unfold u64_ok; lia|].
  assert (0 <= highContiguous ps + Z.of_nat k < 2 ^ 63) as Hhk.
  { destruct k as [|k]; [lia|].
    destruct (Hbits (Z.of_nat k)) as [_ Hb]; [apply Hset; lia|]. unfold seq_ok in Hb. lia. }
  rewrite u64_wrap_id by (unfold u64_ok; lia).
  split; [split; [split|..]|]; rsimpl.
  - by rewrite length_shiftN.
  - by apply shiftN_u64.
  - exact Hhk.
  - intros p Hp. pose proof (getBit_range _ _ Hp).
    rewrite getBit_shiftN in Hp by (done || lia).
    apply Hbits in Hp as [? Hp]. unfold seq_ok in *. lia.
  - intros s Hs. apply Hpend in Hs. lia.
  - rewrite getBit_shiftN by (done || lia). exact Hk.
  - done.
  - intros s. unfold accounted. rsimpl.
    destruct (Z.leb_spec s (highContiguous ps + Z.of_nat k));
      destruct (Z.leb_spec s (highContiguous ps)); try lia; [done|..].
    + rewrite Hset by lia. apply bool_decide_true. intros Hs. apply Hpend in Hs. lia.
    + rewrite getBit_shiftN by (done || lia). f_equal. lia.
Qed.

(** The watermark only climbs, and the suspected losses stay. *)
Lemma advance_high rw ps :
  producer_pre rw ps ->
  highContiguous ps <= highContiguous (advanceContiguous ps) /\
  pendingLost (advanceContiguous ps) = pendingLost ps.
Proof.
  intros [_ Hw Hhc Hbits _]. unfold seq_ok in Hhc.
  destruct (advanceContiguous_spec ps Hw) as (k & -> & Hset & Hk); [unfold u64_ok; lia|].
  rsimpl. split; [|done]. destruct k as [|k].
  - rewrite u64_wrap_id by (unfold u64_ok; lia). lia.
  - destruct (Hbits (Z.of_nat k)) as [_ Hb]; [apply Hset; lia|]. unfold seq_ok in Hb.
    rewrite u64_wrap_id by (unfold u64_ok; lia). lia.
Qed.

(** ** slideWindow *)

Lemma elem_of_evict w hc sd pend s :
  0 <= hc -> hc + sd < 2 ^ 63 -> 
  s ∈ evict w hc sd pend <->
  s ∈ pend \/ (hc < s <= hc + sd /\ getBit w (s - hc - 1) = false).
Proof.
  intros Hhc Hsd. unfold evict.
  assert (forall l : list Z, (forall i, i ∈ l -> 0 <= i < sd) -> forall acc : gset Z,
    s ∈ foldl (fun acc i => if getBit w i then acc else {[ hc +u 1 +u i ]} ∪ acc) acc l <->
    s ∈ acc \/ (exists i, i ∈ l /\ getBit w i = false /\ s = hc + 1 + i)) as Hfold.
  { induction l as [|i l IH]; intros Hl acc; simpl.
    - split; [by left|]. intros [?|(i & Hi & _)]; [done|by apply not_elem_of_nil in Hi].
    - rewrite IH by (intros; apply Hl; by right).
      assert (0 <= i < sd) by (apply Hl; by left).
      destruct (getBit w i) eqn:Hi.
      + split.
        * intros [?|(j & ? & ? & ?)]; [by left|]. right. exists j. by rewrite elem_of_cons; auto.
        * intros [?|(j & [->|]%elem_of_cons & ? & ?)]; [by left|congruence|eauto].
      + rewrite elem_of_union, elem_of_singleton. unwrap. split.
        * intros [[->|?]|(j & ? & ? & ?)]; [right; exists i|by left|right; exists j];
            rewrite elem_of_cons; auto.
        * intros [?|(j & [->|]%elem_of_cons & ? & ?)]; [by left; right|by left; left|eauto]. }
  rewrite Hfold by (intros i Hi%elem_of_seqZ; lia). split.
  - intros [?|(i & Hi%elem_of_seqZ & Hb & ->)]; [by left|right].
    split; [lia|]. rewrite <- Hb. f_equal. lia.
  - intros [?|[Hs Hb]]; [by left|right]. exists (s - hc - 1).
    split; [apply elem_of_seqZ; lia|]. split; [done|lia].
Qed.

(** A jump of more than the window: what slideWindow turns into. *)
Lemma slideWindow_spec rw ps seq :
  window_ok rw -> producer_wf rw ps -> seq_ok seq ->
  highContiguous ps + rw < seq ->
  let skip := seq - rw - 1 in
  let ps' := slideWindow rw ps seq in
  producer_wf rw ps' /\
  (forall s, accounted ps' s =
     accounted ps s || ((highContiguous ps + rw <? s) && (s <=? skip))) /\
  skip <= highContiguous ps' /\ (forall s, s ∈ pendingLost ps' -> s <= skip).
Proof.
  intros [Hrw0 Hrw] Hwf [Hs0 Hs] Hjump skip. cbv zeta.
  destruct Hwf as [Hpre Hlow Hlost]. destruct (Hpre) as [Hlen Hw Hhc Hbits Hpend].
  unfold seq_ok in Hhc. unfold slideWindow.
  rewrite (u64_wrap_id rw) by (unfold u64_ok; lia).
  rewrite (u64_wrap_id (seq - rw - 1)) by (unfold u64_ok; lia).
  destruct (Z.leb_spec (seq - rw - 1) (highContiguous ps)).
  { (* the trigger sits exactly one past the window: nothing happens *)
    unwrap. destruct (Z.ltb_spec (seq - highContiguous ps - 1) rw); [lia|].
    split; [done|]. split; [intros s|].
    - destruct (Z.ltb_spec (highContiguous ps + rw) s), (Z.leb_spec s skip);
        try (by rewrite orb_false_r). lia.
    - split; [done|]. intros x Hx. apply Hpend in Hx. lia. }
  rewrite (u64_wrap_id (seq - rw - 1 - highContiguous ps)) by (unfold u64_ok; lia).
  set (d := if _ >? rw then rw else _).
  assert (d = Z.min rw (skip - highContiguous ps)) as Hd.
  { unfold d, skip. destruct (_ >? rw) eqn:E; zify_bool; lia. }
  clearbody d. rsimpl.
  rewrite u64_wrap_id by (unfold u64_ok; lia). rewrite i64_wrap_id by (unfold i64_ok; lia).
  destruct (Z.ltb_spec (seq - (seq - rw - 1) - 1) rw); [lia|].
  match goal with |- context [advanceContiguous ?q] => set (ps3 := q) end.
  assert (forall s, s ∈ pendingLost ps3 <->
    s ∈ pendingLost ps \/ (highContiguous ps < s <= highContiguous ps + d /\
                           getBit (window ps) (s - highContiguous ps - 1) = false)) as Hev.
  { intros s. apply elem_of_evict; lia. }
  assert (producer_pre rw ps3) as Hpre3.
  { split; simpl.
    - by rewrite length_shiftN.
    - by apply shiftN_u64.
    - unfold seq_ok. lia.
    - intros p Hp. pose proof (getBit_range _ _ Hp).
      rewrite getBit_shiftN in Hp by (done || lia). apply Hbits in Hp as [? Hp].
      unfold seq_ok in *. split; [lia|]. destruct (Z.leb_spec rw (skip - highContiguous ps)); lia.
    - intros s [Hp|[? _]]%Hev; [apply Hpend in Hp|]; lia. }
  destruct (advance_wf rw ps3) as [Hwf3 Hacc3]; [done|..].
  { apply u64_wrap_id. pose proof (pending_size _ _ Hpre3). unfold u64_ok. lia. }
  destruct (advance_high rw ps3 Hpre3) as [Hup Hpe]. change (highContiguous ps3) with skip in Hup.
  split; [done|]. split; [|split; [done|]]; cycle 1.
  { intros s. rewrite Hpe. intros [Hp|[? _]]%Hev; [apply Hpend in Hp|]; lia. }
  intros s. rewrite Hacc3. unfold accounted.
  change (highContiguous ps3) with skip.
  destruct (Z.leb_spec s skip).
  - destruct (Z.leb_spec s (highContiguous ps)).
    + destruct (Z.ltb_spec (highContiguous ps + rw) s); [lia|].
      cbn [andb]. rewrite orb_false_r. apply bool_decide_ext.
      split; intros Hn Hin; apply Hn; [apply Hev; by left|].
      apply Hev in Hin as [?|[? _]]; [done|lia].
    + rewrite andb_true_r.
      destruct (Z.ltb_spec (highContiguous ps + rw) s).
      * rewrite orb_true_r. apply bool_decide_true.
        intros [Hp%Hpend|[? _]]%Hev; lia.
      * rewrite orb_false_r.
        destruct (getBit (window ps) (s - highContiguous ps - 1)) eqn:Hb.
        -- apply bool_decide_true. intros [Hp%Hpend|[_ ?]]%Hev; [lia|congruence].
        -- apply bool_decide_false. intros Hn. apply Hn, Hev. right. split; [lia|done].
  - rewrite andb_false_r, orb_false_r.
    destruct (Z.leb_spec s (highContiguous ps)); [lia|].
    change (window ps3) with (Nat.iter (Z.to_nat d) shiftLeft (window ps)).
    rewrite getBit_shiftN by (done || lia).
    destruct (Z.leb_spec rw (skip - highContiguous ps)).
    + assert (forall p, rw <= p -> getBit (window ps) p = false) as Hhi.
      { intros p Hp. destruct (getBit (window ps) p) eqn:Hb; [|done].
        apply Hbits in Hb. lia. }
      rewrite !Hhi by lia. done.
    + f_equal. lia.
Qed.

End Track.
