(* ===== verification/TrackerFacts.v ===== *)
(** * Correctness of the sequence tracker

    The laws of [Record_] stated on the set of accounted sequences, the
    invariant along every history of operations, exactness on streams that
    stay inside the reorder window, and what a jump past the window does. *)

From S2P Require Import Prelude Tracker.
Import Bitset Track.

(** The arrival is at least [rw] past the watermark: [Record_] calls slideWindow. *)
Definition slides (rw : Z) (ps : producerState) (seq : Z) : bool :=
  highContiguous ps + rw <? seq.

(** Sequences that one arrival turns into accounted ones: itself inside the
    window; past the window, the part of the jump beyond the evicted words. *)
Definition newly_accounted (rw : Z) (ps : producerState) (seq s : Z) : bool :=
  if slides rw ps seq
  then (highContiguous ps + rw <? s) && (s <=? seq - rw - 1)
  else s =? seq.

Definition recordState (rw : Z) (ps : producerState) (seq : Z) : producerState :=
  snd (recordKnown rw ps seq).

(** The counters that [recordKnown] writes before it looks at the window. *)
Definition stamped (ps : producerState) (seq : Z) : producerState :=
  (if seq <? lastSeen ps
   then ps <| received ::= inc |> <| outOfOrder ::= inc |>
   else ps <| received ::= inc |>) <| lastSeen := seq |>.

Lemma stamped_same ps seq :
  let q := stamped ps seq in
  highContiguous q = highContiguous ps /\ window q = window ps /\
  pendingLost q = pendingLost ps /\ confirmedLost q = confirmedLost ps /\
  duplicates q = duplicates ps /\ lastReportedLost q = lastReportedLost ps /\
  received q = inc (received ps) /\ lastSeen q = seq /\
  outOfOrder q = if seq <? lastSeen ps then inc (outOfOrder ps) else outOfOrder ps.
Proof. unfold stamped. destruct (seq <? lastSeen ps); rsimpl; tauto. Qed.

Lemma producer_wf_ext rw ps q :
  highContiguous q = highContiguous ps -> window q = window ps ->
  pendingLost q = pendingLost ps -> confirmedLost q = confirmedLost ps ->
  producer_wf rw ps -> producer_wf rw q.
Proof.
  intros H1 H2 H3 H4 [[Hlen Hw Hhc Hb Hp] Hlow Hlost].
  split; [split|..]; rewrite ?H1, ?H2, ?H3, ?H4; done.
Qed.

Lemma accounted_ext ps q :
  highContiguous q = highContiguous ps -> window q = window ps ->
  pendingLost q = pendingLost ps -> forall s, accounted q s = accounted ps s.
Proof. intros H1 H2 H3 s. unfold accounted. by rewrite H1, H2, H3. Qed.

(** [recordKnown] after the counters: the case analysis on the window. *)
Definition recordCore (rw : Z) (q : producerState) (ooo : bool) (seq : Z)
    : bool * bool * producerState :=
  if seq <=? highContiguous q then
    if bool_decide (seq ∈ pendingLost q) then
      (false, ooo, q <| pendingLost := pendingLost q ∖ {[ seq ]} |>
                     <| confirmedLost := u64_wrap (Z.of_nat (size (pendingLost q ∖ {[ seq ]}))) |>)
    else (true, ooo, q <| duplicates ::= inc |>)
  else
    let offset := u64_wrap (seq - highContiguous q - 1) in
    if offset >=? u64_wrap rw then (false, ooo, slideWindow rw q seq)
    else if getBit (window q) (i64_wrap offset) then (true, ooo, q <| duplicates ::= inc |>)
    else (false, ooo, advanceContiguous (q <| window := setBit (window q) (i64_wrap offset) |>)).

Lemma recordKnown_core rw ps seq :
  recordKnown rw ps seq = recordCore rw (stamped ps seq) (seq <? lastSeen ps) seq.
Proof.
  unfold recordKnown, stamped. change (lastSeen (ps <| received ::= inc |>)) with (lastSeen ps).
  destruct (seq <? lastSeen ps); reflexivity.
Qed.

(** Recovery of a suspected loss. *)
Lemma recover_law rw q seq :
  producer_wf rw q -> 0 <= seq <= highContiguous q -> seq ∈ pendingLost q ->
  let q' := q <| pendingLost := pendingLost q ∖ {[ seq ]} |>
              <| confirmedLost := u64_wrap (Z.of_nat (size (pendingLost q ∖ {[ seq ]}))) |> in
  producer_wf rw q' /\
  (forall s, accounted q' s = accounted q s || (s =? seq)).
Proof.
  intros [[Hlen Hw Hhc Hb Hp] Hlow Hlost] Hseq Hin. cbv zeta. 
  assert (producer_pre rw (q <| pendingLost := pendingLost q ∖ {[ seq ]} |>)) as Hpre.
  { split; rsimpl; try done. intros s Hs. apply Hp. set_solver. }
  split.
  - split; [|done|].
    + destruct Hpre. split; done.
    + rsimpl. apply u64_wrap_id. pose proof (pending_size _ _ Hpre) as Hsz. rsimpl.
      unfold u64_ok. lia.
  - intros s. unfold accounted. rsimpl.
    destruct (Z.leb_spec s (highContiguous q)), (Z.eqb_spec s seq) as [->|];
      rewrite ?orb_true_r, ?orb_false_r; try lia; try done.
    + apply bool_decide_true. set_solver.
    + apply bool_decide_ext. set_solver.
Qed.

(** A fresh sequence inside the window. *)
Lemma fresh_pre rw q seq :
  window_ok rw -> producer_wf rw q -> seq_ok seq ->
  highContiguous q < seq <= highContiguous q + rw ->
  producer_pre rw (q <| window := setBit (window q) (seq - highContiguous q - 1) |>).
Proof.
  intros Hrw [[Hlen Hw Hhc Hb Hp] Hlow Hlost] Hseq Hwin.
  pose proof (window_bits rw q Hrw Hlen) as Hbits.
  split; rsimpl; try done.
  - by rewrite length_setBit.
  - by apply setBit_u64.
  - intros p. rewrite getBit_setBit by lia.
    intros [->%Z.eqb_eq|Hpb]%orb_true_iff; [|by apply Hb].
    unfold seq_ok in *. lia.
Qed.

Lemma fresh_law rw q seq :
  window_ok rw -> producer_wf rw q -> seq_ok seq ->
  highContiguous q < seq <= highContiguous q + rw ->
  let q' := advanceContiguous
              (q <| window := setBit (window q) (seq - highContiguous q - 1) |>) in
  producer_wf rw q' /\
  (forall s, accounted q' s = accounted q s || (s =? seq)).
Proof.
  intros Hrw Hwf Hseq Hwin. cbv zeta.
  pose proof (fresh_pre rw q seq Hrw Hwf Hseq Hwin) as Hpre.
  destruct Hwf as [[Hlen Hw Hhc Hb Hp] Hlow Hlost].
  pose proof (window_bits rw q Hrw Hlen) as Hbits.
  destruct (advance_wf rw (q <| window := setBit (window q) (seq - highContiguous q - 1) |>))
    as [Hwf Hacc]; [done..|].
  split; [done|]. intros s. rewrite Hacc. unfold accounted. rsimpl.
  destruct (Z.leb_spec s (highContiguous q)), (Z.eqb_spec s seq) as [->|];
    rewrite ?orb_true_r, ?orb_false_r; try lia; try done;
    rewrite getBit_setBit by lia.
  - by rewrite Z.eqb_refl.
  - destruct (Z.eqb_spec (s - highContiguous q - 1) (seq - highContiguous q - 1)); [lia|done].
Qed.

Lemma recordCore_law rw q ooo seq :
  window_ok rw -> producer_wf rw q -> seq_ok seq ->
  let '(dup, o, q') := recordCore rw q ooo seq in
  dup = accounted q seq /\ o = ooo /\ producer_wf rw q' /\
  (forall s, accounted q' s = accounted q s || newly_accounted rw q seq s).
Proof.
  intros Hrw Hwf Hseq. pose proof (wf_hc _ _ (wf_pre _ _ Hwf)) as Hhc.
  unfold recordCore, newly_accounted, slides.
  destruct (Z.leb_spec seq (highContiguous q)) as [Hle|Hgt].
  - unfold window_ok, seq_ok in *. rewrite (proj2 (Z.ltb_ge _ _)) by lia.
    assert (accounted q seq = bool_decide (seq ∉ pendingLost q)) as Hs.
    { unfold accounted. by rewrite (proj2 (Z.leb_le _ _)) by lia. }
    destruct (decide (seq ∈ pendingLost q)) as [Hin|Hin];
      [rewrite (bool_decide_true (seq ∈ _)) by done
      |rewrite (bool_decide_false (seq ∈ _)) by done].
    + destruct (recover_law rw q seq) as [? ?]; [done|lia|done|].
      rewrite Hs, bool_decide_false by tauto. done.
    + rewrite Hs, bool_decide_true by done.
      split; [done|]. split; [done|]. split; [by apply (producer_wf_ext rw q)|]. intros s. destruct (Z.eqb_spec s seq) as [->|]; [|by rewrite orb_false_r].
      rewrite orb_true_r. change (accounted q seq = true). rewrite Hs. by apply bool_decide_true.
  - assert (accounted q seq = getBit (window q) (seq - highContiguous q - 1)) as Hs.
    { unfold accounted. by rewrite (proj2 (Z.leb_gt _ _)) by lia. }
    cbv zeta. pose proof Hrw as Hrw'. pose proof Hseq as Hseq'. unfold window_ok, seq_ok in *.
    rewrite (u64_wrap_id rw), (u64_wrap_id (_ - _ - 1)) by (unfold u64_ok; lia).
    rewrite i64_wrap_id by (unfold i64_ok; lia).
    destruct (_ >=? rw) eqn:Hoff; zify_bool.
    + destruct (slideWindow_spec rw q seq) as (? & Ha & _); [done|done|done|lia|].
      rewrite (proj2 (Z.ltb_lt _ _)) by lia. rewrite Hs.
      split; [|done].
      destruct (getBit _ _) eqn:Hb; [|done].
      apply (wf_bits _ _ (wf_pre _ _ Hwf)) in Hb. lia.
    + rewrite (proj2 (Z.ltb_ge _ _)) by lia. rewrite <- Hs.
      destruct (accounted q seq) eqn:Hd.
      * split; [done|]. split; [done|]. split; [by apply (producer_wf_ext rw q)|]. intros s.
        destruct (Z.eqb_spec s seq) as [->|]; [|by rewrite orb_false_r].
        by rewrite orb_true_r.
      * destruct (fresh_law rw q seq) as [? ?]; [done|done|done|lia|]. done.
Qed.

(** Everything one [recordKnown] does, in one law. *)
Lemma recordKnown_law rw ps seq :
  window_ok rw -> producer_wf rw ps -> seq_ok seq ->
  let '(dup, ooo, ps') := recordKnown rw ps seq in
  dup = accounted ps seq /\ ooo = (seq <? lastSeen ps) /\ producer_wf rw ps' /\
  (forall s, accounted ps' s = accounted ps s || newly_accounted rw ps seq s).
Proof.
  intros Hrw Hwf Hseq. rewrite recordKnown_core.
  destruct (stamped_same ps seq) as (Ehc & Ew & Ep & Ec & _).
  assert (producer_wf rw (stamped ps seq)) as Hwfq by (by apply (producer_wf_ext rw ps)).
  pose proof (accounted_ext ps (stamped ps seq) Ehc Ew Ep) as Hacc.
  pose proof (recordCore_law rw (stamped ps seq) (seq <? lastSeen ps) seq Hrw Hwfq Hseq) as Hlaw.
  destruct (recordCore _ _ _ _) as [[dup ooo] ps'].
  rewrite Hacc in Hlaw. destruct Hlaw as (? & ? & ? & Ha).
  split; [done|]. split; [done|]. split; [done|]. intros s. rewrite Ha, Hacc. unfold newly_accounted, slides. by rewrite Ehc.
Qed.

(** ** New producers *)

Lemma newProducer_law rw seq :
  window_ok rw -> seq_ok seq ->
  producer_wf rw (newProducer rw seq) /\
  (forall s, 0 <= s -> accounted (newProducer rw seq) s = (s <=? seq)).
Proof.
  intros Hrw Hseq. unfold window_ok, seq_ok in *.
  set (n := Z.to_nat (Z.quot (rw + 63) 64)).
  assert (rw <= Z.of_nat n * 64) as Hn.
  { unfold n. rewrite Z.quot_div_nonneg by lia.
    pose proof (Z.div_mod (rw + 63) 64). pose proof (Z.mod_pos_bound (rw + 63) 64). lia. }
  assert (forall q, getBit (setBit (replicate n 0) 0) q = (q =? 0)) as Hbits.
  { intros q. rewrite getBit_setBit, getBit_zeros, orb_false_r; [done|].
    rewrite length_replicate. lia. }
  assert (Forall u64_ok (setBit (replicate n 0) 0)) as Hw.
  { apply setBit_u64, Forall_replicate. unfold u64_ok. lia. }
  unfold newProducer. fold n.
  match goal with |- context [advanceContiguous ?p] => set (ps := p) end.
  destruct (advanceContiguous_spec ps) as (k & Heq & Hset & Hk);
    [exact Hw|apply u64_wrap_ok|].
  change (window ps) with (setBit (replicate n 0) 0) in *. rewrite Hbits in Hk.
  assert (k = 1%nat) as ->.
  { destruct k as [|[|k]]; [done|done|]. specialize (Hset 1). rewrite Hbits in Hset.
    discriminate Hset. lia. }
  rewrite Heq. change (highContiguous ps) with (seq -u 1).
  rewrite u64_wrap_add_l. replace (u64_wrap (seq - 1 + Z.of_nat 1)) with seq
    by (rewrite u64_wrap_id; unfold u64_ok; lia).
  assert (forall q, getBit (Nat.iter 1 shiftLeft (setBit (replicate n 0) 0)) q = false) as H0.
  { intros q. destruct (Z.ltb_spec q 0); [by apply getBit_neg|].
    rewrite getBit_shiftN, Hbits by (done || lia). apply Z.eqb_neq. lia. }
  split; [split; [split|..]|]; rsimpl.
  - rewrite length_shiftLeft, length_setBit. apply length_replicate.
  - by apply shiftLeft_u64.
  - unfold seq_ok. lia.
  - intros p Hp. exfalso. by rewrite (H0 p) in Hp.
  - intros s Hs. by apply not_elem_of_empty in Hs.
  - apply (H0 0).
  - done.
  - intros s Hs. unfold accounted. rsimpl.
    destruct (Z.leb_spec s seq); [by apply bool_decide_true|]. apply (H0 (_ - _ - 1)).
Qed.

(** ** Histories of tracker operations *)

Inductive tracker_op :=
  | OpRecord (pid : string) (seq : Z)
  | OpDetectGaps
  | OpReset.

Definition op_ok (op : tracker_op) : Prop :=
  match op with OpRecord _ seq => seq_ok seq | _ => True end.

Definition apply_op (t : Tracker) (op : tracker_op) : Tracker :=
  match op with
  | OpRecord pid seq => snd (Record_ t pid seq)
  | OpDetectGaps => snd (DetectGaps t)
  | OpReset => Reset t
  end.

Lemma Record_wf t pid seq :
  tracker_wf t -> seq_ok seq -> tracker_wf (snd (Record_ t pid seq)).
Proof.
  intros [Hrw Hps] Hseq. unfold Record_. destruct (producers t !! pid) as [ps|] eqn:E.
  - pose proof (recordKnown_law (reorderWindow t) ps seq Hrw (Hps _ _ E) Hseq) as Hlaw.
    destruct (recordKnown _ _ _) as [[dup ooo] ps']. split; [done|]. rsimpl.
    apply map_Forall_insert_2; [tauto|done].
  - split; [done|]. rsimpl. apply map_Forall_insert_2; [|done].
    by apply newProducer_law.
Qed.

Lemma apply_op_wf t op : tracker_wf t -> op_ok op -> tracker_wf (apply_op t op).
Proof.
  intros Hwf Hok. destruct op; simpl.
  - by apply Record_wf.
  - destruct Hwf as [Hrw Hps]. split; [done|]. rsimpl. apply map_Forall_fmap.
    eapply map_Forall_impl; [exact Hps|]. intros i ps Hp.
    by apply (producer_wf_ext _ ps).
  - destruct Hwf as [Hrw Hps]. split; [done|]. apply map_Forall_empty.
Qed.

Lemma New_wf rw : window_ok rw -> tracker_wf (New rw).
Proof. intros Hrw. split; [done|]. apply map_Forall_empty. Qed.

Lemma apply_ops_wf ops t :
  tracker_wf t -> Forall op_ok ops -> tracker_wf (foldl apply_op t ops).
Proof.
  intros Hwf Hops. revert t Hwf. induction Hops as [|op ops Hop Hops IH]; intros t Hwf; [done|].
  simpl. apply IH. by apply apply_op_wf.
Qed.

(** ** What each operation does to the counters *)

Lemma advance_loop_counters fuel ps :
  let q := advance_loop fuel ps in
  received q = received ps /\ duplicates q = duplicates ps /\ outOfOrder q = outOfOrder ps /\
  pendingLost q = pendingLost ps /\ lastReportedLost q = lastReportedLost ps.
Proof.
  revert ps. induction fuel as [|fuel IH]; intros ps; [done|].
  cbn [advance_loop]. destruct (getBit _ _); [|done].
  exact (IH (ps <| highContiguous ::= inc |> <| window ::= shiftLeft |>)).
Qed.

Lemma slideWindow_counters rw ps seq :
  let q := slideWindow rw ps seq in
  received q = received ps /\ duplicates q = duplicates ps /\ outOfOrder q = outOfOrder ps /\
  lastReportedLost q = lastReportedLost ps.
Proof.
  unfold slideWindow. cbv zeta. destruct (_ <=? _); [destruct (_ <? rw); done|].
  match goal with |- context [advanceContiguous ?p] =>
    destruct (advance_loop_counters (length (window p) * 64) p) as (H1 & H2 & H3 & _ & H5) end.
  unfold advanceContiguous. rewrite H1, H2, H3, H5.
  destruct (_ <? rw); done.
Qed.

(** [received] counts every arrival, [duplicates] the ones answered with
    [isDuplicate]; inside the window no loss becomes suspected. *)
Lemma recordKnown_counters rw ps seq :
  let '(dup, ooo, q) := recordKnown rw ps seq in
  received q = inc (received ps) /\
  duplicates q = (if dup then inc (duplicates ps) else duplicates ps) /\
  outOfOrder q = (if ooo then inc (outOfOrder ps) else outOfOrder ps) /\
  lastReportedLost q = lastReportedLost ps.
Proof.
  rewrite recordKnown_core.
  destruct (stamped_same ps seq) as (_ & _ & _ & _ & Ed & El & Er & _ & Eo).
  rewrite <- Er, <- Ed, <- El. unfold recordCore. cbv zeta.
  destruct (seq <=? _); [destruct (bool_decide _)|
    destruct (_ >=? _); [|destruct (getBit _ _)]];
    try (rewrite <- Eo; repeat split; done).
  - destruct (slideWindow_counters rw (stamped ps seq) seq) as (-> & -> & -> & ->).
    by rewrite <- Eo.
  - unfold advanceContiguous.
    match goal with |- context [advance_loop ?n ?p] =>
      destruct (advance_loop_counters n p) as (-> & -> & -> & _ & ->) end.
    by rewrite <- Eo.
Qed.

Lemma recordKnown_pending rw ps seq :
  window_ok rw -> producer_wf rw ps -> seq_ok seq -> slides rw ps seq = false ->
  pendingLost (recordState rw ps seq) ⊆ pendingLost ps.
Proof.
  unfold slides, window_ok, seq_ok. intros Hrw Hwf Hseq Hns. zify_bool.
  pose proof (wf_hc _ _ (wf_pre _ _ Hwf)) as Hhc. unfold seq_ok in Hhc.
  unfold recordState. rewrite recordKnown_core.
  destruct (stamped_same ps seq) as (Ehc & _ & Ep & _). rewrite <- Ep.
  unfold recordCore. cbv zeta. rewrite Ehc.
  destruct (Z.leb_spec seq (highContiguous ps)).
  - destruct (bool_decide _); simpl; [set_solver|done].
  - rewrite (u64_wrap_id rw), (u64_wrap_id (_ - _ - 1)) by (unfold u64_ok; lia).
    destruct (_ >=? rw) eqn:E; zify_bool; [lia|].
    destruct (getBit _ _); [done|]. simpl. unfold advanceContiguous.
    match goal with |- context [advance_loop ?n ?p] =>
      destruct (advance_loop_counters n p) as (_ & _ & _ & -> & _) end. done.
Qed.

(** ** Streams that stay inside the window *)

Fixpoint in_window (rw : Z) (ps : producerState) (l : list Z) : Prop :=
  match l with
  | [] => True
  | s :: l => slides rw ps s = false /\ in_window rw (recordState rw ps s) l
  end.

#[export] Instance in_window_dec rw l : forall ps, Decision (in_window rw ps l).
Proof. induction l; intros ps; simpl; apply _. Defined.

(** What a stream means, without windows: the sequences accepted so far and
    the number of repetitions. *)
Record stream_spec (first : Z) (D : gset Z) (n d : Z) (ps : producerState) : Prop := {
  ss_acc : forall s, 0 <= s -> accounted ps s = (s <? first) || bool_decide (s ∈ D);
  ss_pending : pendingLost ps = ∅;
  ss_received : received ps = u64_wrap n;
  ss_duplicates : duplicates ps = u64_wrap d
}.

(** The sequences a delivery list adds when the tracker met [first] first: what
    lies below [first] is taken for already delivered. *)
Definition delivered_from (first : Z) (l : list Z) : gset Z :=
  list_to_set (filter (fun s => first <= s) l).

Lemma delivered_from_cons first s l :
  delivered_from first (s :: l) =
    (if decide (first <= s) then {[ s ]} ∪ delivered_from first l else delivered_from first l).
Proof. unfold delivered_from. rewrite filter_cons. by destruct (decide _). Qed.

Lemma elem_of_delivered_from first l s :
  s ∈ delivered_from first l <-> first <= s /\ s ∈ l.
Proof. unfold delivered_from. by rewrite elem_of_list_to_set, list_elem_of_filter. Qed.

Lemma stream_step rw first D n d ps s :
  window_ok rw -> producer_wf rw ps -> seq_ok s -> slides rw ps s = false ->
  stream_spec first D n d ps ->
  producer_wf rw (recordState rw ps s) /\
  stream_spec first (if decide (first <= s) then {[ s ]} ∪ D else D) (n + 1)
    (if (s <? first) || bool_decide (s ∈ D) then d + 1 else d)
    (recordState rw ps s).
Proof.
  intros Hrw Hwf Hs Hns [Ha Hp Hr Hd].
  pose proof (recordKnown_pending rw ps s Hrw Hwf Hs Hns) as Hpend.
  pose proof (recordKnown_law rw ps s Hrw Hwf Hs) as Hlaw.
  pose proof (recordKnown_counters rw ps s) as Hcnt. unfold recordState in *.
  destruct (recordKnown rw ps s) as [[dup ooo] q]. simpl in *.
  destruct Hlaw as (-> & _ & Hwf' & Ha'). destruct Hcnt as (Hr' & Hd' & _).
  unfold newly_accounted in Ha'. rewrite Hns in Ha'. unfold seq_ok in Hs.
  split; [done|]. split.
  - intros x Hx. rewrite Ha', Ha by lia. destruct (decide (first <= s)) as [Hf|Hf].
    + rewrite <- orb_assoc. f_equal.
      destruct (Z.eqb_spec x s) as [->|]; rewrite ?orb_true_r, ?orb_false_r.
      * symmetry. apply bool_decide_true. set_solver.
      * apply bool_decide_ext. set_solver.
    + destruct (Z.eqb_spec x s) as [->|]; rewrite ?orb_false_r; [|done].
      by rewrite (proj2 (Z.ltb_lt _ _)) by lia.
  - rewrite Hp in Hpend. set_solver.
  - rewrite Hr', Hr. unfold inc. apply u64_wrap_add_l.
  - rewrite Hd', Ha, Hd by lia.
    destruct (_ || _); [|done]. unfold inc. apply u64_wrap_add_l.
Qed.

Lemma stream_run rw first l : forall D n d ps,
  window_ok rw -> producer_wf rw ps -> Forall seq_ok l ->
  in_window rw ps l -> stream_spec first D n d ps ->
  Z.of_nat (size D) = n - d ->
  exists d',
  stream_spec first (delivered_from first l ∪ D) (n + Z.of_nat (length l)) d'
    (foldl (recordState rw) ps l) /\
  Z.of_nat (size (delivered_from first l ∪ D)) = n + Z.of_nat (length l) - d'.
Proof.
  induction l as [|s l IH]; intros D n d ps Hrw Hwf Hl Hin Hss Hsz.
  { exists d. unfold delivered_from. simpl. rewrite union_empty_l_L, Z.add_0_r. done. }
  apply Forall_cons in Hl as [Hs Hl]. destruct Hin as [Hns Hin].
  destruct (stream_step rw first D n d ps s) as [Hwf' Hss']; try done.
  destruct (IH _ _ _ _ Hrw Hwf' Hl Hin Hss') as (d' & Hend & Hsz').
  { destruct (decide (first <= s)) as [Hf|Hf].
    - rewrite (proj2 (Z.ltb_ge _ _)) by lia. simpl. destruct (bool_decide_reflect (s ∈ D)).
      + replace ({[ s ]} ∪ D) with D by set_solver. lia.
      + rewrite size_union, size_singleton by set_solver. lia.
    - rewrite (proj2 (Z.ltb_lt _ _)) by lia. simpl. lia. }
  exists d'. rewrite delivered_from_cons. cbn [length foldl].
  replace (n + Z.of_nat (S (length l))) with (n + 1 + Z.of_nat (length l)) by lia.
  destruct (decide (first <= s)); [|done].
  replace ({[ s ]} ∪ delivered_from first l ∪ D)
    with (delivered_from first l ∪ ({[ s ]} ∪ D)) by set_solver. done.
Qed.

Lemma recordAll_lookup rw pid l : forall t ps,
  reorderWindow t = rw -> producers t !! pid = Some ps ->
  producers (recordAll t pid l) !! pid = Some (foldl (recordState rw) ps l).
Proof.
  induction l as [|s l IH]; intros t ps Hrw Hps; [done|].
  simpl. apply IH; unfold Record_; rewrite Hps, Hrw; unfold recordState;
    destruct (recordKnown _ _ _) as [[dup ooo] q]; simpl; [done|].
  apply lookup_insert_eq.
Qed.

Lemma recordAll_first t pid first l :
  recordAll t pid (first :: l) = recordAll (snd (Record_ t pid first)) pid l.
Proof. done. Qed.

Lemma recordState_wf rw ps s :
  window_ok rw -> producer_wf rw ps -> seq_ok s -> producer_wf rw (recordState rw ps s).
Proof.
  intros Hrw Hwf Hs. pose proof (recordKnown_law rw ps s Hrw Hwf Hs) as Hlaw.
  unfold recordState. destruct (recordKnown _ _ _) as [[? ?] ?]. tauto.
Qed.

Lemma recordStates_wf rw l : forall ps,
  window_ok rw -> producer_wf rw ps -> Forall seq_ok l ->
  producer_wf rw (foldl (recordState rw) ps l).
Proof.
  induction l as [|s l IH]; intros ps Hrw Hwf Hl; [done|].
  apply Forall_cons in Hl as [? ?]. apply IH; auto using recordState_wf.
Qed.

Lemma newProducer_stream rw first :
  window_ok rw -> seq_ok first ->
  stream_spec first {[ first ]} 1 0 (newProducer rw first).
Proof.
  intros Hrw Hf. destruct (newProducer_law rw first Hrw Hf) as [_ Hacc].
  unfold newProducer, advanceContiguous in *.
  match goal with |- context [advance_loop ?n ?p] =>
    destruct (advance_loop_counters n p) as (Er & Ed & _ & Ep & _) end.
  split; rewrite ?Er, ?Ed, ?Ep; try done.
  intros s Hs. rewrite Hacc by done.
  destruct (decide (s = first)) as [->|Hne].
  - rewrite (proj2 (Z.leb_le _ _)), bool_decide_true, orb_true_r by (set_solver || lia). done.
  - rewrite bool_decide_false, orb_false_r by set_solver.
    destruct (Z.leb_spec s first), (Z.ltb_spec s first); lia || done.
Qed.

(** A sequence at least a window past the watermark has not been accounted for. *)
Lemma slides_unaccounted rw ps seq :
  window_ok rw -> producer_wf rw ps -> slides rw ps seq = true -> accounted ps seq = false.
Proof.
  unfold slides, accounted, window_ok. intros Hrw Hwf Hsl. zify_bool.
  rewrite (proj2 (Z.leb_gt _ _)) by lia. destruct (getBit _ _) eqn:Hb; [|done].
  apply (wf_bits _ _ (wf_pre _ _ Hwf)) in Hb. lia.
Qed.

(** ** Properties *)

(** C1: [Record_] answers a known producer exactly: [isDuplicate] holds iff the
    sequence is already accounted for, whether it lies below the watermark,
    inside the window or past it, and [isOutOfOrder] iff it is smaller than the
    previously recorded one. *)
Theorem Record_answers t pid ps seq :
  tracker_wf t -> seq_ok seq -> producers t !! pid = Some ps ->
  fst (Record_ t pid seq) = (accounted ps seq, seq <? lastSeen ps).
Proof.
  intros [Hrw Hps] Hseq E. unfold Record_. rewrite E.
  pose proof (recordKnown_law (reorderWindow t) ps seq Hrw (Hps _ _ E) Hseq) as Hlaw.
  destruct (recordKnown _ _ _) as [[dup ooo] q]. by destruct Hlaw as (-> & -> & _).
Qed.

(** C2: [Record_] touches its own producer only, and for that producer the set
    of accounted sequences grows by exactly [newly_accounted]: the sequence
    itself when it falls inside the window. *)
Theorem Record_accounts t pid ps seq :
  tracker_wf t -> seq_ok seq -> producers t !! pid = Some ps ->
  exists ps',
    producers (snd (Record_ t pid seq)) = <[ pid := ps' ]> (producers t) /\
    (forall s, accounted ps' s =
               accounted ps s || newly_accounted (reorderWindow t) ps seq s).
Proof.
  intros [Hrw Hps] Hseq E. unfold Record_. rewrite E.
  pose proof (recordKnown_law (reorderWindow t) ps seq Hrw (Hps _ _ E) Hseq) as Hlaw.
  destruct (recordKnown _ _ _) as [[dup ooo] q]. exists q. by destruct Hlaw as (_ & _ & _ & ?).
Qed.

(** C3: the invariant holds along every history of Record, DetectGaps and Reset
    calls: window of the configured size, no bit at or past [reorderWindow], an
    unset lowest bit (so [advanceContiguous] has run to its end), pending
    sequences at or below the watermark, and [confirmedLost] equal to the number
    of pending sequences. *)
Theorem tracker_invariant rw ops :
  window_ok rw -> Forall op_ok ops -> tracker_wf (foldl apply_op (New rw) ops).
Proof.
  intros Hrw Hops. apply apply_ops_wf; [by apply New_wf|done].
Qed.

(** A stream inside the window, run from a fresh tracker. *)
Lemma in_window_run rw pid first l :
  window_ok rw -> seq_ok first -> Forall seq_ok l ->
  in_window rw (newProducer rw first) l ->
  exists ps,
    producers (recordAll (New rw) pid (first :: l)) !! pid = Some ps /\
    received ps = u64_wrap (Z.of_nat (length (first :: l))) /\
    duplicates ps =
      u64_wrap (Z.of_nat (length (first :: l)) -
                Z.of_nat (size (delivered_from first (first :: l)))) /\
    confirmedLost ps = 0 /\
    (forall s, 0 <= s -> accounted ps s = (s <? first) || bool_decide (s ∈ first :: l)).
Proof.
  intros Hrw Hf Hl Hin.
  destruct (newProducer_law rw first Hrw Hf) as [Hwf _].
  destruct (stream_run rw first l {[ first ]} 1 0 (newProducer rw first) Hrw Hwf Hl Hin)
    as (d & [Ha Hp Hr Hd] & Hsz).
  { by apply newProducer_stream. }
  { by rewrite size_singleton. }
  exists (foldl (recordState rw) (newProducer rw first) l).
  rewrite recordAll_first. split.
  { apply recordAll_lookup; [done|]. apply lookup_insert_eq. }
  rewrite delivered_from_cons, decide_True, (union_comm_L {[ first ]}) by lia.
  rewrite Hr, Hd, Hsz. cbn [length].
  split; [f_equal; lia|]. split; [f_equal; lia|]. split.
  - rewrite (wf_lost rw) by (by apply recordStates_wf). by rewrite Hp, size_empty.
  - intros s Hs. rewrite Ha by done. destruct (Z.ltb_spec s first); [done|].
    cbn [orb]. apply bool_decide_ext.
    rewrite elem_of_union, elem_of_delivered_from, elem_of_singleton, elem_of_cons. tauto.
Qed.

(** C4: exactness inside the window.  On a stream whose arrivals never lie
    [reorderWindow] or more past the watermark, in any order and with any
    repetition, the tracker reports no loss and accounts for exactly the
    delivered sequences and those below the first arrival, which it takes for
    already delivered.  The duplicates it counts are exactly the repetitions
    and the arrivals below the first one: all arrivals less the distinct
    sequences delivered at or above the first. *)
Theorem in_window_exact rw pid first l :
  window_ok rw -> seq_ok first -> Forall seq_ok l ->
  in_window rw (newProducer rw first) l ->
  exists ps,
    producers (recordAll (New rw) pid (first :: l)) !! pid = Some ps /\
    received ps = u64_wrap (Z.of_nat (length (first :: l))) /\
    duplicates ps =
      u64_wrap (Z.of_nat (length (first :: l)) -
                Z.of_nat (size (delivered_from first (first :: l)))) /\
    confirmedLost ps = 0 /\
    (forall s, 0 <= s -> accounted ps s = (s <? first) || bool_decide (s ∈ first :: l)).
Proof. apply in_window_run. Qed.

(** The arrival that slides the window is itself dropped.  Whenever a
    sequence lies [reorderWindow] or more past the watermark, [Record_] answers
    "not a duplicate" and leaves that very sequence unaccounted: a redelivery of
    it is again no duplicate, and once the window moves on it is reported lost
    although it was received. *)
Theorem slide_drops_trigger t pid ps seq :
  tracker_wf t -> seq_ok seq -> producers t !! pid = Some ps ->
  slides (reorderWindow t) ps seq = true ->
  exists ps',
    producers (snd (Record_ t pid seq)) !! pid = Some ps' /\
    fst (fst (Record_ t pid seq)) = false /\
    accounted ps' seq = false.
Proof.
  intros [Hrw Hps] Hseq E Hsl. unfold Record_. rewrite E. pose proof (Hps _ _ E) as Hwf.
  pose proof (recordKnown_law (reorderWindow t) ps seq Hrw Hwf Hseq) as Hlaw.
  destruct (recordKnown _ _ _) as [[dup ooo] q]. destruct Hlaw as (-> & _ & _ & Ha).
  exists q. split; [apply lookup_insert_eq|]. simpl.
  assert (accounted ps seq = false) as Hn by (by apply (slides_unaccounted _ _ _ Hrw Hwf)).
  split; [done|]. rewrite Ha, Hn. unfold newly_accounted. rewrite Hsl.
  unfold window_ok in Hrw. rewrite (proj2 (Z.leb_gt seq _)) by lia. apply andb_false_r.
Qed.

(** A jump of more than twice the window hides losses.  The sequences
    between the evicted window and the new watermark become accounted for
    without having been received, so they are never reported lost and a late
    delivery of one of them is answered "duplicate". *)
Theorem jump_hides_losses t pid ps seq s :
  tracker_wf t -> seq_ok seq -> producers t !! pid = Some ps ->
  highContiguous ps + reorderWindow t < s <= seq - reorderWindow t - 1 ->
  accounted ps s = false /\
  let t' := snd (Record_ t pid seq) in
  exists ps',
    producers t' !! pid = Some ps' /\ s ∉ pendingLost ps' /\
    fst (fst (Record_ t' pid s)) = true.
Proof.
  intros [Hrw Hps] Hseq E Hs. pose proof (Hps _ _ E) as Hwf.
  pose proof (wf_hc _ _ (wf_pre _ _ Hwf)) as Hhc. unfold window_ok, seq_ok in *.
  split.
  { apply (slides_unaccounted (reorderWindow t)); [done|done|]. apply Z.ltb_lt. lia. }
  pose proof (Record_wf t pid seq (conj Hrw Hps) Hseq) as [_ Hps'].
  pose proof (recordKnown_law (reorderWindow t) ps seq Hrw Hwf Hseq) as Hlaw.
  assert (accounted (recordState (reorderWindow t) ps seq) s = true) as Hacc.
  { unfold recordState. destruct (recordKnown _ _ _) as [[dup ooo] q].
    destruct Hlaw as (_ & _ & _ & Ha). simpl. rewrite Ha. unfold newly_accounted, slides.
    rewrite (proj2 (Z.ltb_lt _ seq)), (proj2 (Z.ltb_lt _ s)), (proj2 (Z.leb_le _ _)) by lia.
    apply orb_true_r. }
  assert (producers (snd (Record_ t pid seq)) !! pid
          = Some (recordState (reorderWindow t) ps seq)) as E'.
  { unfold Record_, recordState. rewrite E. destruct (recordKnown _ _ _) as [[? ?] ?].
    apply lookup_insert_eq. }
  assert (reorderWindow (snd (Record_ t pid seq)) = reorderWindow t) as Erw.
  { unfold Record_. rewrite E. by destruct (recordKnown _ _ _) as [[? ?] ?]. }
  exists (recordState (reorderWindow t) ps seq). split; [done|].
  specialize (Hps' _ _ E'). rewrite Erw in Hps'. split.
  - intros Hin. pose proof (wf_pending _ _ (wf_pre _ _ Hps') s Hin).
    unfold accounted in Hacc. rewrite (proj2 (Z.leb_le _ _)) in Hacc by lia.
    apply bool_decide_eq_true in Hacc. tauto.
  - unfold Record_ at 1. rewrite E', Erw.
    pose proof (recordKnown_law (reorderWindow t) _ s Hrw Hps') as Hlaw'.
    unfold seq_ok in Hlaw'. specialize (Hlaw' ltac:(lia)).
    destruct (recordKnown _ _ s) as [[dup ooo] q]. destruct Hlaw' as (-> & _). done.
Qed.

(** ** Witnesses *)

Definition producer_of (t : Tracker) (pid : string) : producerState :=
  default (newProducer 0 0) (producers t !! pid).

Lemma producer_of_some t pid :
  bool_decide (is_Some (producers t !! pid)) = true ->
  producers t !! pid = Some (producer_of t pid).
Proof. intros [ps E]%bool_decide_eq_true. unfold producer_of. by rewrite E. Qed.

Definition demo_ops : list tracker_op :=
  [OpRecord "p" 5; OpRecord "p" 6; OpRecord "p" 8; OpDetectGaps].
Definition demo : Tracker := foldl apply_op (New 100) demo_ops.

Lemma demo_window : window_ok 100.
Proof. done. Qed.
Lemma demo_ops_ok : Forall op_ok demo_ops.
Proof. by repeat constructor. Qed.
Lemma demo_wf : tracker_wf demo.
Proof. apply apply_ops_wf; [by apply New_wf|apply demo_ops_ok]. Qed.
Lemma demo_p : producers demo !! "p" = Some (producer_of demo "p").
Proof. apply producer_of_some. by vm_compute. Qed.

Lemma Record_answers_witness :
  fst (Record_ demo "p" 8) = (true, false) /\
  fst (Record_ demo "p" 8) =
    (accounted (producer_of demo "p") 8, 8 <? lastSeen (producer_of demo "p")).
Proof.
  split; [by vm_compute|].
  exact (Record_answers demo "p" _ 8 demo_wf ltac:(done) demo_p).
Defined.

Lemma Record_accounts_witness :
  exists ps',
    producers (snd (Record_ demo "p" 7)) = <[ "p" := ps' ]> (producers demo) /\
    (forall s, accounted ps' s =
       accounted (producer_of demo "p") s ||
       newly_accounted (reorderWindow demo) (producer_of demo "p") 7 s).
Proof. exact (Record_accounts demo "p" _ 7 demo_wf ltac:(done) demo_p). Defined.

Lemma tracker_invariant_witness : tracker_wf (foldl apply_op (New 100) demo_ops).
Proof. exact (tracker_invariant 100 demo_ops demo_window demo_ops_ok). Defined.

Lemma in_window_exact_witness :
  exists ps,
    producers (recordAll (New 100) "p" [2; 4; 3; 4; 1; 60]) !! "p" = Some ps /\
    received ps = 6 /\ duplicates ps = 2 /\ confirmedLost ps = 0 /\
    accounted ps 3 = true /\ accounted ps 5 = false.
Proof.
  destruct (in_window_exact 100 "p" 2 [4; 3; 4; 1; 60]) as (ps & E & Hr & Hd & Hl & Ha).
  - done.
  - done.
  - by repeat constructor.
  - apply (bool_decide_unpack _). vm_compute. exact I.
  - exists ps. rewrite Hr, Hd, Hl, !Ha by done.
    split; [exact E|]. do 4 (split; [vm_compute; reflexivity|]). vm_compute; reflexivity.
Defined.

Lemma slide_drops_trigger_witness :
  exists ps', producers (snd (Record_ demo "p" 200)) !! "p" = Some ps' /\
    fst (fst (Record_ demo "p" 200)) = false /\ accounted ps' 200 = false.
Proof.
  exact (slide_drops_trigger demo "p" _ 200 demo_wf ltac:(done) demo_p
           ltac:(by vm_compute)).
Defined.

Lemma jump_hides_losses_witness :
  exists ps', producers (snd (Record_ demo "p" 400)) !! "p" = Some ps' /\
    250 ∉ pendingLost ps' /\
    fst (fst (Record_ (snd (Record_ demo "p" 400)) "p" 250)) = true.
Proof.
  exact (proj2 (jump_hides_losses demo "p" _ 400 250 demo_wf ltac:(done) demo_p
    ltac:(vm_compute; split; [reflexivity|discriminate]))).
Defined.
