(* ===== verification/TrackerRef.v ===== *)
(** * The tracker against a reference on sets

    The reference keeps no bit window: it keeps the set of sequences taken in so
    far, the watermark and the set of suspected losses, and is run on the arrivals
    of one producer since the last Reset.  The theorems say that the tracker of
    tracker.go tells of every producer what the reference tells (watermark,
    suspected losses, counters), and that DetectGaps streams exactly the growth
    of the reference's loss from one call to the next. *)

From S2P Require Import Prelude Tracker TrackerFacts.
Import Bitset Track.

(** ** The reference *)

Record ideal := mk_ideal {
  i_high : Z;           (* everything at or below it is settled *)
  i_taken : gset Z;     (* the sequences taken in from above the watermark *)
  i_lost : gset Z;      (* suspected losses *)
  i_received : Z; i_duplicates : Z; i_outOfOrder : Z;
  i_last : Z            (* the previous arrival *)
}.

(** The end of the run of taken sequences that starts right above [h]. *)
Fixpoint climb_loop (fuel : nat) (taken : gset Z) (h : Z) : Z :=
  match fuel with
  | O => h
  | S fuel => if decide (h + 1 ∈ taken) then climb_loop fuel taken (h + 1) else h
  end.

Definition climb (taken : gset Z) (h : Z) : Z := climb_loop (size taken) taken h.

(** The sequences of (lo, hi] that never came. *)
Definition missing (taken : gset Z) (lo hi : Z) : gset Z :=
  list_to_set (filter (fun x => x ∉ taken) (seqZ (lo + 1) (hi - lo))).

Definition ideal_start (seq : Z) : ideal := mk_ideal seq ∅ ∅ 1 0 0 seq.

(** What an arrival does to the watermark, the taken sequences and the losses.
    At or below the watermark it recovers a suspected loss.  Up to [rw] above, it
    is taken and the watermark climbs.  Beyond, the watermark jumps to [rw + 1]
    before it, and what is missing of the first [rw] sequences jumped over is
    suspected lost; the arrival itself is not taken. *)
Definition ideal_window (rw : Z) (i : ideal) (seq : Z) : Z * gset Z * gset Z :=
  let h := i_high i in
  if decide (seq <= h) then (h, i_taken i, i_lost i ∖ {[ seq ]})
  else if decide (seq <= h + rw)
  then let taken := {[ seq ]} ∪ i_taken i in (climb taken h, taken, i_lost i)
  else let skip := seq - rw - 1 in
       (climb (i_taken i) skip, i_taken i,
        i_lost i ∪ missing (i_taken i) h (Z.min skip (h + rw))).

Definition ideal_dup (i : ideal) (seq : Z) : bool :=
  if decide (seq <= i_high i) then bool_decide (seq ∉ i_lost i)
  else bool_decide (seq ∈ i_taken i).

Definition ideal_step (rw : Z) (i : ideal) (seq : Z) : ideal :=
  let '(high, taken, lost) := ideal_window rw i seq in
  mk_ideal high taken lost (i_received i + 1)
    (if ideal_dup i seq then i_duplicates i + 1 else i_duplicates i)
    (if decide (seq < i_last i) then i_outOfOrder i + 1 else i_outOfOrder i) seq.

Definition ideal_run (rw : Z) (arrivals : list Z) : option ideal :=
  match arrivals with
  | [] => None
  | first :: rest => Some (foldl (ideal_step rw) (ideal_start first) rest)
  end.

(** What a producer sent since the last Reset. *)
Definition arrival (pid : string) (l : list Z) (op : tracker_op) : list Z :=
  match op with
  | OpRecord p seq => if decide (p = pid) then l ++ [seq] else l
  | OpDetectGaps => l
  | OpReset => []
  end.

Definition arrivals (pid : string) (ops : list tracker_op) : list Z := foldl (arrival pid) [] ops.

(** The numbers Stats gives out, on uint64. *)
Definition ideal_stats (i : ideal) : ProducerStats :=
  mk_ProducerStats (u64_wrap (i_received i)) (u64_wrap (i_duplicates i))
    (u64_wrap (i_outOfOrder i)) (Z.of_nat (size (i_lost i))).

(** ** The reference on its own *)

Lemma climb_loop_spec taken fuel : forall h : Z,
  (size (filter (fun x => (h < x)%Z) taken) <= fuel)%nat ->
  let c := climb_loop fuel taken h in
  h <= c /\ (forall x, h < x <= c -> x ∈ taken) /\ c + 1 ∉ taken.
Proof.
  induction fuel as [|fuel IH]; intros h Hsz; cbn.
  - split; [lia|]. split; [lia|]. intros Hin.
    apply Nat.le_0_r, size_empty_inv in Hsz. destruct (Hsz (h + 1)) as [Hsz' _].
    apply not_elem_of_empty in Hsz'; [done|]. apply elem_of_filter. split; [lia|done].
  - destruct (decide (h + 1 ∈ taken)) as [Hin|Hin]; [|split; [lia|split; [lia|done]]].
    destruct (IH (h + 1)) as (H1 & H2 & H3).
    { assert (filter (fun x => h + 1 < x) taken ⊂ filter (fun x => h < x) taken) as Hsub.
      { split.
        - intros x. rewrite !elem_of_filter. intros [? ?]. split; [lia|done].
        - intros Hs. specialize (Hs (h + 1)). rewrite !elem_of_filter in Hs.
          destruct Hs; [split; [lia|done]|lia]. }
      apply subset_size in Hsub. lia. }
    split; [lia|]. split; [|done]. intros x Hx.
    destruct (decide (x = h + 1)) as [->|]; [done|]. apply H2. lia.
Qed.

Lemma climb_spec taken h :
  h <= climb taken h /\ (forall x, h < x <= climb taken h -> x ∈ taken) /\
  climb taken h + 1 ∉ taken.
Proof. apply climb_loop_spec, subseteq_size. intros x. rewrite elem_of_filter. tauto. Qed.

(** The climb is the only place where a run that starts above [h] can end. *)
Lemma climb_unique taken h c :
  h <= c -> (forall x, h < x <= c -> x ∈ taken) -> c + 1 ∉ taken -> c = climb taken h.
Proof.
  intros H1 H2 H3. destruct (climb_spec taken h) as (K1 & K2 & K3).
  destruct (Z.lt_trichotomy c (climb taken h)) as [Hlt|[?|Hlt]]; [|done|].
  - destruct H3. apply K2. lia.
  - destruct K3. apply H2. lia.
Qed.

Lemma elem_of_missing taken lo hi x : x ∈ missing taken lo hi <-> lo < x <= hi /\ x ∉ taken.
Proof.
  unfold missing. rewrite elem_of_list_to_set, list_elem_of_filter, elem_of_seqZ.
  split; intros [? ?]; split; done || lia.
Qed.

(** ** Where one arrival leaves the watermark *)

Definition base_of (rw : Z) (ps : producerState) (seq : Z) : Z :=
  if slides rw ps seq then seq - rw - 1 else highContiguous ps.

Lemma pending_unaccounted rw ps s :
  producer_wf rw ps -> s ∈ pendingLost ps <-> 0 <= s <= highContiguous ps /\ accounted ps s = false.
Proof.
  intros Hwf. unfold accounted. split.
  - intros Hs. pose proof (wf_pending _ _ (wf_pre _ _ Hwf) s Hs).
    rewrite (proj2 (Z.leb_le _ _)) by lia. split; [lia|apply bool_decide_false; tauto].
  - intros [Hr Hacc]. rewrite (proj2 (Z.leb_le _ _)) in Hacc by lia.
    apply bool_decide_eq_false in Hacc. by apply dec_stable.
Qed.

Lemma recordKnown_high rw ps seq :
  window_ok rw -> producer_wf rw ps -> seq_ok seq ->
  base_of rw ps seq <= highContiguous (recordState rw ps seq) /\
  (forall s, s ∈ pendingLost (recordState rw ps seq) -> s <= base_of rw ps seq).
Proof.
  intros Hrw Hwf Hseq. destruct (stamped_same ps seq) as (Ehc & Ew & Ep & Ec & _).
  assert (producer_wf rw (stamped ps seq)) as Hwfq by (by apply (producer_wf_ext rw ps)).
  unfold recordState. rewrite recordKnown_core. unfold base_of, slides. rewrite <- Ehc.
  clear Ehc Ew Ep Ec. revert Hwfq. generalize (stamped ps seq). intros q Hwfq.
  pose proof (wf_hc _ _ (wf_pre _ _ Hwfq)) as Hhc. pose proof (wf_pending _ _ (wf_pre _ _ Hwfq)) as Hpend.
  unfold recordCore. cbv zeta. pose proof Hrw as Hrw'. pose proof Hseq as Hseq'.
  unfold window_ok, seq_ok in Hrw', Hseq', Hhc.
  destruct (Z.leb_spec seq (highContiguous q)).
  - rewrite (proj2 (Z.ltb_ge _ _)) by lia.
    destruct (bool_decide _); rsimpl; (split; [lia|]); intros s Hs; apply Hpend; set_solver.
  - rewrite (u64_wrap_id rw), (u64_wrap_id (_ - _ - 1)) by (unfold u64_ok; lia).
    rewrite i64_wrap_id by (unfold i64_ok; lia).
    destruct (_ >=? rw) eqn:Hoff; zify_bool.
    + rewrite (proj2 (Z.ltb_lt _ _)) by lia.
      destruct (slideWindow_spec rw q seq) as (_ & _ & ?); [done..|lia|done].
    + rewrite (proj2 (Z.ltb_ge _ _)) by lia.
      destruct (getBit _ _).
      * rsimpl. split; [lia|]. intros s Hs. by apply Hpend.
      * destruct (advance_high rw _ (fresh_pre rw q seq Hrw Hwfq Hseq ltac:(lia))) as [Hup Hpe].
        cbn [snd]. rewrite Hpe. split; [exact Hup|]. exact (fun s Hs => proj2 (Hpend s Hs)).
Qed.

(** ** The simulation *)

(** The tracker's state of a producer says what the reference says. *)
Record tells (ps : producerState) (i : ideal) : Prop := {
  tl_high : highContiguous ps = i_high i;
  tl_lost : pendingLost ps = i_lost i;
  tl_taken : forall s, i_high i < s -> accounted ps s = bool_decide (s ∈ i_taken i);
  tl_received : received ps = u64_wrap (i_received i);
  tl_duplicates : duplicates ps = u64_wrap (i_duplicates i);
  tl_outOfOrder : outOfOrder ps = u64_wrap (i_outOfOrder i);
  tl_last : lastSeen ps = i_last i
}.

Lemma tells_stats rw ps i : producer_wf rw ps -> tells ps i -> statsOf ps = ideal_stats i.
Proof.
  intros Hwf [_ Hl _ Hr Hd Ho _]. unfold statsOf, ideal_stats.
  by rewrite (wf_lost _ _ Hwf), Hl, Hr, Hd, Ho.
Qed.

Lemma pending_base rw ps seq s :
  window_ok rw -> producer_wf rw ps -> seq_ok seq ->
  s ∈ pendingLost (recordState rw ps seq) <->
  0 <= s <= base_of rw ps seq /\ accounted (recordState rw ps seq) s = false.
Proof.
  intros Hrw Hwf Hseq. destruct (recordKnown_high rw ps seq Hrw Hwf Hseq) as [Hup Hle].
  rewrite (pending_unaccounted rw) by (by apply recordState_wf). split.
  - intros Hs. pose proof (Hle s). rewrite (pending_unaccounted rw) in H by (by apply recordState_wf).
    specialize (H Hs). split; [lia|apply Hs].
  - intros [? ?]. split; [lia|done].
Qed.

(** A watermark above which the accounted sequences are [taken] is its climb. *)
Lemma high_is_climb rw ps seq taken :
  window_ok rw -> producer_wf rw ps -> seq_ok seq ->
  (forall s, base_of rw ps seq < s ->
     accounted (recordState rw ps seq) s = bool_decide (s ∈ taken)) ->
  highContiguous (recordState rw ps seq) = climb taken (base_of rw ps seq).
Proof.
  intros Hrw Hwf Hseq Htk. pose proof (recordState_wf rw ps seq Hrw Hwf Hseq) as Hwf'.
  destruct (recordKnown_high rw ps seq Hrw Hwf Hseq) as [Hup Hle].
  pose proof (wf_hc _ _ (wf_pre _ _ Hwf)) as Hhc. unfold seq_ok in Hhc.
  apply climb_unique; [done|..].
  - intros x Hx. apply (bool_decide_unpack _). rewrite <- Htk by lia.
    destruct (accounted _ x) eqn:Ha; [exact I|]. exfalso.
    assert (0 <= x).
    { unfold base_of in Hx. destruct (slides rw ps seq) eqn:Hsl; [|lia].
      unfold slides in Hsl. zify_bool. lia. }
    assert (x ∈ pendingLost (recordState rw ps seq)) as Hin.
    { apply (pending_unaccounted rw); [done|]. split; [lia|done]. }
    apply Hle in Hin. lia.
  - intros Hin. apply (bool_decide_eq_true_2 _) in Hin. rewrite <- Htk in Hin by lia.
    unfold accounted in Hin. rewrite (proj2 (Z.leb_gt _ _)) in Hin by lia.
    replace (_ - _ - 1) with 0 in Hin by lia. pose proof (wf_low _ _ Hwf'). congruence.
Qed.

Lemma recordState_accounted rw ps seq s :
  window_ok rw -> producer_wf rw ps -> seq_ok seq ->
  accounted (recordState rw ps seq) s = accounted ps s || newly_accounted rw ps seq s.
Proof.
  intros Hrw Hwf Hs. pose proof (recordKnown_law rw ps seq Hrw Hwf Hs) as Hlaw.
  unfold recordState. destruct (recordKnown _ _ _) as [[? ?] ?]. apply Hlaw.
Qed.

Lemma tells_window rw ps i seq :
  window_ok rw -> producer_wf rw ps -> seq_ok seq -> tells ps i ->
  let '(high, taken, lost) := ideal_window rw i seq in
  let q := recordState rw ps seq in
  highContiguous q = high /\ pendingLost q = lost /\
  (forall s, high < s -> accounted q s = bool_decide (s ∈ taken)).
Proof.
  intros Hrw Hwf Hseq Ht.
  assert (forall s, accounted (recordState rw ps seq) s =
    accounted ps s || newly_accounted rw ps seq s) as Hacc
    by (intros; by apply recordState_accounted).
  pose proof (fun s => pending_base rw ps seq s Hrw Hwf Hseq) as Hpend.
  pose proof (fun s => pending_unaccounted rw ps s Hwf) as Hold.
  destruct (recordKnown_high rw ps seq Hrw Hwf Hseq) as [Hup _].
  pose proof (fun taken => high_is_climb rw ps seq taken Hrw Hwf Hseq) as Hclimb.
  set (q := recordState rw ps seq) in *. unfold ideal_window.
  rewrite <- (tl_high _ _ Ht), <- (tl_lost _ _ Ht).
  pose proof (tl_taken _ _ Ht) as Htk. rewrite <- (tl_high _ _ Ht) in Htk.
  pose proof (wf_hc _ _ (wf_pre _ _ Hwf)) as Hhc.
  unfold base_of, newly_accounted, slides in *. unfold window_ok, seq_ok in Hrw, Hseq, Hhc.
  cbv zeta. destruct (decide (seq <= highContiguous ps)) as [Hle|Hgt].
  - rewrite (proj2 (Z.ltb_ge _ seq)) in * by lia.
    assert (forall s, highContiguous ps < s -> accounted q s = bool_decide (s ∈ i_taken i)) as Hq.
    { intros s Hs. rewrite Hacc, Htk by done. destruct (Z.eqb_spec s seq); [lia|apply orb_false_r]. }
    assert (highContiguous q = highContiguous ps) as Eh.
    { rewrite (Hclimb _ Hq). symmetry. apply climb_unique; [done|lia|].
      intros Hin. apply (bool_decide_eq_true_2 _) in Hin. rewrite <- Htk in Hin by lia.
      unfold accounted in Hin. rewrite (proj2 (Z.leb_gt _ _)) in Hin by lia.
      replace (_ - _ - 1) with 0 in Hin by lia. pose proof (wf_low _ _ Hwf). congruence. }
    split; [done|]. split; [|done]. apply set_eq. intros s.
    rewrite Hpend, Hacc, elem_of_difference, Hold, elem_of_singleton, orb_false_iff, Z.eqb_neq. tauto.
  - destruct (decide (seq <= highContiguous ps + rw)) as [Hin|Hout].
    + rewrite (proj2 (Z.ltb_ge _ seq)) in * by lia.
      assert (forall s, highContiguous ps < s ->
        accounted q s = bool_decide (s ∈ {[ seq ]} ∪ i_taken i)) as Hq.
      { intros s Hs. rewrite Hacc, Htk by done. destruct (Z.eqb_spec s seq) as [->|].
        - rewrite orb_true_r. symmetry. apply bool_decide_true. set_solver.
        - rewrite orb_false_r. apply bool_decide_ext. set_solver. }
      split; [by apply Hclimb|]. split; [|intros s Hs; apply Hq; rewrite <- (Hclimb _ Hq) in Hs; lia].
      apply set_eq. intros s. rewrite Hpend, Hacc, Hold, orb_false_iff, Z.eqb_neq.
      split; [tauto|]. intros [? ?]. split; [done|]. split; [done|lia].
    + rewrite (proj2 (Z.ltb_lt _ seq)) in * by lia.
      assert (forall s, seq - rw - 1 < s -> accounted q s = bool_decide (s ∈ i_taken i)) as Hq.
      { intros s Hs. rewrite Hacc, Htk, (proj2 (Z.leb_gt s _)), andb_false_r, orb_false_r by lia. done. }
      split; [by apply Hclimb|]. split; [|intros s Hs; apply Hq; rewrite <- (Hclimb _ Hq) in Hs; lia].
      apply set_eq. intros s.
      rewrite Hpend, Hacc, elem_of_union, elem_of_missing, Hold, orb_false_iff, andb_false_iff,
        Z.ltb_ge, Z.leb_gt.
      destruct (Z.leb_spec s (highContiguous ps)).
      * split; [intros (? & ? & _); left; split; [lia|done]|].
        intros [[? ?]|[? _]]; [|lia]. split; [lia|]. split; [done|lia].
      * rewrite Htk, bool_decide_eq_false by done.
        split; [intros (? & ? & ?); right; split; [lia|done]|].
        intros [[? _]|[? ?]]; [lia|]. split; [lia|]. split; [done|lia].
Qed.

Lemma advance_loop_last fuel : forall ps, lastSeen (advance_loop fuel ps) = lastSeen ps.
Proof.
  induction fuel as [|fuel IH]; intros ps; [done|]. cbn [advance_loop].
  destruct (getBit _ _); [|done]. by rewrite IH.
Qed.

Lemma recordKnown_last rw ps seq : lastSeen (recordState rw ps seq) = seq.
Proof.
  unfold recordState. rewrite recordKnown_core.
  destruct (stamped_same ps seq) as (_ & _ & _ & _ & _ & _ & _ & El & _).
  unfold recordCore. cbv zeta.
  destruct (seq <=? _); [destruct (bool_decide _)|
    destruct (_ >=? _); [|destruct (getBit _ _)]]; try exact El; cbn [snd].
  - unfold slideWindow. cbv zeta. destruct (_ <=? _); [destruct (_ <? rw); exact El|].
    unfold advanceContiguous. rewrite advance_loop_last. destruct (_ <? rw); exact El.
  - unfold advanceContiguous. rewrite advance_loop_last. exact El.
Qed.

Lemma tells_step rw ps i seq :
  window_ok rw -> producer_wf rw ps -> seq_ok seq -> tells ps i ->
  tells (recordState rw ps seq) (ideal_step rw i seq).
Proof.
  intros Hrw Hwf Hseq Ht. pose proof (tells_window rw ps i seq Hrw Hwf Hseq Ht) as Hwin.
  pose proof (recordKnown_counters rw ps seq) as Hcnt.
  pose proof (recordKnown_law rw ps seq Hrw Hwf Hseq) as Hlaw.
  pose proof (recordKnown_last rw ps seq) as Hlast.
  unfold ideal_step, recordState in *. destruct (ideal_window rw i seq) as [[high taken] lost].
  destruct (recordKnown rw ps seq) as [[dup ooo] q]. cbn [snd] in *.
  destruct Hlaw as (-> & -> & _). destruct Hcnt as (Hr & Hd & Ho & _).
  destruct Hwin as (Hh & Hp & Ha). destruct Ht as [Eh El Et Er Ed Eo Es].
  assert (accounted ps seq = ideal_dup i seq) as Edup.
  { unfold ideal_dup. destruct (decide (seq <= i_high i)).
    - unfold accounted. rewrite Eh, El, (proj2 (Z.leb_le _ _)) by done. done.
    - apply Et. lia. }
  rewrite Edup in Hd. split; cbn; try done.
  - rewrite Hr, Er. apply u64_wrap_add_l.
  - rewrite Hd, Ed. destruct (ideal_dup i seq); [|done]. apply u64_wrap_add_l.
  - rewrite Ho, Eo, Es. destruct (Z.ltb_spec seq (i_last i)), (decide (seq < i_last i)); try lia.
    apply u64_wrap_add_l.
Qed.

Lemma tells_start rw seq : window_ok rw -> seq_ok seq -> tells (newProducer rw seq) (ideal_start seq).
Proof.
  intros Hrw Hseq. destruct (newProducer_law rw seq Hrw Hseq) as [Hwf Hacc].
  destruct (newProducer_stream rw seq Hrw Hseq) as [_ Hp Hr Hd].
  assert (highContiguous (newProducer rw seq) = seq) as Hh.
  { pose proof (wf_hc _ _ (wf_pre _ _ Hwf)) as Hhc. unfold seq_ok in *.
    pose proof (wf_low _ _ Hwf) as Hlow.
    destruct (Z.lt_trichotomy (highContiguous (newProducer rw seq)) seq) as [Hlt|[?|Hlt]]; [|done|].
    - specialize (Hacc (highContiguous (newProducer rw seq) + 1) ltac:(lia)).
      unfold accounted in Hacc. rewrite (proj2 (Z.leb_gt _ _)) in Hacc by lia.
      replace (_ - _ - 1) with 0 in Hacc by lia. rewrite Hlow in Hacc. zify_bool. lia.
    - specialize (Hacc (highContiguous (newProducer rw seq)) ltac:(lia)).
      unfold accounted in Hacc. rewrite Hp, (proj2 (Z.leb_le _ _)) in Hacc by lia.
      rewrite bool_decide_true in Hacc by set_solver. zify_bool. lia. }
  split; cbn; try done.
  - intros s Hs. unfold seq_ok in Hseq. rewrite Hacc by lia. rewrite bool_decide_false by set_solver.
    apply Z.leb_gt. lia.
  - unfold newProducer, advanceContiguous.
    match goal with |- context [advance_loop ?n ?p] =>
      destruct (advance_loop_counters n p) as (_ & _ & -> & _ & _) end. done.
  - unfold newProducer, advanceContiguous. by rewrite advance_loop_last.
Qed.

(** ** Histories *)

Lemma arrivals_snoc pid ops op : arrivals pid (ops ++ [op]) = arrival pid (arrivals pid ops) op.
Proof. unfold arrivals. by rewrite foldl_app. Qed.

Lemma ideal_run_snoc rw l seq :
  ideal_run rw (l ++ [seq]) =
    Some match ideal_run rw l with Some i => ideal_step rw i seq | None => ideal_start seq end.
Proof. destruct l as [|first rest]; [done|]. cbn. by rewrite foldl_app. Qed.

(** Producer by producer, the tracker tells what the reference tells. *)
Definition told_of (rw : Z) (ops : list tracker_op) (pid : string) (o : option producerState) : Prop :=
  match o, ideal_run rw (arrivals pid ops) with
  | Some ps, Some i => tells ps i
  | None, None => True
  | _, _ => False
  end.

Lemma tells_ext ps q i :
  highContiguous q = highContiguous ps -> window q = window ps ->
  pendingLost q = pendingLost ps -> statsOf q = statsOf ps -> lastSeen q = lastSeen ps ->
  tells ps i -> tells q i.
Proof.
  intros H1 H2 H3 [= H4 H5 H6 _] H7 [? ? Ht ? ? ? ?]. split; try congruence.
  intros s Hs. rewrite (accounted_ext ps q) by done. by apply Ht.
Qed.

Lemma told_step rw ops op t :
  tracker_wf t -> reorderWindow t = rw -> op_ok op ->
  (forall pid, told_of rw ops pid (producers t !! pid)) ->
  forall pid, told_of rw (ops ++ [op]) pid (producers (apply_op t op) !! pid).
Proof.
  intros [Hrw Hwf] Erw Hok Ht pid. specialize (Ht pid). rewrite Erw in Hrw, Hwf.
  unfold told_of in *. rewrite arrivals_snoc. destruct op as [p seq| |]; cbn [arrival apply_op].
  - unfold Record_. destruct (decide (p = pid)) as [->|Hne].
    + rewrite ideal_run_snoc. destruct (producers t !! pid) as [ps|] eqn:E.
      * destruct (ideal_run rw _) as [i|]; [|done]. rewrite Erw.
        pose proof (tells_step rw ps i seq Hrw (Hwf _ _ E) Hok Ht) as Hstep.
        unfold recordState in Hstep. destruct (recordKnown rw ps seq) as [[? ?] q].
        rsimpl. by rewrite lookup_insert_eq.
      * destruct (ideal_run rw _) as [i|]; [done|]. rewrite Erw. rsimpl.
        rewrite lookup_insert_eq. by apply tells_start.
    + destruct (producers t !! p) as [ps|].
      * destruct (recordKnown _ _ _) as [[? ?] ?]. rsimpl. by rewrite lookup_insert_ne.
      * rsimpl. by rewrite lookup_insert_ne.
  - unfold DetectGaps. rsimpl. rewrite lookup_fmap. destruct (producers t !! pid) as [ps|]; [|done]. cbn.
    destruct (ideal_run rw _) as [i|]; [|done]. by apply (tells_ext ps).
  - done.
Qed.

Lemma told_run rw ops :
  window_ok rw -> Forall op_ok ops ->
  let t := foldl apply_op (New rw) ops in
  reorderWindow t = rw /\ tracker_wf t /\ forall pid, told_of rw ops pid (producers t !! pid).
Proof.
  intros Hrw. cbv zeta. induction ops as [|op ops IH] using rev_ind; intros Hops.
  { split; [done|]. split; [by apply New_wf|done]. }
  apply Forall_app in Hops as [Hops Hop]. rewrite Forall_singleton in Hop.
  destruct (IH Hops) as (E & Hwf & Ht). rewrite foldl_app. cbn [foldl]. split; [|split].
  - rewrite <- E at 2. destruct op as [p seq| |]; [|done..]. cbn. unfold Record_.
    destruct (producers _ !! p); [|done]. by destruct (recordKnown _ _ _) as [[? ?] ?].
  - exact (apply_op_wf _ op Hwf Hop).
  - by apply told_step.
Qed.

(** C5: the tracker refines the reference.  After any history of Record,
    DetectGaps and Reset calls a producer is known iff it sent something since
    the last Reset; its Stats (received, duplicates, out of order, confirmed
    lost), its watermark and the very set of sequences suspected lost are those
    of the reference run on what it sent. *)
Theorem tracker_refines rw ops pid :
  window_ok rw -> Forall op_ok ops ->
  let t := foldl apply_op (New rw) ops in
  let i := ideal_run rw (arrivals pid ops) in
  Stats t !! pid = ideal_stats <$> i /\
  highContiguous <$> producers t !! pid = i_high <$> i /\
  pendingLost <$> producers t !! pid = i_lost <$> i.
Proof.
  intros Hrw Hops t i. destruct (told_run rw ops Hrw Hops) as (E & [_ Hwf] & Ht).
  specialize (Ht pid). fold t in E, Hwf, Ht. unfold told_of in Ht. fold i in Ht.
  unfold Stats. rewrite lookup_fmap.
  destruct (producers t !! pid) as [ps|] eqn:Ep, i as [i|]; try done. cbn.
  rewrite (tells_stats rw ps i); [|rewrite <- E; by apply (Hwf pid)|done].
  destruct Ht as [-> -> _ _ _ _ _]. done.
Qed.

(** ** DetectGaps along a history *)

(** The loss of a producer at the end of a history. *)
Definition lost_now (rw : Z) (pid : string) (ops : list tracker_op) : Z :=
  match ideal_run rw (arrivals pid ops) with Some i => Z.of_nat (size (i_lost i)) | None => 0 end.

(** What the latest DetectGaps since the last Reset saw of it.  Histories newest
    first. *)
Fixpoint lost_mark (rw : Z) (pid : string) (rops : list tracker_op) : Z :=
  match rops with
  | [] | OpReset :: _ => 0
  | OpDetectGaps :: rops => lost_now rw pid (reverse rops)
  | OpRecord _ _ :: rops => lost_mark rw pid rops
  end.

(** The growth from one DetectGaps to the next, summed over a history. *)
Fixpoint growth (rw : Z) (pid : string) (rops : list tracker_op) : Z :=
  match rops with
  | [] => 0
  | OpDetectGaps :: rops =>
      Z.max 0 (lost_now rw pid (reverse rops) - lost_mark rw pid rops) + growth rw pid rops
  | _ :: rops => growth rw pid rops
  end.

(** The deltas DetectGaps returned for [pid] over a history, summed. *)
Fixpoint reported (pid : string) (t : Tracker) (ops : list tracker_op) : Z :=
  match ops with
  | [] => 0
  | op :: ops =>
      (match op with
       | OpDetectGaps => default 0 (fst (DetectGaps t) !! pid)
       | _ => 0
       end) + reported pid (apply_op t op) ops
  end.

Lemma reported_snoc pid ops op : forall t,
  reported pid t (ops ++ [op]) =
    reported pid t ops +
    match op with
    | OpDetectGaps => default 0 (fst (DetectGaps (foldl apply_op t ops)) !! pid)
    | _ => 0
    end.
Proof.
  induction ops as [|o ops IH]; intros t; [by cbn; rewrite Z.add_0_r|].
  cbn [app reported foldl]. rewrite IH. lia.
Qed.

(** The state DetectGaps reads its marks from. *)
Lemma told_mark rw ops :
  window_ok rw -> Forall op_ok ops ->
  forall pid, from_option lastReportedLost 0 (producers (foldl apply_op (New rw) ops) !! pid)
              = lost_mark rw pid (reverse ops).
Proof.
  intros Hrw. induction ops as [|op ops IH] using rev_ind; intros Hops pid; [done|].
  apply Forall_app in Hops as [Hops Hop]. destruct (told_run rw ops Hrw Hops) as (E & [_ Hwf] & Ht).
  specialize (IH Hops). specialize (Ht pid). rewrite foldl_app, reverse_snoc. cbn [foldl].
  set (t := foldl apply_op (New rw) ops) in *.
  destruct op as [p seq| |]; cbn [apply_op lost_mark]; [|rewrite reverse_involutive|done].
  - rewrite <- IH. unfold Record_. destruct (producers t !! p) as [ps|] eqn:Ep.
    + pose proof (recordKnown_counters (reorderWindow t) ps seq) as Hc.
      destruct (recordKnown _ _ _) as [[? ?] q]. rsimpl. destruct Hc as (_ & _ & _ & Hl).
      destruct (decide (p = pid)) as [->|]; [|by rewrite lookup_insert_ne].
      by rewrite lookup_insert_eq, Ep.
    + rsimpl. destruct (decide (p = pid)) as [->|]; [|by rewrite lookup_insert_ne].
      rewrite lookup_insert_eq, Ep. unfold newProducer, advanceContiguous. cbn [from_option].
      match goal with |- context [advance_loop ?n ?p] =>
        destruct (advance_loop_counters n p) as (_ & _ & _ & _ & ->) end. done.
  - unfold DetectGaps, lost_now. rsimpl. rewrite lookup_fmap. unfold told_of in Ht.
    destruct (producers t !! pid) as [ps|] eqn:Ep, (ideal_run rw _) as [i|]; try done. cbn.
    apply Hwf in Ep. unfold markReported. rsimpl. rewrite (wf_lost _ _ Ep).
    by destruct Ht as [_ -> _ _ _ _ _].
Qed.

Lemma lost_mark_nonneg rw pid rops : 0 <= lost_mark rw pid rops.
Proof.
  induction rops as [|[] rops IH]; cbn; try done. unfold lost_now. destruct (ideal_run _ _); lia.
Qed.

Lemma DetectGaps_delta rw ops pid :
  window_ok rw -> Forall op_ok ops ->
  fst (DetectGaps (foldl apply_op (New rw) ops)) !! pid =
    (let d := lost_now rw pid ops - lost_mark rw pid (reverse ops) in
     if decide (0 < d) then Some d else None).
Proof.
  intros Hrw Hops. destruct (told_run rw ops Hrw Hops) as (E & [_ Hwf] & Ht).
  pose proof (told_mark rw ops Hrw Hops pid) as Hm. specialize (Ht pid).
  set (t := foldl apply_op (New rw) ops) in *. unfold DetectGaps. cbn [fst]. rewrite lookup_omap.
  unfold told_of in Ht. rewrite <- Hm. unfold lost_now.
  destruct (producers t !! pid) as [ps|] eqn:Ep, (ideal_run rw _) as [i|]; try done.
  cbn [mbind option_bind from_option]. pose proof (pending_size _ _ (wf_pre _ _ (Hwf _ _ Ep))) as Hsz.
  unfold gapDelta. rewrite (wf_lost _ _ (Hwf _ _ Ep)), (tl_lost _ _ Ht) in *.
  assert (0 <= lastReportedLost ps) as Hmark.
  { cbn in Hm. rewrite Hm. apply lost_mark_nonneg. }
  destruct (_ >? _) eqn:Hgt, (decide (0 < _)); zify_bool; try lia; [|done].
  rewrite u64_wrap_id by (unfold u64_ok; lia). done.
Qed.

Lemma reported_growth rw ops pid :
  window_ok rw -> Forall op_ok ops ->
  reported pid (New rw) ops = growth rw pid (reverse ops).
Proof.
  intros Hrw. induction ops as [|op ops IH] using rev_ind; intros Hops; [done|].
  apply Forall_app in Hops as [Hops Hop]. rewrite reported_snoc, reverse_snoc, (IH Hops).
  destruct op; cbn [growth]; [lia| |lia].
  rewrite (DetectGaps_delta rw ops pid Hrw Hops), reverse_involutive. cbv zeta.
  destruct (decide _); cbn; lia.
Qed.

Lemma growth_covers rw pid rops : lost_mark rw pid rops <= growth rw pid rops.
Proof.
  assert (forall l, 0 <= growth rw pid l) as Hnn.
  { induction l as [|[] l IH]; cbn; lia. }
  induction rops as [|[] rops IH]; cbn; [lia|lia|lia|apply Hnn].
Qed.

(** C8: what DetectGaps streams.  After any history, the delta it returns for a
    producer is the growth of that producer's suspected losses since the previous
    DetectGaps (since its first record, when there was none after the last Reset),
    and the producer has no entry when they did not grow: no delta underflows and
    no loss is told twice.  Summed over the history the deltas are the sum of
    these growths, which covers the loss at the last DetectGaps. *)
Theorem DetectGaps_exact rw ops pid :
  window_ok rw -> Forall op_ok ops ->
  fst (DetectGaps (foldl apply_op (New rw) ops)) !! pid =
    (let d := lost_now rw pid ops - lost_mark rw pid (reverse ops) in
     if decide (0 < d) then Some d else None) /\
  reported pid (New rw) ops = growth rw pid (reverse ops) /\
  lost_now rw pid ops <= reported pid (New rw) (ops ++ [OpDetectGaps]).
Proof.
  intros Hrw Hops. split; [by apply DetectGaps_delta|]. split; [by apply reported_growth|].
  assert (Forall op_ok (ops ++ [OpDetectGaps])) as Hops'
    by (apply Forall_app; split; [done|repeat constructor]).
  rewrite (reported_growth rw _ _ Hrw Hops').
  pose proof (growth_covers rw pid (reverse (ops ++ [OpDetectGaps]))) as Hc.
  rewrite reverse_snoc in *. cbn [lost_mark] in Hc. by rewrite reverse_involutive in Hc.
Qed.

(** ** Witnesses *)

(** 70 slides the window and gives up 2, 3, 4; 3 comes late and is no loss any
    more, 5 comes twice; 140 gives up the 64 sequences after 5. *)
Definition late_ops : list tracker_op :=
  [OpRecord "p" 1; OpRecord "q" 9; OpRecord "p" 5; OpRecord "p" 70; OpDetectGaps;
   OpRecord "p" 3; OpDetectGaps; OpRecord "p" 5; OpRecord "p" 140].

Lemma late_ops_ok : Forall op_ok late_ops.
Proof. by repeat constructor. Qed.

Lemma tracker_refines_witness :
  let t := foldl apply_op (New 64) late_ops in
  Stats t !! "p" = Some (mk_ProducerStats 6 1 1 66) /\
  Stats t !! "p" = ideal_stats <$> ideal_run 64 (arrivals "p" late_ops) /\
  pendingLost <$> producers t !! "p" = i_lost <$> ideal_run 64 (arrivals "p" late_ops).
Proof.
  destruct (tracker_refines 64 late_ops "p" ltac:(done) late_ops_ok) as (H1 & _ & H3).
  split; [vm_compute; reflexivity|]. split; [exact H1|exact H3].
Defined.

Lemma DetectGaps_exact_witness :
  fst (DetectGaps (foldl apply_op (New 64) late_ops)) !! "p" = Some 64 /\
  lost_now 64 "p" late_ops - lost_mark 64 "p" (reverse late_ops) = 64 /\
  reported "p" (New 64) late_ops = growth 64 "p" (reverse late_ops).
Proof.
  destruct (DetectGaps_exact 64 late_ops "p" ltac:(done) late_ops_ok) as (H1 & H2 & _).
  split; [|split; [vm_compute; reflexivity|exact H2]].
  rewrite H1. vm_compute. reflexivity.
Defined.
