(* ===== verification/Float64.v ===== *)
(** * IEEE 754 binary64, as Go's [float64] uses it

    Go's [float64] is the Standard Library's [spec_float] at precision 53 and
    maximal exponent 1024: every operation is computed, rounding to nearest
    even included.  The file proves the order facts (comparisons are a total
    preorder away from NaN) and the NaN-freedom facts that the verdict gates
    need. *)

From S2P Require Import Prelude.
From Stdlib Require Export Floats.SpecFloat.

Definition float64 : Type := spec_float.

Definition f_of_Z (z : Z) : float64 := binary_normalize 53 1024 z 0 false.
Definition fadd : float64 -> float64 -> float64 := SFadd 53 1024.
Definition fmul : float64 -> float64 -> float64 := SFmul 53 1024.
Definition fdiv : float64 -> float64 -> float64 := SFdiv 53 1024.
Definition fltb : float64 -> float64 -> bool := SFltb.
Definition fleb : float64 -> float64 -> bool := SFleb.
Definition feqb : float64 -> float64 -> bool := SFeqb.
Abbreviation fzero := (S754_zero false).

(** A decimal literal n/d: both are exact, so the quotient is the nearest float64. *)
Definition f_lit (n d : Z) : float64 := fdiv (f_of_Z n) (f_of_Z d).

(** [uint64(f)] for a finite non-negative [f]: truncation. *)
Definition f_trunc (f : float64) : Z :=
  match f with
  | S754_finite s m e =>
      let a := if 0 <=? e then Z.pos m * 2 ^ e else Z.pos m / 2 ^ (- e) in
      if s then - a else a
  | _ => 0
  end.

Example f_lit_half : f_lit 1 2 = S754_finite false 4503599627370496 (-53).
Proof. reflexivity. Qed.
Example f_ratio_pct : fmul (fdiv (f_of_Z 1) (f_of_Z 3)) (f_of_Z 100)
  = S754_finite false 4691249611844266 (-47).
Proof. reflexivity. Qed.

Definition is_nan (f : float64) : bool :=
  match f with S754_nan => true | _ => false end.

(** ** The order *)

(** Comparison is lexicographic on this key; it says nothing about validity. *)
Definition fkey (f : float64) : Z * Z * Z :=
  match f with
  | S754_zero _ => (0, 0, 0)
  | S754_nan => (0, 0, 0)
  | S754_infinity s => (if s then -2 else 2, 0, 0)
  | S754_finite s m e =>
      if s then (-1, - e, - Z.pos m) else (1, e, Z.pos m)
  end.

Definition klt (a b : Z * Z * Z) : Prop :=
  let '(a1, a2, a3) := a in let '(b1, b2, b3) := b in
  a1 < b1 \/ (a1 = b1 /\ (a2 < b2 \/ (a2 = b2 /\ a3 < b3))).

Lemma SFcompare_key x y :
  is_nan x = false -> is_nan y = false ->
  match SFcompare x y with
  | Some Lt => klt (fkey x) (fkey y)
  | Some Eq => fkey x = fkey y
  | Some Gt => klt (fkey y) (fkey x)
  | None => False
  end.
Proof.
  destruct x as [?|[]| |[] m e], y as [?|[]| |[] n e']; simpl; intros; try done; try lia;
    change (Pos.compare_cont Eq m n) with (Pos.compare m n);
    destruct (Z.compare_spec e e'); subst; simpl; try lia;
    destruct (Pos.compare_spec m n); subst; simpl; try lia; done.
Qed.

Lemma fltb_key x y :
  is_nan x = false -> is_nan y = false -> fltb x y = true <-> klt (fkey x) (fkey y).
Proof.
  intros Hx Hy. pose proof (SFcompare_key x y Hx Hy). unfold fltb, SFltb.
  destruct (fkey x) as [[a1 a2] a3], (fkey y) as [[b1 b2] b3].
  destruct (SFcompare x y) as [[]|]; simplify_eq; simpl in *; split; try done; lia.
Qed.

Lemma fleb_key x y :
  is_nan x = false -> is_nan y = false -> fleb x y = true <-> ~ klt (fkey y) (fkey x).
Proof.
  intros Hx Hy. pose proof (SFcompare_key x y Hx Hy). unfold fleb, SFleb.
  destruct (fkey x) as [[a1 a2] a3], (fkey y) as [[b1 b2] b3].
  destruct (SFcompare x y) as [[]|]; simplify_eq; simpl in *; split; try done; lia.
Qed.

Lemma fltb_nan_l x : fltb S754_nan x = false.
Proof. by destruct x. Qed.
Lemma fltb_nan_r x : fltb x S754_nan = false.
Proof. by destruct x. Qed.
Lemma fleb_nan_l x : fleb S754_nan x = false.
Proof. by destruct x. Qed.
Lemma fleb_nan_r x : fleb x S754_nan = false.
Proof. by destruct x. Qed.

(** Comparing with a NaN is always false. *)
Lemma fltb_not_nan x y : fltb x y = true -> is_nan x = false /\ is_nan y = false.
Proof. destruct x, y; done. Qed.
Lemma fleb_not_nan x y : fleb x y = true -> is_nan x = false /\ is_nan y = false.
Proof. destruct x, y; done. Qed.

(** Goals about [fltb]/[fleb] of values known not to be NaN become goals about keys. *)
Ltac fkey_solve :=
  repeat match goal with
  | H : fltb ?x ?y = true |- _ =>
      let H1 := fresh in let H2 := fresh in
      destruct (fltb_not_nan x y H) as [H1 H2]; apply fltb_key in H; [|done..]
  | H : fleb ?x ?y = true |- _ =>
      let H1 := fresh in let H2 := fresh in
      destruct (fleb_not_nan x y H) as [H1 H2]; apply fleb_key in H; [|done..]
  | |- fltb ?x ?y = true => apply fltb_key; [done..|]
  | |- fleb ?x ?y = true => apply fleb_key; [done..|]
  end;
  repeat match goal with
  | H : context [fkey ?x] |- _ => let k := fresh "k" in
      set (k := fkey x) in *; clearbody k; destruct k as [[? ?] ?]
  | |- context [fkey ?x] => let k := fresh "k" in
      set (k := fkey x) in *; clearbody k; destruct k as [[? ?] ?]
  end; unfold klt in *; lia.

Lemma fltb_negb_fleb x y :
  is_nan x = false -> is_nan y = false -> fltb x y = negb (fleb y x).
Proof.
  intros Hx Hy. pose proof (fltb_key x y Hx Hy). pose proof (fleb_key y x Hy Hx).
  destruct (fkey x) as [[a1 a2] a3], (fkey y) as [[b1 b2] b3]. unfold klt in *.
  destruct (fltb x y), (fleb y x); try done; exfalso.
  - destruct (proj1 H0 eq_refl). by apply H.
  - assert (false = true); [|done]. apply H. apply dec_stable. intros Hn.
    assert (false = true); [|done]. apply H0. lia.
Qed.

(** ** Rounding never produces a NaN *)

Lemma shr_1_m mrs : 0 <= shr_m mrs -> shr_m (shr_1 mrs) = shr_m mrs / 2.
Proof.
  destruct mrs as [[|[p|p|]|p] r s]; simpl; intros; try lia; try done.
  - apply (Z.div_unique _ _ _ 1); lia.
  - apply (Z.div_unique _ _ _ 0); lia.
Qed.

Lemma shr_iter_m p : forall mrs,
  0 <= shr_m mrs -> shr_m (iter_pos shr_1 p mrs) = shr_m mrs / 2 ^ Z.pos p.
Proof.
  induction p as [p IH|p IH|]; intros mrs H; simpl iter_pos.
  - pose proof (shr_1_m mrs H) as H1.
    assert (0 <= shr_m (shr_1 mrs)) by (rewrite H1; apply Z.div_pos; lia).
    assert (0 <= shr_m (iter_pos shr_1 p (shr_1 mrs)))
      by (rewrite IH by done; apply Z.div_pos; lia).
    rewrite !IH, H1, !Z.div_div by (done || lia). f_equal.
    replace (Z.pos p~1) with (1 + Z.pos p + Z.pos p) by lia.
    rewrite !Z.pow_add_r by lia. lia.
  - assert (0 <= shr_m (iter_pos shr_1 p mrs))
      by (rewrite IH by done; apply Z.div_pos; lia).
    rewrite !IH, Z.div_div by (done || lia). f_equal.
    replace (Z.pos p~0) with (Z.pos p + Z.pos p) by lia. by rewrite Z.pow_add_r by lia.
  - by rewrite shr_1_m.
Qed.

Lemma shr_m_div mrs e n :
  0 <= shr_m mrs ->
  shr_m (fst (shr mrs e n)) = shr_m mrs / 2 ^ (Z.max 0 n) /\
  snd (shr mrs e n) = e + Z.max 0 n.
Proof.
  intros H. destruct n as [|p|p]; simpl.
  - rewrite Z.div_1_r. split; [done|lia].
  - by rewrite shr_iter_m.
  - rewrite Z.div_1_r. split; [done|lia].
Qed.

Lemma shr_record_of_loc_m m l : shr_m (shr_record_of_loc m l) = m.
Proof. by destruct l as [|[]]. Qed.

Lemma rne_bounds m l : 0 <= m -> m <= round_nearest_even m l <= m + 1.
Proof. destruct l as [|[]]; simpl; intros; try lia. destruct (Z.even m); lia. Qed.

(** [shr_fexp] at binary64. *)
Definition excess (m e : Z) : Z := Z.max 0 (fexp 53 1024 (Zdigits2 m + e) - e).

Lemma shr_fexp_spec m e l :
  0 <= m ->
  shr_m (fst (shr_fexp 53 1024 m e l)) = m / 2 ^ excess m e /\
  snd (shr_fexp 53 1024 m e l) = e + excess m e.
Proof.
  intros H. unfold shr_fexp, excess.
  destruct (shr_m_div (shr_record_of_loc m l) e (fexp 53 1024 (Zdigits2 m + e) - e))
    as [H1 H2]; rewrite ?shr_record_of_loc_m in *; done.
Qed.

(** The mantissa and exponent that [binary_round_aux] ends with. *)
Lemma binary_round_aux_spec sx mx ex lx :
  0 <= mx ->
  exists m1 m2 e2,
    mx / 2 ^ excess mx ex <= m1 <= mx / 2 ^ excess mx ex + 1 /\
    m2 = m1 / 2 ^ excess m1 (ex + excess mx ex) /\
    e2 = ex + excess mx ex + excess m1 (ex + excess mx ex) /\
    binary_round_aux 53 1024 sx mx ex lx =
      match m2 with
      | Z0 => S754_zero sx
      | Zpos m => if e2 <=? 1024 - 53 then S754_finite sx m e2 else S754_infinity sx
      | Zneg _ => S754_nan
      end.
Proof.
  intros H. unfold binary_round_aux.
  destruct (shr_fexp_spec mx ex lx H) as [Hm He].
  destruct (shr_fexp 53 1024 mx ex lx) as [mrs1 e1]. simpl in Hm, He. rewrite <- Hm.
  assert (0 <= shr_m mrs1) as H1 by (rewrite Hm; apply Z.div_pos; [lia|]; apply Z.pow_pos_nonneg; unfold excess; lia).
  pose proof (rne_bounds (shr_m mrs1) (loc_of_shr_record mrs1) H1) as Hr.
  set (m1 := round_nearest_even _ _) in *.
  destruct (shr_fexp_spec m1 e1 loc_Exact) as [Hm2 He2]; [lia|].
  destruct (shr_fexp 53 1024 m1 e1 loc_Exact) as [mrs2 e2]. simpl in Hm2, He2.
  exists m1, (shr_m mrs2), e2. subst e1. done.
Qed.

Lemma binary_round_aux_not_nan sx mx ex lx :
  0 <= mx -> is_nan (binary_round_aux 53 1024 sx mx ex lx) = false.
Proof.
  intros H. destruct (binary_round_aux_spec sx mx ex lx H) as (m1 & m2 & e2 & Hm1 & -> & _ & ->).
  assert (0 <= mx / 2 ^ excess mx ex)
    by (apply Z.div_pos; [lia|]; apply Z.pow_pos_nonneg; unfold excess; lia).
  assert (0 <= m1 / 2 ^ excess m1 (ex + excess mx ex))
    by (apply Z.div_pos; [lia|]; apply Z.pow_pos_nonneg; unfold excess; lia).
  destruct (m1 / _); try lia; [done|]. by destruct (_ <=? _).
Qed.

Lemma fdiv_not_nan x y :
  is_nan x = false ->
  match y with S754_finite _ _ _ => True | _ => False end ->
  is_nan (fdiv x y) = false.
Proof.
  destruct x as [?|?| |sx mx ex], y as [?|?| |sy my ey]; try done. intros _ _.
  unfold fdiv, SFdiv. destruct (SFdiv_core_binary _ _ _ _ _ _) as [[q e] l] eqn:E.
  apply binary_round_aux_not_nan. unfold SFdiv_core_binary in E.
  match type of E with context [Z.div_eucl ?a ?b] =>
    assert (0 <= a) as Ha; [|pose proof (Z.div_pos a b) as Hq; unfold Z.div in Hq;
      destruct (Z.div_eucl a b) as [q' r']] end.
  { destruct (ex - ey - _); try lia. apply Z.shiftl_nonneg. lia. }
  injection E as <- _ _. lia.
Qed.

Lemma fmul_not_nan x y :
  is_nan x = false ->
  match y with S754_finite _ _ _ => True | _ => False end ->
  is_nan (fmul x y) = false.
Proof.
  destruct x as [?|?| |sx mx ex], y as [?|?| |sy my ey]; try done. intros _ _.
  apply binary_round_aux_not_nan. lia.
Qed.

(** ** Conversions of [uint64] values *)

Lemma digits2_size p : digits2_pos p = Pos.size p.
Proof. induction p; simpl; by rewrite ?IHp. Qed.

Lemma Zdigits2_bounds m : 0 < m -> 2 ^ (Zdigits2 m - 1) <= m < 2 ^ Zdigits2 m /\ 0 < Zdigits2 m.
Proof.
  destruct m as [|p|p]; try lia. intros _. simpl. rewrite digits2_size.
  pose proof (Pos.size_gt p) as H1. pose proof (Pos.size_le p) as H2.
  pose proof (Pos2Z.inj_pow 2 (Pos.size p)) as Hp.
  split; [|lia]. split; [|lia].
  assert (2 ^ Z.pos (Pos.size p) <= 2 * Z.pos p) by lia.
  replace (Z.pos (Pos.size p)) with (1 + (Z.pos (Pos.size p) - 1)) in H by lia.
  rewrite Z.pow_add_r in H by lia. lia.
Qed.

Lemma Zdigits2_unique m d : 0 < m -> 0 < d -> 2 ^ (d - 1) <= m < 2 ^ d -> Zdigits2 m = d.
Proof.
  intros Hm Hd [H1 H2]. destruct (Zdigits2_bounds m Hm) as [[H3 H4] H5].
  destruct (Z.lt_trichotomy (Zdigits2 m) d) as [H|[H|H]]; [|done|].
  - pose proof (Z.pow_le_mono_r 2 (Zdigits2 m) (d - 1)). lia.
  - pose proof (Z.pow_le_mono_r 2 d (Zdigits2 m - 1)). lia.
Qed.

Lemma shl_align_spec m e e' :
  let '(m', e'') := shl_align m e e' in
  Z.pos m' = Z.pos m * 2 ^ Z.max 0 (e - e') /\ e'' = e - Z.max 0 (e - e').
Proof.
  unfold shl_align. destruct (e' - e) as [|d|d] eqn:E.
  - replace (Z.max 0 (e - e')) with 0 by lia. lia.
  - replace (Z.max 0 (e - e')) with 0 by lia. lia.
  - replace (Z.max 0 (e - e')) with (Z.pos d) by lia. split; [|lia].
    clear E e e'. induction d as [|d IH] using Pos.peano_ind; [simpl; lia|].
    rewrite Pos.iter_succ, Pos2Z.inj_xO, IH, Pos2Z.inj_succ, Z.pow_succ_r by lia. lia.
Qed.

Definition is_pos_finite (f : float64) : Prop :=
  match f with S754_finite false _ _ => True | _ => False end.

(** Every positive integer below 2^900 becomes a positive finite float. *)
Lemma f_of_Z_finite z : 0 < z < 2 ^ 900 -> is_pos_finite (f_of_Z z).
Proof.
  intros [Hz Hz']. destruct z as [|p|p]; try lia. unfold f_of_Z, binary_normalize, binary_round.
  pose proof (shl_align_spec p 0 (fexp 53 1024 (Z.pos (digits2_pos p) + 0))) as Hs.
  destruct (shl_align _ _ _) as [m e]. destruct Hs as [Hm He].
  destruct (Zdigits2_bounds (Z.pos p) Hz) as [Hb Hd0]. simpl Zdigits2 in *.
  set (d := Z.pos (digits2_pos p)) in *.
  assert (d <= 900) as Hd.
  { destruct (Z.le_gt_cases d 900); [done|].
    pose proof (Z.pow_le_mono_r 2 900 (d - 1)). lia. }
  unfold fexp, emin in Hm, He.
  set (k := Z.max 0 (0 - Z.max (d + 0 - 53) (3 - 1024 - 53))) in *.
  assert (Zdigits2 (Z.pos m) = d + k) as Hdm.
  { apply Zdigits2_unique; [lia|lia|]. rewrite Hm.
    replace (d + k - 1) with (d - 1 + k) by lia. rewrite !Z.pow_add_r by lia.
    pose proof (Z.pow_pos_nonneg 2 k). nia. }
  destruct (binary_round_aux_spec false (Z.pos m) e loc_Exact) as (m1 & m2 & e2 & Hm1 & Hm2 & He2 & ->);
    [lia|].
  assert (excess (Z.pos m) e = Z.max 0 (d - 53)) as Hx.
  { unfold excess, fexp, emin. rewrite Hdm. lia. }
  rewrite Hx in *.
  assert (e + Z.max 0 (d - 53) = d - 53) as Hexp by lia.
  assert (2 ^ 52 <= Z.pos m / 2 ^ Z.max 0 (d - 53) < 2 ^ 53) as Hq.
  { destruct (Zdigits2_bounds (Z.pos m)) as [Hb2 _]; [lia|]. rewrite Hdm in Hb2.
    pose proof (Z.pow_pos_nonneg 2 (Z.max 0 (d - 53))).
    split; [apply Z.div_le_lower_bound; [lia|]|apply Z.div_lt_upper_bound; [lia|]];
      rewrite <- Z.pow_add_r by lia.
    - replace (Z.max 0 (d - 53) + 52) with (d + k - 1) by lia. lia.
    - replace (Z.max 0 (d - 53) + 53) with (d + k) by lia. lia. }
  assert (2 ^ 52 <= m1 <= 2 ^ 53) as Hm1' by lia.
  rewrite Hexp in *.
  assert (0 <= excess m1 (d - 53) <= 1) as Hx1.
  { unfold excess, fexp, emin.
    destruct (Zdigits2_bounds m1) as [Hb1 _]; [lia|].
    assert (Zdigits2 m1 <= 54).
    { destruct (Z.le_gt_cases (Zdigits2 m1) 54); [done|].
      pose proof (Z.pow_le_mono_r 2 54 (Zdigits2 m1 - 1)). lia. }
    lia. }
  assert (0 < m2) as Hpos.
  { subst m2. apply Z.div_str_pos.
    destruct (Z.eq_dec (excess m1 (d - 53)) 0) as [->|]; [lia|].
    replace (excess m1 (d - 53)) with 1 by lia. lia. }
  destruct m2 as [|q|q]; try lia.
  rewrite (proj2 (Z.leb_le _ _)) by lia. exact I.
Qed.

Lemma f_of_Z_not_nan z : 0 <= z < 2 ^ 900 -> is_nan (f_of_Z z) = false.
Proof.
  intros Hz. destruct (Z.eq_dec z 0) as [->|]; [done|].
  pose proof (f_of_Z_finite z). destruct (f_of_Z z); try done. exfalso. by apply H; lia.
Qed.

(** ** The percentages of the gates *)

(** [float64(a) / float64(b) * 100]. *)
Definition pct (a b : Z) : float64 := fmul (fdiv (f_of_Z a) (f_of_Z b)) (f_of_Z 100).

Lemma pct_not_nan a b : u64_ok a -> u64_ok b -> b <> 0 -> is_nan (pct a b) = false.
Proof.
  unfold u64_ok. intros Ha Hb Hnz. apply fmul_not_nan; [|done]. apply fdiv_not_nan.
  - apply f_of_Z_not_nan. lia.
  - pose proof (f_of_Z_finite b) as Hf. destruct (f_of_Z b) as [?|?| |[] ? ?]; try done;
      apply Hf; lia.
Qed.

Lemma pct_zero b : u64_ok b -> b <> 0 -> pct 0 b = fzero.
Proof.
  unfold u64_ok, pct. intros Hb Hnz. pose proof (f_of_Z_finite b) as Hf.
  destruct (f_of_Z b) as [?|?| |[] ? ?]; try (exfalso; apply Hf; lia). done.
Qed.
