(* ===== verification/GoStr.v ===== *)
(** * Strings and number formatting of the Go standard library

    The parts of strconv, strings and fmt the harness uses, on byte strings:
    decimal and hexadecimal formatting, ParseUint/ParseInt/Atoi, prefix and
    suffix tests, Split/SplitN, TrimSpace; with their round trips. *)

From S2P Require Import Prelude Float64.
From Stdlib Require Import Ascii.
From stdpp Require Import strings.
Local Open Scope string_scope.
Local Open Scope Z_scope.

Notation "a ++s b" := (String.append a b) (at level 60, right associativity) : go_scope.

Lemma append_nil_l b : "" ++s b = b.
Proof. done. Qed.
Lemma append_cons c a b : String c a ++s b = String c (a ++s b).
Proof. done. Qed.

(** ** Characters *)

Definition chr (z : Z) : ascii := ascii_of_nat (Z.to_nat z).
Definition ord (c : ascii) : Z := Z.of_nat (nat_of_ascii c).

Lemma ord_chr z : 0 <= z < 256 -> ord (chr z) = z.
Proof. intros. unfold ord, chr. rewrite nat_ascii_embedding by lia. lia. Qed.

Lemma ord_range c : 0 <= ord c < 256.
Proof. unfold ord. pose proof (nat_ascii_bounded c). lia. Qed.

(** '0' <= c && c <= '9', and c - '0' *)
Definition is_digit (c : ascii) : bool := (48 <=? ord c) && (ord c <=? 57).
Definition digit_val (c : ascii) : Z := ord c - 48.
Definition digit_chr (d : Z) : ascii := chr (48 + d).

Lemma digit_chr_ok d : 0 <= d < 10 -> is_digit (digit_chr d) = true /\ digit_val (digit_chr d) = d.
Proof.
  intros. unfold is_digit, digit_val, digit_chr. rewrite ord_chr by lia.
  split; [|lia]. apply andb_true_iff. split; apply Z.leb_le; lia.
Qed.

(** ** Decimal formatting: strconv.FormatUint/FormatInt base 10, %d *)

Fixpoint fmt_loop (fuel : nat) (n : Z) (acc : string) : string :=
  match fuel with
  | O => acc
  | S fuel =>
      let acc := String (digit_chr (n mod 10)) acc in
      if n <? 10 then acc else fmt_loop fuel (n / 10) acc
  end.

(** A value has at most [log2 n + 1] decimal digits. *)
Definition fmt_fuel (n : Z) : nat := S (Z.to_nat (Z.log2 n)).
Definition FormatUint (n : Z) : string := fmt_loop (fmt_fuel n) n "".
Definition FormatInt (n : Z) : string :=
  if n <? 0 then "-" ++s FormatUint (- n) else FormatUint n.

(** ** Parsing: strconv.ParseUint(s, 10, 64), ParseInt(s, 10, 64), Atoi

    [None] stands for a non-nil error; the code never uses the value then. *)

Fixpoint parse_digits (acc : Z) (s : string) : option Z :=
  match s with
  | EmptyString => Some acc
  | String c s => if is_digit c then parse_digits (acc * 10 + digit_val c) s else None
  end.

Definition ParseUint (s : string) : option Z :=
  match s with
  | EmptyString => None
  | _ => n ← parse_digits 0 s; if n <? 2 ^ 64 then Some n else None
  end.

Definition ParseInt (s : string) : option Z :=
  let '(neg, body) :=
    match s with
    | String "-" r => (true, r)
    | String "+" r => (false, r)
    | _ => (false, s)
    end in
  n ← ParseUint body;
  if neg then (if n <=? 2 ^ 63 then Some (- n) else None)
  else (if n <? 2 ^ 63 then Some n else None).

Definition Atoi (s : string) : option Z := ParseInt s.

Example ParseInt_ex : map ParseInt ["-12"; "+7"; ""; "-"; "9223372036854775808"; "1_0"; "007"]
  = [Some (-12); Some 7; None; None; None; None; Some 7].
Proof. reflexivity. Qed.

(** ** Padding: %04d and %08x *)

Definition zeros (n : nat) : string := String.string_of_list_ascii (replicate n "0"%char).

Definition pad_left (width : nat) (s : string) : string :=
  zeros (width - String.length s) ++s s.

(** %04d: the width includes the sign, the zeros come after it. *)
Definition fmt_04d (n : Z) : string :=
  if n <? 0 then "-" ++s pad_left 3 (FormatUint (- n)) else pad_left 4 (FormatUint n).

Definition hex_chr (d : Z) : ascii := if d <? 10 then chr (48 + d) else chr (87 + d).

(** The [k] low hex digits of [n]; %08x of a uint32 is [hex_digits 8]. *)
Fixpoint hex_digits (k : nat) (n : Z) : string :=
  match k with
  | O => ""
  | S k => hex_digits k (n / 16) ++s String (hex_chr (n mod 16)) ""
  end.
Definition fmt_08x (n : Z) : string := hex_digits 8 n.

(** %x of a byte slice *)
Definition hex_bytes (l : list Z) : string := 
  foldr (fun b s => hex_digits 2 b ++s s) "" l.

(** ** Prefixes, suffixes, splitting *)

Definition HasPrefix (s p : string) : bool := String.prefix p s.

Definition rev_string (s : string) : string :=
  String.string_of_list_ascii (reverse (String.list_ascii_of_string s)).
Definition HasSuffix (s p : string) : bool := String.prefix (rev_string p) (rev_string s).
Definition take_string (n : nat) (s : string) : string :=
  String.string_of_list_ascii (take n (String.list_ascii_of_string s)).
Definition drop_string (n : nat) (s : string) : string :=
  String.string_of_list_ascii (drop n (String.list_ascii_of_string s)).
Definition TrimSuffix (s p : string) : string :=
  if HasSuffix s p then take_string (String.length s - String.length p) s else s.

(** strings.Split(s, sep) for a one-byte separator: never empty. *)
Fixpoint split_chr (sep : ascii) (s : string) : list string :=
  match s with
  | EmptyString => [""]
  | String c s =>
      if Ascii.eqb c sep then "" :: split_chr sep s
      else match split_chr sep s with
           | h :: t => String c h :: t
           | [] => [String c ""]
           end
  end.

(** strings.SplitN(s, sep, 2): at the first separator only. *)
Fixpoint cut_chr (sep : ascii) (s : string) : option (string * string) :=
  match s with
  | EmptyString => None
  | String c s =>
      if Ascii.eqb c sep then Some ("", s)
      else '(a, b) ← cut_chr sep s; Some (String c a, b)
  end.
Definition SplitN2 (sep : ascii) (s : string) : list string :=
  match cut_chr sep s with Some (a, b) => [a; b] | None => [s] end.

(** strings.TrimSpace: the white space runes of unicode.IsSpace, by their
    UTF-8 encodings. *)
Definition bytes (l : list Z) : string := String.string_of_list_ascii (map chr l).
Definition space_runes : list string :=
  map bytes
    ([[9]; [10]; [11]; [12]; [13]; [32]; [194; 133]; [194; 160]; [225; 154; 128];
      [226; 128; 168]; [226; 128; 169]; [226; 128; 175]; [226; 129; 159]; [227; 128; 128]]
     ++ map (fun i => [226; 128; i]) (seqZ 128 11)).

Fixpoint strip_one (pats : list string) (s : string) : option string :=
  match pats with
  | [] => None
  | p :: pats =>
      if String.prefix p s then Some (drop_string (String.length p) s) else strip_one pats s
  end.
Fixpoint strip_loop (fuel : nat) (pats : list string) (s : string) : string :=
  match fuel with
  | O => s
  | S fuel => match strip_one pats s with Some s' => strip_loop fuel pats s' | None => s end
  end.
Definition TrimLeftSpace (s : string) : string := strip_loop (String.length s) space_runes s.
Definition TrimSpace (s : string) : string :=
  let l := TrimLeftSpace s in
  rev_string (strip_loop (String.length l) (map rev_string space_runes) (rev_string l)).

Example TrimSpace_ex : TrimSpace "  a b	 " = "a b".
Proof. reflexivity. Qed.
Example split_ex : split_chr "," "a,,b" = ["a"; ""; "b"].
Proof. reflexivity. Qed.


(** ** Round trips *)

Lemma fmt_loop_parse fuel : forall n acc a0,
  0 <= n -> n < 2 ^ Z.of_nat fuel -> a0 = 0 ->
  parse_digits a0 (fmt_loop fuel n acc) = parse_digits n acc.
Proof.
  induction fuel as [|fuel IH]; intros n acc a0 Hn Hf ->; cbn [fmt_loop].
  { change (2 ^ Z.of_nat 0) with 1 in Hf. by replace n with 0 by lia. }
  pose proof (Z.mod_pos_bound n 10). pose proof (Z.div_mod n 10).
  destruct (digit_chr_ok (n mod 10)) as [Hd Hv]; [lia|].
  destruct (Z.ltb_spec n 10).
  - cbn [parse_digits]. rewrite Hd, Hv. f_equal. rewrite Z.mod_small; lia.
  - rewrite Nat2Z.inj_succ, Z.pow_succ_r in Hf by lia.
    rewrite IH by lia. cbn [parse_digits]. rewrite Hd, Hv. f_equal. lia.
Qed.

Lemma fmt_fuel_enough n : 0 <= n -> n < 2 ^ Z.of_nat (fmt_fuel n).
Proof.
  intros Hn. unfold fmt_fuel. pose proof (Z.log2_nonneg n).
  rewrite Nat2Z.inj_succ, Z2Nat.id by lia.
  destruct (Z.eq_dec n 0) as [->|]; [done|]. apply Z.log2_spec. lia.
Qed.

Lemma parse_FormatUint n : 0 <= n -> parse_digits 0 (FormatUint n) = Some n.
Proof.
  intros Hn. unfold FormatUint. rewrite fmt_loop_parse by (auto using fmt_fuel_enough). done.
Qed.

Lemma fmt_loop_nonempty fuel n acc : acc <> "" -> fmt_loop fuel n acc <> "".
Proof.
  revert n acc. induction fuel as [|fuel IH]; intros n acc Hacc; cbn [fmt_loop]; [done|].
  destruct (n <? 10); [done|]. by apply IH.
Qed.

Lemma FormatUint_nonempty n : FormatUint n <> "".
Proof.
  unfold FormatUint, fmt_fuel. cbn [fmt_loop]. destruct (n <? 10); [done|].
  by apply fmt_loop_nonempty.
Qed.

Lemma ParseUint_FormatUint n : u64_ok n -> ParseUint (FormatUint n) = Some n.
Proof.
  unfold u64_ok. intros Hn. unfold ParseUint.
  pose proof (FormatUint_nonempty n). destruct (FormatUint n) eqn:E; [done|].
  rewrite <- E, parse_FormatUint by lia. simpl. by rewrite (proj2 (Z.ltb_lt _ _)) by lia.
Qed.

Lemma FormatUint_inj a b : 0 <= a -> 0 <= b -> FormatUint a = FormatUint b -> a = b.
Proof.
  intros Ha Hb E. apply (f_equal (parse_digits 0)) in E.
  rewrite !parse_FormatUint in E by done. congruence.
Qed.

Definition all_digits (s : string) : bool :=
  forallb is_digit (String.list_ascii_of_string s).

Lemma fmt_loop_digits fuel n acc :
  0 <= n -> all_digits acc = true -> all_digits (fmt_loop fuel n acc) = true.
Proof.
  revert n acc. induction fuel as [|fuel IH]; intros n acc Hn Hacc; cbn [fmt_loop]; [done|].
  pose proof (Z.mod_pos_bound n 10).
  assert (all_digits (String (digit_chr (n mod 10)) acc) = true).
  { unfold all_digits. simpl. destruct (digit_chr_ok (n mod 10)) as [-> _]; [lia|done]. }
  destruct (n <? 10); [done|]. apply IH; [|done]. apply Z.div_pos; lia.
Qed.

Lemma FormatUint_digits n : 0 <= n -> all_digits (FormatUint n) = true.
Proof. intros. by apply fmt_loop_digits. Qed.

(** A decimal numeral does not start with a sign. *)
Lemma ParseInt_digits s :
  all_digits s = true -> ParseInt s = (n ← ParseUint s; if n <? 2 ^ 63 then Some n else None).
Proof.
  intros Hs. destruct s as [|c s]; [done|]. unfold ParseInt.
  unfold all_digits in Hs. simpl in Hs. apply andb_true_iff in Hs as [Hc _].
  destruct c as [[] [] [] [] [] [] [] []]; try done; discriminate Hc.
Qed.

Lemma ParseInt_neg s :
  ParseInt (String "-" s) = (n ← ParseUint s; if n <=? 2 ^ 63 then Some (- n) else None).
Proof. reflexivity. Qed.

Lemma ParseInt_FormatInt n : i64_ok n -> ParseInt (FormatInt n) = Some n.
Proof.
  unfold i64_ok. intros Hn. unfold FormatInt. destruct (Z.ltb_spec n 0).
  - change ("-" ++s FormatUint (- n)) with (String "-" (FormatUint (- n))).
    rewrite ParseInt_neg, ParseUint_FormatUint by (unfold u64_ok; lia). simpl.
    rewrite (proj2 (Z.leb_le _ _)) by lia. f_equal. lia.
  - rewrite ParseInt_digits by (by apply FormatUint_digits).
    rewrite ParseUint_FormatUint by (unfold u64_ok; lia). simpl.
    by rewrite (proj2 (Z.ltb_lt _ _)) by lia.
Qed.

Lemma parse_zeros k s : parse_digits 0 (zeros k ++s s) = parse_digits 0 s.
Proof. induction k as [|k IH]; [done|]. simpl. exact IH. Qed.

Lemma fmt_04d_inj a b : 0 <= a -> 0 <= b -> fmt_04d a = fmt_04d b -> a = b.
Proof.
  intros Ha Hb. unfold fmt_04d.
  rewrite (proj2 (Z.ltb_ge a 0)), (proj2 (Z.ltb_ge b 0)) by lia.
  intros E. apply (f_equal (parse_digits 0)) in E. unfold pad_left in E.
  rewrite !parse_zeros, !parse_FormatUint in E by done. congruence.
Qed.

(** ** Append *)

Lemma append_inj_l a b c : a ++s b = a ++s c -> b = c.
Proof. intros H. induction a; simpl in *; [done|]. simplify_eq. auto. Qed.

Lemma length_append a b : String.length (a ++s b) = (String.length a + String.length b)%nat.
Proof. induction a; simpl; auto. Qed.

Lemma append_inj_len a a' b b' :
  String.length a = String.length a' -> a ++s b = a' ++s b' -> a = a' /\ b = b'.
Proof.
  revert a'. induction a as [|c a IH]; intros [|c' a'] Hl H; simplify_eq/=; [done|].
  destruct (IH a') as [-> ->]; auto.
Qed.

Lemma append_inj_len_r a a' b b' :
  String.length b = String.length b' -> a ++s b = a' ++s b' -> a = a' /\ b = b'.
Proof.
  intros Hl H. apply append_inj_len; [|done].
  apply (f_equal String.length) in H. rewrite !length_append in H. lia.
Qed.

(** ** Hexadecimal *)

Lemma hex_chr_inj a b : 0 <= a < 16 -> 0 <= b < 16 -> hex_chr a = hex_chr b -> a = b.
Proof.
  intros Ha Hb E. apply (f_equal ord) in E. unfold hex_chr in E.
  destruct (Z.ltb_spec a 10), (Z.ltb_spec b 10); rewrite !ord_chr in E by lia; lia.
Qed.

Lemma length_hex_digits k n : String.length (hex_digits k n) = k.
Proof.
  revert n. induction k as [|k IH]; intros n; [done|]. cbn [hex_digits].
  rewrite length_append, IH. simpl. lia.
Qed.

Lemma hex_digits_inj k : forall a b,
  0 <= a < 16 ^ Z.of_nat k -> 0 <= b < 16 ^ Z.of_nat k ->
  hex_digits k a = hex_digits k b -> a = b.
Proof.
  induction k as [|k IH]; intros a b Ha Hb E.
  { change (16 ^ Z.of_nat 0) with 1 in *. lia. }
  cbn [hex_digits] in E. apply append_inj_len_r in E as [E1 E2]; [|done].
  injection E2 as E2. rewrite Nat2Z.inj_succ, Z.pow_succ_r in * by lia.
  pose proof (Z.mod_pos_bound a 16). pose proof (Z.mod_pos_bound b 16).
  pose proof (Z.div_mod a 16). pose proof (Z.div_mod b 16).
  apply hex_chr_inj in E2; [|lia..].
  apply IH in E1; [lia|split; [apply Z.div_pos|apply Z.div_lt_upper_bound]; lia..].
Qed.

(** ** Suffixes *)

Lemma list_ascii_append a b :
  String.list_ascii_of_string (a ++s b)
  = (String.list_ascii_of_string a ++ String.list_ascii_of_string b)%list.
Proof. induction a as [|c a IH]; simpl; [done|by rewrite IH]. Qed.

Lemma string_of_list_append l k :
  String.string_of_list_ascii (l ++ k)
  = String.string_of_list_ascii l ++s String.string_of_list_ascii k.
Proof. induction l as [|c l IH]; simpl; [done|by rewrite IH]. Qed.

Lemma rev_string_append a b : rev_string (a ++s b) = rev_string b ++s rev_string a.
Proof. unfold rev_string. by rewrite list_ascii_append, reverse_app, string_of_list_append. Qed.

Lemma prefix_append p s : String.prefix p (p ++s s) = true.
Proof. induction p as [|c p IH]; simpl; [by destruct s|].
  destruct (ascii_dec c c); [apply IH|congruence].
Qed.

Lemma HasSuffix_append a p : HasSuffix (a ++s p) p = true.
Proof. unfold HasSuffix. rewrite rev_string_append. apply prefix_append. Qed.

Lemma length_list_ascii a : length (String.list_ascii_of_string a) = String.length a.
Proof. induction a; simpl; auto. Qed.

Lemma TrimSuffix_append a p : TrimSuffix (a ++s p) p = a.
Proof.
  unfold TrimSuffix. rewrite HasSuffix_append, length_append, Nat.add_sub.
  unfold take_string. rewrite list_ascii_append, <- length_list_ascii, take_app_length.
  apply String.string_of_list_ascii_of_string.
Qed.

(** Cutting at the first separator. *)
Definition has_chr (c : ascii) (s : string) : bool :=
  existsb (Ascii.eqb c) (String.list_ascii_of_string s).

Lemma cut_chr_append sep a b : has_chr sep a = false ->
  cut_chr sep (a ++s String sep b) = Some (a, b).
Proof.
  unfold has_chr. induction a as [|c a IH]; intros H; cbn [String.list_ascii_of_string existsb] in H.
  - rewrite append_nil_l. cbn [cut_chr]. by rewrite Ascii.eqb_refl.
  - apply orb_false_iff in H as [Hc H]. rewrite append_cons. cbn [cut_chr].
    rewrite Ascii.eqb_sym, Hc, IH by done. done.
Qed.

(** ** Errors and formatted messages

    fmt.Errorf and fmt.Sprintf build a message from literal text and arguments.
    %s and %d arguments are spliced in as text; a %q argument and a float
    argument (with its verb) stay symbolic, since nothing the harness computes
    depends on how they are rendered. *)

Inductive frag :=
  | Lit (s : string)
  | Quoted (s : string)
  | FloatArg (verb : string) (f : float64).

Definition message : Type := list frag.

(** The literal text a message starts with. *)
Fixpoint leading_text (m : message) : string :=
  match m with
  | Lit s :: m => s ++s leading_text m
  | _ => ""
  end.

(** strings.HasPrefix(e.Error(), p), for a message whose leading text is at
    least as long as [p]. *)
Definition msg_HasPrefix (m : message) (p : string) : bool := HasPrefix (leading_text m) p.

(** A Go (value, error) pair whose value is only used when the error is nil. *)
Inductive result (A : Type) : Type :=
  | Ok (a : A)
  | Err (e : message).
Arguments Ok {A} a.
Arguments Err {A} e.

#[export] Instance result_bind : MBind result := fun A B f r =>
  match r with Ok a => f a | Err e => Err e end.

Definition is_ok {A} (r : result A) : bool := match r with Ok _ => true | Err _ => false end.

(** The bytes of a string, as []byte(s) yields them. *)
Definition string_bytes (s : string) : list Z := map ord (String.list_ascii_of_string s).
Definition byte_ok (b : Z) : Prop := 0 <= b < 256.

Lemma ord_inj c c' : ord c = ord c' -> c = c'.
Proof.
  unfold ord. intros H.
  rewrite <- (ascii_nat_embedding c), <- (ascii_nat_embedding c'). f_equal. lia.
Qed.

Lemma string_bytes_cons c s : string_bytes (String c s) = ord c :: string_bytes s.
Proof. done. Qed.

Lemma string_bytes_inj a b : string_bytes a = string_bytes b -> a = b.
Proof.
  revert b. induction a as [|c a IH]; intros [|c' b] H; try done.
  rewrite !string_bytes_cons in H.
  pose proof (f_equal (hd 0) H) as H1. pose proof (f_equal (@tl Z) H) as H2.
  f_equal; [by apply ord_inj | by apply IH].
Qed.

Lemma string_bytes_ok s : Forall byte_ok (string_bytes s).
Proof. apply Forall_map, Forall_true. intros c. apply ord_range. Qed.

Lemma length_string_bytes s : length (string_bytes s) = String.length s.
Proof.
  unfold string_bytes. rewrite length_map. induction s; simpl; auto.
Qed.
