(* ===== verification/Payload.v ===== *)
(** * Message bodies (burnin/payload/payload.go)

    CRC-32 (IEEE) as hash/crc32 computes it, [Build]/[VerifyCRC]/[CRC32Hex],
    MD5 and the canonical attribute encoding, and the weighted size
    distribution.  math/rand is an argument: the words or the number drawn. *)

From S2P Require Import Prelude Float64 GoStr.
From Stdlib Require Import Ascii.
From stdpp Require Import sorting.
Local Open Scope Z_scope.

Definition AttrWorkerID : string := "WorkerId".
Definition AttrSequence : string := "Sequence".
Definition AttrContentHash : string := "ContentHash".
Definition AttrTimestampNS : string := "TimestampNs".

(** ** CRC-32 *)

Module Crc32.

Definition poly : Z := 0xEDB88320.

(** One bit of the table generator of hash/crc32. *)
Definition step (crc : Z) : Z :=
  if Z.odd crc then Z.lxor (Z.shiftr crc 1) poly else Z.shiftr crc 1.
Definition table (i : Z) : Z := Nat.iter 8 step i.

(** crc = tab[byte(crc)^v] ^ (crc >> 8) *)
Definition update1 (crc v : Z) : Z :=
  Z.lxor (table (Z.lxor (Z.land crc 255) v)) (Z.shiftr crc 8).
Definition update (crc : Z) (l : list Z) : Z := foldl update1 crc l.

(** crc32.ChecksumIEEE *)
Definition ChecksumIEEE (l : list Z) : Z := Z.lxor (update 0xFFFFFFFF l) 0xFFFFFFFF.

Example checksum_vector : ChecksumIEEE (string_bytes "123456789") = 0xCBF43926.
Proof. reflexivity. Qed.


(** *** Linearity

    Everything the checksum promises follows from three facts: [step] is linear
    over xor, shifting in zero bits undoes it, and its kernel on 32-bit values is 0. *)

Lemma step_eq c : step c = Z.lxor (Z.shiftr c 1) (if Z.odd c then poly else 0).
Proof. unfold step. case_match; [done|]. by rewrite Z.lxor_0_r. Qed.

Lemma step_lxor a b : step (Z.lxor a b) = Z.lxor (step a) (step b).
Proof.
  rewrite !step_eq, Z.shiftr_lxor.
  assert (Z.odd (Z.lxor a b) = xorb (Z.odd a) (Z.odd b)) as ->.
  { by rewrite <- !Z.bit0_odd, Z.lxor_spec. }
  destruct (Z.odd a), (Z.odd b); cbn [xorb];
    by rewrite (lxor_swap _ _ _ _), ?Z.lxor_nilpotent, ?Z.lxor_0_r.
Qed.

Lemma step_shiftl x : step (Z.shiftl x 1) = x.
Proof.
  rewrite step_eq, Z.shiftr_shiftl_l by lia. rewrite <- (Z.bit0_odd (Z.shiftl x 1)).
  rewrite Z.shiftl_spec_low by lia. by rewrite Z.lxor_0_r, Z.shiftl_0_r.
Qed.

Lemma steps_lxor n a b :
  Nat.iter n step (Z.lxor a b) = Z.lxor (Nat.iter n step a) (Nat.iter n step b).
Proof. induction n as [|n IH]; simpl; [done|]. by rewrite IH, step_lxor. Qed.

Lemma steps_shiftl n x : Nat.iter n step (Z.shiftl x (Z.of_nat n)) = x.
Proof.
  induction n as [|n IH]; [apply Z.shiftl_0_r|].
  rewrite Nat.iter_succ_r.
  replace (Z.of_nat (S n)) with (Z.of_nat n + 1) by lia.
  rewrite <- Z.shiftl_shiftl by lia. by rewrite step_shiftl.
Qed.

Lemma step_range c : 0 <= c < 2 ^ 32 -> 0 <= step c < 2 ^ 32.
Proof.
  intros H. rewrite step_eq.
  assert (0 <= Z.shiftr c 1 < 2 ^ 32).
  { rewrite Z.shiftr_div_pow2 by lia. split; [apply Z.div_pos; lia|].
    apply Z.div_lt_upper_bound; lia. }
  assert (0 <= (if Z.odd c then poly else 0) < 2 ^ 32) by (unfold poly; case_match; lia).
  by apply lxor_range.
Qed.

Lemma step_kernel c : 0 <= c < 2 ^ 32 -> step c = 0 -> c = 0.
Proof.
  intros H. rewrite step_eq, <- Z.div2_spec. intros E%Z.lxor_eq.
  pose proof (Z.div2_odd c). unfold poly in E. destruct (Z.odd c); simpl in *; lia.
Qed.

Lemma steps_kernel n c : 0 <= c < 2 ^ 32 -> Nat.iter n step c = 0 -> c = 0.
Proof.
  revert c. induction n as [|n IH]; intros c Hc; [done|].
  rewrite Nat.iter_succ_r. intros E. apply IH in E; [by apply step_kernel|by apply step_range].
Qed.

(** The bits of a message in transmission order: the little-endian number its bytes spell. *)
Fixpoint message_bits (l : list Z) : Z :=
  match l with
  | [] => 0
  | v :: l => Z.lxor v (Z.shiftl (message_bits l) 8)
  end.

Lemma byte_high v i : byte_ok v -> 8 <= i -> Z.testbit v i = false.
Proof.
  intros [H0 H1] Hi. destruct (decide (v = 0)) as [->|]; [apply Z.testbit_0_l|].
  apply Z.bits_above_log2; [lia|]. apply Z.lt_le_trans with 8; [apply Z.log2_lt_pow2; lia|lia].
Qed.

(** The table is only indexed by a byte: its 256 entries suffice. *)
Lemma update1_steps crc v : byte_ok v -> 0 <= crc ->
  update1 crc v = Nat.iter 8 step (Z.lxor crc v).
Proof.
  intros Hv Hc. unfold update1, table.
  rewrite <- (steps_shiftl 8 (Z.shiftr crc 8)). rewrite <- steps_lxor. f_equal.
  apply Z.bits_inj'. intros n Hn. rewrite !Z.lxor_spec, Z.land_spec.
  destruct (decide (n < 8)).
  - rewrite Z.shiftl_spec_low by lia. change 255 with (Z.ones 8).
    rewrite Z.ones_spec_low by lia. by rewrite andb_true_r, xorb_false_r.
  - rewrite Z.shiftl_spec, Z.shiftr_spec by lia. change 255 with (Z.ones 8).
    rewrite Z.ones_spec_high by lia. rewrite andb_false_r.
    replace (n - Z.of_nat 8 + 8) with n by lia.
    rewrite (byte_high v n) by (done || lia).
    by destruct (Z.testbit crc n).
Qed.

Lemma steps_range n c : 0 <= c < 2 ^ 32 -> 0 <= Nat.iter n step c < 2 ^ 32.
Proof. induction n; simpl; auto using step_range. Qed.

Lemma update_steps l crc : Forall byte_ok l -> 0 <= crc < 2 ^ 32 ->
  update crc l = Nat.iter (8 * length l) step (Z.lxor crc (message_bits l)).
Proof.
  intros Hl. revert crc. induction Hl as [|v l Hv Hl IH]; intros crc Hc.
  { simpl. by rewrite Z.lxor_0_r. }
  assert (Hx : 0 <= Z.lxor crc v < 2 ^ 32) by (apply lxor_range; unfold byte_ok in *; lia).
  change (update crc (v :: l)) with (update (update1 crc v) l).
  rewrite update1_steps, IH by (try apply steps_range; auto; lia).
  cbn [message_bits length]. rewrite <- (steps_shiftl 8 (message_bits l)) at 1.
  rewrite <- steps_lxor, <- Z.lxor_assoc. change (Z.of_nat 8) with 8.
  rewrite <- Nat.iter_add. f_equal. lia.
Qed.

(** The xor of two checksums depends only on where the messages differ. *)
Lemma update_difference l l' crc : Forall byte_ok l -> Forall byte_ok l' ->
  length l = length l' -> 0 <= crc < 2 ^ 32 ->
  Z.lxor (update crc l) (update crc l')
  = Nat.iter (8 * length l) step (Z.lxor (message_bits l) (message_bits l')).
Proof.
  intros Hl Hl' Hlen Hc. rewrite !update_steps by done. rewrite <- Hlen, <- steps_lxor.
  by rewrite lxor_swap, Z.lxor_nilpotent, Z.lxor_0_l.
Qed.

Lemma message_bits_nonneg l : Forall byte_ok l -> 0 <= message_bits l.
Proof.
  induction 1 as [|v l [Hv _] Hl IH]; cbn [message_bits]; [done|].
  apply Z.lxor_nonneg. split; [|done]. intros _. by apply Z.shiftl_nonneg.
Qed.

Lemma message_bits_high l i : Forall byte_ok l -> 8 * Z.of_nat (length l) <= i ->
  Z.testbit (message_bits l) i = false.
Proof.
  intros Hl. revert i. induction Hl as [|v l Hv Hl IH]; intros i Hi; cbn [message_bits length] in *.
  { by rewrite Z.testbit_0_l. }
  rewrite Z.lxor_spec, Z.shiftl_spec by lia. rewrite IH by lia.
  by rewrite byte_high by (done || lia).
Qed.

Lemma message_bits_inj l l' : Forall byte_ok l -> Forall byte_ok l' ->
  length l = length l' -> message_bits l = message_bits l' -> l = l'.
Proof.
  intros Hl. revert l'. induction Hl as [|v l Hv Hl IH]; intros l' Hl' Hlen E.
  { by destruct l'. }
  destruct Hl' as [|v' l' Hv' Hl']; [done|]. cbn [message_bits] in E.
  assert (Hb : forall i, 0 <= i -> Z.testbit (Z.lxor v (Z.shiftl (message_bits l) 8)) i
    = Z.testbit (Z.lxor v' (Z.shiftl (message_bits l') 8)) i) by (intros; by rewrite E).
  assert (v = v') as ->.
  { apply Z.bits_inj'. intros i Hi. destruct (decide (i < 8)).
    - specialize (Hb i Hi). rewrite !Z.lxor_spec, !Z.shiftl_spec_low in Hb by lia.
      by rewrite !xorb_false_r in Hb.
    - by rewrite !byte_high by (done || lia). }
  f_equal. apply IH; [done|by injection Hlen|].
  apply Z.bits_inj'. intros i Hi. specialize (Hb (i + 8) ltac:(lia)).
  rewrite !Z.lxor_spec, !Z.shiftl_spec in Hb by lia. rewrite byte_high in Hb by (done || lia).
  by rewrite !xorb_false_l, !Z.add_simpl_r in Hb.
Qed.

End Crc32.

(** ** Bodies *)

Definition CRC32Hex (body : list Z) : string := fmt_08x (Crc32.ChecksumIEEE body).

Definition VerifyCRC (body : list Z) (crcHex : string) : bool :=
  String.eqb (fmt_08x (Crc32.ChecksumIEEE body)) crcHex.

Definition hexAlphabet : list Z := string_bytes "0123456789abcdef".

(** The inner loop of [randomHex]: up to [j] nibbles of [v], low nibble first. *)
Fixpoint hex_chunk (j todo : nat) (v : Z) : list Z :=
  match j, todo with
  | S j, S todo => nth (Z.to_nat (Z.land v 15)) hexAlphabet 0 :: hex_chunk j todo (Z.shiftr v 4)
  | _, _ => []
  end.

(** The outer loop draws a fresh word [rnd k] per chunk; [todo] bytes remain. *)
Fixpoint randomHex_loop (fuel : nat) (rnd : nat -> Z) (k todo : nat) : list Z :=
  match fuel with
  | O => []
  | S fuel =>
      match todo with
      | O => []
      | _ => hex_chunk 16 todo (rnd k) ++ randomHex_loop fuel rnd (S k) (todo - 16)
      end
  end.
Definition randomHex (rnd : nat -> Z) (n : Z) : list Z :=
  randomHex_loop (Z.to_nat n) rnd 0 (Z.to_nat n).

Definition Build (rnd : nat -> Z) (targetSize : Z) : list Z * string :=
  let targetSize := if targetSize <? 1 then 1 else targetSize in
  let body := randomHex rnd targetSize in
  (body, fmt_08x (Crc32.ChecksumIEEE body)).

(** ** Size distributions *)

Record SizeDistribution := mk_SizeDistribution {
  sizes : list Z; weights : list Z; total : Z
}.

Definition parse_entry (d : SizeDistribution) (p : string) : result SizeDistribution :=
  match SplitN2 ":" (TrimSpace p) with
  | [k; v] =>
      match Atoi (TrimSpace k) with
      | None => Err [Lit "invalid size in distribution: "; Quoted k]
      | Some size =>
          match Atoi (TrimSpace v) with
          | None => Err [Lit "invalid weight in distribution: "; Quoted v]
          | Some weight =>
              Ok (mk_SizeDistribution (sizes d ++ [size]) (weights d ++ [weight])
                                      (total d +i weight))
          end
      end
  | _ => Err [Lit "invalid distribution entry: "; Quoted p]
  end.

Fixpoint parse_entries (d : SizeDistribution) (ps : list string) : result SizeDistribution :=
  match ps with
  | [] => Ok d
  | p :: ps => d' ← parse_entry d p; parse_entries d' ps
  end.

Definition ParseDistribution (s : string) : result SizeDistribution :=
  d ← parse_entries (mk_SizeDistribution [] [] 0) (split_chr "," s);
  if total d =? 0 then Err [Lit "distribution total weight must be > 0"] else Ok d.

(** The loop of [SelectSize]: the first index whose cumulative weight exceeds [r]. *)
Fixpoint select_loop (r cumulative : Z) (ws ss : list Z) : option Z :=
  match ws, ss with
  | w :: ws, s :: ss =>
      let cumulative := cumulative +i w in
      if r <? cumulative then Some s else select_loop r cumulative ws ss
  | _, _ => None
  end.

(** [SelectSize] on the number [r] that rand.IntN(d.total) returned. *)
Definition SelectSize (d : SizeDistribution) (r : Z) : Z :=
  match select_loop r 0 (weights d) (sizes d) with
  | Some s => s
  | None => List.last (sizes d) 0
  end.

Example ParseDistribution_default :
  ParseDistribution "256:80,4096:15,65536:5" =
  Ok (mk_SizeDistribution [256; 4096; 65536] [80; 15; 5] 100).
Proof. reflexivity. Qed.

(** rand.IntN panics on such a total. *)
Example ParseDistribution_negative :
  ParseDistribution "256:-3" = Ok (mk_SizeDistribution [256] [-3] (-3)).
Proof. reflexivity. Qed.

(** ** The checksum *)

Lemma update_range l crc : Forall byte_ok l -> 0 <= crc < 2 ^ 32 ->
  0 <= Crc32.update crc l < 2 ^ 32.
Proof.
  intros Hl. revert crc. induction Hl as [|v l Hv Hl IH]; intros crc Hc; [done|].
  apply IH. rewrite Crc32.update1_steps by (done || lia).
  apply Crc32.steps_range, lxor_range; unfold byte_ok in *; lia.
Qed.

Lemma ChecksumIEEE_range l : Forall byte_ok l -> 0 <= Crc32.ChecksumIEEE l < 2 ^ 32.
Proof. intros Hl. apply lxor_range; [lia|apply update_range; [done|lia]|lia]. Qed.

Lemma fmt_08x_inj a b : 0 <= a < 2 ^ 32 -> 0 <= b < 2 ^ 32 -> fmt_08x a = fmt_08x b -> a = b.
Proof. intros Ha Hb. by apply hex_digits_inj. Qed.

Lemma VerifyCRC_CRC32Hex l : VerifyCRC l (CRC32Hex l) = true.
Proof. apply String.eqb_refl. Qed.

Lemma lxor_testbit_true a b i :
  Z.testbit (Z.lxor a b) i = true <-> Z.testbit a i <> Z.testbit b i.
Proof. rewrite Z.lxor_spec. destruct (Z.testbit a i), (Z.testbit b i); naive_solver. Qed.

Lemma burst_range a b k e : Z.lxor a b = Z.shiftl e k -> 0 <= k -> 0 < e < 2 ^ 32 ->
  forall i, Z.testbit a i <> Z.testbit b i -> k <= i < k + 32.
Proof.
  intros E Hk He i Hi%lxor_testbit_true. rewrite E in Hi.
  assert (0 <= i) by (apply Z.nlt_ge; intros ?; by rewrite Z.testbit_neg_r in Hi).
  rewrite Z.shiftl_spec in Hi by done.
  assert (0 <= i - k) by (apply Z.nlt_ge; intros ?; by rewrite Z.testbit_neg_r in Hi).
  split; [lia|]. apply Z.nle_gt. intros Hge. rewrite Z.bits_above_log2 in Hi; [done|lia|].
  apply Z.lt_le_trans with 32; [apply Z.log2_lt_pow2; lia|lia].
Qed.

(** A non-zero difference of at most 32 consecutive bits survives any number of
    further steps. *)
Lemma burst_survives d k n : 0 <= k -> k < Z.of_nat n -> 0 < d ->
  (forall i, Z.testbit d i = true -> k <= i < k + 32) -> Nat.iter n Crc32.step d <> 0.
Proof.
  intros Hk Hkn Hd Hbits E.
  set (e := Z.shiftr d k).
  assert (Hde : d = Z.shiftl e k).
  { apply Z.bits_inj'. intros i Hi. unfold e. rewrite Z.shiftl_spec by done.
    destruct (decide (i < k)).
    - rewrite (Z.testbit_neg_r _ (i - k)) by lia.
      apply not_true_is_false. intros ?%Hbits. lia.
    - rewrite Z.shiftr_spec by lia. f_equal. lia. }
  assert (He : 0 < e).
  { assert (0 <= e) by (apply Z.shiftr_nonneg; lia).
    destruct (decide (e = 0)) as [He|]; [|lia]. rewrite He, Z.shiftl_0_l in Hde. lia. }
  assert (He32 : 0 <= e < 2 ^ 32).
  { split; [lia|]. apply Z.log2_lt_pow2; [done|].
    pose proof (Z.bit_log2 e He) as Hb. unfold e in Hb at 1.
    rewrite Z.shiftr_spec in Hb by apply Z.log2_nonneg. apply Hbits in Hb. lia. }
  replace n with ((n - Z.to_nat k) + Z.to_nat k)%nat in E by lia.
  rewrite Nat.iter_add, Hde in E.
  replace k with (Z.of_nat (Z.to_nat k)) in E at 3 by lia.
  rewrite Crc32.steps_shiftl in E. apply Crc32.steps_kernel in E; lia.
Qed.

(** Two bodies of one length that differ, and only within 32 consecutive bits. *)
Definition burst_corrupted (body body' : list Z) : Prop :=
  Forall byte_ok body /\ Forall byte_ok body' /\ length body = length body' /\ body <> body' /\
  exists k, 0 <= k /\
    forall i, Z.testbit (Crc32.message_bits body) i <> Z.testbit (Crc32.message_bits body') i ->
              k <= i < k + 32.

Lemma burst_detected body body' : burst_corrupted body body' -> VerifyCRC body' (CRC32Hex body) = false.
Proof.
  intros (Hb & Hb' & Hlen & Hne & k & Hk & Hburst). unfold VerifyCRC, CRC32Hex. apply String.eqb_neq. intros E.
  apply fmt_08x_inj in E; [|apply ChecksumIEEE_range; done..].
  set (d := Z.lxor (Crc32.message_bits body) (Crc32.message_bits body')).
  assert (Hdi : forall i, Z.testbit d i = true ->
    Z.testbit (Crc32.message_bits body) i <> Z.testbit (Crc32.message_bits body') i).
  { intros i. apply lxor_testbit_true. }
  assert (Hd0 : d <> 0).
  { intros H%Z.lxor_eq. by apply Hne, Crc32.message_bits_inj. }
  assert (Hd : 0 < d).
  { assert (0 <= d); [|lia]. apply Z.lxor_nonneg.
    pose proof (Crc32.message_bits_nonneg _ Hb). pose proof (Crc32.message_bits_nonneg _ Hb'). lia. }
  assert (Hkn : k < Z.of_nat (8 * length body)).
  { pose proof (Z.bit_log2 d Hd) as Hl%Hdi. apply Z.nle_gt. intros Hge.
    pose proof (Hburst _ Hl). apply Hl. by rewrite !Crc32.message_bits_high by (done || lia). }
  apply (burst_survives d k (8 * length body)); try done; [by intros i ?%Hdi%Hburst|].
  unfold d. rewrite <- (Crc32.update_difference _ _ 0xFFFFFFFF) by (done || lia).
  unfold Crc32.ChecksumIEEE in E. apply Z.lxor_eq_0_iff.
  apply (f_equal (Z.lxor 0xFFFFFFFF)) in E.
  rewrite !(Z.lxor_comm _ 0xFFFFFFFF), <- !Z.lxor_assoc, Z.lxor_nilpotent, !Z.lxor_0_l in E.
  done.
Qed.

(** C9: integrity checking.  A body that differs from the published one, but only
    within some 32 consecutive bits (a bit flip, a corrupted byte, a corrupted
    aligned or unaligned 4-byte word), never passes [VerifyCRC] against the hash
    stamped on the published body, whatever its length. *)
Theorem VerifyCRC_detects_burst body body' :
  burst_corrupted body body' -> VerifyCRC body' (CRC32Hex body) = false.
Proof. apply burst_detected. Qed.

Lemma VerifyCRC_detects_burst_witness :
  VerifyCRC (string_bytes "kubemq kafka burnin") (CRC32Hex (string_bytes "kubemq-kafka burnin")) = false.
Proof.
  apply VerifyCRC_detects_burst. unfold burst_corrupted.
  split; [apply string_bytes_ok|]. split; [apply string_bytes_ok|]. split; [reflexivity|].
  split; [discriminate|]. exists 48. split; [lia|].
  apply (burst_range _ _ _ 13); [vm_compute; reflexivity|lia|lia].
Defined.

(** ** Bodies *)

Lemma length_hex_chunk j n v : length (hex_chunk j n v) = Nat.min j n.
Proof. revert n v. induction j as [|j IH]; intros [|n] v; simpl; auto. Qed.

Lemma length_randomHex_loop fuel rnd k n : (n <= fuel)%nat ->
  length (randomHex_loop fuel rnd k n) = n.
Proof.
  revert k n. induction fuel as [|fuel IH]; intros k [|n] Hn; try done; [lia|].
  cbn [randomHex_loop]. rewrite length_app, IH by lia. rewrite length_hex_chunk. lia.
Qed.

Lemma hex_chunk_lookup j n v i : (i < j)%nat -> (i < n)%nat ->
  hex_chunk j n v !! i
  = Some (nth (Z.to_nat (Z.land (Z.shiftr v (4 * Z.of_nat i)) 15)) hexAlphabet 0).
Proof.
  revert n v i. induction j as [|j IH]; intros [|n] v [|i] Hj Hn; try lia; cbn [hex_chunk].
  - by rewrite Z.shiftr_0_r.
  - simpl lookup. rewrite IH, Z.shiftr_shiftr by lia.
    by replace (4 * Z.of_nat (S i)) with (4 + 4 * Z.of_nat i) by lia.
Qed.

Lemma randomHex_loop_lookup fuel rnd k n i : (n <= fuel)%nat -> (i < n)%nat ->
  randomHex_loop fuel rnd k n !! i
  = Some (nth (Z.to_nat (Z.land (Z.shiftr (rnd (k + i / 16)%nat) (4 * Z.of_nat (i mod 16))) 15))
              hexAlphabet 0).
Proof.
  revert k n i. induction fuel as [|fuel IH]; intros k n i Hn Hi; [lia|].
  destruct n as [|n]; [lia|]. cbn [randomHex_loop].
  pose proof (length_hex_chunk 16 (S n) (rnd k)) as Hl.
  destruct (decide (i < 16)%nat).
  - rewrite lookup_app_l by lia. rewrite hex_chunk_lookup, Nat.div_small, Nat.mod_small, Nat.add_0_r by lia. done.
  - rewrite lookup_app_r by lia. rewrite Hl, Nat.min_l by lia.
    rewrite IH by lia. set (m := (i - 16)%nat). replace i with (m + 1 * 16)%nat by lia.
    rewrite Nat.div_add, Nat.Div0.mod_add by lia.
    by replace (S k + m / 16)%nat with (k + (m / 16 + 1))%nat by lia.
Qed.

Lemma hexAlphabet_nibble v : nth (Z.to_nat (Z.land v 15)) hexAlphabet 0 ∈ hexAlphabet.
Proof.
  apply list_elem_of_In, nth_In. change 15 with (Z.ones 4). rewrite Z.land_ones by lia.
  pose proof (Z.mod_pos_bound v (2 ^ 4)). change (length hexAlphabet) with 16%nat. lia.
Qed.

(** C10: [Build] returns a body of exactly the requested size (at least one
    byte), every byte a lowercase hex digit and the [i]-th one the [i mod 16]-th
    nibble of the [i / 16]-th random word, with an 8-character hash that
    [VerifyCRC] accepts for that body. *)
Theorem Build_spec rnd targetSize :
  let '(body, crcHex) := Build rnd targetSize in
  Z.of_nat (length body) = Z.max 1 targetSize /\
  Forall (fun b => b ∈ hexAlphabet) body /\
  (forall i, (i < length body)%nat ->
     body !! i = Some (nth (Z.to_nat (Z.land (Z.shiftr (rnd (i / 16)%nat)
                                                       (4 * Z.of_nat (i mod 16))) 15))
                           hexAlphabet 0)) /\
  String.length crcHex = 8%nat /\ VerifyCRC body crcHex = true.
Proof.
  unfold Build. set (n := if targetSize <? 1 then 1 else targetSize).
  assert (Hn : n = Z.max 1 targetSize) by (unfold n; case_match; zify_bool; lia).
  assert (Hlen : length (randomHex rnd n) = Z.to_nat n)
    by (apply length_randomHex_loop; lia).
  assert (Hnth : forall i, (i < length (randomHex rnd n))%nat -> randomHex rnd n !! i
     = Some (nth (Z.to_nat (Z.land (Z.shiftr (rnd (i / 16)%nat) (4 * Z.of_nat (i mod 16))) 15))
                 hexAlphabet 0)).
  { intros i Hi. rewrite Hlen in Hi. unfold randomHex. by rewrite randomHex_loop_lookup by lia. }
  split_and!; [lia| |done|apply length_hex_digits|apply VerifyCRC_CRC32Hex].
  apply Forall_lookup. intros i b Hb. pose proof (lookup_lt_Some _ _ _ Hb) as Hi.
  rewrite Hnth in Hb by done. injection Hb as <-. apply hexAlphabet_nibble.
Qed.

(** ** Size selection *)

Definition wsum (ws : list Z) : Z := foldr Z.add 0 ws.

Lemma wsum_cons w ws : wsum (w :: ws) = w + wsum ws.
Proof. done. Qed.

Lemma wsum_snoc ws w : wsum (ws ++ [w]) = wsum ws + w.
Proof. induction ws as [|v ws IH]; cbn [app]; rewrite ?wsum_cons, ?IH; simpl; lia. Qed.

Lemma wsum_take_le n ws : Forall (Z.le 0) ws -> 0 <= wsum (take n ws) <= wsum ws.
Proof.
  intros H. revert n. induction H as [|w ws Hw _ IH]; intros [|n]; cbn [take];
    rewrite ?wsum_cons; simpl; try lia; [pose proof (IH 0%nat)|pose proof (IH n)]; simpl in *; lia.
Qed.

(** What [ParseDistribution] builds: parallel lists and their total. *)
Definition distribution_wf (d : SizeDistribution) : Prop :=
  length (sizes d) = length (weights d) /\ total d = i64_wrap (wsum (weights d)).

Lemma parse_entry_wf d p d' : distribution_wf d -> parse_entry d p = Ok d' ->
  distribution_wf d' /\ weights d' <> [].
Proof.
  intros [Hl Ht] E. unfold parse_entry in E. repeat case_match; simplify_eq/=.
  unfold distribution_wf; simpl. rewrite !length_app, wsum_snoc, Ht, i64_wrap_add_l. simpl.
  split_and!; [lia|done|]. by destruct (weights d).
Qed.

Lemma parse_entries_wf ps d d' : distribution_wf d -> parse_entries d ps = Ok d' ->
  distribution_wf d' /\ (ps <> [] -> weights d' <> []).
Proof.
  revert d. induction ps as [|p ps IH]; intros d Hd E; simplify_eq/=; [done|].
  destruct (parse_entry d p) as [d1|] eqn:E1; simplify_eq/=.
  apply parse_entry_wf in E1 as [Hd1 Hne]; [|done].
  pose proof (IH _ Hd1 E) as [? Hne']. split; [done|]. intros _.
  destruct ps; [by simplify_eq/=|]. by apply Hne'.
Qed.

Lemma ParseDistribution_wf s d : ParseDistribution s = Ok d ->
  distribution_wf d /\ total d <> 0.
Proof.
  unfold ParseDistribution. intros E.
  destruct (parse_entries _ _) as [d1|] eqn:E1; simplify_eq/=.
  apply parse_entries_wf in E1 as [? _]; [|done].
  destruct (total d1 =? 0) eqn:Et; simplify_eq. by zify_bool.
Qed.

Lemma select_loop_spec ws : forall ss r c, length ss = length ws -> Forall (Z.le 0) ws ->
  0 <= c <= r -> r < c + wsum ws -> c + wsum ws < 2 ^ 63 ->
  exists i x, select_loop r c ws ss = Some x /\ ss !! i = Some x /\
    c + wsum (take i ws) <= r < c + wsum (take (S i) ws).
Proof.
  induction ws as [|w ws IH]; intros [|x ss] r c Hl Hws Hc Hr Hs; simplify_eq/=; try lia.
  apply Forall_cons in Hws as [Hw Hws]. pose proof (wsum_take_le (length ws) ws Hws).
  rewrite take_ge in * by lia. fold (wsum ws) in *.
  rewrite (i64_wrap_id (c + w)) by (unfold i64_ok; lia).
  destruct (r <? c + w) eqn:E; zify_bool.
  - exists 0%nat, x. simpl. split_and!; [done..|lia|lia].
  - destruct (IH ss r (c + w)) as (i & y & -> & Hi & Hb); [lia|done|lia|lia|lia|].
    exists (S i), y. cbn [take] in *. rewrite !wsum_cons in *. split_and!; [done..|lia|lia].
Qed.

(** Size selection is weighted.  For a distribution that [ParseDistribution]
    accepted, with non-negative weights whose sum is an int, every number that
    rand.IntN(total) can return selects the entry whose cumulative-weight interval
    contains it: entry [i] is chosen by exactly [weights !! i] of the [total]
    numbers, and the fallback after the loop is never reached. *)
Theorem SelectSize_weighted s d r :
  ParseDistribution s = Ok d -> Forall (Z.le 0) (weights d) -> wsum (weights d) < 2 ^ 63 ->
  0 <= r < total d ->
  total d = wsum (weights d) /\
  exists i, sizes d !! i = Some (SelectSize d r) /\
    wsum (take i (weights d)) <= r < wsum (take (S i) (weights d)).
Proof.
  intros [[Hl Ht] _]%ParseDistribution_wf Hw Hs Hr.
  pose proof (wsum_take_le 0 _ Hw). rewrite i64_wrap_id in Ht by (unfold i64_ok; lia).
  split; [done|]. unfold SelectSize.
  destruct (select_loop_spec (weights d) (sizes d) r 0) as (i & x & -> & Hi & Hb); try done; try lia.
  by exists i.
Qed.

Lemma SelectSize_weighted_witness :
  exists d, ParseDistribution "256:80,4096:15,65536:5" = Ok d /\ total d = 100 /\
    SelectSize d 79 = 256 /\ SelectSize d 80 = 4096 /\
    exists i, sizes d !! i = Some (SelectSize d 94) /\
      wsum (take i (weights d)) <= 94 < wsum (take (S i) (weights d)).
Proof.
  exists (mk_SizeDistribution [256; 4096; 65536] [80; 15; 5] 100).
  split; [reflexivity|]. split; [reflexivity|]. split; [reflexivity|]. split; [reflexivity|].
  apply (SelectSize_weighted "256:80,4096:15,65536:5");
    [reflexivity|simpl; repeat constructor; lia|reflexivity|simpl; lia].
Defined.
