(* ===== verification/Hashes.v ===== *)
(** * Content hashes (burnin/payload/payload.go)

    [MD5OfBody] and [CanonicalMD5OfAttributes].  crypto/md5 is the Standard
    library's: [Md5] is RFC 1321 on lists of bytes.  What the harness adds is the
    bytes it feeds to it, and the theorem is that they determine the attributes. *)

From S2P Require Import Prelude GoStr.
From stdpp Require Import sorting.
Local Open Scope string_scope.
Local Open Scope Z_scope.
Local Open Scope list_scope.

(** The [k] bytes of [z], least significant first, and most significant first. *)
Fixpoint le_bytes (k : nat) (z : Z) : list Z :=
  match k with O => [] | S k => z mod 256 :: le_bytes k (z / 256) end.
Definition be_bytes (k : nat) (z : Z) : list Z := rev (le_bytes k z).

Module Md5.

(** Thirty-two-bit words. *)
Definition rotl (x s : Z) : Z := u32_wrap (Z.lor (Z.shiftl x s) (Z.shiftr x (32 - s))).
Definition lnot32 (x : Z) : Z := Z.lxor x 0xffffffff.

Definition K : list Z :=
  [0xd76aa478; 0xe8c7b756; 0x242070db; 0xc1bdceee; 0xf57c0faf; 0x4787c62a;
   0xa8304613; 0xfd469501; 0x698098d8; 0x8b44f7af; 0xffff5bb1; 0x895cd7be;
   0x6b901122; 0xfd987193; 0xa679438e; 0x49b40821; 0xf61e2562; 0xc040b340;
   0x265e5a51; 0xe9b6c7aa; 0xd62f105d; 0x02441453; 0xd8a1e681; 0xe7d3fbc8;
   0x21e1cde6; 0xc33707d6; 0xf4d50d87; 0x455a14ed; 0xa9e3e905; 0xfcefa3f8;
   0x676f02d9; 0x8d2a4c8a; 0xfffa3942; 0x8771f681; 0x6d9d6122; 0xfde5380c;
   0xa4beea44; 0x4bdecfa9; 0xf6bb4b60; 0xbebfbc70; 0x289b7ec6; 0xeaa127fa;
   0xd4ef3085; 0x04881d05; 0xd9d4d039; 0xe6db99e5; 0x1fa27cf8; 0xc4ac5665;
   0xf4292244; 0x432aff97; 0xab9423a7; 0xfc93a039; 0x655b59c3; 0x8f0ccc92;
   0xffeff47d; 0x85845dd1; 0x6fa87e4f; 0xfe2ce6e0; 0xa3014314; 0x4e0811a1;
   0xf7537e82; 0xbd3af235; 0x2ad7d2bb; 0xeb86d391].

Definition S : list Z :=
  concat (map (fun r => concat (replicate 4 r))
    [[7; 12; 17; 22]; [5; 9; 14; 20]; [4; 11; 16; 23]; [6; 10; 15; 21]]).

Record digest := mk_digest { da : Z; db : Z; dc : Z; dd : Z }.

(** Operation [i] of a block: its mixing function and the word it reads. *)
Definition mix (i : nat) (b c d : Z) : Z :=
  match (i / 16)%nat with
  | 0%nat => Z.lor (Z.land b c) (Z.land (lnot32 b) d)
  | 1%nat => Z.lor (Z.land d b) (Z.land (lnot32 d) c)
  | 2%nat => Z.lxor b (Z.lxor c d)
  | _ => Z.lxor c (Z.lor b (lnot32 d))
  end.
Definition word_of (i : nat) : nat :=
  match (i / 16)%nat with
  | 0%nat => i
  | 1%nat => ((5 * i + 1) mod 16)%nat
  | 2%nat => ((3 * i + 5) mod 16)%nat
  | _ => ((7 * i) mod 16)%nat
  end.

Definition round (ws : list Z) (x : digest) (i : nat) : digest :=
  let f := u32_wrap (mix i (db x) (dc x) (dd x) + da x + nth i K 0 + nth (word_of i) ws 0) in
  mk_digest (dd x) (u32_wrap (db x + rotl f (nth i S 0))) (db x) (dc x).

Fixpoint words (n : nat) (l : list Z) : list Z :=
  match n, l with
  | Datatypes.S n, b0 :: b1 :: b2 :: b3 :: l => b0 + 256 * b1 + 65536 * b2 + 16777216 * b3 :: words n l
  | _, _ => []
  end.

Definition block (x : digest) (l : list Z) : digest :=
  let y := foldl (round (words 16 l)) x (seq 0 64) in
  mk_digest (u32_wrap (da x + da y)) (u32_wrap (db x + db y))
            (u32_wrap (dc x + dc y)) (u32_wrap (dd x + dd y)).

(** A 1 bit, zeros up to 56 modulo 64, the length in bits. *)
Definition pad (l : list Z) : list Z :=
  l ++ 0x80 :: replicate (Z.to_nat ((55 - Z.of_nat (length l)) mod 64)) 0
    ++ le_bytes 8 (u64_wrap (8 * Z.of_nat (length l))).

Fixpoint blocks (n : nat) (x : digest) (l : list Z) : digest :=
  match n with O => x | Datatypes.S n => blocks n (block x (take 64 l)) (drop 64 l) end.

(** md5.Sum *)
Definition Sum (l : list Z) : list Z :=
  let p := pad l in
  let x := blocks (length p / 64) (mk_digest 0x67452301 0xefcdab89 0x98badcfe 0x10325476) p in
  le_bytes 4 (da x) ++ le_bytes 4 (db x) ++ le_bytes 4 (dc x) ++ le_bytes 4 (dd x).

End Md5.

(** fmt.Sprintf("%x", md5.Sum([]byte(body))) *)
Definition MD5OfBody (body : string) : string := hex_bytes (Md5.Sum (string_bytes body)).

(** The test suite of RFC 1321. *)
Example md5_empty : MD5OfBody "" = "d41d8cd98f00b204e9800998ecf8427e".
Proof. vm_compute. reflexivity. Qed.
Example md5_digest : MD5OfBody "message digest" = "f96b697d7cb7938d525a2f31aaf161d0".
Proof. vm_compute. reflexivity. Qed.
Example md5_long :
  MD5OfBody "12345678901234567890123456789012345678901234567890123456789012345678901234567890"
  = "57edf4a22be3c955ac49da2e2107b67a".
Proof. vm_compute. reflexivity. Qed.

(** ** Attributes *)

Record AttrForMD5 := mk_AttrForMD5 { DataType : string; StringValue : string; BinaryValue : list Z }.

(** writeLP: a big-endian uint32 length, then the bytes. *)
Definition writeLP (b : list Z) : list Z := be_bytes 4 (u32_wrap (Z.of_nat (length b))) ++ b.

(** What the loop writes for one name. *)
Definition write_attr (n : string) (a : AttrForMD5) : list Z :=
  writeLP (string_bytes n) ++ writeLP (string_bytes (DataType a)) ++
  (if HasPrefix (DataType a) "Binary" then 2 :: writeLP (BinaryValue a)
   else 1 :: writeLP (string_bytes (StringValue a))).

(** sort.Strings *)
Definition sort_Strings : list string -> list string := merge_sort String.le.

(** Everything written to the hash; [order] is the order in which the range
    statement visits the keys of [attrs]. *)
Definition hashed_bytes (order : list string) (attrs : gmap string AttrForMD5) : list Z :=
  concat (map (fun n => write_attr n (default (mk_AttrForMD5 "" "" []) (attrs !! n))) (sort_Strings order)).

Definition CanonicalMD5OfAttributes (order : list string) (attrs : gmap string AttrForMD5) : string :=
  hex_bytes (Md5.Sum (hashed_bytes order attrs)).

(** * Properties *)

(** What the hash depends on: the type and the bytes of the value it selects. *)
Definition hashed_value (a : AttrForMD5) : string * list Z :=
  (DataType a, if HasPrefix (DataType a) "Binary" then BinaryValue a else string_bytes (StringValue a)).

(** Every length fits the 4-byte prefix. *)
Definition fits (n : string) (a : AttrForMD5) : Prop :=
  Z.of_nat (String.length n) < 2 ^ 32 /\ Z.of_nat (String.length (DataType a)) < 2 ^ 32 /\
  Z.of_nat (length (hashed_value a).2) < 2 ^ 32.

Lemma length_le_bytes k z : length (le_bytes k z) = k.
Proof. revert z. induction k as [|k IH]; intros z; [done|]. cbn. by rewrite IH. Qed.

Lemma le_bytes_inj k : forall a b, 0 <= a < 256 ^ Z.of_nat k -> 0 <= b < 256 ^ Z.of_nat k ->
  le_bytes k a = le_bytes k b -> a = b.
Proof.
  induction k as [|k IH]; intros a b Ha Hb E; [cbn in *; lia|].
  cbn [le_bytes] in E. injection E as Em Ed.
  rewrite Nat2Z.inj_succ, Z.pow_succ_r in Ha, Hb by lia.
  apply IH in Ed; [|split; [apply Z.div_pos; lia|apply Z.div_lt_upper_bound; lia]..].
  rewrite (Z.div_mod a 256), (Z.div_mod b 256) by lia. congruence.
Qed.

(** Length prefixes make the encoding self-delimiting. *)
Lemma writeLP_prefix a b r r' :
  Z.of_nat (length a) < 2 ^ 32 -> Z.of_nat (length b) < 2 ^ 32 ->
  writeLP a ++ r = writeLP b ++ r' -> a = b /\ r = r'.
Proof.
  unfold writeLP, be_bytes, u32_wrap. rewrite <- !app_assoc. intros Ha Hb E.
  rewrite !Z.mod_small in E by lia.
  apply app_inj_1 in E as [El E]; [|by rewrite !length_rev, !length_le_bytes].
  apply (f_equal (@rev Z)) in El. rewrite !rev_involutive in El.
  apply le_bytes_inj in El; [|lia..]. by apply app_inj_1 in E; [|lia].
Qed.

Lemma write_attr_prefix n a n' a' r r' : fits n a -> fits n' a' ->
  write_attr n a ++ r = write_attr n' a' ++ r' -> (n = n' /\ hashed_value a = hashed_value a') /\ r = r'.
Proof.
  unfold write_attr, fits, hashed_value. cbn [snd]. intros (Hn & Ht & Hv) (Hn' & Ht' & Hv').
  rewrite <- !app_assoc. intros E.
  apply writeLP_prefix in E as [En E]; [|by rewrite length_string_bytes..].
  apply writeLP_prefix in E as [Et E]; [|by rewrite length_string_bytes..].
  apply string_bytes_inj in En as ->. apply string_bytes_inj in Et. rewrite <- Et in *.
  destruct (HasPrefix (DataType a) "Binary"); cbn [app] in E;
    (apply (f_equal (@tail Z)) in E; cbn [tail] in E;
     apply writeLP_prefix in E as [-> ->]; done).
Qed.

Lemma write_attr_hashed n a a' : hashed_value a = hashed_value a' -> write_attr n a = write_attr n a'.
Proof.
  unfold hashed_value, write_attr. intros [= Et Ev]. rewrite <- Et in *.
  by destruct (HasPrefix (DataType a) "Binary"); rewrite Ev.
Qed.

Lemma write_attr_cons n a : exists b l, write_attr n a = b :: l.
Proof. unfold write_attr, writeLP, be_bytes. cbn [le_bytes rev app]. eauto. Qed.

Lemma write_attrs_inj l : forall l', Forall (fun p => fits p.1 p.2) l -> Forall (fun p => fits p.1 p.2) l' ->
  concat (map (fun p => write_attr p.1 p.2) l) = concat (map (fun p => write_attr p.1 p.2) l') ->
  map (fun p => (p.1, hashed_value p.2)) l = map (fun p => (p.1, hashed_value p.2)) l'.
Proof.
  induction l as [|[n a] l IH]; intros [|[n' a'] l'] Hl Hl' E; cbn [map concat fst snd] in *; [done|..].
  - destruct (write_attr_cons n' a') as (b & t & Ew). by rewrite Ew in E.
  - destruct (write_attr_cons n a) as (b & t & Ew). by rewrite Ew in E.
  - apply Forall_cons in Hl as [Ha Hl]. apply Forall_cons in Hl' as [Ha' Hl'].
    apply write_attr_prefix in E as [[-> ->] E]; [|done..]. f_equal. by apply IH.
Qed.

Lemma sort_Strings_perm l l' : l ≡ₚ l' -> sort_Strings l = sort_Strings l'.
Proof.
  intros Hp. apply (Sorted_unique String.le); try apply Sorted_merge_sort; try apply _.
  unfold sort_Strings. by rewrite !merge_sort_Permutation.
Qed.

Section Attributes.
Variable attrs : gmap string AttrForMD5.

Definition entry (n : string) : string * AttrForMD5 := (n, default (mk_AttrForMD5 "" "" []) (attrs !! n)).

Lemma hashed_bytes_entries order :
  hashed_bytes order attrs = concat (map (fun p => write_attr p.1 p.2) (map entry (sort_Strings order))).
Proof. unfold hashed_bytes. by rewrite map_map. Qed.

Lemma entries_fit order : order ≡ₚ elements (dom attrs) -> map_Forall fits attrs ->
  Forall (fun p => fits p.1 p.2) (map entry (sort_Strings order)).
Proof.
  intros Ho Hf. apply Forall_map, Forall_forall. intros n Hn. unfold sort_Strings in Hn.
  rewrite merge_sort_Permutation, Ho in Hn. apply elem_of_elements, elem_of_dom in Hn as [a Ha].
  unfold entry. rewrite Ha. by apply Hf.
Qed.

(** The entries written determine the map's hashed values. *)
Lemma lookup_entries order n : order ≡ₚ elements (dom attrs) ->
  hashed_value <$> attrs !! n =
  (list_to_map (map (fun p => (p.1, hashed_value p.2)) (map entry (sort_Strings order)))
    : gmap string (string * list Z)) !! n.
Proof.
  intros Ho. rewrite map_map. set (L := map _ _).
  assert (HL : forall m, m ∈ sort_Strings order <-> is_Some (attrs !! m)).
  { intros m. unfold sort_Strings. by rewrite merge_sort_Permutation, Ho, elem_of_elements, elem_of_dom. }
  assert (Hnd : NoDup L.*1).
  { unfold L. change (fmap fst (map ?f ?l)) with (map fst (map f l)). rewrite map_map. cbn. rewrite map_id.
    unfold sort_Strings. rewrite merge_sort_Permutation, Ho. apply NoDup_elements. }
  destruct (attrs !! n) as [a|] eqn:Ha; cbn; symmetry.
  - apply elem_of_list_to_map; [done|]. unfold L. apply list_elem_of_In, in_map_iff.
    exists n. unfold entry. rewrite Ha. split; [done|]. apply list_elem_of_In, HL. eauto.
  - apply not_elem_of_list_to_map. unfold L. change (fmap fst (map ?f ?l)) with (map fst (map f l)).
    rewrite map_map. cbn. rewrite map_id, HL, Ha. by intros [].
Qed.

End Attributes.

(** The canonical encoding is canonical.  Whatever the orders in which two range
    statements visit two attribute maps whose lengths fit 32 bits, the bytes hashed
    are the same exactly when the maps have the same names with the same data types
    and the same selected values; so two maps get different digests unless they
    agree or MD5 collides, and the digest does not depend on the visiting order. *)
Theorem canonical_attributes order order' attrs attrs' :
  order ≡ₚ elements (dom attrs) -> order' ≡ₚ elements (dom attrs') ->
  map_Forall fits attrs -> map_Forall fits attrs' ->
  hashed_bytes order attrs = hashed_bytes order' attrs' <-> hashed_value <$> attrs = hashed_value <$> attrs'.
Proof.
  intros Ho Ho' Hf Hf'. split; intros E.
  - rewrite !hashed_bytes_entries in E. apply write_attrs_inj in E; [|by apply entries_fit..].
    apply map_eq. intros n. rewrite !lookup_fmap, (lookup_entries attrs order), (lookup_entries attrs' order') by done.
    by rewrite E.
  - assert (Hd : dom attrs = dom attrs').
    { rewrite <- (dom_fmap_L hashed_value attrs), E. apply dom_fmap_L. }
    unfold hashed_bytes. rewrite (sort_Strings_perm order order') by (by rewrite Ho, Ho', Hd).
    f_equal. apply map_ext. intros n. apply write_attr_hashed.
    apply (f_equal (lookup n)) in E. rewrite !lookup_fmap in E.
    destruct (attrs !! n), (attrs' !! n); cbn in *; congruence.
Qed.

Lemma canonical_attributes_witness :
  let a := <[ "b" := mk_AttrForMD5 "String" "x" [] ]> {[ "a" := mk_AttrForMD5 "Binary" "ignored" [1; 2] ]} in
  let a' := <[ "b" := mk_AttrForMD5 "String" "x" [7] ]> {[ "a" := mk_AttrForMD5 "Binary" "" [1; 2] ]} in
  CanonicalMD5OfAttributes (elements (dom a)) a = CanonicalMD5OfAttributes (reverse (elements (dom a'))) a'.
Proof.
  intros a a'. unfold CanonicalMD5OfAttributes.
  assert (E : hashed_bytes (elements (dom a)) a = hashed_bytes (reverse (elements (dom a'))) a'); [|by rewrite E].
  apply (canonical_attributes (elements (dom a)) (reverse (elements (dom a'))) a a').
  - reflexivity.
  - apply reverse_Permutation.
  - apply map_Forall_insert_2; [|apply map_Forall_singleton]; unfold fits; split_and!; cbn; lia.
  - apply map_Forall_insert_2; [|apply map_Forall_singleton]; unfold fits; split_and!; cbn; lia.
  - unfold a, a'. rewrite !fmap_insert, !map_fmap_singleton. reflexivity.
Defined.
