(* ===== verification/Config.v ===== *)
(** * The configuration model (burnin/config/config.go)

    The records of the YAML schema, [DefaultConfig], the accessors the engine
    uses, [Load] with its environment overrides and duration parsing, and
    [Validate].  YAML decoding, the file system, the environment and the random
    source are arguments. *)

From S2P Require Import Prelude Float64 GoStr.
From Stdlib Require Import Ascii.
Local Open Scope string_scope.
Local Open Scope Z_scope.

Definition ConfigVersion : string := "2".

Definition WorkerProduceRoundTrip : string := "produce_round_trip".
Definition WorkerKeyedOrdering : string := "keyed_ordering".
Definition WorkerConsumerGroup : string := "consumer_group".
Definition WorkerOffsetCommitLag : string := "offset_commit_lag".
Definition WorkerAdminTopicChurn : string := "admin_topic_churn".
Definition WorkerTransactionsEOS : string := "transactions_eos".

Definition AllWorkerNames : list string :=
  [WorkerProduceRoundTrip; WorkerKeyedOrdering; WorkerConsumerGroup;
   WorkerOffsetCommitLag; WorkerAdminTopicChurn; WorkerTransactionsEOS].

Definition IsTransactionsWorker (name : string) : bool := String.eqb name WorkerTransactionsEOS.
Definition IsAdminWorker (name : string) : bool := String.eqb name WorkerAdminTopicChurn.
Definition IsOffsetLagWorker (name : string) : bool := String.eqb name WorkerOffsetCommitLag.
Definition IsKeyedWorker (name : string) : bool := String.eqb name WorkerKeyedOrdering.
Definition IsConsumerGroupWorker (name : string) : bool := String.eqb name WorkerConsumerGroup.

(** ** The schema

    [ForcedDisconnConfig]'s fields and [WarmupConfig]'s carry a prefix where
    the Go name is taken by a field of another record. *)

Record BrokerConfig := mk_BrokerConfig { Address : string; ClientIDPrefix : string }.

Record KafkaConfig := mk_KafkaConfig {
  Acks : string; Compression : string; Partitions : Z; ReplicationFactor : Z;
  IsolationLevel : string; Idempotent : bool; Transactional : bool;
  GroupPrefix : string; TopicPrefix : string; FetchMaxWaitMS : Z; TxnTimeoutMS : Z;
  SASLMechanism : string; SASLUsername : string; SASLPassword : string; TLS : bool
}.

Record WorkerConfig := mk_WorkerConfig {
  Enabled : bool; Channels : Z; ProducersPerChannel : Z; ConsumersPerChannel : Z;
  Subscribers : Z; Rate : Z
}.

Record WorkersConfig := mk_WorkersConfig {
  ProduceRoundTrip : WorkerConfig; KeyedOrdering : WorkerConfig;
  ConsumerGroup : WorkerConfig; OffsetCommitLag : WorkerConfig;
  AdminTopicChurn : WorkerConfig; TransactionsEOS : WorkerConfig
}.

Record MessageConfig := mk_MessageConfig {
  SizeMode : string; SizeBytes : Z; SizeDistributionText : string; ReorderWindow : Z
}.

Record MetricsConfig := mk_MetricsConfig { Port : Z; ReportInterval : string }.
Record LoggingConfig := mk_LoggingConfig { Format : string; Level : string }.
Record ForcedDisconnConfig := mk_ForcedDisconnConfig { fd_Interval : string; fd_Duration : string }.
Record RecoveryConfig := mk_RecoveryConfig {
  rc_ReconnectInterval : string; rc_ReconnectMaxInterval : string; ReconnectMultiplier : float64
}.
Record ShutdownConfig := mk_ShutdownConfig { DrainTimeoutSeconds : Z }.
Record OutputConfig := mk_OutputConfig { ReportFile : string; SDKVersion : string }.

Record ThresholdsConfig := mk_ThresholdsConfig {
  MaxLossPct : float64; MaxDuplicationPct : float64;
  MaxOffsetOrderViolations : Z; MaxGroupLossAcrossRebalance : Z;
  MaxEOSViolations : Z; MaxLagAccuracyErrorMsgs : Z;
  MaxP50LatencyMS : float64; MaxP95LatencyMS : float64;
  MaxP99LatencyMS : float64; MaxP999LatencyMS : float64;
  MinThroughputPct : float64; MaxErrorRatePct : float64;
  MaxMemoryGrowthFactor : float64; MaxDowntimePct : float64; MaxDuration : string
}.

Record WarmupConfig := mk_WarmupConfig { MaxParallelChannels : Z; TimeoutPerChannelMs : Z }.
Record CORSConfig := mk_CORSConfig { Origins : string }.

(** A [time.Duration] is an int64 count of nanoseconds. *)
Record Config := mk_Config {
  Version : string; Broker : BrokerConfig; Mode : string; Duration : string; RunID : string;
  WarmupDuration : string; Kafka : KafkaConfig; Workers : WorkersConfig;
  Message : MessageConfig; Metrics : MetricsConfig; Logging : LoggingConfig;
  ForcedDisconnect : ForcedDisconnConfig; Recovery : RecoveryConfig;
  Shutdown : ShutdownConfig; Output : OutputConfig; Thresholds : ThresholdsConfig;
  Warmup : WarmupConfig; CORS : CORSConfig;
  DurationParsed : Z; WarmupDurationParsed : Z; ReportIntervalParsed : Z;
  ForcedDisconnInterval : Z; ForcedDisconnDuration : Z; ReconnectInterval : Z;
  ReconnectMaxInterval : Z; MaxDurationParsed : Z; Warnings : list message
}.

#[global] Instance eta_BrokerConfig : Eta BrokerConfig :=
  fun r => mk_BrokerConfig (Address r) (ClientIDPrefix r).
#[global] Instance eta_WorkerConfig : Eta WorkerConfig := fun r =>
  mk_WorkerConfig (Enabled r) (Channels r) (ProducersPerChannel r) (ConsumersPerChannel r)
    (Subscribers r) (Rate r).
#[global] Instance eta_WorkersConfig : Eta WorkersConfig := fun r =>
  mk_WorkersConfig (ProduceRoundTrip r) (KeyedOrdering r) (ConsumerGroup r)
    (OffsetCommitLag r) (AdminTopicChurn r) (TransactionsEOS r).
#[global] Instance eta_Config : Eta Config := fun r =>
  mk_Config (Version r) (Broker r) (Mode r) (Duration r) (RunID r) (WarmupDuration r)
    (Kafka r) (Workers r) (Message r) (Metrics r) (Logging r) (ForcedDisconnect r)
    (Recovery r) (Shutdown r) (Output r) (Thresholds r) (Warmup r) (CORS r)
    (DurationParsed r) (WarmupDurationParsed r) (ReportIntervalParsed r)
    (ForcedDisconnInterval r) (ForcedDisconnDuration r) (ReconnectInterval r)
    (ReconnectMaxInterval r) (MaxDurationParsed r) (Warnings r).

(** ** Defaults *)

Definition DefaultConfig : Config := {|
  Version := ConfigVersion;
  Broker := mk_BrokerConfig "localhost:9092" "burnin-kafka";
  Mode := "soak"; Duration := "1h"; RunID := ""; WarmupDuration := "";
  Kafka := {| Acks := "all"; Compression := "lz4"; Partitions := 3; ReplicationFactor := 1;
    IsolationLevel := "read_committed"; Idempotent := true; Transactional := true;
    GroupPrefix := "burnin-kafka-grp"; TopicPrefix := "burnin"; FetchMaxWaitMS := 500;
    TxnTimeoutMS := 60000; SASLMechanism := ""; SASLUsername := ""; SASLPassword := "";
    TLS := false |};
  Workers := {|
    ProduceRoundTrip := mk_WorkerConfig true 1 1 2 0 100;
    KeyedOrdering := mk_WorkerConfig true 1 1 1 0 50;
    ConsumerGroup := mk_WorkerConfig true 1 1 3 0 50;
    OffsetCommitLag := mk_WorkerConfig true 1 1 1 0 50;
    AdminTopicChurn := mk_WorkerConfig true 1 1 1 0 10;
    TransactionsEOS := mk_WorkerConfig true 1 1 1 0 30 |};
  Message := mk_MessageConfig "fixed" 1024 "256:80,4096:15,65536:5" 10000;
  Metrics := mk_MetricsConfig 8898 "30s";
  Logging := mk_LoggingConfig "text" "info";
  ForcedDisconnect := mk_ForcedDisconnConfig "0" "5s";
  Recovery := mk_RecoveryConfig "1s" "30s" (f_of_Z 2);
  Shutdown := mk_ShutdownConfig 10;
  Output := mk_OutputConfig "" "";
  Thresholds := {| MaxLossPct := fzero; MaxDuplicationPct := fzero;
    MaxOffsetOrderViolations := 0; MaxGroupLossAcrossRebalance := 0;
    MaxEOSViolations := 0; MaxLagAccuracyErrorMsgs := 1;
    MaxP50LatencyMS := f_of_Z 2000; MaxP95LatencyMS := f_of_Z 5000;
    MaxP99LatencyMS := f_of_Z 8000; MaxP999LatencyMS := f_of_Z 15000;
    MinThroughputPct := f_of_Z 80; MaxErrorRatePct := f_of_Z 1;
    MaxMemoryGrowthFactor := f_of_Z 2; MaxDowntimePct := f_of_Z 10;
    MaxDuration := "168h" |};
  Warmup := mk_WarmupConfig 10 5000;
  CORS := mk_CORSConfig "*";
  DurationParsed := 0; WarmupDurationParsed := 0; ReportIntervalParsed := 0;
  ForcedDisconnInterval := 0; ForcedDisconnDuration := 0; ReconnectInterval := 0;
  ReconnectMaxInterval := 0; MaxDurationParsed := 0; Warnings := []
|}.

(** ** Accessors

    [GetWorkerConfig] returns a pointer into the configuration: a read through
    it is [GetWorkerConfig], a write through it [updWorkerConfig]. *)

Definition GetWorkerConfig (c : Config) (name : string) : option WorkerConfig :=
  if String.eqb name WorkerProduceRoundTrip then Some (ProduceRoundTrip (Workers c))
  else if String.eqb name WorkerKeyedOrdering then Some (KeyedOrdering (Workers c))
  else if String.eqb name WorkerConsumerGroup then Some (ConsumerGroup (Workers c))
  else if String.eqb name WorkerOffsetCommitLag then Some (OffsetCommitLag (Workers c))
  else if String.eqb name WorkerAdminTopicChurn then Some (AdminTopicChurn (Workers c))
  else if String.eqb name WorkerTransactionsEOS then Some (TransactionsEOS (Workers c))
  else None.

Definition updWorkerConfig (c : Config) (name : string) (f : WorkerConfig -> WorkerConfig) : Config :=
  if String.eqb name WorkerProduceRoundTrip then c <| Workers ::= set_field ProduceRoundTrip f |>
  else if String.eqb name WorkerKeyedOrdering then c <| Workers ::= set_field KeyedOrdering f |>
  else if String.eqb name WorkerConsumerGroup then c <| Workers ::= set_field ConsumerGroup f |>
  else if String.eqb name WorkerOffsetCommitLag then c <| Workers ::= set_field OffsetCommitLag f |>
  else if String.eqb name WorkerAdminTopicChurn then c <| Workers ::= set_field AdminTopicChurn f |>
  else if String.eqb name WorkerTransactionsEOS then c <| Workers ::= set_field TransactionsEOS f |>
  else c.

Definition GetWorkerRate (c : Config) (name : string) : Z :=
  match GetWorkerConfig c name with Some wc => Rate wc | None => 100 end.

Definition GetWorkerChannels (c : Config) (name : string) : Z :=
  match GetWorkerConfig c name with
  | Some wc => if 0 <? Channels wc then Channels wc else 1
  | None => 1
  end.

Definition TotalChannelCount (c : Config) : Z :=
  foldl (fun total name =>
    match GetWorkerConfig c name with
    | Some wc => if Enabled wc then total +i Channels wc else total
    | None => total
    end) 0 AllWorkerNames.

Example TotalChannelCount_default : TotalChannelCount DefaultConfig = 6.
Proof. reflexivity. Qed.

(** ** time.ParseDuration *)

Module Time.

Definition Nanosecond : Z := 1.
Definition Microsecond : Z := 1000.
Definition Millisecond : Z := 1000000.
Definition Second : Z := 1000000000.
Definition Minute : Z := 60 * Second.
Definition Hour : Z := 60 * Minute.

(** [None]: overflow. *)
Fixpoint leadingInt (x : Z) (s : string) : option (Z * string) :=
  match s with
  | EmptyString => Some (x, s)
  | String c s' =>
      if is_digit c then
        if 2 ^ 63 / 10 <? x then None
        else let x := x * 10 + digit_val c in
             if 2 ^ 63 <? x then None else leadingInt x s'
      else Some (x, s)
  end.

Fixpoint leadingFraction (x : Z) (scale : float64) (overflow : bool) (s : string)
  : Z * float64 * string :=
  match s with
  | EmptyString => (x, scale, s)
  | String c s' =>
      if is_digit c then
        if overflow || ((2 ^ 63 - 1) / 10 <? x) then leadingFraction x scale true s'
        else let y := x * 10 + digit_val c in
             if 2 ^ 63 <? y then leadingFraction x scale true s'
             else leadingFraction y (fmul scale (f_of_Z 10)) false s'
      else (x, scale, s)
  end.

(** The unit: everything up to the next digit or period. *)
Fixpoint span_unit (s : string) : string * string :=
  match s with
  | EmptyString => ("", "")
  | String c s' =>
      if is_digit c || Ascii.eqb c "." then ("", s)
      else let '(u, rest) := span_unit s' in (String c u, rest)
  end.

Definition unitMap (u : string) : option Z :=
  if String.eqb u "ns" then Some Nanosecond
  else if String.eqb u "us" then Some Microsecond
  else if String.eqb u (bytes [194; 181; 115]) then Some Microsecond
  else if String.eqb u (bytes [206; 188; 115]) then Some Microsecond
  else if String.eqb u "ms" then Some Millisecond
  else if String.eqb u "s" then Some Second
  else if String.eqb u "m" then Some Minute
  else if String.eqb u "h" then Some Hour
  else None.

(** One number with its unit: its nanoseconds and the rest of the text. *)
Definition component (s : string) : option (Z * string) :=
  match s with
  | EmptyString => None
  | String c _ =>
      if negb (Ascii.eqb c "." || is_digit c) then None else
      '(v, s1) ← leadingInt 0 s;
      let pre := negb (String.length s =? String.length s1)%nat in
      let '(f, scale, s2, post) :=
        match s1 with
        | String "." s' =>
            let '(f, scale, s2) := leadingFraction 0 (f_of_Z 1) false s' in
            (f, scale, s2, negb (String.length s' =? String.length s2)%nat)
        | _ => (0, f_of_Z 1, s1, false)
        end in
      if negb pre && negb post then None else
      let '(u, s3) := span_unit s2 in
      if String.eqb u "" then None else
      unit ← unitMap u;
      if 2 ^ 63 / unit <? v then None else
      let v := v * unit in
      let v := if 0 <? f then v +u f_trunc (fmul (f_of_Z f) (fdiv (f_of_Z unit) scale)) else v in
      if (0 <? f) && (2 ^ 63 <? v) then None else Some (v, s3)
  end.

(** The loop: each component consumes at least one character. *)
Fixpoint components (fuel : nat) (d : Z) (s : string) : option Z :=
  match s, fuel with
  | EmptyString, _ => Some d
  | _, O => None
  | _, S fuel =>
      '(v, s') ← component s;
      let d := d +u v in
      if 2 ^ 63 <? d then None else components fuel d s'
  end.

Definition ParseDuration_opt (s : string) : option Z :=
  let '(neg, s') :=
    match s with
    | String "-" r => (true, r)
    | String "+" r => (false, r)
    | _ => (false, s)
    end in
  if String.eqb s' "0" then Some 0
  else if String.eqb s' "" then None
  else
    d ← components (String.length s') 0 s';
    if neg then Some (i64_wrap (- d)) else if 2 ^ 63 - 1 <? d then None else Some d.

Definition ParseDuration (s : string) : result Z :=
  match ParseDuration_opt s with
  | Some d => Ok d
  | None => Err [Lit "time: invalid duration "; Quoted s]
  end.

Example ParseDuration_ex : map ParseDuration_opt
  ["1h30m"; "1.5s"; "-2ms"; "300ms"; "5"; ""; ".5h"; "1h "; "9223372036854775807ns"; "2540400h10m10s"]
  = [Some 5400000000000; Some 1500000000; Some (-2000000); Some 300000000; None; None;
     Some 1800000000000; None; Some 9223372036854775807; Some 9145440610000000000 ].
Proof. vm_compute. reflexivity. Qed.

End Time.

(** ** Durations of the configuration *)

Definition parseDuration (s : string) : result Z :=
  if HasSuffix s "d" then
    let s := TrimSuffix s "d" in
    match Atoi s with
    | None => Err [Lit "invalid day duration: "; Lit s]
    | Some days => Ok ((days *i 24) *i Time.Hour)
    end
  else Time.ParseDuration s.

(** One field of [parseDurations]: skipped when empty (and when "0" if [zero]),
    otherwise parsed and stored. *)
Definition parse_field (zero : bool) (label : string) (text : Config -> string)
    (store : Z -> Config -> Config) (c : Config) : result Config :=
  let s := text c in
  if String.eqb s "" || (zero && String.eqb s "0") then Ok c
  else match parseDuration s with
       | Err e => Err (Lit "invalid " :: Lit label :: Lit " " :: Quoted s :: Lit ": " :: e)
       | Ok d => Ok (store d c)
       end.

(** On an error the half-updated configuration is discarded by both callers. *)
Definition parseDurations (c : Config) : result Config :=
  c ← parse_field true "duration" Duration (fun d c => c <| DurationParsed := d |>) c;
  c ← parse_field false "warmup_duration" WarmupDuration
        (fun d c => c <| WarmupDurationParsed := d |>) c;
  c ← parse_field false "metrics.report_interval" (fun c => ReportInterval (Metrics c))
        (fun d c => c <| ReportIntervalParsed := d |>) c;
  c ← parse_field true "forced_disconnect.interval" (fun c => fd_Interval (ForcedDisconnect c))
        (fun d c => c <| ForcedDisconnInterval := d |>) c;
  c ← parse_field false "forced_disconnect.duration" (fun c => fd_Duration (ForcedDisconnect c))
        (fun d c => c <| ForcedDisconnDuration := d |>) c;
  c ← parse_field false "recovery.reconnect_interval" (fun c => rc_ReconnectInterval (Recovery c))
        (fun d c => c <| ReconnectInterval := d |>) c;
  c ← parse_field false "recovery.reconnect_max_interval"
        (fun c => rc_ReconnectMaxInterval (Recovery c))
        (fun d c => c <| ReconnectMaxInterval := d |>) c;
  parse_field false "thresholds.max_duration" (fun c => MaxDuration (Thresholds c))
        (fun d c => c <| MaxDurationParsed := d |>) c.

Definition ParseDurationsPublic (c : Config) : result Config := parseDurations c.

(** ** Environment overrides *)

Definition envNames : list (string * string) :=
  [(WorkerProduceRoundTrip, "PRODUCE_ROUND_TRIP"); (WorkerKeyedOrdering, "KEYED_ORDERING");
   (WorkerConsumerGroup, "CONSUMER_GROUP"); (WorkerOffsetCommitLag, "OFFSET_COMMIT_LAG");
   (WorkerAdminTopicChurn, "ADMIN_TOPIC_CHURN"); (WorkerTransactionsEOS, "TRANSACTIONS_EOS")].

(** An integer variable applies when it is set and strconv.Atoi accepts it. *)
Definition env_int (getenv : string -> string) (var : string) (old : Z) : Z :=
  let v := getenv var in
  if String.eqb v "" then old else match Atoi v with Some n => n | None => old end.

Definition env_bool (getenv : string -> string) (var : string) (old : bool) : bool :=
  let v := getenv var in
  if String.eqb v "" then old else String.eqb v "true" || String.eqb v "1".

Definition override_worker (getenv : string -> string) (env : string) (wc : WorkerConfig) :=
  wc <| Rate ::= env_int getenv ("BURNIN_" ++s env ++s "_RATE") |>
     <| Channels ::= env_int getenv ("BURNIN_" ++s env ++s "_CHANNELS") |>
     <| Enabled ::= env_bool getenv ("BURNIN_" ++s env ++s "_ENABLED") |>.

(** [order] is the order in which the range statement visits the map [envNames]. *)
Definition applyEnvOverrides (order : list (string * string)) (getenv : string -> string)
    (cfg : Config) : Config :=
  let v := getenv "KUBEMQ_BROKER_ADDRESS" in
  let cfg := if String.eqb v "" then cfg else cfg <| Broker ::= set_field Address (fun _ => v) |> in
  foldl (fun cfg '(name, env) =>
    match GetWorkerConfig cfg name with
    | None => cfg
    | Some _ => updWorkerConfig cfg name (override_worker getenv env)
    end) cfg order.

(** ** Loading *)

(** fmt.Sprintf("%08x", b) on the four random bytes. *)
Definition RandomRunID (b : list Z) : string := hex_bytes b.

Definition FindConfigFile (stat : string -> bool) (cliPath : string) : string :=
  if negb (String.eqb cliPath "") then cliPath
  else if stat "./burnin-config.yaml" then "./burnin-config.yaml"
  else if stat "/etc/burnin/config.yaml" then "/etc/burnin/config.yaml"
  else "".

Section Load.

(** os.ReadFile; the YAML decoder with and without KnownFields(true), which
    stores into the configuration it is given. *)
Variable ReadFile : string -> result string.
Variable DecodeKnownFields : string -> Config -> result Config.
Variable Unmarshal : string -> Config -> result Config.

Definition read_config (path : string) : result Config :=
  if String.eqb path "" then Ok DefaultConfig
  else
    match ReadFile path with
    | Err e => Err (Lit "read config file " :: Lit path :: Lit ": " :: e)
    | Ok data =>
        match DecodeKnownFields data DefaultConfig with
        | Ok c => Ok c
        | Err err =>
            match Unmarshal data DefaultConfig with
            | Err e => Err (Lit "parse config file " :: Lit path :: Lit ": " :: e)
            | Ok c2 => Ok (c2 <| Warnings ::= fun w => (w ++ [Lit "config has unknown fields: " :: err])%list |>)
            end
        end
    end.

Definition Load (order : list (string * string)) (getenv : string -> string) (random : list Z)
    (path : string) : result Config :=
  c ← read_config path;
  c ← parseDurations (applyEnvOverrides order getenv c);
  Ok (if String.eqb (RunID c) "" then c <| RunID := RandomRunID random |> else c).

End Load.

(** ** Validation *)

Definition check (bad : bool) (m : message) : list message := if bad then [m] else [].
Definition one_of (s : string) (l : list string) : bool := existsb (String.eqb s) l.

Definition latency_threshold (c : Config) (label : string) : float64 :=
  if String.eqb label "max_p50_latency_ms" then MaxP50LatencyMS (Thresholds c)
  else if String.eqb label "max_p95_latency_ms" then MaxP95LatencyMS (Thresholds c)
  else if String.eqb label "max_p99_latency_ms" then MaxP99LatencyMS (Thresholds c)
  else MaxP999LatencyMS (Thresholds c).

Definition latency_labels : list string :=
  ["max_p50_latency_ms"; "max_p95_latency_ms"; "max_p99_latency_ms"; "max_p999_latency_ms"].

Local Open Scope list_scope.

Definition validate_kafka (c : Config) : list message :=
  let k := Kafka c in
  check (negb (one_of (Acks k) ["all"; "1"; "0"]))
    [Lit "kafka.acks must be all|1|0, got "; Quoted (Acks k)]
  ++ check (negb (one_of (Compression k) ["none"; "gzip"; "snappy"; "lz4"; "zstd"]))
    [Lit "kafka.compression must be none|gzip|snappy|lz4|zstd, got "; Quoted (Compression k)]
  ++ check ((Partitions k <? 1) || (256 <? Partitions k))
    [Lit "kafka.partitions must be 1-256 (connector hard cap 256), got "; Lit (FormatInt (Partitions k))]
  ++ check (ReplicationFactor k <? 1)
    [Lit "kafka.replication_factor must be >= 1, got "; Lit (FormatInt (ReplicationFactor k))]
  ++ check (negb (one_of (IsolationLevel k) ["read_committed"; "read_uncommitted"]))
    [Lit "kafka.isolation_level must be read_committed|read_uncommitted, got "; Quoted (IsolationLevel k)]
  ++ check (Enabled (TransactionsEOS (Workers c)) && (TxnTimeoutMS k <? 1000))
    [Lit "kafka.txn_timeout_ms must be >= 1000 when transactions_eos is enabled, got ";
     Lit (FormatInt (TxnTimeoutMS k))]
  ++ check (FetchMaxWaitMS k <? 0)
    [Lit "kafka.fetch_max_wait_ms must be >= 0, got "; Lit (FormatInt (FetchMaxWaitMS k))]
  ++ check (negb (one_of (SASLMechanism k) [""; "PLAIN"; "SCRAM-SHA-256"; "SCRAM-SHA-512"]))
    [Lit "kafka.sasl_mechanism must be ''|PLAIN|SCRAM-SHA-256|SCRAM-SHA-512, got ";
     Quoted (SASLMechanism k)].

Definition validate_worker (name : string) (wc : WorkerConfig) : list message :=
  check ((Channels wc <? 1) || (1000 <? Channels wc))
    [Lit name; Lit ".channels: must be 1-1000, got "; Lit (FormatInt (Channels wc))]
  ++ check (Rate wc <=? 0) [Lit name; Lit ".rate: must be > 0, got "; Lit (FormatInt (Rate wc))]
  ++ check (ProducersPerChannel wc <? 1)
    [Lit name; Lit ".producers_per_channel: must be >= 1, got "; Lit (FormatInt (ProducersPerChannel wc))]
  ++ check (ConsumersPerChannel wc <? 1)
    [Lit name; Lit ".consumers_per_channel: must be >= 1, got "; Lit (FormatInt (ConsumersPerChannel wc))].

(** The loop over AllWorkerNames: errors, enabledCount, totalWorkers. *)
Definition validate_workers (c : Config) : list message * Z * Z :=
  foldl (fun '(errs, enabledCount, totalWorkers) name =>
    match GetWorkerConfig c name with
    | None => (errs, enabledCount, totalWorkers)
    | Some wc =>
        if negb (Enabled wc) then (errs, enabledCount, totalWorkers)
        else (errs ++ validate_worker name wc, enabledCount +i 1,
              totalWorkers +i (Channels wc *i (ProducersPerChannel wc +i ConsumersPerChannel wc)))
    end) ([], 0, 0) AllWorkerNames.

Definition validate_run (c : Config) : list message :=
  let m := Message c in
  check (negb (one_of (SizeMode m) ["fixed"; "distribution"]))
    [Lit "message.size_mode must be 'fixed' or 'distribution', got "; Quoted (SizeMode m)]
  ++ check (String.eqb (SizeMode m) "fixed" && (SizeBytes m <? 64))
    [Lit "message.size_bytes: must be >= 64, got "; Lit (FormatInt (SizeBytes m))]
  ++ check (String.eqb (SizeMode m) "fixed" && (1048576 <? SizeBytes m))
    [Lit "message.size_bytes: must be <= 1048576 (Kafka 1 MiB default max), got ";
     Lit (FormatInt (SizeBytes m))]
  ++ check (ReorderWindow m <? 100)
    [Lit "message.reorder_window: must be >= 100, got "; Lit (FormatInt (ReorderWindow m))]
  ++ check (DrainTimeoutSeconds (Shutdown c) <=? 0)
    [Lit "shutdown.drain_timeout_seconds: must be > 0, got ";
     Lit (FormatInt (DrainTimeoutSeconds (Shutdown c)))]
  ++ check ((Port (Metrics c) <? 1) || (65535 <? Port (Metrics c)))
    [Lit "metrics.port: must be 1-65535, got "; Lit (FormatInt (Port (Metrics c)))].

(** [v < 0 || v > 100] *)
Definition bad_pct (v : float64) : bool := fltb v fzero || fltb (f_of_Z 100) v.

Definition validate_thresholds (labels : list string) (c : Config) : list message :=
  let t := Thresholds c in
  check (bad_pct (MaxLossPct t)) [Lit "thresholds.max_loss_pct: must be 0-100"]
  ++ check (bad_pct (MaxDuplicationPct t)) [Lit "thresholds.max_duplication_pct: must be 0-100"]
  ++ check (MaxOffsetOrderViolations t <? 0)
    [Lit "thresholds.max_offset_order_violations: must be >= 0"]
  ++ check (MaxGroupLossAcrossRebalance t <? 0)
    [Lit "thresholds.max_group_loss_across_rebalance: must be >= 0"]
  ++ check (MaxEOSViolations t <? 0) [Lit "thresholds.max_eos_violations: must be >= 0"]
  ++ check (MaxLagAccuracyErrorMsgs t <? 0)
    [Lit "thresholds.max_lag_accuracy_error_msgs: must be >= 0"]
  ++ concat (map (fun label =>
       check (fleb (latency_threshold c label) fzero)
         [Lit "thresholds."; Lit label; Lit ": must be > 0"]) labels)
  ++ check (fleb (MinThroughputPct t) fzero || fltb (f_of_Z 100) (MinThroughputPct t))
    [Lit "thresholds.min_throughput_pct: must be > 0 and <= 100"]
  ++ check (bad_pct (MaxErrorRatePct t)) [Lit "thresholds.max_error_rate_pct: must be 0-100"]
  ++ check (fltb (MaxMemoryGrowthFactor t) (f_of_Z 1))
    [Lit "thresholds.max_memory_growth_factor: must be >= 1.0"]
  ++ check (bad_pct (MaxDowntimePct t)) [Lit "thresholds.max_downtime_pct: must be 0-100"]
  ++ check (fltb (ReconnectMultiplier (Recovery c)) (f_of_Z 1))
    [Lit "recovery.reconnect_multiplier: must be >= 1.0, got ";
     FloatArg "%f" (ReconnectMultiplier (Recovery c))].

(** [labels] is the order in which the range statement visits the latency map. *)
Definition Validate (labels : list string) (c : Config) : list message :=
  let '(worker_errs, enabledCount, totalWorkers) := validate_workers c in
  check (negb (String.eqb (Version c) ConfigVersion))
    [Lit "version must be "; Quoted ConfigVersion; Lit ", got "; Quoted (Version c)]
  ++ check (String.eqb (Address (Broker c)) "") [Lit "broker.address is required"]
  ++ validate_kafka c ++ worker_errs
  ++ check (enabledCount =? 0) [Lit "at least one worker must be enabled"]
  ++ validate_run c ++ validate_thresholds labels c
  ++ check (1000 <? totalWorkers)
    [Lit "WARNING: high worker count: "; Lit (FormatInt totalWorkers);
     Lit " -- may impact system resources"].

Definition is_warning (e : message) : bool := msg_HasPrefix e "WARNING:".

(** What LogResourceWarnings logs. *)
Definition LogResourceWarnings (labels : list string) (c : Config) : list message :=
  filter (fun e => is_warning e = true) (Validate labels c).

(** Every caller's notion of an accepted configuration: only warnings. *)
Definition accepted (labels : list string) (c : Config) : bool :=
  forallb is_warning (Validate labels c).

Example DefaultConfig_accepted : Validate latency_labels DefaultConfig = [].
Proof. vm_compute. reflexivity. Qed.
