(* ===== verification/ConfigFacts.v ===== *)
(** * The configuration model: properties

    What [Validate] accepts, and that re-parsing a loaded configuration changes
    nothing. *)

From S2P Require Import Prelude Float64 GoStr Config.
From Stdlib Require Import Ascii.
Local Open Scope string_scope.
Local Open Scope Z_scope.

(** ** Validation *)

(** What a run relies on when a configuration is accepted. A float may be NaN:
    every range check of the source is false on it. *)
Definition float_in (lo hi v : float64) : Prop :=
  is_nan v = true \/ (fleb lo v = true /\ fleb v hi = true).
Definition float_at_least (lo v : float64) : Prop := is_nan v = true \/ fleb lo v = true.
Definition float_positive (v : float64) : Prop := is_nan v = true \/ fltb fzero v = true.

Definition worker_ok (wc : WorkerConfig) : Prop :=
  Enabled wc = true ->
  1 <= Channels wc <= 1000 /\ 0 < Rate wc /\ 1 <= ProducersPerChannel wc /\
  1 <= ConsumersPerChannel wc.

Definition kafka_ok (c : Config) : Prop :=
  let k := Kafka c in
  Acks k ∈ ["all"; "1"; "0"] /\
  Compression k ∈ ["none"; "gzip"; "snappy"; "lz4"; "zstd"] /\
  1 <= Partitions k <= 256 /\ 1 <= ReplicationFactor k /\
  IsolationLevel k ∈ ["read_committed"; "read_uncommitted"] /\
  (Enabled (TransactionsEOS (Workers c)) = true -> 1000 <= TxnTimeoutMS k) /\
  0 <= FetchMaxWaitMS k /\
  SASLMechanism k ∈ [""; "PLAIN"; "SCRAM-SHA-256"; "SCRAM-SHA-512"].

Definition workers_ok (c : Config) : Prop :=
  (forall name wc, GetWorkerConfig c name = Some wc -> worker_ok wc) /\
  exists name wc, GetWorkerConfig c name = Some wc /\ Enabled wc = true.

Definition run_ok (c : Config) : Prop :=
  SizeMode (Message c) ∈ ["fixed"; "distribution"] /\
  (SizeMode (Message c) = "fixed" -> 64 <= SizeBytes (Message c) <= 1048576) /\
  100 <= ReorderWindow (Message c) /\
  0 < DrainTimeoutSeconds (Shutdown c) /\
  1 <= Port (Metrics c) <= 65535.

Definition thresholds_ok (c : Config) : Prop :=
  let t := Thresholds c in
  float_in fzero (f_of_Z 100) (MaxLossPct t) /\
  float_in fzero (f_of_Z 100) (MaxDuplicationPct t) /\
  0 <= MaxOffsetOrderViolations t /\ 0 <= MaxGroupLossAcrossRebalance t /\
  0 <= MaxEOSViolations t /\ 0 <= MaxLagAccuracyErrorMsgs t /\
  (float_positive (MaxP50LatencyMS t) /\ float_positive (MaxP95LatencyMS t) /\
   float_positive (MaxP99LatencyMS t) /\ float_positive (MaxP999LatencyMS t)) /\
  (is_nan (MinThroughputPct t) = true \/
   (fltb fzero (MinThroughputPct t) = true /\ fleb (MinThroughputPct t) (f_of_Z 100) = true)) /\
  float_in fzero (f_of_Z 100) (MaxErrorRatePct t) /\
  float_at_least (f_of_Z 1) (MaxMemoryGrowthFactor t) /\
  float_in fzero (f_of_Z 100) (MaxDowntimePct t) /\
  float_at_least (f_of_Z 1) (ReconnectMultiplier (Recovery c)).

Definition config_ok (c : Config) : Prop :=
  Version c = ConfigVersion /\ Address (Broker c) <> "" /\
  kafka_ok c /\ workers_ok c /\ run_ok c /\ thresholds_ok c.

(** *** Checks as propositions *)

Definition passes (l : list message) : Prop := forallb is_warning l = true.

Lemma passes_app a b : passes (a ++ b)%list <-> passes a /\ passes b.
Proof. unfold passes. by rewrite forallb_app, andb_true_iff. Qed.

Lemma passes_check b m : is_warning m = false -> (passes (check b m) <-> b = false).
Proof. intros Hm. unfold passes, check. destruct b; simpl; rewrite ?Hm; naive_solver. Qed.

Lemma one_of_elem s l : one_of s l = true <-> s ∈ l.
Proof.
  unfold one_of. rewrite existsb_exists, list_elem_of_In. split.
  - by intros (x & Hx & ->%String.eqb_eq).
  - intros Hs. exists s. split; [done|apply String.eqb_refl].
Qed.

Lemma not_one_of s l : negb (one_of s l) = false <-> s ∈ l.
Proof. by rewrite negb_false_iff, one_of_elem. Qed.

Lemma fle_iff a b : is_nan a = false -> is_nan b = false -> fleb a b = negb (fltb b a).
Proof. intros. rewrite (fltb_negb_fleb b a) by done. by rewrite negb_involutive. Qed.

Lemma fltb_false_iff v lo : is_nan lo = false -> (fltb v lo = false <-> float_at_least lo v).
Proof.
  intros Hlo. unfold float_at_least. destruct (is_nan v) eqn:E.
  - destruct v; try done. rewrite fltb_nan_l. naive_solver.
  - rewrite fle_iff, negb_true_iff by done. naive_solver.
Qed.

Lemma fleb_false_iff v : fleb v fzero = false <-> float_positive v.
Proof.
  unfold float_positive. destruct (is_nan v) eqn:E.
  - destruct v; try done. rewrite fleb_nan_l. naive_solver.
  - rewrite fle_iff, negb_false_iff by done. naive_solver.
Qed.

Lemma fgt_false_iff v hi : is_nan hi = false ->
  (fltb hi v = false <-> is_nan v = true \/ fleb v hi = true).
Proof.
  intros Hhi. destruct (is_nan v) eqn:E.
  - destruct v; try done. rewrite fltb_nan_r. naive_solver.
  - rewrite fle_iff, negb_true_iff by done. naive_solver.
Qed.

Lemma bad_pct_iff v : bad_pct v = false <-> float_in fzero (f_of_Z 100) v.
Proof.
  unfold bad_pct, float_in. rewrite orb_false_iff, fltb_false_iff, fgt_false_iff by done.
  unfold float_at_least. naive_solver.
Qed.

Lemma zlt_or_false a b x : (x <? a) || (b <? x) = false <-> a <= x <= b.
Proof. rewrite orb_false_iff, !Z.ltb_ge. lia. Qed.

Ltac checks := rewrite ?passes_app, ?passes_check by reflexivity.

Lemma validate_kafka_iff c : passes (validate_kafka c) <-> kafka_ok c.
Proof.
  unfold validate_kafka, kafka_ok. checks.
  rewrite !not_one_of, zlt_or_false, !Z.ltb_ge, andb_false_iff, Z.ltb_ge.
  destruct (Enabled (TransactionsEOS (Workers c))); naive_solver.
Qed.

Lemma validate_run_iff c : passes (validate_run c) <-> run_ok c.
Proof.
  unfold validate_run, run_ok. checks.
  rewrite not_one_of, !andb_false_iff, zlt_or_false, !Z.ltb_ge, Z.leb_gt.
  rewrite String.eqb_neq. destruct (decide (SizeMode (Message c) = "fixed")); naive_solver.
Qed.

Lemma latency_checks_iff labels c : labels ≡ₚ latency_labels ->
  passes (concat (map (fun label =>
     check (fleb (latency_threshold c label) fzero)
       [Lit "thresholds."; Lit label; Lit ": must be > 0"]) labels)) <->
  Forall (fun label => float_positive (latency_threshold c label)) latency_labels.
Proof.
  intros Hp. transitivity (Forall (fun label => float_positive (latency_threshold c label)) labels).
  - clear Hp. induction labels as [|l labels IH]; simpl; [by split|].
    rewrite passes_app, passes_check, Forall_cons, fleb_false_iff by reflexivity. by rewrite IH.
  - by rewrite Hp.
Qed.

Lemma validate_thresholds_iff labels c : labels ≡ₚ latency_labels ->
  passes (validate_thresholds labels c) <-> thresholds_ok c.
Proof.
  intros Hp. unfold validate_thresholds, thresholds_ok. checks.
  rewrite latency_checks_iff by done. unfold latency_labels. rewrite !Forall_cons.
  rewrite !bad_pct_iff, !Z.ltb_ge, !fltb_false_iff, orb_false_iff, fleb_false_iff,
    fgt_false_iff by done.
  unfold latency_threshold, float_positive; simpl.
  assert (Hnil : Forall (fun label => float_positive (latency_threshold c label)) [] <-> True)
    by (split; auto).
  destruct (is_nan (MinThroughputPct (Thresholds c))); intuition (try discriminate; auto).
Qed.

Lemma validate_worker_iff name wc : name ∈ AllWorkerNames -> Enabled wc = true ->
  passes (validate_worker name wc) <-> worker_ok wc.
Proof.
  intros Hn He. unfold validate_worker, worker_ok.
  assert (Hw : forall m, is_warning (Lit name :: m) = false).
  { intros m. unfold AllWorkerNames in Hn. rewrite !elem_of_cons, elem_of_nil in Hn.
    by destruct_or? Hn; subst. }
  rewrite !passes_app, !passes_check by apply Hw.
  rewrite zlt_or_false, Z.leb_gt, !Z.ltb_ge. naive_solver.
Qed.

(** The enabled workers, in the order the loop meets them. *)
Definition enabled_among (c : Config) (names : list string) : list (string * WorkerConfig) :=
  filter (fun p => Enabled p.2 = true)
    (omap (fun name => wc ← GetWorkerConfig c name; Some (name, wc)) names).
Definition enabled_workers (c : Config) := enabled_among c AllWorkerNames.

Lemma enabled_among_cons c n names : enabled_among c (n :: names) =
  match GetWorkerConfig c n with
  | Some wc => if Enabled wc then (n, wc) :: enabled_among c names else enabled_among c names
  | None => enabled_among c names
  end.
Proof.
  unfold enabled_among. cbn [omap list_omap].
  destruct (GetWorkerConfig c n) as [wc|]; [|done]. cbn [mbind option_bind].
  destruct (Enabled wc) eqn:E.
  - by rewrite filter_cons_True by done.
  - by rewrite filter_cons_False by (simpl; congruence).
Qed.

Lemma length_enabled_among c names : (length (enabled_among c names) <= length names)%nat.
Proof.
  induction names as [|n names IH]; [done|]. rewrite enabled_among_cons. simpl.
  repeat case_match; simpl; lia.
Qed.

(** What the loop has collected after [names]. *)
Lemma validate_workers_loop c : exists step,
  validate_workers c = foldl step ([], 0, 0) AllWorkerNames /\
  forall names errs k t, exists t', foldl step (errs, i64_wrap k, t) names =
    ((errs ++ concat (map (fun p => validate_worker p.1 p.2) (enabled_among c names)))%list,
     i64_wrap (k + Z.of_nat (length (enabled_among c names))), t').
Proof.
  eexists. split; [reflexivity|].
  induction names as [|n names IH]; intros errs k t; cbn [foldl].
  { exists t. by rewrite app_nil_r, Z.add_0_r. }
  rewrite enabled_among_cons. destruct (GetWorkerConfig c n) as [wc|]; [|by apply IH].
  destruct (Enabled wc); cbn [negb]; [|by apply IH].
  rewrite i64_wrap_add_l.
  destruct (IH (errs ++ validate_worker n wc)%list (k + 1)
    (t +i Channels wc *i (ProducersPerChannel wc +i ConsumersPerChannel wc))) as [t' ->].
  exists t'. f_equal. f_equal; [by rewrite <- app_assoc|f_equal; simpl length; lia].
Qed.

Lemma validate_workers_errs c :
  (validate_workers c).1.1 = concat (map (fun p => validate_worker p.1 p.2) (enabled_workers c)).
Proof.
  destruct (validate_workers_loop c) as (step & -> & H).
  by destruct (H AllWorkerNames [] 0 0 : exists t', foldl step ([], 0, 0) _ = _) as [t' ->].
Qed.

Lemma validate_workers_count c :
  (validate_workers c).1.2 = Z.of_nat (length (enabled_workers c)).
Proof.
  destruct (validate_workers_loop c) as (step & -> & H).
  destruct (H AllWorkerNames [] 0 0 : exists t', foldl step ([], 0, 0) _ = _) as [t' ->]. cbn [fst snd].
  pose proof (length_enabled_among c AllWorkerNames) as Hl. simpl length in Hl at 2.
  apply i64_wrap_id. unfold i64_ok, enabled_workers. lia.
Qed.

Lemma GetWorkerConfig_names c name wc : GetWorkerConfig c name = Some wc -> name ∈ AllWorkerNames.
Proof.
  unfold GetWorkerConfig, AllWorkerNames. intros H. rewrite !elem_of_cons.
  repeat (case_match eqn:E; [apply String.eqb_eq in E; subst; tauto|clear E]). done.
Qed.

Lemma elem_of_enabled c name wc :
  (name, wc) ∈ enabled_workers c <-> GetWorkerConfig c name = Some wc /\ Enabled wc = true.
Proof.
  unfold enabled_workers, enabled_among. rewrite list_elem_of_filter, list_elem_of_omap. simpl. split.
  - intros (He & n & Hn & Hg). destruct (GetWorkerConfig c n) eqn:E; simplify_eq/=. done.
  - intros [Hg He]. split; [done|]. exists name.
    split; [by eapply GetWorkerConfig_names|]. by rewrite Hg.
Qed.

Lemma validate_workers_iff c :
  passes (validate_workers c).1.1 /\ (validate_workers c).1.2 <> 0 <-> workers_ok c.
Proof.
  rewrite validate_workers_errs, validate_workers_count. unfold workers_ok. split.
  - intros [Hp Hne]. split.
    + intros name wc Hg He. revert He.
      destruct (Enabled wc) eqn:He; [intros _|done].
      apply (validate_worker_iff name); [by eapply GetWorkerConfig_names|done| |done].
      assert (Hin : (name, wc) ∈ enabled_workers c) by by apply elem_of_enabled.
      clear -Hp Hin. induction (enabled_workers c) as [|p l IH]; [by apply elem_of_nil in Hin|].
      cbn [map concat] in Hp. apply passes_app in Hp as [Hp1 Hp2].
      apply elem_of_cons in Hin as [<-|Hin]; [done|by apply IH].
    + destruct (enabled_workers c) as [|[name wc] l] eqn:E; [done|].
      exists name, wc. apply elem_of_enabled. rewrite E. apply elem_of_cons. by left.
  - intros [Hok (name & wc & Hg & He)]. split.
    + assert (Hall : forall p, p ∈ enabled_workers c -> passes (validate_worker p.1 p.2)).
      { intros [n w] [Hg' He']%elem_of_enabled.
        apply validate_worker_iff; [by eapply GetWorkerConfig_names|done|by eapply Hok]. }
      clear -Hall. induction (enabled_workers c) as [|p l IH]; [done|]. cbn [map concat].
      apply passes_app. split; [apply Hall, elem_of_cons; by left|].
      apply IH. intros q Hq. apply Hall, elem_of_cons. by right.
    + assert (Hin : (name, wc) ∈ enabled_workers c) by by apply elem_of_enabled.
      destruct (enabled_workers c); [by apply elem_of_nil in Hin|simpl; lia].
Qed.

Lemma Validate_iff labels c : labels ≡ₚ latency_labels ->
  accepted labels c = true <-> config_ok c.
Proof.
  intros Hp. unfold accepted, Validate, config_ok.
  rewrite <- validate_kafka_iff, <- validate_workers_iff, <- validate_run_iff,
    <- (validate_thresholds_iff labels) by done.
  destruct (validate_workers c) as [[errs count] totalWorkers]. cbn [fst snd].
  match goal with |- forallb is_warning ?l = true <-> _ => change (passes l <-> 
    (Version c = ConfigVersion /\ Address (Broker c) <> "" /\ passes (validate_kafka c) /\
     (passes errs /\ count <> 0) /\ passes (validate_run c) /\ passes (validate_thresholds labels c)))
  end.
  checks. rewrite negb_false_iff, String.eqb_eq, String.eqb_neq, Z.eqb_neq.
  assert (passes (check (1000 <? totalWorkers) [Lit "WARNING: high worker count: ";
    Lit (FormatInt totalWorkers); Lit " -- may impact system resources"])).
  { unfold passes, check. by destruct (1000 <? totalWorkers). }
  tauto.
Qed.

(** C12: [Validate] is exact.  Whatever order the latency map is visited in, a
    configuration draws no error other than warnings if and only if it is
    [config_ok]: known version, broker, Kafka knobs in range, every enabled
    worker with 1-1000 channels, a positive rate and at least one producer and
    one consumer, some worker enabled, message, drain and port bounds, and
    thresholds in range or NaN. *)
Theorem Validate_exact labels c : labels ≡ₚ latency_labels ->
  accepted labels c = true <-> config_ok c.
Proof. apply Validate_iff. Qed.

Lemma Validate_exact_witness :
  accepted (rev latency_labels) DefaultConfig = true /\ config_ok DefaultConfig.
Proof.
  split; [vm_compute; reflexivity|].
  apply (Validate_exact (rev latency_labels)); [symmetry; apply Permutation_rev|vm_compute; reflexivity].
Defined.

(** ** Settled configurations *)

(** What [parse_field] does to a field: kept when the text is skipped, the parsed
    duration otherwise. *)
Definition field_value (zero : bool) (s : string) (old d : Z) : Prop :=
  if String.eqb s "" || (zero && String.eqb s "0") then d = old else parseDuration s = Ok d.

Lemma parse_field_ok zero label text store get c c' :
  (forall c, store (get c) c = c) -> parse_field zero label text store c = Ok c' ->
  exists d, c' = store d c /\ field_value zero (text c) (get c) d.
Proof.
  intros Hget. unfold parse_field, field_value. case_match.
  - intros [= <-]. by exists (get c).
  - destruct (parseDuration (text c)) as [d|e]; intros [= <-]. by exists d.
Qed.

Lemma parse_field_again zero label text store get c :
  (forall c, store (get c) c = c) ->
  (exists old, field_value zero (text c) old (get c)) -> parse_field zero label text store c = Ok c.
Proof.
  intros Hget [old Hv]. unfold parse_field, field_value in *. case_match; [done|].
  rewrite Hv. by rewrite Hget.
Qed.

Ltac field_step H get d Hd :=
  match type of H with
  | mbind _ (parse_field _ _ _ _ _) = Ok _ =>
      let E := fresh "E" in
      destruct (parse_field _ _ _ _ _) eqn:E in H; [|discriminate H];
      apply (parse_field_ok _ _ _ _ get) in E as (d & -> & Hd); [|by intros []];
      match type of H with mbind ?k (Ok ?x) = ?r => change (k x = r) in H end;
      cbv [set_field] in H; cbn -[mbind field_value parse_field parseDuration] in H, Hd
  | parse_field _ _ _ _ _ = Ok _ =>
      apply (parse_field_ok _ _ _ _ get) in H as (d & -> & Hd); [|by intros []];
      cbn -[field_value parseDuration] in Hd
  end.

(** Every duration field agrees with its text. *)
Definition settled (c : Config) : Prop :=
  let agrees zero s d := exists old, field_value zero s old d in
  agrees true (Duration c) (DurationParsed c) /\
  agrees false (WarmupDuration c) (WarmupDurationParsed c) /\
  agrees false (ReportInterval (Metrics c)) (ReportIntervalParsed c) /\
  agrees true (fd_Interval (ForcedDisconnect c)) (ForcedDisconnInterval c) /\
  agrees false (fd_Duration (ForcedDisconnect c)) (ForcedDisconnDuration c) /\
  agrees false (rc_ReconnectInterval (Recovery c)) (ReconnectInterval c) /\
  agrees false (rc_ReconnectMaxInterval (Recovery c)) (ReconnectMaxInterval c) /\
  agrees false (MaxDuration (Thresholds c)) (MaxDurationParsed c).

Lemma parseDurations_settles c c' : parseDurations c = Ok c' -> settled c'.
Proof.
  destruct c. unfold parseDurations. intros H.
  field_step H Config.DurationParsed d1 H1. field_step H Config.WarmupDurationParsed d2 H2.
  field_step H Config.ReportIntervalParsed d3 H3. field_step H Config.ForcedDisconnInterval d4 H4.
  field_step H Config.ForcedDisconnDuration d5 H5. field_step H Config.ReconnectInterval d6 H6.
  field_step H Config.ReconnectMaxInterval d7 H7. field_step H Config.MaxDurationParsed d8 H8.
  unfold settled. cbn -[field_value].
  split_and!; [eexists; exact H1|eexists; exact H2|eexists; exact H3
    |eexists; exact H4|eexists; exact H5|eexists; exact H6
    |eexists; exact H7|eexists; exact H8].
Qed.

Lemma parseDurations_of_settled c : settled c -> parseDurations c = Ok c.
Proof.
  intros (H1 & H2 & H3 & H4 & H5 & H6 & H7 & H8). unfold parseDurations.
  rewrite (parse_field_again _ _ _ _ DurationParsed) by (done || by intros []). cbn [mbind result_bind].
  rewrite (parse_field_again _ _ _ _ WarmupDurationParsed) by (done || by intros []). cbn [mbind result_bind].
  rewrite (parse_field_again _ _ _ _ ReportIntervalParsed) by (done || by intros []). cbn [mbind result_bind].
  rewrite (parse_field_again _ _ _ _ ForcedDisconnInterval) by (done || by intros []). cbn [mbind result_bind].
  rewrite (parse_field_again _ _ _ _ ForcedDisconnDuration) by (done || by intros []). cbn [mbind result_bind].
  rewrite (parse_field_again _ _ _ _ ReconnectInterval) by (done || by intros []). cbn [mbind result_bind].
  rewrite (parse_field_again _ _ _ _ ReconnectMaxInterval) by (done || by intros []). cbn [mbind result_bind].
  by rewrite (parse_field_again _ _ _ _ MaxDurationParsed) by (done || by intros []).
Qed.

Lemma RandomRunID_nonempty b : b <> [] -> RandomRunID b <> "".
Proof.
  destruct b as [|x b]; intros Hb E; [done|].
  apply (f_equal String.length) in E. unfold RandomRunID, hex_bytes in E. cbn [foldr] in E.
  rewrite length_append, length_hex_digits in E. simpl in E. lia.
Qed.

(** C15: a loaded configuration is settled.  Whatever the file, the decoder, the
    environment and the order of the overrides, [Load] either fails or returns a
    configuration with a run id, every one of whose durations agrees with its
    text, so that re-parsing it (as the control API does) changes nothing. *)
Theorem Load_settled ReadFile DecodeKnownFields Unmarshal order getenv random path c :
  Load ReadFile DecodeKnownFields Unmarshal order getenv random path = Ok c ->
  random <> [] ->
  RunID c <> "" /\ settled c /\ ParseDurationsPublic c = Ok c.
Proof.
  unfold Load. intros H Hr.
  destruct (read_config _ _ _ _) as [c0|]; [|done]. cbn [mbind result_bind] in H.
  destruct (parseDurations _) as [c1|] eqn:E; [|done]. cbn [mbind result_bind] in H.
  apply parseDurations_settles in E.
  assert (Hs : settled c /\ RunID c <> "").
  { destruct (String.eqb_spec (RunID c1) "") as [E0|E0]; simplify_eq; [|done].
    split; [by destruct c1|]. destruct c1. by apply RandomRunID_nonempty. }
  destruct Hs as [Hs Hid]. split_and!; [done..|]. by apply parseDurations_of_settled.
Qed.

Lemma Load_settled_witness : exists c,
  Load (fun _ => Err []) (fun _ c => Ok c) (fun _ c => Ok c) envNames (fun _ => "") [18; 52; 171; 205] ""
    = Ok c /\ DurationParsed c = 3600000000000 /\ RunID c = "1234abcd" /\
  RunID c <> "" /\ settled c /\ ParseDurationsPublic c = Ok c.
Proof.
  set (r := Load _ _ _ _ _ _ _).
  exists (match r with Ok c => c | Err _ => DefaultConfig end).
  split; [vm_compute; reflexivity|]. split; [vm_compute; reflexivity|].
  split; [vm_compute; reflexivity|].
  apply (Load_settled (fun _ => Err []) (fun _ c => Ok c) (fun _ c => Ok c) envNames (fun _ => "")
    [18; 52; 171; 205] ""); [vm_compute; reflexivity|done].
Defined.
