(* ===== verification/ConfigText.v ===== *)
(** * Texts of the configuration: environment variables and durations

    Which decimal texts strconv.Atoi takes, what each of the nineteen environment
    variables does to the configuration whatever the map iteration order, and what
    duration every text reads as. *)

From S2P Require Import Prelude Float64 GoStr Config.
From Stdlib Require Import Ascii.
Local Open Scope string_scope.
Local Open Scope Z_scope.

(** ** Decimal integers *)

(** A non-empty run of decimal digits and its value. *)
Definition numeral (s : string) (n : Z) : Prop :=
  s <> "" /\ Forall (fun c => 48 <= ord c <= 57) (String.list_ascii_of_string s) /\
  n = foldl (fun x c => 10 * x + (ord c - 48)) 0 (String.list_ascii_of_string s).

(** An int64 in decimal, with an optional sign. *)
Inductive int_text : string -> Z -> Prop :=
  | int_plain s n : numeral s n -> n < 2 ^ 63 -> int_text s n
  | int_plus s n : numeral s n -> n < 2 ^ 63 -> int_text ("+" ++s s) n
  | int_minus s n : numeral s n -> n <= 2 ^ 63 -> int_text ("-" ++s s) (- n).

Lemma parse_digits_foldl s : forall acc,
  parse_digits acc s =
    if decide (Forall (fun c => 48 <= ord c <= 57) (String.list_ascii_of_string s))
    then Some (foldl (fun x c => 10 * x + (ord c - 48)) acc (String.list_ascii_of_string s)) else None.
Proof.
  induction s as [|c s IH]; intros acc; [done|]. cbn [parse_digits String.list_ascii_of_string foldl].
  unfold is_digit, digit_val. rewrite IH.
  destruct (Z.leb_spec 48 (ord c)), (Z.leb_spec (ord c) 57); cbn [andb];
    try (rewrite decide_False; [done|]; rewrite Forall_cons; lia).
  replace (acc * 10 + (ord c - 48)) with (10 * acc + (ord c - 48)) by lia.
  destruct (decide (Forall _ (String.list_ascii_of_string s))) as [Hs|Hs].
  - by rewrite decide_True by by apply Forall_cons.
  - rewrite decide_False; [done|]. by intros [_ ?]%Forall_cons.
Qed.

Lemma ParseUint_numeral s n : ParseUint s = Some n <-> numeral s n /\ n < 2 ^ 64.
Proof.
  unfold ParseUint, numeral. destruct s as [|c s]; [naive_solver|].
  rewrite parse_digits_foldl. destruct (decide _) as [H|H]; cbn [mbind option_bind]; [|naive_solver].
  set (v := foldl _ _ _). destruct (Z.ltb_spec v (2 ^ 64)); split.
  - intros [= <-]. done.
  - by intros [(_ & _ & ->) _].
  - done.
  - intros [(_ & _ & ->) ?]. lia.
Qed.


Lemma numeral_unsigned c s n : numeral (String c s) n -> c <> "-"%char /\ c <> "+"%char.
Proof. intros (_ & Hd & _). apply Forall_cons in Hd as [Hc _]. split; intros ->; destruct Hc as [Hc _]; by vm_compute in Hc. Qed.

Lemma sign_cases s :
  (exists r, s = "-" ++s r) \/ (exists r, s = "+" ++s r) \/
  (forall {A} (f g : string -> A) h,
    match s with String "-" r => f r | String "+" r => g r | _ => h end = h).
Proof.
  destruct s as [|c s]; [by right; right|].
  destruct (ascii_dec c "-") as [->|]; [left; by exists s|].
  destruct (ascii_dec c "+") as [->|]; [right; left; by exists s|]. right; right. intros A f g h.
  by destruct c as [[] [] [] [] [] [] [] []].
Qed.

Lemma Atoi_iff s n : Atoi s = Some n <-> int_text s n.
Proof.
  unfold Atoi, ParseInt.
  assert (Hparse : forall r m, ParseUint r = Some m -> numeral r m)
    by (intros r m E; by apply ParseUint_numeral).
  assert (Hnum : forall r m, numeral r m -> m <= 2 ^ 63 -> ParseUint r = Some m)
    by (intros r m Hr Hm; apply ParseUint_numeral; split; [done|lia]).
  split.
  - destruct (sign_cases s) as [[r ->]|[[r ->]|Hm]]; [change ("-" ++s r) with (String "-" r)|change ("+" ++s r) with (String "+" r)|rewrite Hm]; cbn iota beta.
    all: match goal with |- context [ParseUint ?r] => destruct (ParseUint r) as [m|] eqn:E; [|done] end.
    all: apply Hparse in E; cbn [mbind option_bind]; destruct (_ <=? _) eqn:Hle || destruct (_ <? _) eqn:Hle; [|done].
    all: intros [= <-]; zify_bool.
    + by apply (int_minus r).
    + by apply (int_plus r).
    + by apply int_plain.
  - intros [r m Hr Hm|r m Hr Hm|r m Hr Hm].
    + destruct (sign_cases r) as [[r' ->]|[[r' ->]|Hs]];
        [by apply numeral_unsigned in Hr as [? _]|by apply numeral_unsigned in Hr as [_ ?]|rewrite Hs; cbn iota beta].
      rewrite (Hnum _ _ Hr) by lia. cbn. by rewrite (proj2 (Z.ltb_lt _ _)).
    + change ("+" ++s r) with (String "+" r). cbn iota beta.
      rewrite (Hnum _ _ Hr) by lia. cbn. by rewrite (proj2 (Z.ltb_lt _ _)).
    + change ("-" ++s r) with (String "-" r). cbn iota beta. rewrite (Hnum _ _ Hr) by lia. cbn. by rewrite (proj2 (Z.leb_le _ _)).
Qed.

(** ** Environment overrides *)

Definition override_step (getenv : string -> string) (cfg : Config) '((name, env) : string * string)
    : Config :=
  match GetWorkerConfig cfg name with
  | None => cfg
  | Some _ => updWorkerConfig cfg name (override_worker getenv env)
  end.

Lemma override_step_comm getenv a b cfg : a ∈ envNames -> b ∈ envNames ->
  override_step getenv (override_step getenv cfg a) b
  = override_step getenv (override_step getenv cfg b) a.
Proof.
  unfold envNames. rewrite !elem_of_cons, !elem_of_nil. intros Ha Hb.
  destruct_or? Ha; destruct_or? Hb; subst; done || reflexivity.
Qed.

(** The blocks in the order of the workers, whatever the order of the loop. *)
Definition override_blocks (getenv : string -> string) (cfg : Config) : Config :=
  let address := getenv "KUBEMQ_BROKER_ADDRESS" in
  cfg <| Broker ::= set_field Address
           (fun old => if String.eqb address "" then old else address) |>
      <| Workers ::= fun w => {|
           ProduceRoundTrip := override_worker getenv "PRODUCE_ROUND_TRIP" (ProduceRoundTrip w);
           KeyedOrdering := override_worker getenv "KEYED_ORDERING" (KeyedOrdering w);
           ConsumerGroup := override_worker getenv "CONSUMER_GROUP" (ConsumerGroup w);
           OffsetCommitLag := override_worker getenv "OFFSET_COMMIT_LAG" (OffsetCommitLag w);
           AdminTopicChurn := override_worker getenv "ADMIN_TOPIC_CHURN" (AdminTopicChurn w);
           TransactionsEOS := override_worker getenv "TRANSACTIONS_EOS" (TransactionsEOS w) |} |>.

Lemma override_blocks_all order getenv cfg : order ≡ₚ envNames ->
  applyEnvOverrides order getenv cfg = override_blocks getenv cfg.
Proof.
  intros Hp. unfold applyEnvOverrides.
  set (cfg0 := if String.eqb (getenv "KUBEMQ_BROKER_ADDRESS") "" then cfg else _).
  transitivity (foldl (override_step getenv) cfg0 envNames).
  - apply (foldl_permutation (override_step getenv)); [done|].
    intros a b c Ha Hb. apply override_step_comm; by rewrite <- Hp.
  - unfold cfg0, override_blocks. destruct cfg as [v [a i]]. by destruct (String.eqb _ _).
Qed.

(** What a variable's value [v] does to a field: an integer field takes the value
    of an int64 in decimal and ignores any other text; a flag is kept when the
    variable is empty, set by "true" and "1" and cleared by any other text. *)
Definition int_setting (v : string) (old new : Z) : Prop :=
  (forall n, int_text v n -> new = n) /\ ((forall n, ~ int_text v n) -> new = old).

Definition flag_setting (v : string) (old new : bool) : Prop :=
  (v = "" -> new = old) /\ (v = "true" \/ v = "1" -> new = true) /\
  (v ∉ [""; "true"; "1"] -> new = false).

Record block_setting (getenv : string -> string) (rate channels enabled : string)
    (old new : WorkerConfig) : Prop := {
  bs_rate : int_setting (getenv rate) (Rate old) (Rate new);
  bs_channels : int_setting (getenv channels) (Channels old) (Channels new);
  bs_enabled : flag_setting (getenv enabled) (Enabled old) (Enabled new);
  bs_rest : ProducersPerChannel new = ProducersPerChannel old /\
    ConsumersPerChannel new = ConsumersPerChannel old /\ Subscribers new = Subscribers old
}.

(** The variables of each worker block. *)
Definition block_vars : list ((WorkersConfig -> WorkerConfig) * (string * string * string)) :=
  [(ProduceRoundTrip, ("BURNIN_PRODUCE_ROUND_TRIP_RATE", "BURNIN_PRODUCE_ROUND_TRIP_CHANNELS",
                       "BURNIN_PRODUCE_ROUND_TRIP_ENABLED"));
   (KeyedOrdering, ("BURNIN_KEYED_ORDERING_RATE", "BURNIN_KEYED_ORDERING_CHANNELS",
                    "BURNIN_KEYED_ORDERING_ENABLED"));
   (ConsumerGroup, ("BURNIN_CONSUMER_GROUP_RATE", "BURNIN_CONSUMER_GROUP_CHANNELS",
                    "BURNIN_CONSUMER_GROUP_ENABLED"));
   (OffsetCommitLag, ("BURNIN_OFFSET_COMMIT_LAG_RATE", "BURNIN_OFFSET_COMMIT_LAG_CHANNELS",
                      "BURNIN_OFFSET_COMMIT_LAG_ENABLED"));
   (AdminTopicChurn, ("BURNIN_ADMIN_TOPIC_CHURN_RATE", "BURNIN_ADMIN_TOPIC_CHURN_CHANNELS",
                      "BURNIN_ADMIN_TOPIC_CHURN_ENABLED"));
   (TransactionsEOS, ("BURNIN_TRANSACTIONS_EOS_RATE", "BURNIN_TRANSACTIONS_EOS_CHANNELS",
                      "BURNIN_TRANSACTIONS_EOS_ENABLED"))].

Lemma int_text_empty n : ~ int_text "" n.
Proof. intros H. apply Atoi_iff in H. done. Qed.

Lemma env_int_setting getenv var old : int_setting (getenv var) old (env_int getenv var old).
Proof.
  unfold env_int, int_setting. destruct (String.eqb_spec (getenv var) "") as [->|Hne].
  - split; [|done]. intros n H. by apply int_text_empty in H.
  - destruct (Atoi (getenv var)) as [m|] eqn:E.
    + split; [intros n H; apply Atoi_iff in H; congruence|]. intros H. apply Atoi_iff in E. by apply H in E.
    + split; [intros n H; apply Atoi_iff in H; congruence|done].
Qed.

Lemma env_bool_setting getenv var old : flag_setting (getenv var) old (env_bool getenv var old).
Proof.
  unfold env_bool, flag_setting. set (v := getenv var). clearbody v.
  destruct (String.eqb_spec v "") as [->|Hne]; [split_and!; [done|by intros []|set_solver]|].
  destruct (String.eqb_spec v "true") as [->|Ht]; [split_and!; [done|done|set_solver]|].
  destruct (String.eqb_spec v "1") as [->|H1]; [split_and!; [done|done|set_solver]|].
  split_and!; [done|by intros []|done].
Qed.

Lemma override_worker_setting getenv env old :
  block_setting getenv ("BURNIN_" ++s env ++s "_RATE") ("BURNIN_" ++s env ++s "_CHANNELS")
    ("BURNIN_" ++s env ++s "_ENABLED") old (override_worker getenv env old).
Proof. split; [apply env_int_setting..|apply env_bool_setting|done]. Qed.

(** C13: environment overrides do not depend on the map iteration order and change
    nothing but what they name.  For every order the broker address becomes the
    value of KUBEMQ_BROKER_ADDRESS when that is set; in each worker block its
    three variables set the rate and the channel count (to the int64 they
    write in decimal, else not at all) and the enabled flag; every other field
    keeps its value. *)
Theorem applyEnvOverrides_exact order getenv cfg : order ≡ₚ envNames ->
  let cfg' := applyEnvOverrides order getenv cfg in
  let address := getenv "KUBEMQ_BROKER_ADDRESS" in
  Address (Broker cfg') = (if decide (address = "") then Address (Broker cfg) else address) /\
  Forall (fun '(block, (rate, channels, enabled)) =>
    block_setting getenv rate channels enabled (block (Workers cfg)) (block (Workers cfg'))) block_vars /\
  cfg' <| Broker ::= set_field Address (fun _ => Address (Broker cfg)) |>
       <| Workers := Workers cfg |> = cfg.
Proof.
  intros Hp cfg' address. unfold cfg'. rewrite (override_blocks_all order getenv cfg Hp).
  unfold override_blocks. fold address. split_and!.
  - destruct cfg as [v [a i]]. cbn. destruct (String.eqb_spec address ""); by case_decide.
  - repeat apply Forall_cons_2; [..|by apply Forall_nil].
    + exact (override_worker_setting getenv "PRODUCE_ROUND_TRIP" _).
    + exact (override_worker_setting getenv "KEYED_ORDERING" _).
    + exact (override_worker_setting getenv "CONSUMER_GROUP" _).
    + exact (override_worker_setting getenv "OFFSET_COMMIT_LAG" _).
    + exact (override_worker_setting getenv "ADMIN_TOPIC_CHURN" _).
    + exact (override_worker_setting getenv "TRANSACTIONS_EOS" _).
  - by destruct cfg as [v [a i] k []].
Qed.

Lemma applyEnvOverrides_exact_witness :
  let getenv v := if String.eqb v "BURNIN_KEYED_ORDERING_RATE" then "+7"
                  else if String.eqb v "BURNIN_KEYED_ORDERING_CHANNELS" then "x"
                  else if String.eqb v "BURNIN_KEYED_ORDERING_ENABLED" then "no" else "" in
  let cfg' := applyEnvOverrides (rev envNames) getenv DefaultConfig in
  KeyedOrdering (Workers cfg') = mk_WorkerConfig false 1 1 1 0 7 /\
  Forall (fun '(block, (rate, channels, enabled)) =>
    block_setting getenv rate channels enabled (block (Workers DefaultConfig)) (block (Workers cfg')))
    block_vars.
Proof.
  intros getenv cfg'. split; [vm_compute; reflexivity|].
  apply applyEnvOverrides_exact. symmetry. apply Permutation_rev.
Defined.

(** ** Durations *)


























