(* ===== verification/Metrics.v ===== *)
(** * Metrics (burnin/metrics/metrics.go)

    The Prometheus vectors are the client library's: a call on one of them is an
    event, and an operation that touches metrics returns the events it emits.
    The in-memory accumulators are modelled in full: the sliding rate window,
    the peak-rate tracker and the latency accumulator over the HdrHistogram
    library. *)

From S2P Require Import Prelude Float64 GoStr.
Local Open Scope string_scope.
Local Open Scope Z_scope.
Local Open Scope list_scope.

(** ** The Prometheus surface *)

(** A call on the child [WithLabelValues(labels)] of the vector [name]. *)
Inductive metric_event :=
  | CounterAdd (name : string) (labels : list string) (v : float64)
  | GaugeSet (name : string) (labels : list string) (v : float64)
  | HistogramObserve (name : string) (labels : list string) (v : float64).

Definition sdkLabel : string := "kafka".
Definition SDK : string := sdkLabel.

Definition MessagesSentTotal : string := "burnin_messages_sent_total".
Definition MessagesReceivedTotal : string := "burnin_messages_received_total".
Definition MessagesLostTotal : string := "burnin_messages_lost_total".
Definition MessagesDuplicatedTotal : string := "burnin_messages_duplicated_total".
Definition MessagesCorruptedTotal : string := "burnin_messages_corrupted_total".
Definition MessagesOutOfOrderTotal : string := "burnin_messages_out_of_order_total".
Definition ErrorsTotal : string := "burnin_errors_total".
Definition ReconnectionsTotal : string := "burnin_reconnections_total".
Definition BytesSentTotal : string := "burnin_bytes_sent_total".
Definition BytesReceivedTotal : string := "burnin_bytes_received_total".
Definition DeletesTotal : string := "burnin_kafka_offset_commits_total".
Definition DowntimeSecondsTotal : string := "burnin_downtime_seconds_total".
Definition ForcedDisconnectsTotal : string := "burnin_forced_disconnects_total".
Definition OffsetOrderViolationsTotal : string := "burnin_kafka_offset_order_violations_total".
Definition GroupLossRebalanceTotal : string := "burnin_kafka_group_loss_rebalance_total".
Definition EOSViolationsTotal : string := "burnin_kafka_eos_violations_total".
Definition AdminOpFailuresTotal : string := "burnin_kafka_admin_op_failures_total".
Definition AdminInvalidRejectedTotal : string := "burnin_kafka_admin_invalid_rejected_total".
Definition KIP890ResidualTotal : string := "burnin_kafka_kip890_residual_total".
Definition MessageLatencySeconds : string := "burnin_message_latency_seconds".
Definition SendDurationSeconds : string := "burnin_send_duration_seconds".
Definition ActiveConnections : string := "burnin_active_connections".
Definition UptimeSeconds : string := "burnin_uptime_seconds".
Definition TargetRate : string := "burnin_target_rate".
Definition ActualRate : string := "burnin_actual_rate".
Definition ConsumerLag : string := "burnin_consumer_lag_messages".
Definition LagAccuracyError : string := "burnin_kafka_lag_accuracy_error_msgs".
Definition WarmupActive : string := "burnin_warmup_active".

(** time.Duration.Seconds: whole seconds plus the fraction, each rounded. *)
Definition Seconds (d : Z) : float64 :=
  fadd (f_of_Z (Z.quot d 1000000000)) (fdiv (f_of_Z (Z.rem d 1000000000)) (f_of_Z 1000000000)).

Definition Inc (name : string) (labels : list string) : metric_event :=
  CounterAdd name (sdkLabel :: labels) (f_of_Z 1).
Definition Add (name : string) (labels : list string) (v : float64) : metric_event :=
  CounterAdd name (sdkLabel :: labels) v.
Definition Set_ (name : string) (labels : list string) (v : float64) : metric_event :=
  GaugeSet name (sdkLabel :: labels) v.

Definition errorTypes : list string :=
  ["produce_failure"; "fetch_failure"; "commit_failure"; "create_failure";
   "connect_failure"; "txn_failure"; "admin_failure"].

Definition init_worker (w : string) : list metric_event :=
  [Add MessagesSentTotal [w; "p-" ++s w ++s "-000"] fzero;
   Add MessagesReceivedTotal [w; "c-" ++s w ++s "-000"] fzero;
   Add MessagesLostTotal [w] fzero; Add MessagesDuplicatedTotal [w] fzero;
   Add MessagesCorruptedTotal [w] fzero; Add MessagesOutOfOrderTotal [w] fzero;
   Add ReconnectionsTotal [w] fzero; Add BytesSentTotal [w] fzero;
   Add BytesReceivedTotal [w] fzero; Add DeletesTotal [w] fzero;
   Add DowntimeSecondsTotal [w] fzero; Add OffsetOrderViolationsTotal [w] fzero;
   Add GroupLossRebalanceTotal [w] fzero; Add EOSViolationsTotal [w] fzero;
   Add AdminOpFailuresTotal [w] fzero; Add AdminInvalidRejectedTotal [w] fzero;
   Add KIP890ResidualTotal [w] fzero]
  ++ map (fun et => Add ErrorsTotal [w; et] fzero) errorTypes
  ++ [Set_ ActiveConnections [w] fzero; Set_ TargetRate [w] fzero; Set_ ActualRate [w] fzero;
      Set_ ConsumerLag [w] fzero; Set_ LagAccuracyError [w] fzero].

Definition InitMetrics (workers : list string) : list metric_event :=
  concat (map init_worker workers)
  ++ [Add ForcedDisconnectsTotal [] fzero; Set_ UptimeSeconds [] fzero; Set_ WarmupActive [] fzero].

Definition IncSent (worker producerID : string) := Inc MessagesSentTotal [worker; producerID].
Definition IncReceived (worker consumerID : string) := Inc MessagesReceivedTotal [worker; consumerID].
Definition AddLost (worker : string) (delta : Z) := Add MessagesLostTotal [worker] (f_of_Z delta).
Definition IncDuplicated (worker : string) := Inc MessagesDuplicatedTotal [worker].
Definition IncCorrupted (worker : string) := Inc MessagesCorruptedTotal [worker].
Definition IncOutOfOrder (worker : string) := Inc MessagesOutOfOrderTotal [worker].
Definition IncError (worker errorType : string) := Inc ErrorsTotal [worker; errorType].
Definition IncReconnection (worker : string) := Inc ReconnectionsTotal [worker].
Definition IncDelete (worker : string) := Inc DeletesTotal [worker].
Definition IncOffsetOrderViolation (worker : string) := Inc OffsetOrderViolationsTotal [worker].
Definition IncGroupLossRebalance (worker : string) := Inc GroupLossRebalanceTotal [worker].
Definition IncEOSViolation (worker : string) := Inc EOSViolationsTotal [worker].
Definition IncAdminOpFailure (worker : string) := Inc AdminOpFailuresTotal [worker].
Definition IncAdminInvalidRejected (worker : string) := Inc AdminInvalidRejectedTotal [worker].
Definition IncKIP890Residual (worker : string) := Inc KIP890ResidualTotal [worker].
Definition SetLagAccuracyError (worker : string) (v : float64) := Set_ LagAccuracyError [worker] v.
Definition ObserveLatency (worker : string) (d : Z) :=
  HistogramObserve MessageLatencySeconds [sdkLabel; worker] (Seconds d).
Definition ObserveSendDuration (worker : string) (d : Z) :=
  HistogramObserve SendDurationSeconds [sdkLabel; worker] (Seconds d).
Definition AddDowntime (worker : string) (seconds : float64) := Add DowntimeSecondsTotal [worker] seconds.
Definition IncForcedDisconnect := Inc ForcedDisconnectsTotal [].
Definition RecordBytesSent (worker : string) (n : Z) := Add BytesSentTotal [worker] (f_of_Z n).
Definition RecordBytesReceived (worker : string) (n : Z) := Add BytesReceivedTotal [worker] (f_of_Z n).
Definition SetActiveConnections (worker : string) (n : float64) := Set_ ActiveConnections [worker] n.
Definition SetTargetRate (worker : string) (r : float64) := Set_ TargetRate [worker] r.
Definition SetActualRate (worker : string) (r : float64) := Set_ ActualRate [worker] r.
Definition SetConsumerLag (worker : string) (lag : float64) := Set_ ConsumerLag [worker] lag.

(** ** Latency accumulator

    The HdrHistogram library is a parameter: its state and the four calls made. *)

Class HdrHistogram := {
  hist : Type;
  hdr_New : Z -> Z -> Z -> hist;
  RecordValue : hist -> Z -> hist;
  ValueAtQuantile : hist -> float64 -> Z;
  hdr_Reset : hist -> hist;
  hdr_TotalCount : hist -> Z
}.

Module Latency.
Section Latency.
Context `{HdrHistogram}.

Definition LatencyAccumulator : Type := hist.
Definition NewLatencyAccumulator : LatencyAccumulator := hdr_New 1 60000000 3.

(** d.Microseconds() truncates; a value out of range is dropped by the library. *)
Definition Record_ (a : LatencyAccumulator) (d : Z) : LatencyAccumulator :=
  RecordValue a (Z.quot d 1000).

Definition Percentiles (a : LatencyAccumulator) : float64 * float64 * float64 * float64 :=
  let at_ q := fdiv (f_of_Z (ValueAtQuantile a q)) (f_of_Z 1000) in
  (at_ (f_of_Z 50), at_ (f_of_Z 95), at_ (f_of_Z 99), at_ (f_lit 999 10)).

Definition Reset_ (a : LatencyAccumulator) : LatencyAccumulator := hdr_Reset a.
Definition Count (a : LatencyAccumulator) : Z := hdr_TotalCount a.

End Latency.
End Latency.

(** ** Rate windows *)

(** An element of a Go array of int64 replaced; out of range it would panic,
    which the index bounds proved below exclude. *)
Definition set_nth (i : Z) (f : Z -> Z) (l : list Z) : list Z := alter f (Z.to_nat i) l.
Definition get_nth (i : Z) (l : list Z) : Z := nth (Z.to_nat i) l 0.

Module Sliding.

Definition slidingWindowSize : Z := 30.

Record SlidingRateWindow := mk_SlidingRateWindow {
  buckets : list Z; idx : Z; total : Z; ticks : Z
}.
#[global] Instance eta_SlidingRateWindow : Eta SlidingRateWindow := fun w =>
  mk_SlidingRateWindow (buckets w) (idx w) (total w) (ticks w).

Definition NewSlidingRateWindow : SlidingRateWindow :=
  mk_SlidingRateWindow (replicate (Z.to_nat slidingWindowSize) 0) 0 0 0.

Definition Record_ (w : SlidingRateWindow) : SlidingRateWindow :=
  w <| buckets ::= set_nth (idx w) (fun b => b +i 1) |> <| total ::= fun t => t +i 1 |>.

Definition Advance (w : SlidingRateWindow) : SlidingRateWindow :=
  let w := w <| idx := (idx w + 1) mod slidingWindowSize |> in
  let w := w <| total ::= fun t => t -i get_nth (idx w) (buckets w) |> in
  w <| buckets ::= set_nth (idx w) (fun _ => 0) |> <| ticks ::= fun t => t +i 1 |>.

Definition Rate (w : SlidingRateWindow) : float64 :=
  let window := if slidingWindowSize <? ticks w then slidingWindowSize else ticks w in
  if window =? 0 then fzero else fdiv (f_of_Z (total w)) (f_of_Z window).

Definition Reset_ (w : SlidingRateWindow) : SlidingRateWindow :=
  mk_SlidingRateWindow (map (fun _ => 0) (buckets w)) 0 0 0.

End Sliding.

Module Peak.

Definition peakWindowSize : Z := 10.

Record PeakRateTracker := mk_PeakRateTracker { buckets : list Z; idx : Z; peak : float64 }.
#[global] Instance eta_PeakRateTracker : Eta PeakRateTracker := fun p =>
  mk_PeakRateTracker (buckets p) (idx p) (peak p).

Definition NewPeakRateTracker : PeakRateTracker :=
  mk_PeakRateTracker (replicate (Z.to_nat peakWindowSize) 0) 0 fzero.

Definition Record_ (p : PeakRateTracker) : PeakRateTracker :=
  p <| buckets ::= set_nth (idx p) (fun b => b +i 1) |>.

Definition Advance (p : PeakRateTracker) : PeakRateTracker :=
  let total := foldl (fun t b => t +i b) 0 (buckets p) in
  let avg := fdiv (f_of_Z total) (f_of_Z peakWindowSize) in
  let p := if fltb (peak p) avg then p <| peak := avg |> else p in
  let p := p <| idx := (idx p + 1) mod peakWindowSize |> in
  p <| buckets ::= set_nth (idx p) (fun _ => 0) |>.

Definition Peak (p : PeakRateTracker) : float64 := peak p.

End Peak.

(** *** The ring of per-tick counts

    Both accumulators keep the counts of the last ticks in a ring. The
    abstraction is the list of counts of every tick, latest first. *)

Definition zsum (l : list Z) : Z := foldr Z.add 0 l.

Definition ring_rep (n : nat) (bs : list Z) (i : Z) (h : list Z) : Prop :=
  length bs = n /\ 0 <= i < Z.of_nat n /\
  (forall k, (k < n)%nat -> get_nth ((i - Z.of_nat k) mod Z.of_nat n) bs = nth k h 0) /\
  zsum bs = zsum (take n h).

Lemma nth_default_lookup (l : list Z) n : nth n l 0 = default 0 (l !! n).
Proof. revert n. induction l as [|x l IH]; intros [|n]; simpl; auto. Qed.

Lemma get_set_nth i j f l : 0 <= i < Z.of_nat (length l) -> 0 <= j ->
  get_nth j (set_nth i f l) = if decide (i = j) then f (get_nth j l) else get_nth j l.
Proof.
  intros Hi Hj. unfold get_nth, set_nth. rewrite !nth_default_lookup. case_decide; subst.
  - rewrite list_lookup_alter_eq.
    destruct (lookup_lt_is_Some_2 l (Z.to_nat j)) as [x ->]; [lia|done].
  - by rewrite list_lookup_alter_ne by lia.
Qed.

Lemma zsum_cons x l : zsum (x :: l) = x + zsum l.
Proof. done. Qed.

Lemma zsum_set_nth i f l : 0 <= i < Z.of_nat (length l) ->
  zsum (set_nth i f l) = zsum l - get_nth i l + f (get_nth i l).
Proof.
  unfold set_nth, get_nth. intros Hi. assert (Hn : (Z.to_nat i < length l)%nat) by lia.
  revert Hn. generalize (Z.to_nat i) as n. clear.
  induction l as [|x l IH]; intros [|n] Hn; cbn [length] in Hn; try lia; cbn [nth].
  - change (alter f 0%nat (x :: l)) with (f x :: l). rewrite !zsum_cons. lia.
  - change (alter f (S n) (x :: l)) with (x :: alter f n l). rewrite !zsum_cons, IH by lia. lia.
Qed.

Lemma zsum_take_succ n h : zsum (take (S n) h) = zsum (take n h) + nth n h 0.
Proof.
  revert h. induction n as [|n IH]; intros [|x h]; try done; [simpl; lia|].
  rewrite !firstn_cons, !zsum_cons, IH. cbn [nth]. lia.
Qed.

Lemma ring_mod n i k : 0 <= i < Z.of_nat n -> (k < n)%nat ->
  (i - Z.of_nat k) mod Z.of_nat n = if decide (Z.of_nat k <= i) then i - Z.of_nat k
                                    else i - Z.of_nat k + Z.of_nat n.
Proof.
  intros Hi Hk. case_decide; [apply Z.mod_small; lia|].
  rewrite <- (Z.mod_add _ 1) by lia. rewrite Z.mod_small; lia.
Qed.

Lemma ring_record n bs i x h : ring_rep n bs i (x :: h) ->
  ring_rep n (set_nth i (fun b => b + 1) bs) i (x + 1 :: h).
Proof.
  intros (Hl & Hi & Hk & Hs). split_and!; [by unfold set_nth; rewrite length_alter|lia|lia| |].
  - intros k Hkn. specialize (Hk k Hkn) as E. rewrite ring_mod in E |- * by done.
    destruct k as [|k].
    + rewrite decide_True, Z.sub_0_r in E |- * by lia.
      rewrite get_set_nth, decide_True, E by (done || lia). done.
    + case_decide; rewrite get_set_nth, decide_False by lia; exact E.
  - rewrite zsum_set_nth, Hs by lia.
    specialize (Hk 0%nat ltac:(lia)) as E. rewrite ring_mod, decide_True in E by lia.
    rewrite Z.sub_0_r in E. rewrite E. destruct n; [lia|]. simpl. lia.
Qed.

Lemma ring_advance n bs i h : ring_rep n bs i h ->
  let j := (i + 1) mod Z.of_nat n in
  get_nth j bs = nth (n - 1) h 0 /\ ring_rep n (set_nth j (fun _ => 0) bs) j (0 :: h).
Proof.
  intros (Hl & Hi & Hk & Hs) j.
  assert (Hj : j = if decide (i + 1 < Z.of_nat n) then i + 1 else 0).
  { unfold j. case_decide; [apply Z.mod_small; lia|].
    replace (i + 1) with (Z.of_nat n) by lia. apply Z.mod_same. lia. }
  assert (Hj0 : 0 <= j < Z.of_nat n) by (rewrite Hj; case_decide; lia).
  assert (Hold : get_nth j bs = nth (n - 1) h 0).
  { rewrite <- Hk, ring_mod by lia. f_equal. rewrite Hj. repeat case_decide; lia. }
  split; [done|]. split_and!; [by unfold set_nth; rewrite length_alter|lia|lia| |].
  - intros k Hkn. rewrite ring_mod by done.
    destruct k as [|k].
    + rewrite decide_True, Z.sub_0_r, get_set_nth, decide_True by (done || lia). done.
    + cbn [nth]. rewrite <- Hk, ring_mod by lia.
      clearbody j.
      destruct (decide (Z.of_nat (S k) <= j)), (decide (Z.of_nat k <= i));
        rewrite get_set_nth, decide_False by lia; f_equal; case_decide; lia.
  - rewrite zsum_set_nth, Hs, Hold by lia. destruct n as [|n]; [lia|].
    rewrite Nat.sub_succ, Nat.sub_0_r, zsum_take_succ. simpl. unfold zsum. lia.
Qed.

Lemma ring_new n : (0 < n)%nat -> ring_rep n (replicate n 0) 0 [0].
Proof.
  intros Hn. split_and!; [apply length_replicate|lia|lia| |].
  - intros k Hk. unfold get_nth. rewrite nth_default_lookup, lookup_replicate_2; [by destruct k as [|[|]]|].
    pose proof (Z.mod_pos_bound (0 - Z.of_nat k) (Z.of_nat n) ltac:(lia)). lia.
  - destruct n; [lia|]. rewrite firstn_cons, take_nil, zsum_cons. simpl.
    clear. induction n as [|n IH]; [done|]. by rewrite replicate_S, zsum_cons.
Qed.

(** The counts per tick of a history of operations, the current tick first. *)
Inductive rate_op := OpRecord | OpAdvance.

#[export] Instance rate_op_eq_dec : EqDecision rate_op.
Proof. solve_decision. Defined.

Definition tick_counts (ops : list rate_op) : list Z :=
  foldl (fun h op =>
    match op, h with
    | OpRecord, x :: h => (x + 1) :: h
    | OpRecord, [] => [1]
    | OpAdvance, h => 0 :: h
    end) [0] ops.

Definition sliding_op (w : Sliding.SlidingRateWindow) (op : rate_op) : Sliding.SlidingRateWindow :=
  match op with OpRecord => Sliding.Record_ w | OpAdvance => Sliding.Advance w end.
Definition peak_op (p : Peak.PeakRateTracker) (op : rate_op) : Peak.PeakRateTracker :=
  match op with OpRecord => Peak.Record_ p | OpAdvance => Peak.Advance p end.

Definition advances (ops : list rate_op) : Z :=
  Z.of_nat (length (filter (fun op => op = OpAdvance) ops)).

(** The averages over the last ten ticks at each [OpAdvance] of a history:
    what the peak is the maximum of. *)
Fixpoint peak_averages (h : list Z) (ops : list rate_op) : list float64 :=
  match ops with
  | [] => []
  | op :: ops =>
      match op with
      | OpRecord => peak_averages (match h with x :: h => (x + 1) :: h | [] => [1] end) ops
      | OpAdvance =>
          fdiv (f_of_Z (zsum (take 10 h))) (f_of_Z 10) :: peak_averages (0 :: h) ops
      end
  end.

Lemma set_nth_ext i f g l : f (get_nth i l) = g (get_nth i l) -> set_nth i f l = set_nth i g l.
Proof.
  unfold set_nth, get_nth. generalize (Z.to_nat i) as n.
  induction l as [|x l IH]; intros [|n] E; simpl in *; [done..|by rewrite E|].
  change (x :: alter f n l = x :: alter g n l). f_equal. by apply IH.
Qed.

Lemma zsum_nonneg l : Forall (Z.le 0) l -> 0 <= zsum l.
Proof. induction 1; rewrite ?zsum_cons; simpl; lia. Qed.

Lemma zsum_take_le n l : Forall (Z.le 0) l -> 0 <= zsum (take n l) <= zsum l.
Proof.
  intros H. revert n. induction H as [|x l Hx Hl IH]; intros [|n]; try (simpl; lia).
  - rewrite zsum_cons. pose proof (zsum_nonneg _ Hl). simpl. lia.
  - rewrite firstn_cons, !zsum_cons. specialize (IH n). lia.
Qed.

Lemma nth_le_zsum n l : Forall (Z.le 0) l -> 0 <= nth n l 0 <= zsum l.
Proof.
  intros H. revert n. induction H as [|x l Hx Hl IH]; intros [|n]; try (simpl; lia);
    rewrite zsum_cons; cbn [nth]; pose proof (zsum_nonneg _ Hl); [|specialize (IH n)]; lia.
Qed.

(** Counts are non-negative, sum to at most the number of records, and there is
    always a current tick. *)
Lemma tick_counts_ok ops :
  Forall (Z.le 0) (tick_counts ops) /\ zsum (tick_counts ops) <= Z.of_nat (length ops) /\
  exists x h, tick_counts ops = x :: h.
Proof.
  induction ops as [|op ops IH] using rev_ind.
  { split_and!; [simpl; repeat constructor; lia|simpl; lia|by eexists _, _]. }
  unfold tick_counts in *. rewrite foldl_app, length_app. cbn [foldl length].
  destruct IH as (Hf & Hs & x & h & E). rewrite E in *. rewrite zsum_cons in Hs.
  apply Forall_cons in Hf as [Hx Hh]. destruct op; rewrite !zsum_cons.
  - split_and!; [apply Forall_cons; split; [lia|done]|lia|by eexists _, _].
  - split_and!; [by repeat (apply Forall_cons; split; [lia|])|lia|by eexists _, _].
Qed.

Lemma sliding_inv ops : Z.of_nat (length ops) < 2 ^ 63 ->
  let w := foldl sliding_op Sliding.NewSlidingRateWindow ops in
  ring_rep 30 (Sliding.buckets w) (Sliding.idx w) (tick_counts ops) /\
  Sliding.total w = zsum (take 30 (tick_counts ops)) /\ Sliding.ticks w = advances ops.
Proof.
  induction ops as [|op ops IH] using rev_ind; intros Hlen.
  { split_and!; [apply ring_new; lia|done|done]. }
  rewrite length_app in Hlen. simpl in Hlen.
  destruct (IH ltac:(lia)) as (Hr & Ht & Hk). clear IH.
  destruct (tick_counts_ok ops) as (Hf & Hs & x & h & E).
  unfold tick_counts, advances in *. rewrite !foldl_app, filter_app, length_app. cbn [foldl].
  set (w := foldl sliding_op _ ops) in *. destruct w as [bs i t k].
  cbn [Sliding.buckets Sliding.idx Sliding.total Sliding.ticks] in *. subst t k.
  assert (Hn : (length (filter (fun op => op = OpAdvance) ops) <= length ops)%nat)
    by apply length_filter.
  rewrite E in *. pose proof (zsum_take_le 30 _ Hf). pose proof (zsum_nonneg _ Hf).
  destruct op; cbn [sliding_op].
  - unfold Sliding.Record_. cbv [set_field].
    cbn [Sliding.buckets Sliding.idx Sliding.total Sliding.ticks]. rewrite Nat.add_0_r.
    pose proof (ring_record _ _ _ _ _ Hr) as Hr'.
    destruct Hr as (Hl & Hi & Hg & Hsum).
    specialize (Hg 0%nat ltac:(lia)) as Hx. rewrite ring_mod, decide_True, Z.sub_0_r in Hx by lia.
    simpl in Hx. apply Forall_cons in Hf as [Hx0 Hf]. rewrite zsum_cons in *.
    pose proof (zsum_nonneg _ Hf).
    rewrite (set_nth_ext _ (fun b => b +i 1) (fun b => b + 1)) by (rewrite Hx; unwrap; lia).
    rewrite !(firstn_cons 29), !zsum_cons in *. split_and!; [done|unwrap; lia|done].
  - unfold Sliding.Advance, Sliding.slidingWindowSize. cbv [set_field].
    cbn [Sliding.buckets Sliding.idx Sliding.total Sliding.ticks].
    destruct (ring_advance _ _ _ _ Hr) as [Hold Hr'].
    change (Z.of_nat 30) with 30 in *. rewrite Hold. change (30 - 1)%nat with 29%nat.
    pose proof (nth_le_zsum 29 _ Hf).
    change (length (filter (fun op => op = OpAdvance) [OpAdvance])) with 1%nat.
    split_and!; [done| |unwrap; lia].
    change (take 30 (0 :: x :: h)) with (0 :: take 29 (x :: h)). rewrite zsum_cons.
    pose proof (zsum_take_succ 29 (x :: h)). unwrap. lia.
Qed.

(** C16: the sliding rate is exact.  After any history of [Record] and [Advance]
    calls the window total is the number of records in the current tick and the
    29 before it, and [Rate] is that total divided by the number of ticks
    elapsed, capped at 30; no bucket is ever read or written out of bounds. *)
Theorem sliding_rate_exact ops : Z.of_nat (length ops) < 2 ^ 63 ->
  let w := foldl sliding_op Sliding.NewSlidingRateWindow ops in
  let recent := zsum (take 30 (tick_counts ops)) in
  (0 <= Sliding.idx w < Z.of_nat (length (Sliding.buckets w))) /\
  Sliding.total w = recent /\
  Sliding.Rate w =
    (if advances ops =? 0 then fzero
     else fdiv (f_of_Z recent) (f_of_Z (Z.min (advances ops) 30))).
Proof.
  intros Hlen w recent. destruct (sliding_inv ops Hlen) as ((Hl & Hi & _) & Ht & Hk).
  fold w in Hl, Hi, Ht, Hk. split_and!; [lia|lia|done|].
  unfold Sliding.Rate, Sliding.slidingWindowSize. rewrite Ht, Hk. fold recent.
  destruct (Z.ltb_spec 30 (advances ops)).
  - rewrite (proj2 (Z.eqb_neq (advances ops) 0)) by lia. rewrite Z.min_r by lia. done.
  - rewrite Z.min_l by lia. done.
Qed.

Lemma sliding_rate_exact_witness :
  let ops := [OpRecord; OpRecord; OpAdvance; OpRecord; OpAdvance] in
  Sliding.Rate (foldl sliding_op Sliding.NewSlidingRateWindow ops) = fdiv (f_of_Z 3) (f_of_Z 2).
Proof. intros ops. apply (sliding_rate_exact ops). simpl. lia. Defined.

(** *** Peak rate *)

Lemma sum_loop bs t : Forall (Z.le 0) bs -> 0 <= t -> t + zsum bs < 2 ^ 63 ->
  foldl (fun t b => t +i b) t bs = t + zsum bs.
Proof.
  intros Hb. revert t. induction Hb as [|b bs Hb Hbs IH]; intros t Ht Hs; [simpl; lia|].
  rewrite zsum_cons in *. pose proof (zsum_nonneg _ Hbs). cbn [foldl].
  rewrite IH; unwrap; lia.
Qed.

Lemma ring_nonneg n bs i h : ring_rep n bs i h -> Forall (Z.le 0) h -> Forall (Z.le 0) bs.
Proof.
  intros (Hl & Hi & Hg & _) Hh. apply Forall_lookup. intros j b Hj.
  pose proof (lookup_lt_Some _ _ _ Hj) as Hjn.
  set (k := Z.to_nat ((i - Z.of_nat j) mod Z.of_nat n)).
  assert (0 <= (i - Z.of_nat j) mod Z.of_nat n < Z.of_nat n) by (apply Z.mod_pos_bound; lia).
  assert (E : (i - Z.of_nat k) mod Z.of_nat n = Z.of_nat j).
  { unfold k. rewrite Z2Nat.id, Zminus_mod_idemp_r by lia.
    replace (i - (i - Z.of_nat j)) with (Z.of_nat j) by lia. apply Z.mod_small. lia. }
  specialize (Hg k ltac:(lia)). rewrite E in Hg. unfold get_nth in Hg.
  rewrite Nat2Z.id, nth_default_lookup, Hj in Hg. simpl in Hg. rewrite Hg.
  pose proof (nth_le_zsum k _ Hh). lia.
Qed.

Definition fmax (m a : float64) : float64 := if fltb m a then a else m.

Lemma peak_run ops : forall p h,
  ring_rep 10 (Peak.buckets p) (Peak.idx p) h -> Forall (Z.le 0) h -> h <> [] ->
  zsum h + Z.of_nat (length ops) < 2 ^ 63 ->
  Peak.peak (foldl peak_op p ops) = foldl fmax (Peak.peak p) (peak_averages h ops).
Proof.
  induction ops as [|op ops IH]; intros [bs i pk] h Hr Hf Hne Hlen; [done|].
  cbn [foldl length Peak.buckets Peak.idx Peak.peak] in *.
  pose proof (zsum_nonneg _ Hf). destruct op; cbn [peak_op peak_averages].
  - destruct h as [|x h]; [done|].
    pose proof (ring_record _ _ _ _ _ Hr) as Hr'. destruct Hr as (Hl & Hi & Hg & _).
    specialize (Hg 0%nat ltac:(lia)) as Hx. rewrite ring_mod, decide_True, Z.sub_0_r in Hx by lia.
    simpl in Hx. pose proof Hf as Hf'. apply Forall_cons in Hf' as [Hx0 Hf'].
    pose proof (zsum_nonneg _ Hf'). rewrite zsum_cons in *.
    unfold Peak.Record_. cbv [set_field]. cbn [Peak.buckets Peak.idx Peak.peak].
    rewrite (set_nth_ext _ (fun b => b +i 1) (fun b => b + 1)) by (rewrite Hx; unwrap; lia).
    rewrite (IH _ ((x + 1) :: h)); [done..| | |]; cbn [Peak.buckets Peak.idx];
      [apply Forall_cons; split; [lia|done]|done|rewrite zsum_cons; lia].
  - pose proof (ring_nonneg _ _ _ _ Hr Hf) as Hb. pose proof (zsum_take_le 10 _ Hf).
    assert (Hsum : foldl (fun t b => t +i b) 0 bs = zsum (take 10 h)).
    { destruct Hr as (_ & _ & _ & Hs). rewrite sum_loop; [lia|done|lia|lia]. }
    destruct (ring_advance _ _ _ _ Hr) as [_ Hr'].
    unfold Peak.Advance. cbn [Peak.buckets]. rewrite Hsum.
    cbn [foldl]. set (a := fdiv _ _).
    replace (fmax pk a) with
      (Peak.peak (if fltb pk a then Peak.mk_PeakRateTracker bs i a else Peak.mk_PeakRateTracker bs i pk))
      by (unfold fmax; by destruct (fltb pk a)).
    cbv [set_field]. cbn [Peak.buckets Peak.idx Peak.peak].
    destruct (fltb pk a); cbn [Peak.buckets Peak.idx Peak.peak];
      (rewrite (IH _ (0 :: h)); [done|exact Hr'|by apply Forall_cons|done|rewrite zsum_cons; lia]).
Qed.

Lemma peak_averages_not_nan ops : forall h, Forall (Z.le 0) h ->
  zsum h + Z.of_nat (length ops) < 2 ^ 63 ->
  Forall (fun a => is_nan a = false) (peak_averages h ops).
Proof.
  induction ops as [|op ops IH]; intros h Hf Hlen; cbn [peak_averages length] in *; [constructor|].
  destruct op.
  - destruct h as [|x h].
    + apply IH; [apply Forall_cons; split; [lia|done]|simpl in *; lia].
    + rewrite zsum_cons in Hlen. apply Forall_cons in Hf as [? ?].
      apply IH; [by apply Forall_cons; split; [lia|]|rewrite zsum_cons; lia].
  - apply Forall_cons. split.
    + apply fdiv_not_nan; [|done]. apply f_of_Z_not_nan. pose proof (zsum_take_le 10 _ Hf). lia.
    + apply IH; [by apply Forall_cons|rewrite zsum_cons; lia].
Qed.

Lemma fmax_ge m a : is_nan m = false -> is_nan a = false ->
  is_nan (fmax m a) = false /\ fleb m (fmax m a) = true /\ fleb a (fmax m a) = true /\
  (fmax m a = m \/ fmax m a = a).
Proof.
  intros Hm Ha. unfold fmax. destruct (fltb m a) eqn:E.
  - split_and!; [done|fkey_solve|fkey_solve|by right].
  - split_and!; [done|fkey_solve| |by left].
    rewrite (fltb_negb_fleb m a) in E by done. by apply negb_false_iff in E.
Qed.

Lemma foldl_fmax l : Forall (fun a => is_nan a = false) l -> forall m, is_nan m = false ->
  let r := foldl fmax m l in
  is_nan r = false /\ fleb m r = true /\ Forall (fun a => fleb a r = true) l /\ (r = m \/ r ∈ l).
Proof.
  induction 1 as [|a l Ha Hl IH]; intros m Hm r.
  - split_and!; [done|unfold r; simpl; fkey_solve|constructor|by left].
  - destruct (fmax_ge m a Hm Ha) as (Hn & H1 & H2 & H3).
    destruct (IH (fmax m a) Hn) as (Hr & Hge & Hall & Hin). fold r in Hr, Hge, Hall, Hin.
    subst r. cbn [foldl] in *. set (r := foldl fmax (fmax m a) l) in *. clearbody r.
    split_and!; [done|fkey_solve|apply Forall_cons; split; [fkey_solve|done]|].
    destruct Hin as [->|Hin]; [|right; apply elem_of_cons; by right].
    destruct H3 as [->| ->]; [by left|right; apply elem_of_cons; by left].
Qed.

(** The peak rate is the maximum of the ten-tick averages.  After any
    history, [Peak] is at least the average over the last ten ticks observed at
    every [Advance], and is one of those averages (or 0 before any). *)
Theorem peak_is_maximum ops : Z.of_nat (length ops) < 2 ^ 63 ->
  let peak := Peak.Peak (foldl peak_op Peak.NewPeakRateTracker ops) in
  let averages := peak_averages [0] ops in
  Forall (fun a => fleb a peak = true) averages /\ (peak = fzero \/ peak ∈ averages).
Proof.
  intros Hlen peak averages.
  assert (E : peak = foldl fmax fzero averages).
  { apply (peak_run ops Peak.NewPeakRateTracker [0]); [apply ring_new; lia|
      apply Forall_cons; split; [lia|done]|done|simpl; lia]. }
  destruct (foldl_fmax averages) with (m := fzero) as (_ & _ & Hall & Hin); [|done|].
  - apply peak_averages_not_nan; [apply Forall_cons; split; [lia|done]|simpl; lia].
  - rewrite E. done.
Qed.

Lemma peak_is_maximum_witness :
  let ops := [OpRecord; OpRecord; OpRecord; OpAdvance; OpRecord; OpAdvance] in
  Peak.Peak (foldl peak_op Peak.NewPeakRateTracker ops) = fdiv (f_of_Z 4) (f_of_Z 10) /\
  Forall (fun a => fleb a (Peak.Peak (foldl peak_op Peak.NewPeakRateTracker ops)) = true)
    (peak_averages [0] ops).
Proof.
  intros ops. split; [vm_compute; reflexivity|].
  apply (peak_is_maximum ops). simpl. lia.
Defined.
