(* ===== verification/Verdict.v ===== *)
(** * The engine's verdict (burnin/engine/verdict.go)

    The frozen snapshots, [computeVerdict] and [checkLatency].  The snapshots
    are an association list in the order the range statement visits the map. *)

From S2P Require Import Prelude Float64 GoStr Config Metrics.
Local Open Scope string_scope.
Local Open Scope Z_scope.
Local Open Scope list_scope.

(** A time.Time is the nanoseconds since the zero time; Sub saturates. *)
Definition time_Sub (t u : Z) : Z := Z.max (- 2 ^ 63) (Z.min (2 ^ 63 - 1) (t - u)).
Definition IsZero (t : Z) : bool := t =? 0.

Module Snap.

Record WorkerSnapshot := mk_WorkerSnapshot {
  Sent : Z; Received : Z; Errors : Z; Corrupted : Z; Reconnections : Z;
  DowntimeSeconds : float64; Duplicated : Z; Lost : Z; OutOfOrder : Z; Deleted : Z;
  OffsetOrderViolations : Z; GroupLossRebalance : Z; EOSViolations : Z;
  LagAccuracyErrMax : Z; AdminOpFailures : Z; AdminInvalidRejected : Z; KIP890Residual : Z;
  LatencyP50 : float64; LatencyP95 : float64; LatencyP99 : float64; LatencyP999 : float64;
  PeakRate : float64; AvgRate : float64
}.

(** &WorkerSnapshot{} *)
Definition zero : WorkerSnapshot := {|
  Sent := 0; Received := 0; Errors := 0; Corrupted := 0; Reconnections := 0;
  DowntimeSeconds := fzero; Duplicated := 0; Lost := 0; OutOfOrder := 0; Deleted := 0;
  OffsetOrderViolations := 0; GroupLossRebalance := 0; EOSViolations := 0;
  LagAccuracyErrMax := 0; AdminOpFailures := 0; AdminInvalidRejected := 0; KIP890Residual := 0;
  LatencyP50 := fzero; LatencyP95 := fzero; LatencyP99 := fzero; LatencyP999 := fzero;
  PeakRate := fzero; AvgRate := fzero |}.

#[global] Instance eta_WorkerSnapshot : Eta WorkerSnapshot := fun s =>
  mk_WorkerSnapshot (Sent s) (Received s) (Errors s) (Corrupted s) (Reconnections s)
    (DowntimeSeconds s) (Duplicated s) (Lost s) (OutOfOrder s) (Deleted s)
    (OffsetOrderViolations s) (GroupLossRebalance s) (EOSViolations s)
    (LagAccuracyErrMax s) (AdminOpFailures s) (AdminInvalidRejected s) (KIP890Residual s)
    (LatencyP50 s) (LatencyP95 s) (LatencyP99 s) (LatencyP999 s) (PeakRate s) (AvgRate s).

End Snap.
Import Snap.

Record VerdictResult := mk_VerdictResult { Result : string; Passed : bool; vr_Warnings : list message }.
#[global] Instance eta_VerdictResult : Eta VerdictResult := fun v =>
  mk_VerdictResult (Result v) (Passed v) (vr_Warnings v).

(** boundaryLossPct = 0.5 *)
Definition boundaryLossPct : float64 := f_lit 1 2.

(** The closure [fail]: it appends its message and marks the verdict FAILED. *)
Definition fail (m : message) (r : VerdictResult) : VerdictResult :=
  r <| Result := "FAILED" |> <| Passed := false |> <| vr_Warnings ::= fun w => w ++ [m] |>.
Definition fail_if (b : bool) (m : message) (r : VerdictResult) : VerdictResult :=
  if b then fail m r else r.

Definition checkLatency (name label : string) (value threshold : float64)
    (r : VerdictResult) : VerdictResult :=
  fail_if (fltb fzero value && fltb fzero threshold && fltb threshold value)
    [Lit name; Lit ": "; Lit label; Lit " latency "; FloatArg "%.1f" value; Lit "ms exceeds ";
     FloatArg "%.1f" threshold; Lit "ms"] r.

Section Gates.
Variable cfg : Config.
Variable measurementDuration : Z.

(** The conditions of the gates, one definition per [if] of the loop body. *)
Definition corruption_gate (snap : WorkerSnapshot) : bool := 0 <? Corrupted snap.

Definition loss_gate (name : string) (snap : WorkerSnapshot) : bool :=
  (0 <? Sent snap) && negb (IsAdminWorker name) &&
  (let lossPct := pct (Lost snap) (Sent snap) in
   fltb (MaxLossPct (Thresholds cfg)) lossPct && fltb boundaryLossPct lossPct).

Definition duplication_gate (name : string) (snap : WorkerSnapshot) : bool :=
  (0 <? Received snap) && negb (IsAdminWorker name) &&
  fltb (MaxDuplicationPct (Thresholds cfg)) (pct (Duplicated snap) (Received snap)).

Definition error_gate (snap : WorkerSnapshot) : bool :=
  let total := Sent snap +u Received snap in
  (0 <? total) && fltb (MaxErrorRatePct (Thresholds cfg)) (pct (Errors snap) total).

Definition throughput_pct (name : string) (snap : WorkerSnapshot) : float64 :=
  let targetRate := f_of_Z (GetWorkerRate cfg name) in
  let actualRate := fdiv (f_of_Z (Sent snap)) (Seconds measurementDuration) in
  fmul (fdiv actualRate targetRate) (f_of_Z 100).

Definition throughput_gate (name : string) (snap : WorkerSnapshot) : bool :=
  (0 <? measurementDuration) && (0 <? Sent snap) && negb (IsAdminWorker name) &&
  fltb fzero (f_of_Z (GetWorkerRate cfg name)) &&
  fltb (throughput_pct name snap) (MinThroughputPct (Thresholds cfg)).

Definition downtime_pct (snap : WorkerSnapshot) : float64 :=
  fmul (fdiv (DowntimeSeconds snap) (Seconds measurementDuration)) (f_of_Z 100).

Definition downtime_gate (snap : WorkerSnapshot) : bool :=
  (0 <? measurementDuration) && fltb fzero (DowntimeSeconds snap) &&
  fltb (MaxDowntimePct (Thresholds cfg)) (downtime_pct snap).

(** [int(u)] of a uint64 reinterprets it. *)
Definition offset_order_gate (name : string) (snap : WorkerSnapshot) : bool :=
  IsKeyedWorker name &&
  (MaxOffsetOrderViolations (Thresholds cfg) <? i64_wrap (OffsetOrderViolations snap)).
Definition group_loss_gate (name : string) (snap : WorkerSnapshot) : bool :=
  IsConsumerGroupWorker name &&
  (MaxGroupLossAcrossRebalance (Thresholds cfg) <? i64_wrap (GroupLossRebalance snap)).
Definition eos_gate (name : string) (snap : WorkerSnapshot) : bool :=
  IsTransactionsWorker name &&
  (MaxEOSViolations (Thresholds cfg) <? i64_wrap (EOSViolations snap)).
Definition lag_gate (name : string) (snap : WorkerSnapshot) : bool :=
  IsOffsetLagWorker name &&
  (MaxLagAccuracyErrorMsgs (Thresholds cfg) <? i64_wrap (LagAccuracyErrMax snap)).
Definition admin_gate (name : string) (snap : WorkerSnapshot) : bool :=
  IsAdminWorker name && (0 <? AdminOpFailures snap).

Definition num (z : Z) : frag := Lit (FormatInt z).

(** The loop body: every gate in source order. *)
Definition judge (r : VerdictResult) '((name, snap) : string * WorkerSnapshot) : VerdictResult :=
  let t := Thresholds cfg in
  let r := fail_if (corruption_gate snap)
    [Lit name; Lit ": "; num (Corrupted snap); Lit " corrupted messages"] r in
  let r := fail_if (loss_gate name snap)
    [Lit name; Lit ": loss "; FloatArg "%.4f" (pct (Lost snap) (Sent snap));
     Lit "% exceeds threshold "; FloatArg "%.4f" (MaxLossPct t); Lit "%"] r in
  let r := fail_if (duplication_gate name snap)
    [Lit name; Lit ": duplication "; FloatArg "%.4f" (pct (Duplicated snap) (Received snap));
     Lit "% exceeds threshold "; FloatArg "%.4f" (MaxDuplicationPct t); Lit "%"] r in
  let r := checkLatency name "p50" (LatencyP50 snap) (MaxP50LatencyMS t) r in
  let r := checkLatency name "p95" (LatencyP95 snap) (MaxP95LatencyMS t) r in
  let r := checkLatency name "p99" (LatencyP99 snap) (MaxP99LatencyMS t) r in
  let r := checkLatency name "p999" (LatencyP999 snap) (MaxP999LatencyMS t) r in
  let r := fail_if (error_gate snap)
    [Lit name; Lit ": error rate "; FloatArg "%.4f" (pct (Errors snap) (Sent snap +u Received snap));
     Lit "% exceeds "; FloatArg "%.4f" (MaxErrorRatePct t); Lit "%"] r in
  let r := fail_if (throughput_gate name snap)
    [Lit name; Lit ": throughput "; FloatArg "%.1f" (throughput_pct name snap); Lit "% below ";
     FloatArg "%.1f" (MinThroughputPct t); Lit "%"] r in
  let r := fail_if (downtime_gate snap)
    [Lit name; Lit ": downtime "; FloatArg "%.1f" (downtime_pct snap); Lit "% exceeds ";
     FloatArg "%.1f" (MaxDowntimePct t); Lit "%"] r in
  let r := fail_if (offset_order_gate name snap)
    [Lit name; Lit ": "; num (OffsetOrderViolations snap);
     Lit " per-partition offset-order violations (expected <= ";
     num (MaxOffsetOrderViolations t); Lit ")"] r in
  let r := fail_if (group_loss_gate name snap)
    [Lit name; Lit ": "; num (GroupLossRebalance snap);
     Lit " messages lost across rebalance (expected <= ";
     num (MaxGroupLossAcrossRebalance t); Lit ")"] r in
  let r := fail_if (eos_gate name snap)
    [Lit name; Lit ": "; num (EOSViolations snap);
     Lit " EOS violations (dup/loss or read_committed leaked an aborted record; expected <= ";
     num (MaxEOSViolations t); Lit "). NOTE: KIP-890 V1 same-epoch residual (";
     num (KIP890Residual snap); Lit ") is upstream-shared and EXCLUDED per spec §2.5"] r in
  let r := fail_if (lag_gate name snap)
    [Lit name; Lit ": lag accuracy error "; num (LagAccuracyErrMax snap);
     Lit " msgs exceeds tolerance "; num (MaxLagAccuracyErrorMsgs t)] r in
  fail_if (admin_gate name snap)
    [Lit name; Lit ": "; num (AdminOpFailures snap);
     Lit " admin op failures (unexpected error or a bad CreatePartitions wrongly accepted)"] r.

(** Memory stability, advisory only. *)
Definition memory_growth (baseline peak : Z) : float64 := fdiv (f_of_Z peak) (f_of_Z baseline).
Definition memory_warning (baseline peak : Z) : bool :=
  (0 <? baseline) && (baseline <? peak) &&
  fltb (MaxMemoryGrowthFactor (Thresholds cfg)) (memory_growth baseline peak).

Definition warn_memory (baseline peak : Z) (r : VerdictResult) : VerdictResult :=
  if memory_warning baseline peak then
    let r := if Passed r then r <| Result := "PASSED_WITH_WARNINGS" |> else r in
    r <| vr_Warnings ::= fun w => w ++
      [[Lit "memory growth "; FloatArg "%.2f" (memory_growth baseline peak);
        Lit "x exceeds threshold "; FloatArg "%.2f" (MaxMemoryGrowthFactor (Thresholds cfg));
        Lit "x"]] |>
  else r.

End Gates.

(** [computeVerdict], on the window [producersStartedAt, producersStoppedAt] and
    the two memory readings. *)
Definition computeVerdict (cfg : Config) (startedAt stoppedAt baseline peak : Z)
    (snaps : list (string * WorkerSnapshot)) : VerdictResult :=
  let r := mk_VerdictResult "PASSED" true [] in
  let r := foldl (judge cfg (time_Sub stoppedAt startedAt)) r snaps in
  warn_memory cfg baseline peak r.
