(* ===== verification/Report.v ===== *)
(** * The structured report (burnin/report/report.go and RunReport of burnin/main.go)

    The summary, [GenerateVerdict] with its named checks, the gates it shares
    with the engine, and [RunReport], which builds the summary from the engine's
    snapshots and reconciles the two verdicts. *)

From S2P Require Import Prelude Float64 GoStr Config Metrics Verdict.
Local Open Scope string_scope.
Local Open Scope Z_scope.
Local Open Scope list_scope.

Module Stats.

Record WorkerStats := mk_WorkerStats {
  Enabled : bool; Sent : Z; Received : Z; Lost : Z; Duplicated : Z; Corrupted : Z;
  OutOfOrder : Z; Deleted : Z; LossPct : float64; Errors : Z; Reconnections : Z;
  DowntimeSeconds : float64;
  OffsetOrderViolations : Z; GroupLossAcrossRebal : Z; EOSViolations : Z;
  LagAccuracyErrorMsgs : Z; AdminOpFailures : Z; AdminInvalidRejected : Z; KIP890Residual : Z;
  LatencyP50MS : float64; LatencyP95MS : float64; LatencyP99MS : float64; LatencyP999MS : float64;
  AvgRate : float64; PeakRate : float64; TargetRate : Z; Channels : Z
}.

End Stats.

Record ResourceStats := mk_ResourceStats {
  PeakRSSMB : float64; BaselineRSSMB : float64; MemoryGrowthFactor : float64
}.

(** [Workers] is a map: its entries in the order a range statement visits them. *)
Record Summary := mk_Summary {
  s_RunID : string; s_SDK : string; s_SDKVersion : string; s_Mode : string;
  s_BrokerAddress : string; s_Bootstrap : string; s_GroupPrefix : string;
  s_StartedAt : Z; s_EndedAt : Z; s_DurationSeconds : float64; s_AllWorkersEnabled : bool;
  s_Workers : list (string * Stats.WorkerStats); s_Resources : ResourceStats
}.

Record CheckResult := mk_CheckResult {
  ck_Name : string; ck_Passed : bool; ck_Advisory : bool;
  ck_Value : float64; ck_Threshold : float64; ck_Message : message
}.

Record Verdict := mk_Verdict {
  v_Result : string; v_Passed : bool; v_Warnings : list message; v_Checks : gmap string CheckResult
}.
#[global] Instance eta_Verdict : Eta Verdict := fun v =>
  mk_Verdict (v_Result v) (v_Passed v) (v_Warnings v) (v_Checks v).

(** boundaryLossPct = 0.5 of the report package *)
Definition boundaryLossPct : float64 := f_lit 1 2.

Definition lossGateThreshold (base : float64) : float64 :=
  if fltb base boundaryLossPct then boundaryLossPct else base.

(** Store a check, and fail the verdict if it did not pass. *)
Definition add_check (c : CheckResult) (v : Verdict) : Verdict :=
  let v := v <| v_Checks ::= insert (ck_Name c) c |> in
  if ck_Passed c then v else v <| v_Passed := false |>.

Definition addHard (name : string) (value threshold : float64) (msg : message) (v : Verdict) : Verdict :=
  let passed := fleb value threshold in
  let v := v <| v_Checks ::= insert name (mk_CheckResult name passed false value threshold msg) |> in
  if passed then v else v <| v_Passed := false |>.

Section Generate.
Variable cfg : Config.

(** One gate on a counter: [int(count) <= max]. *)
Definition count_check (label name : string) (count max : Z) (msg : message) : CheckResult :=
  mk_CheckResult (label ++s ":" ++s name) (i64_wrap count <=? max) false
    (f_of_Z count) (f_of_Z max) msg.

Definition when (b : bool) (f : Verdict -> Verdict) (v : Verdict) : Verdict := if b then f v else v.

(** The loop body over summary.Workers. *)
Definition check_worker (v : Verdict) '((name, ws) : string * Stats.WorkerStats) : Verdict :=
  let t := Thresholds cfg in
  if negb (Stats.Enabled ws) then v else
  let v := when ((0 <? Stats.Sent ws) && negb (IsAdminWorker name))
    (let lossPct := pct (Stats.Lost ws) (Stats.Sent ws) in
     addHard ("message_loss:" ++s name) lossPct (lossGateThreshold (MaxLossPct t))
       [FloatArg "%.4f" lossPct; Lit "% loss (threshold "; FloatArg "%.4f" (MaxLossPct t); Lit "%)"]) v in
  let v := when ((0 <? Stats.Received ws) && negb (IsAdminWorker name))
    (let dupPct := pct (Stats.Duplicated ws) (Stats.Received ws) in
     addHard ("duplication:" ++s name) dupPct (MaxDuplicationPct t)
       [FloatArg "%.4f" dupPct; Lit "% duplication (threshold ";
        FloatArg "%.4f" (MaxDuplicationPct t); Lit "%)"]) v in
  let v := when (fltb fzero (Stats.LatencyP99MS ws))
    (addHard ("p99_latency:" ++s name) (Stats.LatencyP99MS ws) (MaxP99LatencyMS t)
       [Lit "P99="; FloatArg "%.1f" (Stats.LatencyP99MS ws); Lit "ms (threshold ";
        FloatArg "%.1f" (MaxP99LatencyMS t); Lit "ms)"]) v in
  let total := Stats.Sent ws +u Stats.Received ws in
  let v := when (0 <? total)
    (let errPct := pct (Stats.Errors ws) total in
     addHard ("error_rate:" ++s name) errPct (MaxErrorRatePct t)
       [FloatArg "%.4f" errPct; Lit "% error rate (threshold ";
        FloatArg "%.4f" (MaxErrorRatePct t); Lit "%)"]) v in
  let v := when (IsKeyedWorker name)
    (add_check (count_check "offset_order_violations" name
       (Stats.OffsetOrderViolations ws) (MaxOffsetOrderViolations t)
       [num (Stats.OffsetOrderViolations ws); Lit " per-partition offset-order violations"])) v in
  let v := when (IsConsumerGroupWorker name)
    (add_check (count_check "group_loss_across_rebalance" name
       (Stats.GroupLossAcrossRebal ws) (MaxGroupLossAcrossRebalance t)
       [num (Stats.GroupLossAcrossRebal ws); Lit " messages lost across rebalance"])) v in
  let v := when (IsTransactionsWorker name)
    (fun v =>
       let v := add_check (count_check "eos_violations" name
         (Stats.EOSViolations ws) (MaxEOSViolations t)
         [num (Stats.EOSViolations ws);
          Lit " EOS violations (KIP-890 V1 same-epoch residual ";
          num (Stats.KIP890Residual ws); Lit " EXCLUDED per spec §2.5)"]) v in
       v <| v_Checks ::= insert ("kip890_residual:" ++s name)
         (mk_CheckResult ("kip890_residual:" ++s name) true true
            (f_of_Z (Stats.KIP890Residual ws)) fzero
            [num (Stats.KIP890Residual ws);
             Lit " KIP-890 V1 same-epoch zombie admissions (upstream-shared, informational only)"]) |>) v in
  let v := when (IsOffsetLagWorker name)
    (add_check (count_check "lag_accuracy" name
       (Stats.LagAccuracyErrorMsgs ws) (MaxLagAccuracyErrorMsgs t)
       [num (Stats.LagAccuracyErrorMsgs ws); Lit " msgs lag accuracy error"])) v in
  when (IsAdminWorker name)
    (add_check (mk_CheckResult ("admin_op_failures:" ++s name) (Stats.AdminOpFailures ws =? 0) false
       (f_of_Z (Stats.AdminOpFailures ws)) fzero
       [num (Stats.AdminOpFailures ws); Lit " admin op failures (";
        num (Stats.AdminInvalidRejected ws);
        Lit " invalid partition ops correctly rejected)"])) v.

Definition totalCorrupted (ws : list (string * Stats.WorkerStats)) : Z :=
  foldl (fun total p => total +u Stats.Corrupted p.2) 0 ws.

Definition GenerateVerdict (summary : Summary) : Verdict :=
  let v := mk_Verdict "PASSED" true [] ∅ in
  let v := foldl check_worker v (s_Workers summary) in
  let total := totalCorrupted (s_Workers summary) in
  let v := add_check (mk_CheckResult "corruption" (total =? 0) false (f_of_Z total) fzero
             [num total; Lit " corrupted messages"]) v in
  let growth := MemoryGrowthFactor (s_Resources summary) in
  let max := MaxMemoryGrowthFactor (Thresholds cfg) in
  let v := when (fltb fzero (BaselineRSSMB (s_Resources summary)))
    (fun v =>
       let passed := fleb growth max in
       let v := v <| v_Checks ::= insert "memory_stability"
         (mk_CheckResult "memory_stability" passed true growth max
            [FloatArg "%.2f" growth; Lit "x growth (threshold "; FloatArg "%.2f" max; Lit "x)"]) |> in
       if passed then v
       else v <| v_Warnings ::= fun w => w ++
              [[Lit "memory_stability: "; FloatArg "%.2f" growth; Lit "x growth exceeds ";
                FloatArg "%.2f" max; Lit "x"]] |>) v in
  if negb (v_Passed v) then v <| v_Result := "FAILED" |>
  else match v_Warnings v with
       | [] => v
       | _ => v <| v_Result := "PASSED_WITH_WARNINGS" |>
       end.

End Generate.

(** ** RunReport

    [engine_view] is what the adapter reads from the engine's accessors. *)

Record engine_view := mk_engine_view {
  ev_snapshots : option (gmap string Snap.WorkerSnapshot);
  ev_runCfg : option Config; ev_runID : string;
  ev_startedAt : Z; ev_endedAt : Z; ev_baseline : Z; ev_peak : Z;
  ev_verdict : option VerdictResult
}.

Definition stats_of (wc : WorkerConfig) (snap : Snap.WorkerSnapshot) : Stats.WorkerStats := {|
  Stats.Enabled := true;
  Stats.Sent := Snap.Sent snap; Stats.Received := Snap.Received snap;
  Stats.Lost := Snap.Lost snap; Stats.Duplicated := Snap.Duplicated snap;
  Stats.Corrupted := Snap.Corrupted snap; Stats.OutOfOrder := Snap.OutOfOrder snap;
  Stats.Deleted := Snap.Deleted snap;
  Stats.LossPct := if 0 <? Snap.Sent snap then pct (Snap.Lost snap) (Snap.Sent snap) else fzero;
  Stats.Errors := Snap.Errors snap; Stats.Reconnections := Snap.Reconnections snap;
  Stats.DowntimeSeconds := Snap.DowntimeSeconds snap;
  Stats.OffsetOrderViolations := Snap.OffsetOrderViolations snap;
  Stats.GroupLossAcrossRebal := Snap.GroupLossRebalance snap;
  Stats.EOSViolations := Snap.EOSViolations snap;
  Stats.LagAccuracyErrorMsgs := Snap.LagAccuracyErrMax snap;
  Stats.AdminOpFailures := Snap.AdminOpFailures snap;
  Stats.AdminInvalidRejected := Snap.AdminInvalidRejected snap;
  Stats.KIP890Residual := Snap.KIP890Residual snap;
  Stats.LatencyP50MS := Snap.LatencyP50 snap; Stats.LatencyP95MS := Snap.LatencyP95 snap;
  Stats.LatencyP99MS := Snap.LatencyP99 snap; Stats.LatencyP999MS := Snap.LatencyP999 snap;
  Stats.AvgRate := Snap.AvgRate snap; Stats.PeakRate := Snap.PeakRate snap;
  Stats.TargetRate := Rate wc; Stats.Channels := Channels wc |}.

(** The workers the summary reports: a snapshot and an enabled block each. *)
Definition report_workers (cfg : Config) (snapshots : gmap string Snap.WorkerSnapshot)
    : list (string * Stats.WorkerStats) :=
  omap (fun name =>
    snap ← snapshots !! name;
    wc ← GetWorkerConfig cfg name;
    if negb (Enabled wc) then None else Some (name, stats_of wc snap)) AllWorkerNames.

Definition to_MB (b : Z) : float64 := fdiv (fdiv (f_of_Z b) (f_of_Z 1024)) (f_of_Z 1024).

Definition summary_of (cfg : Config) (ev : engine_view)
    (workers : list (string * Stats.WorkerStats)) : Summary := {|
  s_RunID := ev_runID ev; s_SDK := SDK; s_SDKVersion := SDKVersion (Output cfg);
  s_Mode := Mode cfg; s_BrokerAddress := Address (Broker cfg);
  s_Bootstrap := Address (Broker cfg); s_GroupPrefix := GroupPrefix (Kafka cfg);
  s_StartedAt := ev_startedAt ev; s_EndedAt := ev_endedAt ev;
  s_DurationSeconds :=
    if negb (IsZero (ev_endedAt ev)) && negb (IsZero (ev_startedAt ev))
    then Seconds (time_Sub (ev_endedAt ev) (ev_startedAt ev)) else fzero;
  s_AllWorkersEnabled := (length workers =? length AllWorkerNames)%nat;
  s_Workers := workers;
  s_Resources := {|
    PeakRSSMB := to_MB (ev_peak ev); BaselineRSSMB := to_MB (ev_baseline ev);
    MemoryGrowthFactor :=
      if 0 <? ev_baseline ev then fdiv (f_of_Z (ev_peak ev)) (f_of_Z (ev_baseline ev)) else fzero |}
|}.

(** The engine's verdict is authoritative: it can only fail or downgrade. *)
Definition reconcile (engine_verdict : option VerdictResult) (verdict : Verdict) : Verdict :=
  match engine_verdict with
  | None => verdict
  | Some ev =>
      if negb (Passed ev) then
        verdict <| v_Passed := false |> <| v_Result := "FAILED" |>
                <| v_Warnings ::= fun w => w ++ vr_Warnings ev |>
      else if String.eqb (Result ev) "PASSED_WITH_WARNINGS"
              && String.eqb (v_Result verdict) "PASSED" then
        verdict <| v_Result := "PASSED_WITH_WARNINGS" |>
                <| v_Warnings ::= fun w => w ++ vr_Warnings ev |>
      else verdict
  end.

(** [order] is the order in which GenerateVerdict's range statement visits the
    workers map: a permutation of the reported workers. *)
Definition RunReport (startupCfg : Config) (ev : engine_view)
    (order : list (string * Stats.WorkerStats) -> list (string * Stats.WorkerStats))
    : option (Summary * Verdict) :=
  snapshots ← ev_snapshots ev;
  let cfg := default startupCfg (ev_runCfg ev) in
  let summary := summary_of cfg ev (order (report_workers cfg snapshots)) in
  Some (summary, reconcile (ev_verdict ev) (GenerateVerdict cfg summary)).
