(* ===== verification/VerdictFacts.v ===== *)
(** * Verdicts: properties

    The engine's verdict is exactly "no gate trips", in whatever order the
    snapshots are visited; the KIP-890 residual never matters; a clean run
    passes; and the structured report agrees with the engine. *)

From S2P Require Import Prelude Float64 GoStr Config ConfigFacts Metrics Verdict Report.
Local Open Scope string_scope.
Local Open Scope Z_scope.
Local Open Scope list_scope.

(** ** The engine's gates *)

(** Some gate trips on this snapshot. *)
Definition latency_trips (value threshold : float64) : bool :=
  fltb fzero value && fltb fzero threshold && fltb threshold value.

Definition latency_gate (cfg : Config) (snap : Snap.WorkerSnapshot) : bool :=
  let t := Thresholds cfg in
  latency_trips (Snap.LatencyP50 snap) (MaxP50LatencyMS t)
  || latency_trips (Snap.LatencyP95 snap) (MaxP95LatencyMS t)
  || latency_trips (Snap.LatencyP99 snap) (MaxP99LatencyMS t)
  || latency_trips (Snap.LatencyP999 snap) (MaxP999LatencyMS t).

Definition worker_fails (cfg : Config) (md : Z) '((name, snap) : string * Snap.WorkerSnapshot) : bool :=
  corruption_gate snap || loss_gate cfg name snap || duplication_gate cfg name snap
  || latency_gate cfg snap || error_gate cfg snap || throughput_gate cfg md name snap
  || downtime_gate cfg md snap || offset_order_gate cfg name snap || group_loss_gate cfg name snap
  || eos_gate cfg name snap || lag_gate cfg name snap || admin_gate name snap.

(** The effect of [fail_if] on each field. *)
Definition verdict_wf (r : VerdictResult) : Prop :=
  Result r = if Passed r then "PASSED" else "FAILED".

Lemma fail_if_Passed b m r : Passed (fail_if b m r) = Passed r && negb b.
Proof. destruct b; simpl; by rewrite ?andb_false_r, ?andb_true_r. Qed.

Lemma fail_if_wf b m r : verdict_wf r -> verdict_wf (fail_if b m r).
Proof. by destruct b. Qed.

Lemma fail_if_warnings b m r :
  vr_Warnings (fail_if b m r) = vr_Warnings r ++ if b then [m] else [].
Proof. destruct b; simpl; by rewrite ?app_nil_r. Qed.

Lemma judge_Passed cfg md r ns :
  Passed (judge cfg md r ns) = Passed r && negb (worker_fails cfg md ns).
Proof.
  destruct ns as [name snap]. unfold judge, checkLatency. rewrite !fail_if_Passed.
  unfold worker_fails, latency_gate, latency_trips. by rewrite !negb_orb, !andb_assoc.
Qed.

Lemma judge_wf cfg md r ns : verdict_wf r -> verdict_wf (judge cfg md r ns).
Proof. destruct ns as [name snap]. intros. unfold judge, checkLatency. by repeat apply fail_if_wf. Qed.

(** The messages of one snapshot, whatever was collected before. *)
Definition messages (cfg : Config) (md : Z) (ns : string * Snap.WorkerSnapshot) : list message :=
  vr_Warnings (judge cfg md (mk_VerdictResult "PASSED" true []) ns).

Lemma judge_warnings cfg md r ns :
  vr_Warnings (judge cfg md r ns) = vr_Warnings r ++ messages cfg md ns.
Proof.
  destruct ns as [name snap]. unfold messages, judge, checkLatency.
  rewrite !fail_if_warnings. cbn [vr_Warnings]. by rewrite app_nil_l, <- !app_assoc.
Qed.

Lemma judge_all cfg md snaps : forall r, verdict_wf r ->
  let r' := foldl (judge cfg md) r snaps in
  verdict_wf r' /\ Passed r' = Passed r && forallb (fun ns => negb (worker_fails cfg md ns)) snaps /\
  vr_Warnings r' = vr_Warnings r ++ concat (map (messages cfg md) snaps).
Proof.
  induction snaps as [|ns snaps IH]; intros r Hr; cbn [foldl forallb map concat].
  { by rewrite andb_true_r, app_nil_r. }
  destruct (IH (judge cfg md r ns) (judge_wf _ _ _ _ Hr)) as (Hw & Hp & Hm).
  split_and!; [done|by rewrite Hp, judge_Passed, andb_assoc|].
  by rewrite Hm, judge_warnings, app_assoc.
Qed.

Definition memory_messages (cfg : Config) (baseline peak : Z) : list message :=
  vr_Warnings (warn_memory cfg baseline peak (mk_VerdictResult "PASSED" true [])).

Lemma computeVerdict_fields cfg startedAt stoppedAt baseline peak snaps :
  let md := time_Sub stoppedAt startedAt in
  let r := computeVerdict cfg startedAt stoppedAt baseline peak snaps in
  Passed r = forallb (fun ns => negb (worker_fails cfg md ns)) snaps /\
  Result r = (if Passed r
              then if memory_warning cfg baseline peak then "PASSED_WITH_WARNINGS" else "PASSED"
              else "FAILED") /\
  vr_Warnings r = concat (map (messages cfg md) snaps) ++ memory_messages cfg baseline peak.
Proof.
  intros md. unfold computeVerdict, memory_messages, warn_memory. fold md.
  destruct (judge_all cfg md snaps (mk_VerdictResult "PASSED" true []) eq_refl) as (Hw & Hp & Hm).
  set (r := foldl _ _ _) in *. clearbody r. destruct r as [res pass w].
  unfold verdict_wf in Hw. cbn in Hw, Hp, Hm. subst.
  destruct (memory_warning cfg baseline peak);
    destruct (forallb _ snaps) eqn:E; cbn; rewrite ?app_nil_r; by split_and!.
Qed.

Lemma forallb_Forall {A} (f : A -> bool) l : forallb f l = true <-> Forall (fun x => f x = true) l.
Proof. rewrite forallb_forall, Forall_forall. by setoid_rewrite list_elem_of_In. Qed.

Lemma verdict_order cfg startedAt stoppedAt baseline peak snaps snaps' : snaps ≡ₚ snaps' ->
  let r := computeVerdict cfg startedAt stoppedAt baseline peak snaps in
  let r' := computeVerdict cfg startedAt stoppedAt baseline peak snaps' in
  Passed r' = Passed r /\ Result r' = Result r /\ vr_Warnings r ≡ₚ vr_Warnings r'.
Proof.
  intros Hperm r r'. set (md := time_Sub stoppedAt startedAt).
  destruct (computeVerdict_fields cfg startedAt stoppedAt baseline peak snaps) as (Hp & Hr & Hw).
  destruct (computeVerdict_fields cfg startedAt stoppedAt baseline peak snaps') as (Hp' & Hr' & Hw').
  fold md r in Hp, Hr, Hw. fold md r' in Hp', Hr', Hw'.
  assert (E : Passed r' = Passed r).
  { rewrite Hp, Hp'. apply eq_true_iff_eq. rewrite !forallb_Forall. by rewrite Hperm. }
  split_and!; [done|by rewrite Hr, Hr', E|]. by rewrite Hw, Hw', Hperm.
Qed.

Definition demo_snapshot : Snap.WorkerSnapshot :=
  Snap.zero <| Snap.Sent := 1000 |> <| Snap.Received := 1000 |> <| Snap.KIP890Residual := 7 |>.

(** ** The KIP-890 residual *)

Definition with_residual (f : string -> Z) '((name, snap) : string * Snap.WorkerSnapshot) :=
  (name, snap <| Snap.KIP890Residual := f name |>).

Lemma worker_fails_residual cfg md f ns :
  worker_fails cfg md (with_residual f ns) = worker_fails cfg md ns.
Proof. by destruct ns as [name []]. Qed.

(** C19: the KIP-890 residual is recorded but never gated: replacing every
    worker's residual by an arbitrary count changes neither whether the run
    passes nor its result. *)
Theorem KIP890_never_gates cfg startedAt stoppedAt baseline peak snaps f :
  let r := computeVerdict cfg startedAt stoppedAt baseline peak snaps in
  let r' := computeVerdict cfg startedAt stoppedAt baseline peak (map (with_residual f) snaps) in
  Passed r' = Passed r /\ Result r' = Result r.
Proof.
  intros r r'.
  destruct (computeVerdict_fields cfg startedAt stoppedAt baseline peak snaps) as (Hp & Hr & _).
  destruct (computeVerdict_fields cfg startedAt stoppedAt baseline peak (map (with_residual f) snaps))
    as (Hp' & Hr' & _).
  fold r in Hp, Hr. fold r' in Hp', Hr'.
  assert (E : Passed r' = Passed r).
  { rewrite Hp, Hp'. clear. induction snaps as [|ns snaps IH]; [done|].
    cbn [map forallb]. by rewrite worker_fails_residual, IH. }
  split; [done|]. by rewrite Hr, Hr', E.
Qed.

(** ** Clean runs *)

(** A snapshot without a defect: nothing lost, duplicated, corrupted, failed,
    violated or rejected by an admin gate, no downtime, each latency within its
    threshold (a threshold of 0 sets none), and a worker with a stream and a
    target rate reaching the demanded share of it over the window. *)
Record clean (cfg : Config) (md : Z) (name : string) (snap : Snap.WorkerSnapshot) : Prop := {
  clean_counts : u64_ok (Snap.Sent snap) /\ u64_ok (Snap.Received snap);
  clean_zero : Snap.Corrupted snap = 0 /\ Snap.Lost snap = 0 /\ Snap.Duplicated snap = 0 /\
    Snap.Errors snap = 0 /\ Snap.OffsetOrderViolations snap = 0 /\
    Snap.GroupLossRebalance snap = 0 /\ Snap.EOSViolations snap = 0 /\
    Snap.LagAccuracyErrMax snap = 0 /\ Snap.AdminOpFailures snap = 0;
  clean_downtime : Snap.DowntimeSeconds snap = fzero;
  clean_latency :
    let t := Thresholds cfg in
    Forall (fun '(value, limit) => fleb limit fzero = true \/ fleb value limit = true)
      [(Snap.LatencyP50 snap, MaxP50LatencyMS t); (Snap.LatencyP95 snap, MaxP95LatencyMS t);
       (Snap.LatencyP99 snap, MaxP99LatencyMS t); (Snap.LatencyP999 snap, MaxP999LatencyMS t)];
  clean_throughput :
    0 < md -> 0 < Snap.Sent snap -> name <> WorkerAdminTopicChurn ->
    let rate := f_of_Z (GetWorkerRate cfg name) in
    let achieved := fdiv (f_of_Z (Snap.Sent snap)) (Seconds md) in
    fltb fzero rate = true ->
    fleb (MinThroughputPct (Thresholds cfg)) (fmul (fdiv achieved rate) (f_of_Z 100)) = true
}.

Lemma pct_zero_below n m : u64_ok n -> 0 < n ->
  is_nan m = true \/ fleb fzero m = true -> fltb m (pct 0 n) = false.
Proof.
  intros Hn Hpos Hm. rewrite pct_zero by (done || lia). destruct (is_nan m) eqn:E.
  - by destruct m.
  - destruct Hm as [Hm|Hm]; [done|]. apply not_true_is_false. intros H. fkey_solve.
Qed.

Lemma fleb_not_fltb x y : fleb x y = true -> fltb y x = false.
Proof. intros H. apply not_true_is_false. intros H'. fkey_solve. Qed.

Lemma clean_gates cfg md name snap : clean cfg md name snap ->
  latency_gate cfg snap = false /\ throughput_gate cfg md name snap = false.
Proof.
  intros [_ _ _ Hlat Hthr]. split.
  - assert (Ht : forall v l, fleb l fzero = true \/ fleb v l = true -> latency_trips v l = false).
    { unfold latency_trips. intros v l [H|H]; apply fleb_not_fltb in H; rewrite H;
        by rewrite ?andb_false_r. }
    cbv zeta in Hlat. rewrite !Forall_cons in Hlat. destruct Hlat as (H1 & H2 & H3 & H4 & _).
    unfold latency_gate. by rewrite !Ht.
  - unfold throughput_gate, IsAdminWorker. cbv zeta in Hthr.
    destruct (Z.ltb_spec 0 md); [|done]. destruct (Z.ltb_spec 0 (Snap.Sent snap)); [|done].
    destruct (String.eqb_spec name WorkerAdminTopicChurn); [done|].
    destruct (fltb fzero _) eqn:E; [|done]. apply fleb_not_fltb. by apply Hthr.
Qed.

Lemma clean_passes cfg md name snap :
  (is_nan (MaxDuplicationPct (Thresholds cfg)) = true \/ fleb fzero (MaxDuplicationPct (Thresholds cfg)) = true) ->
  (is_nan (MaxErrorRatePct (Thresholds cfg)) = true \/ fleb fzero (MaxErrorRatePct (Thresholds cfg)) = true) ->
  0 <= MaxOffsetOrderViolations (Thresholds cfg) ->
  0 <= MaxGroupLossAcrossRebalance (Thresholds cfg) ->
  0 <= MaxEOSViolations (Thresholds cfg) -> 0 <= MaxLagAccuracyErrorMsgs (Thresholds cfg) ->
  clean cfg md name snap -> worker_fails cfg md (name, snap) = false.
Proof.
  intros Hdup Herr Ho Hg He Hl Hc. destruct (clean_gates _ _ _ _ Hc) as [Hlat Hthr].
  destruct Hc as [[Hs Hr] (H1 & H2 & H3 & H4 & H5 & H6 & H7 & H8 & H9) Hd _ _].
  unfold worker_fails. rewrite Hlat, Hthr.
  unfold corruption_gate, loss_gate, duplication_gate, error_gate, downtime_gate, offset_order_gate,
    group_loss_gate, eos_gate, lag_gate, admin_gate.
  rewrite H1, H2, H3, H4, H5, H6, H7, H8, H9, Hd. change (i64_wrap 0) with 0.
  rewrite !(proj2 (Z.ltb_ge _ 0)) by done.
  assert (Hu : u64_ok (Snap.Sent snap +u Snap.Received snap)) by apply u64_wrap_ok.
  repeat rewrite andb_false_r. cbn [orb andb].
  destruct (Z.ltb_spec 0 (Snap.Sent snap)), (Z.ltb_spec 0 (Snap.Received snap)),
    (Z.ltb_spec 0 (Snap.Sent snap +u Snap.Received snap)); cbn [andb orb];
  rewrite ?(pct_zero_below _ (MaxDuplicationPct _)), ?(pct_zero_below _ (MaxErrorRatePct _)),
    ?(pct_zero_below _ Verdict.boundaryLossPct) by (done || by right);
  by rewrite ?andb_false_r.
Qed.

(** C20: no false alarm.  Under any configuration [Validate] accepts, a run whose
    snapshots are all clean ([clean]: nothing lost, duplicated, corrupted or
    failed, no downtime, latencies and throughput within their thresholds)
    passes, even with every loss, duplication and error threshold at zero. *)
Theorem clean_run_passes labels cfg startedAt stoppedAt baseline peak snaps :
  labels ≡ₚ latency_labels -> accepted labels cfg = true ->
  Forall (fun '(name, snap) => clean cfg (time_Sub stoppedAt startedAt) name snap) snaps ->
  Passed (computeVerdict cfg startedAt stoppedAt baseline peak snaps) = true.
Proof.
  intros Hl Hv Hclean. apply Validate_iff in Hv as (_ & _ & _ & _ & _ & Ht); [|done].
  destruct Ht as (_ & Hdup & Ho & Hg & He & Hlag & _ & _ & Herr & _).
  destruct (computeVerdict_fields cfg startedAt stoppedAt baseline peak snaps) as (-> & _ & _).
  apply forallb_Forall. eapply Forall_impl; [exact Hclean|]. intros [name snap] Hc.
  apply negb_true_iff, clean_passes; try done; unfold float_in in *; naive_solver.
Qed.

Lemma clean_run_passes_witness :
  Passed (computeVerdict DefaultConfig 0 20000000000 0 0
    [(WorkerKeyedOrdering, demo_snapshot); (WorkerTransactionsEOS, demo_snapshot)]) = true.
Proof.
  apply (clean_run_passes latency_labels); [done|vm_compute; reflexivity|].
  repeat (apply Forall_cons; split); [| |by apply Forall_nil];
    (split; [split; split; vm_compute; done|by split_and!|done| |]);
    first [repeat (apply Forall_cons; split; [by right|]); by apply Forall_nil|vm_compute; reflexivity].
Defined.

(** ** The structured report *)

(** Every gate the report applies to a worker. *)
Definition report_ok (cfg : Config) '((name, ws) : string * Stats.WorkerStats) : bool :=
  let t := Thresholds cfg in
  let imp b c := negb b || c in
  imp (Stats.Enabled ws)
   (imp ((0 <? Stats.Sent ws) && negb (IsAdminWorker name))
      (fleb (pct (Stats.Lost ws) (Stats.Sent ws)) (lossGateThreshold (MaxLossPct t)))
    && imp ((0 <? Stats.Received ws) && negb (IsAdminWorker name))
      (fleb (pct (Stats.Duplicated ws) (Stats.Received ws)) (MaxDuplicationPct t))
    && imp (fltb fzero (Stats.LatencyP99MS ws)) (fleb (Stats.LatencyP99MS ws) (MaxP99LatencyMS t))
    && imp (0 <? Stats.Sent ws +u Stats.Received ws)
      (fleb (pct (Stats.Errors ws) (Stats.Sent ws +u Stats.Received ws)) (MaxErrorRatePct t))
    && imp (IsKeyedWorker name) (i64_wrap (Stats.OffsetOrderViolations ws) <=? MaxOffsetOrderViolations t)
    && imp (IsConsumerGroupWorker name)
      (i64_wrap (Stats.GroupLossAcrossRebal ws) <=? MaxGroupLossAcrossRebalance t)
    && imp (IsTransactionsWorker name) (i64_wrap (Stats.EOSViolations ws) <=? MaxEOSViolations t)
    && imp (IsOffsetLagWorker name)
      (i64_wrap (Stats.LagAccuracyErrorMsgs ws) <=? MaxLagAccuracyErrorMsgs t)
    && imp (IsAdminWorker name) (Stats.AdminOpFailures ws =? 0)).

Lemma add_check_Passed c v : v_Passed (add_check c v) = v_Passed v && ck_Passed c.
Proof. unfold add_check. destruct (ck_Passed c); simpl; by rewrite ?andb_true_r, ?andb_false_r. Qed.

Lemma addHard_Passed n x t m v : v_Passed (addHard n x t m v) = v_Passed v && fleb x t.
Proof. unfold addHard. destruct (fleb x t); simpl; by rewrite ?andb_true_r, ?andb_false_r. Qed.

Lemma when_Passed b f v c : (forall v, v_Passed (f v) = v_Passed v && c) ->
  v_Passed (when b f v) = v_Passed v && (negb b || c).
Proof. intros Hf. destruct b; simpl; [apply Hf|by rewrite andb_true_r]. Qed.

Lemma check_worker_Passed cfg v nw :
  v_Passed (check_worker cfg v nw) = v_Passed v && report_ok cfg nw.
Proof.
  destruct nw as [name ws]. unfold check_worker, report_ok.
  destruct (Stats.Enabled ws); cbn [negb orb]; [|by rewrite andb_true_r].
  repeat (erewrite when_Passed;
    [|intros v'; first [apply addHard_Passed|apply add_check_Passed|
       cbn [v_Passed set_field]; apply add_check_Passed]]).
  cbn [count_check ck_Passed]. by rewrite !andb_assoc.
Qed.

Lemma check_workers_Passed cfg l : forall v,
  v_Passed (foldl (check_worker cfg) v l) = v_Passed v && forallb (report_ok cfg) l.
Proof.
  induction l as [|nw l IH]; intros v; cbn [foldl forallb]; [by rewrite andb_true_r|].
  by rewrite IH, check_worker_Passed, andb_assoc.
Qed.

(** Only the end of [GenerateVerdict] sets the result. *)
Lemma when_Result b f v : (forall v, v_Result (f v) = v_Result v) ->
  v_Result (when b f v) = v_Result v.
Proof. intros Hf. destruct b; [apply Hf|done]. Qed.

Lemma check_workers_Result cfg l : forall v, v_Result (foldl (check_worker cfg) v l) = v_Result v.
Proof.
  induction l as [|[name ws] l IH]; intros v; cbn [foldl]; [done|].
  rewrite IH. unfold check_worker. destruct (negb _); [done|].
  repeat (rewrite when_Result;
    [|intros v'; unfold addHard, add_check; cbv zeta; by repeat (dmatch || done)]).
  done.
Qed.

(** What [GenerateVerdict] concludes. *)
Lemma GenerateVerdict_Passed cfg s :
  let v := GenerateVerdict cfg s in
  v_Passed v = forallb (report_ok cfg) (s_Workers s) && (totalCorrupted (s_Workers s) =? 0) /\
  (v_Result v = "FAILED" <-> v_Passed v = false) /\
  v_Result v ∈ ["PASSED"; "PASSED_WITH_WARNINGS"; "FAILED"].
Proof.
  unfold GenerateVerdict.
  set (v1 := foldl _ _ _). set (v2 := add_check _ v1).
  assert (H2 : v_Passed v2 = forallb (report_ok cfg) (s_Workers s)
                             && (totalCorrupted (s_Workers s) =? 0)).
  { unfold v2. rewrite add_check_Passed. unfold v1. by rewrite check_workers_Passed. }
  assert (R1 : v_Result v2 = "PASSED").
  { unfold v2, add_check.
    assert (v_Result v1 = "PASSED") by apply check_workers_Result.
    by destruct (ck_Passed _). }
  clearbody v2. clear v1. rewrite <- H2.
  set (v3 := when _ _ v2).
  assert (H3 : v_Passed v3 = v_Passed v2 /\ v_Result v3 = v_Result v2).
  { unfold v3, when. destruct (fltb fzero _); [|done]. cbv zeta. by destruct (fleb _ _). }
  clearbody v3. destruct H3 as [<- R3]. rewrite R1 in R3.
  destruct v3 as [res pass warn ck]. cbn in R3 |- *. subst res.
  destruct pass; cbn; [destruct warn; cbn|]; split_and!; try done; set_solver.
Qed.

Lemma totalCorrupted_zero l :
  Forall (fun p => Stats.Corrupted p.2 = 0) l -> totalCorrupted l = 0.
Proof.
  unfold totalCorrupted. intros H. assert (G : forall t, t = 0 ->
    foldl (fun total p => total +u Stats.Corrupted (p : string * Stats.WorkerStats).2) t l = 0); [|by apply G].
  induction H as [|[n ws] l Hw Hl IH]; intros t ->; cbn [foldl]; [done|].
  apply IH. simpl in *. by rewrite Hw.
Qed.

(** Thresholds the two verdicts read alike. *)
Definition thresholds_comparable (cfg : Config) : Prop :=
  let t := Thresholds cfg in
  is_nan (MaxLossPct t) = false /\ is_nan (MaxDuplicationPct t) = false /\
  is_nan (MaxErrorRatePct t) = false /\ fltb fzero (MaxP99LatencyMS t) = true.

Lemma not_greater p m : is_nan p = false -> is_nan m = false -> fltb m p = false -> fleb p m = true.
Proof. intros Hp Hm H. rewrite (fltb_negb_fleb m p) in H by done. by apply negb_false_iff in H. Qed.

Lemma imp_intro b c : (b = true -> c = true) -> negb b || c = true.
Proof. destruct b, c; naive_solver. Qed.

Lemma gate_off b c : b && c = false -> b = true -> c = false.
Proof. intros H ->. done. Qed.

(** The report's single loss threshold is the engine's pair of comparisons. *)
Lemma loss_gates_agree p m : is_nan p = false -> is_nan m = false ->
  fltb m p && fltb Verdict.boundaryLossPct p = false -> fleb p (lossGateThreshold m) = true.
Proof.
  intros Hp Hm H. unfold lossGateThreshold. change boundaryLossPct with Verdict.boundaryLossPct.
  assert (Hb : is_nan Verdict.boundaryLossPct = false) by done.
  apply andb_false_iff in H as [H|H]; apply not_greater in H; try done;
    destruct (fltb m Verdict.boundaryLossPct) eqn:E; try done; [fkey_solve|].
  apply not_greater in E; [|done..]. fkey_solve.
Qed.

(** A worker the engine lets pass passes every gate of the report. *)
Lemma gates_agree cfg md name snap wc :
  thresholds_comparable cfg ->
  u64_ok (Snap.Sent snap) -> u64_ok (Snap.Received snap) -> u64_ok (Snap.Lost snap) ->
  u64_ok (Snap.Duplicated snap) -> u64_ok (Snap.Errors snap) -> u64_ok (Snap.AdminOpFailures snap) ->
  worker_fails cfg md (name, snap) = false ->
  report_ok cfg (name, stats_of wc snap) = true.
Proof.
  intros (Nl & Nd & Ne & Pp) Us Ur Ul Ud Ue Ua Hf. unfold worker_fails in Hf.
  repeat match goal with H : _ || _ = false |- _ => apply orb_false_iff in H as [H ?] end.
  assert (HP : forall a n, u64_ok a -> u64_ok n -> 0 < n -> is_nan (pct a n) = false)
    by (intros; apply pct_not_nan; [done..|lia]).
  unfold report_ok. cbn [stats_of Stats.Enabled Stats.Sent Stats.Received Stats.Lost
    Stats.Duplicated Stats.LatencyP99MS Stats.Errors Stats.OffsetOrderViolations
    Stats.GroupLossAcrossRebal Stats.EOSViolations Stats.LagAccuracyErrorMsgs
    Stats.AdminOpFailures negb orb].
  rewrite !andb_true_iff. split_and!; apply imp_intro; intros Hg.
  - eapply gate_off in H9; [|exact Hg]. apply andb_true_iff in Hg as [Hg _]. zify_bool.
    apply loss_gates_agree; auto.
  - eapply gate_off in H8; [|exact Hg]. apply andb_true_iff in Hg as [Hg _]. zify_bool.
    apply not_greater; auto.
  - unfold latency_gate, latency_trips in H7.
    apply orb_false_iff in H7 as [[_ H7]%orb_false_iff _]. rewrite Hg, Pp in H7. cbn [andb] in H7.
    destruct (fltb_not_nan _ _ Hg) as [_ ?]. destruct (fltb_not_nan _ _ Pp) as [_ ?].
    by apply not_greater.
  - eapply gate_off in H6; [|exact Hg]. zify_bool.
    apply not_greater; [apply HP; [done|apply u64_wrap_ok|done]|done|done].
  - eapply gate_off in H3; [|exact Hg]. zify_bool. by apply Z.leb_le.
  - eapply gate_off in H2; [|exact Hg]. zify_bool. by apply Z.leb_le.
  - eapply gate_off in H1; [|exact Hg]. zify_bool. by apply Z.leb_le.
  - eapply gate_off in H0; [|exact Hg]. zify_bool. by apply Z.leb_le.
  - eapply gate_off in H; [|exact Hg]. zify_bool. apply Z.eqb_eq. unfold u64_ok in Ua. lia.
Qed.

(** The counters of a snapshot are uint64 values. *)
Definition snapshot_ok (snap : Snap.WorkerSnapshot) : Prop :=
  u64_ok (Snap.Sent snap) /\ u64_ok (Snap.Received snap) /\ u64_ok (Snap.Lost snap) /\
  u64_ok (Snap.Duplicated snap) /\ u64_ok (Snap.Errors snap) /\
  u64_ok (Snap.AdminOpFailures snap) /\ u64_ok (Snap.Corrupted snap).

Lemma elem_of_report_workers cfg snapshots name ws : (name, ws) ∈ report_workers cfg snapshots ->
  name ∈ AllWorkerNames /\ exists snap wc, snapshots !! name = Some snap /\ ws = stats_of wc snap.
Proof.
  unfold report_workers. intros (n & Hn & H)%list_elem_of_omap.
  destruct (snapshots !! n) as [snap|] eqn:E1; [|done]. cbn [mbind option_bind] in H.
  destruct (GetWorkerConfig cfg n) as [wc|] eqn:E2; [|done]. cbn [mbind option_bind] in H.
  destruct (negb (Enabled wc)); simplify_eq. split; [done|]. by exists snap, wc.
Qed.

(** The engine's verdict on the report's snapshots, whatever the memory it was
    judged with and the orders of the two loops. *)
Lemma report_agrees startup cfg ev snapshots startedAt stoppedAt baseline peak snaps order summary verdict :
  thresholds_comparable cfg -> map_Forall (fun _ => snapshot_ok) snapshots ->
  ev_snapshots ev = Some snapshots -> ev_runCfg ev = Some cfg ->
  (forall name snap, name ∈ AllWorkerNames -> snapshots !! name = Some snap -> (name, snap) ∈ snaps) ->
  (forall l, order l ≡ₚ l) ->
  let engine := computeVerdict cfg startedAt stoppedAt baseline peak snaps in
  ev_verdict ev = Some engine ->
  RunReport startup ev order = Some (summary, verdict) ->
  v_Passed verdict = Passed engine /\
  (v_Result verdict = "FAILED" <-> Passed engine = false) /\
  (Result engine = "PASSED_WITH_WARNINGS" -> v_Result verdict = "PASSED_WITH_WARNINGS").
Proof.
  intros Hthr Hok Hs Hc Hsn Ho engine Hev. unfold RunReport. rewrite Hs, Hc, Hev. cbn.
  intros [= <- <-].
  set (s := summary_of _ _ _). set (v := GenerateVerdict cfg s).
  destruct (GenerateVerdict_Passed cfg s) as (Hp & Hr & Hin3). fold v in Hp, Hr, Hin3.
  destruct (computeVerdict_fields cfg startedAt stoppedAt baseline peak snaps)
    as (Hpass & Hres & _). fold engine in Hpass, Hres.
  unfold reconcile. destruct (Passed engine) eqn:E; cbn [negb]; [|by rewrite Hres].
  assert (Hv : v_Passed v = true).
  { rewrite Hp. symmetry in Hpass. rewrite forallb_Forall in Hpass.
    assert (Hin : forall name ws, (name, ws) ∈ s_Workers s -> exists snap wc,
      snapshot_ok snap /\ ws = stats_of wc snap /\
      worker_fails cfg (time_Sub stoppedAt startedAt) (name, snap) = false).
    { intros name ws Hn. unfold s in Hn. cbn [summary_of s_Workers] in Hn. rewrite Ho in Hn.
      apply elem_of_report_workers in Hn as (Hname & snap & wc & Hl & ->).
      exists snap, wc. split_and!; [by eapply (Hok name)|done|].
      rewrite Forall_forall in Hpass. apply negb_true_iff, (Hpass (name, snap)). by apply Hsn. }
    apply andb_true_iff. split.
    - apply forallb_Forall, Forall_forall. intros [name ws] Hn.
      destruct (Hin _ _ Hn) as (snap & wc & (?&?&?&?&?&?&?) & -> & Hf).
      by eapply gates_agree.
    - apply Z.eqb_eq, totalCorrupted_zero, Forall_forall. intros [name ws] Hn.
      destruct (Hin _ _ Hn) as (snap & wc & (?&?&?&?&?&?&Hcor) & -> & Hf). simpl.
      unfold worker_fails in Hf. unfold corruption_gate in Hf.
      destruct (Z.ltb_spec 0 (Snap.Corrupted snap)); [done|]. unfold u64_ok in Hcor. lia. }
  assert (Hnf : v_Result v <> "FAILED") by (intros H; apply Hr in H; congruence).
  assert (Hcases : v_Result v = "PASSED" \/ v_Result v = "PASSED_WITH_WARNINGS").
  { rewrite !elem_of_cons, elem_of_nil in Hin3. destruct_or? Hin3; auto. done. }
  rewrite Hres. destruct (memory_warning _ _ _); cbn;
    destruct Hcases as [Hcs|Hcs]; rewrite ?Hcs; cbn; rewrite ?Hcs; split_and!; naive_solver.
Qed.

(** A report states one of three results. *)
Lemma RunReport_Result startup ev order summary verdict : RunReport startup ev order = Some (summary, verdict) ->
  v_Result verdict ∈ ["PASSED"; "PASSED_WITH_WARNINGS"; "FAILED"].
Proof.
  unfold RunReport. destruct (ev_snapshots ev) as [m|]; [|done]. cbn [mbind option_bind]. intros [= _ <-].
  set (cfg := default startup (ev_runCfg ev)). set (s := summary_of _ _ _).
  destruct (GenerateVerdict_Passed cfg s) as (_ & _ & Hin). unfold reconcile.
  destruct (ev_verdict ev) as [v|]; [|done]. repeat case_match; cbn; try done; set_solver.
Qed.

(** One verdict.  When the engine has judged a run, the report the control
    API and the console show passes exactly when the engine's verdict passed (in
    whatever orders the two loops visited the workers), says FAILED exactly when
    it did not, and never hides the engine's memory advisory. *)
Theorem RunReport_agrees startup cfg ev snapshots startedAt stoppedAt snaps order summary verdict :
  thresholds_comparable cfg -> map_Forall (fun _ => snapshot_ok) snapshots ->
  ev_snapshots ev = Some snapshots -> ev_runCfg ev = Some cfg ->
  snaps ≡ₚ map_to_list snapshots -> (forall l, order l ≡ₚ l) ->
  let engine := computeVerdict cfg startedAt stoppedAt (ev_baseline ev) (ev_peak ev) snaps in
  ev_verdict ev = Some engine ->
  RunReport startup ev order = Some (summary, verdict) ->
  v_Passed verdict = Passed engine /\
  (v_Result verdict = "FAILED" <-> Passed engine = false) /\
  (Result engine = "PASSED_WITH_WARNINGS" -> v_Result verdict = "PASSED_WITH_WARNINGS").
Proof.
  intros Hthr Hok Hs Hc Hsn. apply (report_agrees startup cfg ev snapshots); try done.
  intros name snap _ Hl. rewrite Hsn. by apply elem_of_map_to_list.
Qed.

Definition demo_snapshots : gmap string Snap.WorkerSnapshot :=
  <[WorkerKeyedOrdering := demo_snapshot]> {[ WorkerTransactionsEOS := demo_snapshot ]}.
Definition demo_engine : VerdictResult :=
  computeVerdict DefaultConfig 0 20000000000 100 250 (map_to_list demo_snapshots).
Definition demo_view : engine_view :=
  mk_engine_view (Some demo_snapshots) (Some DefaultConfig) "1234abcd" 1 2 100 250 (Some demo_engine).
Definition demo_report : Summary * Verdict :=
  default (summary_of DefaultConfig demo_view [], mk_Verdict "" false [] ∅)
    (RunReport DefaultConfig demo_view (fun l => rev l)).

Lemma RunReport_agrees_witness :
  v_Passed demo_report.2 = true /\ v_Result demo_report.2 = "PASSED_WITH_WARNINGS".
Proof.
  destruct (RunReport_agrees DefaultConfig DefaultConfig demo_view demo_snapshots 0 20000000000
    (map_to_list demo_snapshots) (fun l => rev l) demo_report.1 demo_report.2) as (H1 & _ & H3).
  - split_and!; vm_compute; reflexivity.
  - apply map_Forall_insert_2; [|apply map_Forall_singleton]; split_and!; vm_compute; done.
  - done.
  - done.
  - done.
  - intros l. symmetry. apply Permutation_rev.
  - done.
  - unfold demo_report. destruct (RunReport DefaultConfig demo_view _) as [[s v]|] eqn:E; [done|].
    vm_compute in E. discriminate E.
  - split; [rewrite H1; vm_compute; reflexivity|apply H3; vm_compute; reflexivity].
Defined.
