(* ===== verification/VerdictTable.v ===== *)
(** * The engine's verdict against a table of its gates

    The table lists, for one worker, the fifteen gates of verdict.go with the
    message each adds, written from the thresholds and counters alone and
    without the definitions of Verdict.v.  The verdict fails exactly the rows
    that trip and lists their messages, one each, in order. *)

From S2P Require Import Prelude Float64 GoStr Config Metrics Verdict VerdictFacts.
Local Open Scope string_scope.
Local Open Scope Z_scope.
Local Open Scope list_scope.

(** ** The table *)

Definition exceeds (x limit : float64) : Prop := fltb limit x = true.
#[export] Instance exceeds_dec x limit : Decision (exceeds x limit) := decide (_ = true).

Definition percent (part whole : float64) : float64 := fmul (fdiv part whole) (f_of_Z 100).

(** A counter read as int. *)
Definition as_int (n : Z) : Z := if decide (n mod 2 ^ 64 < 2 ^ 63) then n mod 2 ^ 64 else n mod 2 ^ 64 - 2 ^ 64.

Section Table.
Variable (t : ThresholdsConfig) (md target : Z) (name : string) (s : Snap.WorkerSnapshot).

Let streams : Prop := name <> "admin_topic_churn".
Let lossPct := percent (f_of_Z (Snap.Lost s)) (f_of_Z (Snap.Sent s)).
Let dupPct := percent (f_of_Z (Snap.Duplicated s)) (f_of_Z (Snap.Received s)).
Let handled := (Snap.Sent s + Snap.Received s) mod 2 ^ 64.
Let errPct := percent (f_of_Z (Snap.Errors s)) (f_of_Z handled).
Let window := Seconds md.
Let throughputPct := percent (fdiv (f_of_Z (Snap.Sent s)) window) (f_of_Z target).
Let downPct := percent (Snap.DowntimeSeconds s) window.
Let dec (z : Z) : frag := Lit (FormatInt z).

Definition slow (label : string) (value limit : float64) : bool * message :=
  (bool_decide (exceeds value fzero /\ exceeds limit fzero /\ exceeds value limit),
   [Lit name; Lit ": "; Lit label; Lit " latency "; FloatArg "%.1f" value; Lit "ms exceeds ";
    FloatArg "%.1f" limit; Lit "ms"]).

Definition too_many (worker : string) (count limit : Z) (m : message) : bool * message :=
  (bool_decide (name = worker /\ limit < as_int count), Lit name :: m).

Definition gate_table : list (bool * message) :=
  [(bool_decide (0 < Snap.Corrupted s),
    [Lit name; Lit ": "; dec (Snap.Corrupted s); Lit " corrupted messages"]);
   (bool_decide (0 < Snap.Sent s /\ streams /\ exceeds lossPct (MaxLossPct t)
                 /\ exceeds lossPct (f_lit 1 2)),
    [Lit name; Lit ": loss "; FloatArg "%.4f" lossPct; Lit "% exceeds threshold ";
     FloatArg "%.4f" (MaxLossPct t); Lit "%"]);
   (bool_decide (0 < Snap.Received s /\ streams /\ exceeds dupPct (MaxDuplicationPct t)),
    [Lit name; Lit ": duplication "; FloatArg "%.4f" dupPct; Lit "% exceeds threshold ";
     FloatArg "%.4f" (MaxDuplicationPct t); Lit "%"]);
   slow "p50" (Snap.LatencyP50 s) (MaxP50LatencyMS t);
   slow "p95" (Snap.LatencyP95 s) (MaxP95LatencyMS t);
   slow "p99" (Snap.LatencyP99 s) (MaxP99LatencyMS t);
   slow "p999" (Snap.LatencyP999 s) (MaxP999LatencyMS t);
   (bool_decide (0 < handled /\ exceeds errPct (MaxErrorRatePct t)),
    [Lit name; Lit ": error rate "; FloatArg "%.4f" errPct; Lit "% exceeds ";
     FloatArg "%.4f" (MaxErrorRatePct t); Lit "%"]);
   (bool_decide (0 < md /\ 0 < Snap.Sent s /\ streams /\ exceeds (f_of_Z target) fzero
                 /\ exceeds (MinThroughputPct t) throughputPct),
    [Lit name; Lit ": throughput "; FloatArg "%.1f" throughputPct; Lit "% below ";
     FloatArg "%.1f" (MinThroughputPct t); Lit "%"]);
   (bool_decide (0 < md /\ exceeds (Snap.DowntimeSeconds s) fzero /\ exceeds downPct (MaxDowntimePct t)),
    [Lit name; Lit ": downtime "; FloatArg "%.1f" downPct; Lit "% exceeds ";
     FloatArg "%.1f" (MaxDowntimePct t); Lit "%"]);
   too_many "keyed_ordering" (Snap.OffsetOrderViolations s) (MaxOffsetOrderViolations t)
    [Lit ": "; dec (Snap.OffsetOrderViolations s);
     Lit " per-partition offset-order violations (expected <= ";
     dec (MaxOffsetOrderViolations t); Lit ")"];
   too_many "consumer_group" (Snap.GroupLossRebalance s) (MaxGroupLossAcrossRebalance t)
    [Lit ": "; dec (Snap.GroupLossRebalance s);
     Lit " messages lost across rebalance (expected <= ";
     dec (MaxGroupLossAcrossRebalance t); Lit ")"];
   too_many "transactions_eos" (Snap.EOSViolations s) (MaxEOSViolations t)
    [Lit ": "; dec (Snap.EOSViolations s);
     Lit " EOS violations (dup/loss or read_committed leaked an aborted record; expected <= ";
     dec (MaxEOSViolations t); Lit "). NOTE: KIP-890 V1 same-epoch residual (";
     dec (Snap.KIP890Residual s); Lit ") is upstream-shared and EXCLUDED per spec §2.5"];
   too_many "offset_commit_lag" (Snap.LagAccuracyErrMax s) (MaxLagAccuracyErrorMsgs t)
    [Lit ": lag accuracy error "; dec (Snap.LagAccuracyErrMax s);
     Lit " msgs exceeds tolerance "; dec (MaxLagAccuracyErrorMsgs t)];
   (bool_decide (name = "admin_topic_churn" /\ 0 < Snap.AdminOpFailures s),
    [Lit name; Lit ": "; dec (Snap.AdminOpFailures s);
     Lit " admin op failures (unexpected error or a bad CreatePartitions wrongly accepted)"])].

End Table.

(** The gates of one worker, and the messages of those that trip. *)
Definition gates_of (cfg : Config) (md : Z) '((name, s) : string * Snap.WorkerSnapshot)
    : list (bool * message) :=
  gate_table (Thresholds cfg) md (GetWorkerRate cfg name) name s.

Definition tripped (gates : list (bool * message)) : list message :=
  map snd (filter (fun g => g.1 = true) gates).

Definition memory_growth_warning (cfg : Config) (baseline peak : Z) : list message :=
  let growth := fdiv (f_of_Z peak) (f_of_Z baseline) in
  let limit := MaxMemoryGrowthFactor (Thresholds cfg) in
  if decide (0 < baseline < peak /\ exceeds growth limit)
  then [[Lit "memory growth "; FloatArg "%.2f" growth; Lit "x exceeds threshold ";
         FloatArg "%.2f" limit; Lit "x"]]
  else [].

(** ** The verdict follows the table *)

Lemma as_int_wrap n : as_int n = i64_wrap n.
Proof.
  unfold as_int, i64_wrap. rewrite <- Zplus_mod_idemp_l.
  pose proof (Z.mod_pos_bound n (2 ^ 64) ltac:(lia)) as Hb. set (m := n mod 2 ^ 64) in *. clearbody m. destruct (decide _).
  - rewrite Z.mod_small by lia. lia.
  - replace (m + 2 ^ 63) with (m - 2 ^ 63 + 1 * 2 ^ 64) by lia.
    rewrite Z.mod_add, Z.mod_small by lia. lia.
Qed.

Lemma bool_decide_lt a b : bool_decide (a < b) = (a <? b).
Proof. apply eq_true_iff_eq. by rewrite bool_decide_eq_true, Z.ltb_lt. Qed.

Lemma bool_decide_exceeds x y : bool_decide (exceeds x y) = fltb y x.
Proof. apply eq_true_iff_eq. unfold exceeds. by rewrite bool_decide_eq_true. Qed.

Lemma bool_decide_eqb (x y : string) : bool_decide (x = y) = String.eqb x y.
Proof. apply eq_true_iff_eq. by rewrite bool_decide_eq_true, String.eqb_eq. Qed.

Ltac row := rewrite ?bool_decide_and, ?bool_decide_not, ?bool_decide_lt, ?bool_decide_exceeds,
  ?bool_decide_eqb, ?as_int_wrap.

Lemma tripped_cons b m gates : tripped ((b, m) :: gates) = (if b then [m] else []) ++ tripped gates.
Proof. unfold tripped. rewrite filter_cons. destruct b; [by rewrite decide_True|by rewrite decide_False]. Qed.

Lemma messages_table cfg md ns : messages cfg md ns = tripped (gates_of cfg md ns).
Proof.
  destruct ns as [name s]. unfold messages, judge, checkLatency, gates_of, gate_table, slow, too_many. cbv zeta.
  rewrite !fail_if_warnings, !tripped_cons. cbn [vr_Warnings].
  change (tripped _) with (@nil message). rewrite app_nil_l, <- !app_assoc, app_nil_r.
  unfold corruption_gate, loss_gate, duplication_gate, error_gate, throughput_gate, downtime_gate,
    offset_order_gate, group_loss_gate, eos_gate, lag_gate, admin_gate.
  row. rewrite !andb_assoc. reflexivity.
Qed.

(** No gate trips. *)
Definition all_pass (gates : list (bool * message)) : Prop := Forall (fun g => g.1 = false) gates.

Lemma tripped_none gates : tripped gates = [] <-> all_pass gates.
Proof.
  unfold all_pass. induction gates as [|[b m] gates IH]; [done|].
  rewrite tripped_cons, Forall_cons. destruct b; cbn; [|by rewrite IH; tauto].
  split; [done|by intros [? _]].
Qed.

Lemma row_none (b : bool) (m : message) l : (if b then [m] else []) ++ l = [] <-> b = false /\ l = [].
Proof. destruct b; cbn; naive_solver. Qed.

Lemma fails_table cfg md ns : worker_fails cfg md ns = false <-> all_pass (gates_of cfg md ns).
Proof.
  rewrite <- tripped_none, <- messages_table. destruct ns as [name s].
  unfold messages, judge, checkLatency. rewrite !fail_if_warnings. cbn [vr_Warnings].
  rewrite app_nil_l, <- !app_assoc, !row_none.
  unfold worker_fails, latency_gate, latency_trips. rewrite !orb_false_iff.
  destruct (admin_gate name s); [split; intros; exfalso; intuition discriminate|].
  intuition auto.
Qed.

Lemma memory_table cfg baseline peak :
  memory_messages cfg baseline peak = memory_growth_warning cfg baseline peak /\
  (memory_warning cfg baseline peak = true <-> memory_growth_warning cfg baseline peak <> []).
Proof.
  unfold memory_messages, warn_memory, memory_growth_warning. cbv zeta.
  assert (E : memory_warning cfg baseline peak = bool_decide (0 < baseline < peak /\
    exceeds (fdiv (f_of_Z peak) (f_of_Z baseline)) (MaxMemoryGrowthFactor (Thresholds cfg)))).
  { unfold memory_warning, memory_growth. row. reflexivity. }
  rewrite E. destruct (decide _) as [H|H].
  - by rewrite bool_decide_true.
  - by rewrite bool_decide_false.
Qed.

(** C18: the engine's verdict is exact.  It lists, snapshot by snapshot, one
    message for each gate that trips, the gate's own, then the memory advisory
    when the peak grew past its factor; it passes if and only if no gate trips;
    the result is FAILED exactly when it does not pass and otherwise tells
    whether the advisory was given; and visiting the snapshots in another order
    changes neither, nor the messages up to reordering. *)
Theorem computeVerdict_exact cfg startedAt stoppedAt baseline peak snaps :
  let md := time_Sub stoppedAt startedAt in
  let r := computeVerdict cfg startedAt stoppedAt baseline peak snaps in
  let advisory := memory_growth_warning cfg baseline peak in
  vr_Warnings r = concat (map (fun ns => tripped (gates_of cfg md ns)) snaps) ++ advisory /\
  (Passed r = true <-> Forall (fun ns => all_pass (gates_of cfg md ns)) snaps) /\
  (Result r = "FAILED" <-> Passed r = false) /\
  (Result r = "PASSED_WITH_WARNINGS" <-> Passed r = true /\ advisory <> []) /\
  (Result r = "PASSED" <-> Passed r = true /\ advisory = []) /\
  (forall snaps', snaps ≡ₚ snaps' ->
     let r' := computeVerdict cfg startedAt stoppedAt baseline peak snaps' in
     Passed r' = Passed r /\ Result r' = Result r /\ vr_Warnings r ≡ₚ vr_Warnings r').
Proof.
  intros md r advisory.
  destruct (computeVerdict_fields cfg startedAt stoppedAt baseline peak snaps) as (Hp & Hr & Hw).
  destruct (memory_table cfg baseline peak) as [Hm Hadv].
  fold md r in Hp, Hr, Hw. fold advisory in Hm, Hadv. rewrite Hm in Hw.
  split_and!.
  - rewrite Hw. f_equal. f_equal. apply map_ext, messages_table.
  - rewrite Hp, forallb_Forall. setoid_rewrite negb_true_iff. by setoid_rewrite fails_table.
  - rewrite Hr. destruct (Passed r), (memory_warning _ _ _); naive_solver.
  - rewrite Hr. destruct (Passed r), (memory_warning _ _ _); naive_solver.
  - rewrite Hr. destruct (Passed r), (memory_warning _ _ _), advisory; naive_solver.
  - intros snaps' Hperm. by apply verdict_order.
Qed.

Lemma computeVerdict_exact_witness :
  let lossy := demo_snapshot <| Snap.Lost := 6 |> in
  let snaps := [(WorkerKeyedOrdering, demo_snapshot); (WorkerConsumerGroup, lossy)] in
  Passed (computeVerdict DefaultConfig 0 20000000000 0 0 snaps) = false /\
  length (vr_Warnings (computeVerdict DefaultConfig 0 20000000000 0 0 snaps)) = 1%nat /\
  Passed (computeVerdict DefaultConfig 0 20000000000 0 0 (rev snaps)) = false.
Proof.
  intros lossy snaps.
  destruct (computeVerdict_exact DefaultConfig 0 20000000000 0 0 snaps) as (Hw & _ & _ & _ & _ & Hperm).
  assert (E : Passed (computeVerdict DefaultConfig 0 20000000000 0 0 snaps) = false)
    by (vm_compute; reflexivity).
  split; [exact E|]. split; [rewrite Hw; vm_compute; reflexivity|].
  rewrite <- E. apply Hperm, Permutation_rev.
Defined.
