(* ===== verification/Transport.v ===== *)
(** * The Kafka transport (burnin/transport)

    The naming grammar, the translation of the Kafka knobs into franz-go
    options and the admin operations with their error treatment.  franz-go is not
    part of the repository: an option is the call that builds it, and the outcome
    of an admin call is an argument. *)

From S2P Require Import Prelude Float64 GoStr Config.
From Stdlib Require Import Ascii.
Local Open Scope string_scope.
Local Open Scope Z_scope.

(** ** Names (resources.go) *)

Definition BrokerEnv : string := "KUBEMQ_BROKER_ADDRESS".
Definition DefaultBroker : string := "localhost:9092".
Definition ResourcePrefixEnv : string := "BURNIN_RESOURCE_PREFIX".
Definition ChannelPrefix : string := "kafka.".

Definition BootstrapAddress (getenv : string -> string) (address : string) : string :=
  if negb (String.eqb address "") then address
  else let v := getenv BrokerEnv in
       if negb (String.eqb v "") then v else DefaultBroker.

Definition resourcePrefix (getenv : string -> string) : string :=
  let v := getenv ResourcePrefixEnv in
  if negb (String.eqb v "") then v else "burnin".

Definition TopicName (getenv : string -> string) (worker : string) (idx : Z) : string :=
  resourcePrefix getenv ++s "." ++s worker ++s "." ++s fmt_04d idx.

Definition MappedChannel (topic : string) : string := ChannelPrefix ++s topic.

(** ** Errors

    An error carries the broker code that errors.Is looks for through its
    wrapping, and its message. *)

Inductive kerr := TopicAlreadyExists | UnknownTopicOrPartition | InvalidPartitions | OtherError.
#[export] Instance kerr_eq_dec : EqDecision kerr.
Proof. solve_decision. Defined.

Record error := mk_error { err_code : kerr; err_text : message }.

Definition errors_Is (e : error) (code : kerr) : bool := bool_decide (err_code e = code).

(** fmt.Errorf("...: %w", err) *)
Definition wrap_error (m : message) (e : error) : error :=
  mk_error (err_code e) ((m ++ Lit ": " :: err_text e)%list).

(** ** Client construction (kafka_client.go) *)

Record KafkaClientConfig := mk_KafkaClientConfig {
  cc_Bootstrap : string; cc_ClientID : string; cc_Acks : string; cc_Compression : string;
  cc_IsolationLevel : string; cc_Idempotent : bool;
  cc_TransactionalID : string; cc_ConsumerGroup : string; cc_ConsumeTopics : list string;
  cc_TxnTimeoutMS : Z; cc_FetchMaxWaitMS : Z; cc_DisableAutoCommit : bool;
  cc_SASLMechanism : string; cc_SASLUsername : string; cc_SASLPassword : string; cc_TLS : bool
}.
#[global] Instance eta_KafkaClientConfig : Eta KafkaClientConfig := fun c =>
  mk_KafkaClientConfig (cc_Bootstrap c) (cc_ClientID c) (cc_Acks c) (cc_Compression c)
    (cc_IsolationLevel c) (cc_Idempotent c) (cc_TransactionalID c) (cc_ConsumerGroup c)
    (cc_ConsumeTopics c) (cc_TxnTimeoutMS c) (cc_FetchMaxWaitMS c) (cc_DisableAutoCommit c)
    (cc_SASLMechanism c) (cc_SASLUsername c) (cc_SASLPassword c) (cc_TLS c).

Inductive kgo_acks := NoAck | LeaderAck | AllISRAcks.
Inductive kgo_codec := NoCompression | GzipCompression | SnappyCompression | Lz4Compression | ZstdCompression.
Inductive kgo_isolation := ReadUncommitted | ReadCommitted.
Inductive sasl_mechanism :=
  | SaslPlain (user pass : string)
  | SaslScram256 (user pass : string)
  | SaslScram512 (user pass : string).

(** The kgo.Opt constructors the code calls. *)
Inductive kgo_opt :=
  | SeedBrokers (a : string) | ClientID (s : string) | RequiredAcks (a : kgo_acks)
  | ProducerBatchCompression (c : kgo_codec) | DisableIdempotentWrite
  | TransactionalID (s : string) | TransactionTimeout (d : Z)
  | ConsumeTopics (l : list string) | ConsumerGroupOpt (g : string) | DisableAutoCommit
  | FetchIsolationLevel (i : kgo_isolation) | FetchMaxWait (d : Z)
  | SASL (m : sasl_mechanism) | DialTLS.

Definition acksFor (s : string) : kgo_acks :=
  if String.eqb s "0" then NoAck else if String.eqb s "1" then LeaderAck else AllISRAcks.

Definition compressionFor (s : string) : kgo_codec :=
  if String.eqb s "gzip" then GzipCompression
  else if String.eqb s "snappy" then SnappyCompression
  else if String.eqb s "lz4" then Lz4Compression
  else if String.eqb s "zstd" then ZstdCompression
  else NoCompression.

Definition isolationFor (s : string) : kgo_isolation :=
  if String.eqb s "read_uncommitted" then ReadUncommitted else ReadCommitted.

Definition saslMechanism (cfg : KafkaClientConfig) : result sasl_mechanism :=
  if String.eqb (cc_SASLMechanism cfg) "PLAIN"
  then Ok (SaslPlain (cc_SASLUsername cfg) (cc_SASLPassword cfg))
  else if String.eqb (cc_SASLMechanism cfg) "SCRAM-SHA-256"
  then Ok (SaslScram256 (cc_SASLUsername cfg) (cc_SASLPassword cfg))
  else if String.eqb (cc_SASLMechanism cfg) "SCRAM-SHA-512"
  then Ok (SaslScram512 (cc_SASLUsername cfg) (cc_SASLPassword cfg))
  else Err [Lit "unsupported sasl mechanism "; Quoted (cc_SASLMechanism cfg)].

Definition msDuration (ms : Z) : Z := ms *i Time.Millisecond.

Local Open Scope list_scope.

(** The options [NewClient] hands to kgo.NewClient. *)
Definition client_opts (getenv : string -> string) (cfg : KafkaClientConfig) : result (list kgo_opt) :=
  let opts := [SeedBrokers (BootstrapAddress getenv (cc_Bootstrap cfg)); ClientID (cc_ClientID cfg);
               RequiredAcks (acksFor (cc_Acks cfg));
               ProducerBatchCompression (compressionFor (cc_Compression cfg))] in
  let opts := if negb (String.eqb (cc_Acks cfg) "all") || negb (cc_Idempotent cfg)
              then opts ++ [DisableIdempotentWrite] else opts in
  let opts :=
    if negb (String.eqb (cc_TransactionalID cfg) "") then
      let opts := opts ++ [TransactionalID (cc_TransactionalID cfg)] in
      if 0 <? cc_TxnTimeoutMS cfg
      then opts ++ [TransactionTimeout (msDuration (cc_TxnTimeoutMS cfg))] else opts
    else opts in
  let opts :=
    match cc_ConsumeTopics cfg with
    | [] => opts
    | topics =>
        let opts := opts ++ [ConsumeTopics topics] in
        let opts :=
          if negb (String.eqb (cc_ConsumerGroup cfg) "") then
            let opts := opts ++ [ConsumerGroupOpt (cc_ConsumerGroup cfg)] in
            if cc_DisableAutoCommit cfg then opts ++ [DisableAutoCommit] else opts
          else opts in
        let opts := opts ++ [FetchIsolationLevel (isolationFor (cc_IsolationLevel cfg))] in
        if 0 <? cc_FetchMaxWaitMS cfg
        then opts ++ [FetchMaxWait (msDuration (cc_FetchMaxWaitMS cfg))] else opts
    end in
  opts ← (if negb (String.eqb (cc_SASLMechanism cfg) "") then
            m ← saslMechanism cfg; Ok (opts ++ [SASL m])
          else Ok opts);
  Ok (if cc_TLS cfg then opts ++ [DialTLS] else opts).

(** [NewClient]: kgo.NewClient is the argument [build]. *)
Definition NewClient {C} (build : list kgo_opt -> result C) (getenv : string -> string)
    (cfg : KafkaClientConfig) : result C :=
  opts ← client_opts getenv cfg;
  match build opts with
  | Ok cl => Ok cl
  | Err e => Err (Lit "build kafka client: " :: e)
  end.

(** ** Admin operations (ops.go): the argument is what kadm answers. *)

Definition CreateTopic (answer : string -> Z -> Z -> option error) (topic : string)
    (partitions rf : Z) : option error :=
  match answer topic (i32_wrap partitions) (i16_wrap rf) with
  | None => None
  | Some err =>
      if errors_Is err TopicAlreadyExists then None
      else Some (wrap_error [Lit "create topic "; Lit topic] err)
  end.

(** A response: the call's own error, else the per-topic entry (its error, if any). *)
Inductive topic_response :=
  | CallError (e : error)
  | Response (entry : option (option error)) (aggregate : option error).

Definition DeleteTopic (answer : string -> topic_response) (topic : string) : option error :=
  match answer topic with
  | CallError err => Some (wrap_error [Lit "delete topic "; Lit topic] err)
  | Response (Some (Some err)) _ =>
      if errors_Is err UnknownTopicOrPartition then None
      else Some (wrap_error [Lit "delete topic "; Lit topic] err)
  | Response _ _ => None
  end.

Definition CreatePartitions (answer : string -> Z -> topic_response) (topic : string)
    (newTotal : Z) : option error :=
  match answer topic newTotal with
  | CallError err =>
      Some (wrap_error [Lit "update partitions "; Lit topic; Lit " -> "; Lit (FormatInt newTotal)] err)
  | Response (Some (Some err)) _ => Some err
  | Response _ aggregate => aggregate
  end.

(** The lag of each (topic, partition) a group description lists. *)
Definition GroupLagMap : Type := list (string * list (Z * Z)).

Inductive lag_response :=
  | LagCallError (e : error)
  | LagResponse (entry : option (option error * GroupLagMap)).

Definition GroupLag (answer : string -> lag_response) (group : string) : error + GroupLagMap :=
  match answer group with
  | LagCallError err => inl (wrap_error [Lit "describe group lag "; Lit group] err)
  | LagResponse None => inr []
  | LagResponse (Some (Some err, _)) => inl (wrap_error [Lit "group lag "; Lit group] err)
  | LagResponse (Some (None, lag)) => inr lag
  end.

(** ** Offset listings and the admin client, forwarded as they are *)

Definition EndOffsets {R} (ListEndOffsets : string -> error + R) (topic : string) : error + R :=
  ListEndOffsets topic.
Definition StartOffsets {R} (ListStartOffsets : string -> error + R) (topic : string) : error + R :=
  ListStartOffsets topic.
Definition CommittedOffsets {R} (FetchOffsets : string -> error + R) (group : string) : error + R :=
  FetchOffsets group.
Definition NewAdmin {C A} (kadm_NewClient : C -> A) (cl : C) : A := kadm_NewClient cl.

(** * Properties *)

(** ** Names *)

Lemma append_assoc a b c : (a ++s b) ++s c = a ++s b ++s c.
Proof. induction a as [|x a IH]; [done|]. by rewrite !append_cons, IH. Qed.

(** C22: topic names identify their worker.  Under one resource prefix, two
    channels of the same or of different workers never share a topic, nor the
    Events-Store channel the connector maps it to. *)
Theorem TopicName_injective getenv w w' i i' :
  w ∈ AllWorkerNames -> w' ∈ AllWorkerNames -> 0 <= i -> 0 <= i' ->
  MappedChannel (TopicName getenv w i) = MappedChannel (TopicName getenv w' i') ->
  w = w' /\ i = i'.
Proof.
  intros Hw Hw' Hi Hi' E. unfold MappedChannel in E. apply append_inj_l in E.
  unfold TopicName in E. apply append_inj_l, append_inj_l in E.
  assert (Hdot : forall w, w ∈ AllWorkerNames -> has_chr "." w = false).
  { clear. intros w Hw. unfold AllWorkerNames in Hw. rewrite !elem_of_cons, elem_of_nil in Hw.
    by destruct_or? Hw; subst. }
  apply (f_equal (cut_chr ".")) in E.
  change ("." ++s fmt_04d i) with (String "." (fmt_04d i)) in E.
  change ("." ++s fmt_04d i') with (String "." (fmt_04d i')) in E.
  rewrite !cut_chr_append in E by auto. injection E as -> E.
  split; [done|]. by apply fmt_04d_inj.
Qed.

Lemma TopicName_injective_witness :
  MappedChannel (TopicName (fun _ => "") WorkerKeyedOrdering 12)
  <> MappedChannel (TopicName (fun _ => "") WorkerKeyedOrdering 120).
Proof.
  intros E. apply (TopicName_injective (fun _ => "")) in E as [_ E]; [done| | |lia|lia];
    unfold AllWorkerNames; rewrite !elem_of_cons; tauto.
Defined.

(** ** Clients *)

Lemma client_opts_cases getenv cfg opts : client_opts getenv cfg = Ok opts ->
  exists pre post,
    opts = [SeedBrokers (BootstrapAddress getenv (cc_Bootstrap cfg)); ClientID (cc_ClientID cfg);
            RequiredAcks (acksFor (cc_Acks cfg));
            ProducerBatchCompression (compressionFor (cc_Compression cfg))]
           ++ (if negb (String.eqb (cc_Acks cfg) "all") || negb (cc_Idempotent cfg)
               then [DisableIdempotentWrite] else []) ++ pre
           ++ (match cc_ConsumeTopics cfg with [] => []
               | _ => [FetchIsolationLevel (isolationFor (cc_IsolationLevel cfg))] end) ++ post /\
    (forall o, o ∈ pre ++ post -> o <> DisableIdempotentWrite /\ (forall a, o <> RequiredAcks a) /\
                                  (forall l, o <> FetchIsolationLevel l)).
Proof.
  unfold client_opts. intros H.
  set (txn := if negb (String.eqb (cc_TransactionalID cfg) "") then
    TransactionalID (cc_TransactionalID cfg) ::
      (if 0 <? cc_TxnTimeoutMS cfg then [TransactionTimeout (msDuration (cc_TxnTimeoutMS cfg))] else [])
    else []).
  set (group := match cc_ConsumeTopics cfg with [] => [] | topics =>
    ConsumeTopics topics :: (if negb (String.eqb (cc_ConsumerGroup cfg) "") then
      ConsumerGroupOpt (cc_ConsumerGroup cfg) ::
        (if cc_DisableAutoCommit cfg then [DisableAutoCommit] else []) else []) end).
  set (wait := match cc_ConsumeTopics cfg with [] => [] | _ =>
    if 0 <? cc_FetchMaxWaitMS cfg then [FetchMaxWait (msDuration (cc_FetchMaxWaitMS cfg))] else [] end).
  set (tls := if cc_TLS cfg then [DialTLS] else []).
  destruct (if negb (String.eqb (cc_SASLMechanism cfg) "") then
    m ← saslMechanism cfg; Ok [SASL m] else Ok []) as [sasl|] eqn:Es.
  - exists (txn ++ group), (wait ++ sasl ++ tls). split.
    + destruct (negb (String.eqb (cc_SASLMechanism cfg) ""));
        [destruct (saslMechanism cfg); [|done]|]; cbn [mbind result_bind] in *; simplify_eq;
        unfold txn, group, wait, tls;
        destruct (negb (String.eqb (cc_Acks cfg) "all") || negb (cc_Idempotent cfg)),
          (cc_ConsumeTopics cfg), (cc_TLS cfg);
        repeat case_match; simpl; rewrite <- ?app_assoc; reflexivity.
    + intros o. rewrite !elem_of_app. unfold txn, group, wait, tls.
      intros Ho. destruct (negb (String.eqb (cc_SASLMechanism cfg) ""));
        [destruct (saslMechanism cfg); [|done]|]; cbn [mbind result_bind] in *; simplify_eq;
      repeat (case_match || (rewrite ?elem_of_cons, ?elem_of_nil in Ho; destruct_or? Ho)); by subst.
  - destruct (negb (String.eqb (cc_SASLMechanism cfg) "")); [|done].
    destruct (saslMechanism cfg); [done|]. cbn [mbind result_bind] in H. done.
Qed.

(** The options the guarantees rest on. *)
Definition guarantee (o : kgo_opt) : Prop :=
  match o with DisableIdempotentWrite | RequiredAcks _ | FetchIsolationLevel _ => True | _ => False end.

Lemma elem_of_opts getenv cfg opts o : client_opts getenv cfg = Ok opts -> guarantee o ->
  o ∈ opts <->
    o = RequiredAcks (acksFor (cc_Acks cfg)) \/
    (o = DisableIdempotentWrite /\ ~ (cc_Acks cfg = "all" /\ cc_Idempotent cfg = true)) \/
    (o = FetchIsolationLevel (isolationFor (cc_IsolationLevel cfg)) /\ cc_ConsumeTopics cfg <> []).
Proof.
  intros (pre & post & -> & Hother)%client_opts_cases Hg.
  assert (Hpre : o ∈ pre <-> False).
  { split; [|done]. intros Ho. destruct (Hother o) as (? & ? & ?); [by apply elem_of_app; left|].
    destruct o; naive_solver. }
  assert (Hpost : o ∈ post <-> False).
  { split; [|done]. intros Ho. destruct (Hother o) as (? & ? & ?); [by apply elem_of_app; right|].
    destruct o; naive_solver. }
  rewrite !elem_of_app, Hpre, Hpost, !elem_of_cons, elem_of_nil.
  assert (Hd : o ∈ (if negb (String.eqb (cc_Acks cfg) "all") || negb (cc_Idempotent cfg)
      then [DisableIdempotentWrite] else []) <->
    o = DisableIdempotentWrite /\ ~ (cc_Acks cfg = "all" /\ cc_Idempotent cfg = true)).
  { destruct (String.eqb_spec (cc_Acks cfg) "all"), (cc_Idempotent cfg); cbn [negb orb];
      rewrite ?elem_of_cons, elem_of_nil; naive_solver. }
  assert (Hi : o ∈ (match cc_ConsumeTopics cfg with [] => []
      | _ => [FetchIsolationLevel (isolationFor (cc_IsolationLevel cfg))] end) <->
    o = FetchIsolationLevel (isolationFor (cc_IsolationLevel cfg)) /\ cc_ConsumeTopics cfg <> []).
  { destruct (cc_ConsumeTopics cfg); rewrite ?elem_of_cons, elem_of_nil; naive_solver. }
  rewrite Hd, Hi. destruct o; naive_solver.
Qed.

(** The producer guarantees a client is built with are the configured ones.
    The idempotent producer stays on exactly when acks is "all" and idempotence is
    requested, in which case every write waits for all in-sync replicas (so a
    transactional client, which forces both, always has both); and a client that
    consumes carries exactly the configured isolation level, read_committed unless
    read_uncommitted was asked for. *)
Theorem client_guarantees getenv cfg opts : client_opts getenv cfg = Ok opts ->
  (DisableIdempotentWrite ∉ opts <-> cc_Acks cfg = "all" /\ cc_Idempotent cfg = true) /\
  (forall a, RequiredAcks a ∈ opts <-> a = acksFor (cc_Acks cfg)) /\
  (DisableIdempotentWrite ∉ opts -> RequiredAcks AllISRAcks ∈ opts) /\
  (forall l, FetchIsolationLevel l ∈ opts <->
     cc_ConsumeTopics cfg <> [] /\
     l = (if String.eqb (cc_IsolationLevel cfg) "read_uncommitted" then ReadUncommitted else ReadCommitted)).
Proof.
  intros Hopts. pose proof (fun o Hg => elem_of_opts getenv cfg opts o Hopts Hg) as Hin.
  assert (Hidem : DisableIdempotentWrite ∉ opts <-> cc_Acks cfg = "all" /\ cc_Idempotent cfg = true).
  { rewrite (Hin DisableIdempotentWrite I).
    destruct (decide (cc_Acks cfg = "all")), (cc_Idempotent cfg); naive_solver. }
  split_and!; [done| | |].
  - intros a. rewrite (Hin (RequiredAcks a) I). naive_solver.
  - rewrite Hidem. intros [E _]. rewrite (Hin (RequiredAcks AllISRAcks) I), E. by left.
  - intros l. rewrite (Hin (FetchIsolationLevel l) I). unfold isolationFor. naive_solver.
Qed.

Definition demo_client : KafkaClientConfig :=
  mk_KafkaClientConfig "b:9092" "id" "all" "lz4" "read_committed" true "" "g" ["t"] 60000 500 true
    "PLAIN" "u" "p" false.

Lemma client_guarantees_witness : exists opts,
  client_opts (fun _ => "") demo_client = Ok opts /\ DisableIdempotentWrite ∉ opts /\
  RequiredAcks AllISRAcks ∈ opts /\ FetchIsolationLevel ReadCommitted ∈ opts.
Proof.
  eexists. split; [reflexivity|].
  destruct (client_guarantees (fun _ => "") demo_client _ eq_refl) as (H1 & _ & H3 & H4).
  assert (Hd : DisableIdempotentWrite ∉ _) by (apply H1; done).
  split; [exact Hd|]. split; [exact (H3 Hd)|]. apply H4. done.
Defined.
