(* ===== verification/Cleanup.v ===== *)
(** * The cleanup command (burnin/cmd/cleanup/main.go)

    The whole of main: the client it builds, the topics it lists, the ones it
    deletes, what it writes to stderr and stdout and its exit code.  kgo.NewClient
    and the answers of the admin client are arguments. *)

From S2P Require Import Prelude Float64 GoStr Config Transport.
Local Open Scope string_scope.
Local Open Scope Z_scope.
Local Open Scope list_scope.

Definition cleanup_prefix (getenv : string -> string) : string :=
  let prefix := getenv "BURNIN_RESOURCE_PREFIX" in
  if String.eqb prefix "" then "burnin" else prefix.

(** What an execution did: [o_requested] are the topics whose deletion it asked
    for, [o_closed] whether the deferred [cl.Close()] ran (os.Exit skips it). *)
Record outcome := mk_outcome {
  o_requested : list string; o_deleted : Z; o_failed : Z;
  o_stderr : list message; o_stdout : list message; o_exit : Z; o_closed : bool
}.
#[global] Instance eta_outcome : Eta outcome := fun o =>
  mk_outcome (o_requested o) (o_deleted o) (o_failed o) (o_stderr o) (o_stdout o) (o_exit o) (o_closed o).

Definition idle : outcome := mk_outcome [] 0 0 [] [] 0 false.

(** fmt.Fprintf(os.Stderr, "<what>: %v\n", err); os.Exit(1) *)
Definition die (what : string) (e : message) : outcome :=
  idle <| o_stderr := [Lit what :: Lit ": " :: e] |> <| o_exit := 1 |>.

(** The body of the loop over topics.Names(). *)
Definition clean_topic (prefix : string) (answer : string -> topic_response) (o : outcome) (name : string)
    : outcome :=
  if negb (HasPrefix name prefix) then o else
  let o := o <| o_requested ::= fun l => l ++ [name] |> in
  match DeleteTopic answer name with
  | Some err =>
      o <| o_stderr ::= fun l => l ++ [Lit "delete topic " :: Lit name :: Lit ": " :: err_text err] |>
        <| o_failed ::= fun n => n +i 1 |>
  | None => o <| o_deleted ::= fun n => n +i 1 |>
  end.

Definition cleanup_config (bootstrap : string) : KafkaClientConfig := {|
  cc_Bootstrap := bootstrap; cc_ClientID := "burnin-kafka-cleanup"; cc_Acks := "all";
  cc_Compression := ""; cc_IsolationLevel := ""; cc_Idempotent := false;
  cc_TransactionalID := ""; cc_ConsumerGroup := ""; cc_ConsumeTopics := [];
  cc_TxnTimeoutMS := 0; cc_FetchMaxWaitMS := 0; cc_DisableAutoCommit := false;
  cc_SASLMechanism := ""; cc_SASLUsername := ""; cc_SASLPassword := ""; cc_TLS := false |}.

Section Main.
Context {C : Type}.
Variable build : list kgo_opt -> result C.
Variable ListTopics : C -> error + list string.
Variable DeleteTopics : C -> string -> topic_response.
Variable getenv : string -> string.

Definition main : outcome :=
  let prefix := cleanup_prefix getenv in
  let bootstrap := BootstrapAddress getenv (getenv "KUBEMQ_BROKER_ADDRESS") in
  match NewClient build getenv (cleanup_config bootstrap) with
  | Err e => die "build kafka client" e
  | Ok cl =>
      let adm := NewAdmin id cl in
      match ListTopics adm with
      | inl e => die "list topics" (err_text e)
      | inr names =>
          let o := foldl (clean_topic prefix (DeleteTopics adm)) idle names in
          o <| o_stdout := [[Lit "cleanup prefix="; Quoted prefix; Lit " bootstrap="; Lit bootstrap;
                             Lit " topics_deleted="; Lit (FormatInt (o_deleted o));
                             Lit " topics_failed="; Lit (FormatInt (o_failed o))]] |>
            <| o_closed := true |>
      end
  end.

End Main.

(** * Properties *)

(** The line a deletion that failed leaves on stderr. *)
Definition complaint (answer : string -> topic_response) (name : string) : option message :=
  e ← DeleteTopic answer name; Some (Lit "delete topic " :: Lit name :: Lit ": " :: err_text e).

Lemma length_complaints answer names :
  (length (omap (complaint answer) names) <= length names)%nat.
Proof. induction names as [|n l IH]; [done|]. cbn [omap list_omap]. case_match; simpl; lia. Qed.

Lemma clean_topics prefix answer names : forall o, i64_ok (o_deleted o) -> i64_ok (o_failed o) ->
  let mine := filter (fun name => HasPrefix name prefix = true) names in
  let bad := omap (complaint answer) mine in
  foldl (clean_topic prefix answer) o names =
    mk_outcome (o_requested o ++ mine)
      (i64_wrap (o_deleted o + Z.of_nat (length mine) - Z.of_nat (length bad)))
      (i64_wrap (o_failed o + Z.of_nat (length bad)))
      (o_stderr o ++ bad) (o_stdout o) (o_exit o) (o_closed o).
Proof.
  induction names as [|name names IH]; intros [rq d f er ou ex cl] Hd Hf; cbn [foldl].
  { simpl. rewrite !app_nil_r, !Z.add_0_r, Z.sub_0_r, !i64_wrap_id by done. done. }
  unfold clean_topic at 2. destruct (HasPrefix name prefix) eqn:E; cbn [negb].
  - rewrite (filter_cons_True _ name) by done. cbn [omap list_omap].
    assert (Ec : complaint answer name = (e ← DeleteTopic answer name; _)) by reflexivity.
    destruct (DeleteTopic answer name) as [e|]; cbn [mbind option_bind] in Ec; rewrite Ec;
      (rewrite IH by first [done|apply i64_wrap_ok]); rsimpl;
      rewrite <- ?app_assoc, <- ?Z.add_sub_assoc, i64_wrap_add_l; cbn [app]; f_equal; f_equal; lia.
  - rewrite (filter_cons_False _ name) by congruence. by apply IH.
Qed.

Lemma BootstrapAddress_idem getenv a :
  BootstrapAddress getenv (BootstrapAddress getenv a) = BootstrapAddress getenv a.
Proof.
  unfold BootstrapAddress. destruct (String.eqb a "") eqn:Ea; cbn [negb]; [|by rewrite Ea].
  destruct (String.eqb (getenv BrokerEnv) "") eqn:Eb; cbn [negb]; [done|by rewrite Eb].
Qed.

Lemma main_cases {C} (build : list kgo_opt -> result C) ListTopics DeleteTopics getenv :
  let addr := BootstrapAddress getenv (getenv "KUBEMQ_BROKER_ADDRESS") in
  main build ListTopics DeleteTopics getenv =
  match build [SeedBrokers addr; ClientID "burnin-kafka-cleanup"; RequiredAcks AllISRAcks;
               ProducerBatchCompression NoCompression; DisableIdempotentWrite] with
  | Err e => die "build kafka client" (Lit "build kafka client: " :: e)
  | Ok cl =>
      match ListTopics cl with
      | inl e => die "list topics" (err_text e)
      | inr names =>
          let o := foldl (clean_topic (cleanup_prefix getenv) (DeleteTopics cl)) idle names in
          o <| o_stdout := [[Lit "cleanup prefix="; Quoted (cleanup_prefix getenv); Lit " bootstrap="; Lit addr;
                             Lit " topics_deleted="; Lit (FormatInt (o_deleted o));
                             Lit " topics_failed="; Lit (FormatInt (o_failed o))]] |>
            <| o_closed := true |>
      end
  end.
Proof.
  cbv zeta. unfold main, NewClient, client_opts, NewAdmin. cbn [cleanup_config cc_Bootstrap cc_SASLMechanism mbind].
  rewrite BootstrapAddress_idem. cbn. by destruct (build _).
Qed.

(** Cleanup does what it prints.  It exits with 1, having deleted nothing and
    said why on stderr, exactly when the client cannot be built or the topics
    cannot be listed (in the second case its deferred Close is skipped).  Otherwise
    it asks for the deletion of exactly the listed topics whose name starts with
    the prefix, in order, prints one line on stderr for each that failed and one
    line of exact counts on stdout, closes the client and exits with 0, failures
    or not.  The default prefix also selects every topic of an agent running
    under "burnin_go", which the command's comment excludes. *)
Theorem cleanup_exact {C} (build : list kgo_opt -> result C) ListTopics DeleteTopics getenv :
  (forall cl names, ListTopics cl = inr names -> Z.of_nat (length names) < 2 ^ 63) ->
  let o := main build ListTopics DeleteTopics getenv in
  (o_exit o = 1 /\ o_requested o = [] /\ o_stdout o = [] /\ length (o_stderr o) = 1%nat /\ o_closed o = false) \/
  exists opts cl names,
    build opts = Ok cl /\ ListTopics cl = inr names /\ o_exit o = 0 /\ o_closed o = true /\
    o_requested o = filter (fun name => HasPrefix name (cleanup_prefix getenv) = true) names /\
    o_stderr o = omap (complaint (DeleteTopics cl)) (o_requested o) /\
    o_failed o = Z.of_nat (length (o_stderr o)) /\
    o_deleted o + o_failed o = Z.of_nat (length (o_requested o)) /\
    o_stdout o = [[Lit "cleanup prefix="; Quoted (cleanup_prefix getenv); Lit " bootstrap=";
       Lit (BootstrapAddress getenv (getenv "KUBEMQ_BROKER_ADDRESS"));
       Lit " topics_deleted="; Lit (FormatInt (o_deleted o));
       Lit " topics_failed="; Lit (FormatInt (o_failed o))]] /\
    (forall env' w i, getenv "BURNIN_RESOURCE_PREFIX" = "" ->
       env' ResourcePrefixEnv = "burnin_go" -> TopicName env' w i ∈ names ->
       TopicName env' w i ∈ o_requested o).
Proof.
  intros Hlen. rewrite main_cases. cbv zeta.
  destruct (build _) as [cl|e] eqn:Eb; [|by left].
  destruct (ListTopics cl) as [e|names] eqn:El; [by left|]. right.
  eexists _, cl, names. split; [exact Eb|]. split; [done|]. specialize (Hlen cl names El).
  rewrite clean_topics by (split; done). cbn [idle o_requested o_deleted o_failed o_stderr]. cbv [set_field].
  cbn [o_requested o_deleted o_failed o_stderr o_stdout o_exit o_closed app].
  set (mine := filter _ names). set (bad := omap _ mine).
  assert (Hm : (length mine <= length names)%nat) by apply length_filter.
  assert (Hb : (length bad <= length mine)%nat) by apply length_complaints.
  split_and!; [done..|unwrap; lia|unwrap; lia|done|].
  intros env' w i Hp Hp' Hin. apply list_elem_of_filter. split; [|done].
  unfold TopicName, resourcePrefix, cleanup_prefix. by rewrite Hp, Hp'.
Qed.

Definition no_env : string -> string := fun _ => "".

(** A broker whose listing has three topics and which refuses one deletion. *)
Definition demo_topics : list string := ["burnin.keyed_ordering.0001"; "burnin_go.keyed_ordering.0001"; "orders"].
Definition demo_delete (_ : unit) (name : string) : topic_response :=
  Response (Some (if String.eqb name "burnin.keyed_ordering.0001" then Some (mk_error OtherError [Lit "denied"])
                  else None)) None.
Definition demo_cleanup : outcome := main (fun _ => Ok ()) (fun _ => inr demo_topics) demo_delete no_env.

Example cleanup_demo :
  (o_requested demo_cleanup, o_deleted demo_cleanup, o_failed demo_cleanup, o_exit demo_cleanup)
  = (take 2 demo_topics, 1, 1, 0).
Proof. vm_compute. reflexivity. Qed.

Lemma cleanup_exact_witness :
  o_stderr demo_cleanup = omap (complaint (demo_delete ())) (take 2 demo_topics) /\
  o_deleted demo_cleanup + o_failed demo_cleanup = 2.
Proof.
  destruct (cleanup_exact (fun _ => Ok ()) (fun _ : unit => inr demo_topics) demo_delete no_env)
    as [[E _]|(opts & cl & names & _ & E & _ & _ & Hr & He & _ & Hs & _)].
  - intros cl names [= <-]. reflexivity.
  - vm_compute in E. discriminate E.
  - destruct cl. split; [exact He|]. injection E as <-. unfold demo_cleanup. rewrite Hs. rewrite Hr. reflexivity.
Defined.
