(* ===== verification/Console.v ===== *)
(** * The console report (PrintConsole of burnin/report/report.go)

    The lines PrintConsole writes to stderr, one [message] per Fprintf, and what
    they say about the verdict.  A float argument keeps its verb. *)

From S2P Require Import Prelude Float64 GoStr Config Metrics Verdict Report VerdictFacts.
From Stdlib Require Import Ascii.
Local Open Scope string_scope.
Local Open Scope Z_scope.
Local Open Scope list_scope.

(** ** time.Duration.String *)

(** fmtFrac: the digits of [v / 10^k] after the point, without trailing zeros,
    in front of [acc], and the integer part. *)
Fixpoint fmtFrac (k : nat) (v : Z) (print : bool) (acc : string) : string * Z :=
  match k with
  | O => (if print then "." ++s acc else acc, v)
  | S k =>
      let digit := v mod 10 in
      let print := print || negb (digit =? 0) in
      fmtFrac k (v / 10) print (if print then FormatUint digit ++s acc else acc)
  end.

(** A magnitude below one second: in ns, µs or ms. *)
Definition short_duration (u : Z) : string :=
  let '(prec, suffix) :=
    if u <? Time.Microsecond then (0%nat, "ns") else if u <? Time.Millisecond then (3%nat, "µs") else (6%nat, "ms") in
  let '(frac, w) := fmtFrac prec u false suffix in
  FormatUint w ++s frac.

Definition long_duration (u : Z) : string :=
  let '(frac, secs) := fmtFrac 9 u false "s" in
  let text := FormatUint (secs mod 60) ++s frac in
  let mins := secs / 60 in
  if mins =? 0 then text else
  let text := FormatUint (mins mod 60) ++s "m" ++s text in
  let hours := mins / 60 in
  if hours =? 0 then text else FormatUint hours ++s "h" ++s text.

Definition Duration_String (d : Z) : string :=
  if d =? 0 then "0s" else
  let u := Z.abs d in
  (if d <? 0 then "-" else "") ++s (if u <? Time.Second then short_duration u else long_duration u).

Example durations : map Duration_String [0; 1; 1100; 2200000; 1500000000; 3600000000000; 247123456789; -90000000000]
  = ["0s"; "1ns"; "1.1µs"; "2.2ms"; "1.5s"; "1h0m0s"; "4m7.123456789s"; "-1m30s"].
Proof. vm_compute. reflexivity. Qed.

(** ** PrintConsole *)

Definition nl : string := String "010" "".
Definition line (m : message) : message := m ++ [Lit nl].
Definition sep : string := String.string_of_list_ascii (replicate 64 "-"%char).

(** %-38s *)
Definition pad_right (width : nat) (s : string) : string :=
  s ++s String.string_of_list_ascii (replicate (width - String.length s) " "%char).

Definition header_lines (s : Summary) (result : string) : list message :=
  [[Lit nl; Lit sep; Lit nl];
   line [Lit " Kafka Burn-In Report"];
   line [Lit sep];
   line [Lit " Run ID:       "; Lit (s_RunID s)];
   line [Lit " Mode:         "; Lit (s_Mode s)];
   line [Lit " Duration:     "; Lit (Duration_String (f_trunc (fmul (s_DurationSeconds s) (f_of_Z Time.Second))))];
   line [Lit " Bootstrap:    "; Lit (s_Bootstrap s)];
   line [Lit " Broker:       "; Lit (s_BrokerAddress s)];
   line [Lit " Group prefix: "; Lit (s_GroupPrefix s)];
   line [Lit " Verdict:      "; Lit result];
   line [Lit sep]].

Section Worker.
Import Stats.

Definition sent_received (ws : WorkerStats) : message :=
  [Lit "   Sent: "; num (Sent ws); Lit "  Received: "; num (Received ws)].
Definition lost (ws : WorkerStats) : message :=
  [Lit "  Lost: "; num (Lost ws); Lit " ("; FloatArg "%.2f" (LossPct ws); Lit "%)"].
Definition committed (ws : WorkerStats) : message := [Lit "  Committed: "; num (Deleted ws)].

(** The switch on the worker's type: its two lines, or the one of an admin worker. *)
Definition kind_lines (name : string) (ws : WorkerStats) : list message :=
  if IsKeyedWorker name then
    [line (sent_received ws ++ lost ws);
     line [Lit "   OffsetOrderViolations: "; num (OffsetOrderViolations ws); Lit "  Duplicated: "; num (Duplicated ws);
           Lit "  Corrupted: "; num (Corrupted ws)]]
  else if IsConsumerGroupWorker name then
    [line (sent_received ws ++ lost ws);
     line [Lit "   GroupLossAcrossRebalance: "; num (GroupLossAcrossRebal ws); Lit "  Duplicated: "; num (Duplicated ws);
           Lit "  Corrupted: "; num (Corrupted ws)]]
  else if IsOffsetLagWorker name then
    [line (sent_received ws ++ committed ws ++ lost ws);
     line [Lit "   LagAccuracyErrorMsgs: "; num (LagAccuracyErrorMsgs ws); Lit "  Duplicated: "; num (Duplicated ws)]]
  else if IsAdminWorker name then
    [line [Lit "   AdminOpFailures: "; num (AdminOpFailures ws); Lit "  InvalidRejected: "; num (AdminInvalidRejected ws);
           Lit "  Errors: "; num (Errors ws)]]
  else if IsTransactionsWorker name then
    [line (sent_received ws ++ lost ws);
     line [Lit "   EOSViolations: "; num (EOSViolations ws); Lit "  KIP890Residual: "; num (KIP890Residual ws);
           Lit " (excluded)  Duplicated: "; num (Duplicated ws)]]
  else
    [line (sent_received ws ++ committed ws ++ lost ws);
     line [Lit "   Duplicated: "; num (Duplicated ws); Lit "  Corrupted: "; num (Corrupted ws);
           Lit "  OutOfOrder: "; num (OutOfOrder ws)]].

Definition worker_lines (workers : list (string * WorkerStats)) (name : string) : list message :=
  match list_find (fun p => fst p = name) workers with
  | None => []
  | Some (_, (_, ws)) =>
      if negb (Enabled ws) then [] else
      [[Lit nl; Lit " Worker: "; Lit name; Lit " ("; num (Channels ws); Lit " ch)"; Lit nl]]
      ++ kind_lines name ws
      ++ (if fltb fzero (LatencyP50MS ws) then
            [line [Lit "   Latency: P50="; FloatArg "%.1f" (LatencyP50MS ws); Lit "ms P95="; FloatArg "%.1f" (LatencyP95MS ws);
                   Lit "ms P99="; FloatArg "%.1f" (LatencyP99MS ws); Lit "ms P999="; FloatArg "%.1f" (LatencyP999MS ws);
                   Lit "ms"]]
          else [])
      ++ [line [Lit "   Rate: "; FloatArg "%.1f" (AvgRate ws); Lit " msgs/s (target "; num (TargetRate ws);
                Lit ")  Peak: "; FloatArg "%.1f" (PeakRate ws); Lit " msgs/s"]]
      ++ (if (0 <? Reconnections ws) || fltb fzero (DowntimeSeconds ws) then
            [line [Lit "   Reconnections: "; num (Reconnections ws); Lit "  Downtime: ";
                   FloatArg "%.1f" (DowntimeSeconds ws); Lit "s"]]
          else [])
  end.

End Worker.

Definition check_status (cr : CheckResult) : string :=
  if negb (ck_Passed cr) then "FAIL" else if ck_Advisory cr then "INFO" else "PASS".

Definition check_line '((name, cr) : string * CheckResult) : message :=
  line ([Lit "   "; Lit (pad_right 38 name); Lit " "; Lit (check_status cr); Lit "  "] ++ ck_Message cr).

(** [order]: verdict.Checks as its range statement visits it. *)
Definition PrintConsole (order : list (string * CheckResult)) (summary : Summary) (verdict : Verdict) : list message :=
  let r := s_Resources summary in
  header_lines summary (v_Result verdict)
  ++ concat (map (worker_lines (s_Workers summary)) AllWorkerNames)
  ++ [[Lit nl; Lit sep; Lit nl; Lit " Checks:"; Lit nl]]
  ++ map check_line order
  ++ match v_Warnings verdict with
     | [] => []
     | ws => [Lit nl; Lit " Warnings:"; Lit nl] :: map (fun w => line (Lit "   - " :: w)) ws
     end
  ++ [[Lit nl; Lit sep; Lit nl; Lit " Resources:"; Lit nl];
      line [Lit "   Memory: peak="; FloatArg "%.1f" (PeakRSSMB r); Lit "MB baseline="; FloatArg "%.1f" (BaselineRSSMB r);
            Lit "MB growth="; FloatArg "%.2f" (MemoryGrowthFactor r); Lit "x"];
      [Lit sep; Lit nl; Lit nl]].

(** * Properties *)

(** ** GenerateVerdict as a list of checks *)

Definition opt {A} (b : bool) (x : A) : list A := if b then [x] else [].

Definition hard (name : string) (value threshold : float64) (msg : message) : CheckResult :=
  mk_CheckResult name (fleb value threshold) false value threshold msg.

(** The checks of one worker, in order. *)
Definition checks_of (cfg : Config) '((name, ws) : string * Stats.WorkerStats) : list CheckResult :=
  let t := Thresholds cfg in
  let lossPct := pct (Stats.Lost ws) (Stats.Sent ws) in
  let dupPct := pct (Stats.Duplicated ws) (Stats.Received ws) in
  let total := Stats.Sent ws +u Stats.Received ws in
  let errPct := pct (Stats.Errors ws) total in
  if negb (Stats.Enabled ws) then [] else
  opt ((0 <? Stats.Sent ws) && negb (IsAdminWorker name))
    (hard ("message_loss:" ++s name) lossPct (lossGateThreshold (MaxLossPct t))
       [FloatArg "%.4f" lossPct; Lit "% loss (threshold "; FloatArg "%.4f" (MaxLossPct t); Lit "%)"])
  ++ opt ((0 <? Stats.Received ws) && negb (IsAdminWorker name))
    (hard ("duplication:" ++s name) dupPct (MaxDuplicationPct t)
       [FloatArg "%.4f" dupPct; Lit "% duplication (threshold "; FloatArg "%.4f" (MaxDuplicationPct t); Lit "%)"])
  ++ opt (fltb fzero (Stats.LatencyP99MS ws))
    (hard ("p99_latency:" ++s name) (Stats.LatencyP99MS ws) (MaxP99LatencyMS t)
       [Lit "P99="; FloatArg "%.1f" (Stats.LatencyP99MS ws); Lit "ms (threshold ";
        FloatArg "%.1f" (MaxP99LatencyMS t); Lit "ms)"])
  ++ opt (0 <? total)
    (hard ("error_rate:" ++s name) errPct (MaxErrorRatePct t)
       [FloatArg "%.4f" errPct; Lit "% error rate (threshold "; FloatArg "%.4f" (MaxErrorRatePct t); Lit "%)"])
  ++ opt (IsKeyedWorker name)
    (count_check "offset_order_violations" name (Stats.OffsetOrderViolations ws) (MaxOffsetOrderViolations t)
       [num (Stats.OffsetOrderViolations ws); Lit " per-partition offset-order violations"])
  ++ opt (IsConsumerGroupWorker name)
    (count_check "group_loss_across_rebalance" name (Stats.GroupLossAcrossRebal ws) (MaxGroupLossAcrossRebalance t)
       [num (Stats.GroupLossAcrossRebal ws); Lit " messages lost across rebalance"])
  ++ opt (IsTransactionsWorker name)
    (count_check "eos_violations" name (Stats.EOSViolations ws) (MaxEOSViolations t)
       [num (Stats.EOSViolations ws); Lit " EOS violations (KIP-890 V1 same-epoch residual ";
        num (Stats.KIP890Residual ws); Lit " EXCLUDED per spec §2.5)"])
  ++ opt (IsTransactionsWorker name)
    (mk_CheckResult ("kip890_residual:" ++s name) true true (f_of_Z (Stats.KIP890Residual ws)) fzero
       [num (Stats.KIP890Residual ws);
        Lit " KIP-890 V1 same-epoch zombie admissions (upstream-shared, informational only)"])
  ++ opt (IsOffsetLagWorker name)
    (count_check "lag_accuracy" name (Stats.LagAccuracyErrorMsgs ws) (MaxLagAccuracyErrorMsgs t)
       [num (Stats.LagAccuracyErrorMsgs ws); Lit " msgs lag accuracy error"])
  ++ opt (IsAdminWorker name)
    (mk_CheckResult ("admin_op_failures:" ++s name) (Stats.AdminOpFailures ws =? 0) false
       (f_of_Z (Stats.AdminOpFailures ws)) fzero
       [num (Stats.AdminOpFailures ws); Lit " admin op failures ("; num (Stats.AdminInvalidRejected ws);
        Lit " invalid partition ops correctly rejected)"]).

Definition add_checks (v : Verdict) (l : list CheckResult) : Verdict := foldl (fun v c => add_check c v) v l.

Lemma add_checks_app v l l' : add_checks v (l ++ l') = add_checks (add_checks v l) l'.
Proof. apply foldl_app. Qed.

Lemma add_checks_opt v b c : add_checks v (opt b c) = when b (add_check c) v.
Proof. by destruct b. Qed.

Lemma check_worker_checks cfg v nw : check_worker cfg v nw = add_checks v (checks_of cfg nw).
Proof.
  destruct nw as [name ws]. unfold check_worker, checks_of.
  destruct (negb (Stats.Enabled ws)); [done|].
  rewrite !add_checks_app, !add_checks_opt. by destruct (IsTransactionsWorker name).
Qed.

(** Distinct names make the map hold every check, and the verdict their conjunction. *)
Lemma add_checks_spec l : forall v, NoDup (map ck_Name l) ->
  (forall c, c ∈ l -> v_Checks v !! ck_Name c = None) ->
  v_Passed (add_checks v l) = v_Passed v && forallb ck_Passed l /\
  forall k c, v_Checks (add_checks v l) !! k = Some c <->
    v_Checks v !! k = Some c \/ (c ∈ l /\ k = ck_Name c).
Proof.
  induction l as [|c0 l IH]; intros v Hnd Hv; cbn [map forallb] in *.
  { split; [by rewrite andb_true_r|]. set_solver. }
  apply NoDup_cons in Hnd as [Hc0 Hnd]. change (add_checks v (c0 :: l)) with (add_checks (add_check c0 v) l).
  assert (Hins : v_Checks (add_check c0 v) = <[ck_Name c0 := c0]> (v_Checks v))
    by (unfold add_check; by destruct (ck_Passed c0)).
  assert (Hne : forall c, c ∈ l -> ck_Name c <> ck_Name c0).
  { intros c Hc E. apply Hc0. rewrite <- E. by apply list_elem_of_In, in_map, list_elem_of_In. }
  destruct (IH (add_check c0 v)) as [Hp Hk]; [done| |].
  { intros c Hc. rewrite Hins, lookup_insert_ne by (symmetry; auto). apply Hv. set_solver. }
  split; [by rewrite Hp, add_check_Passed, andb_assoc|].
  intros k c. rewrite Hk, Hins, lookup_insert_Some, elem_of_cons.
  specialize (Hv c0 ltac:(set_solver)). naive_solver congruence.
Qed.

(** ** The names of the checks *)

Definition check_labels : list string :=
  ["message_loss"; "duplication"; "p99_latency"; "error_rate"; "offset_order_violations";
   "group_loss_across_rebalance"; "eos_violations"; "kip890_residual"; "lag_accuracy"; "admin_op_failures"].

Definition check_name (name label : string) : string := label ++s ":" ++s name.

Lemma cut_check_name name label : label ∈ check_labels -> cut_chr ":" (check_name name label) = Some (label, name).
Proof.
  intros Hl. unfold check_name. change (":" ++s name) with (String ":" name). apply cut_chr_append.
  unfold check_labels in Hl. rewrite !elem_of_cons, elem_of_nil in Hl. by destruct_or? Hl; subst.
Qed.

Lemma checks_of_names cfg name ws : map ck_Name (checks_of cfg (name, ws)) `sublist_of` map (check_name name) check_labels.
Proof.
  unfold checks_of. destruct (negb (Stats.Enabled ws)); [apply sublist_nil_l|].
  rewrite !map_app. cbn [check_labels map].
  assert (Hopt : forall b c l k, ck_Name c = k -> forall l', l `sublist_of` l' ->
    map ck_Name (opt b c) ++ l `sublist_of` k :: l').
  { intros [] c l k <- l' Hl; cbn; [by apply sublist_skip|by apply sublist_cons]. }
  repeat (apply Hopt; [reflexivity|]).
  rewrite <- (app_nil_r (map ck_Name _)). apply Hopt; [reflexivity|done].
Qed.

Lemma elem_of_checks_of cfg nw c : c ∈ checks_of cfg nw ->
  exists label, label ∈ check_labels /\ ck_Name c = check_name nw.1 label.
Proof.
  destruct nw as [name ws]. intros Hc.
  assert (Hn : ck_Name c ∈ map (check_name name) check_labels).
  { eapply elem_of_sublist; [|apply checks_of_names]. by apply list_elem_of_In, in_map, list_elem_of_In. }
  apply list_elem_of_In, in_map_iff in Hn as (label & E & Hl%list_elem_of_In). by exists label.
Qed.

Definition worker_checks (cfg : Config) (l : list (string * Stats.WorkerStats)) : list CheckResult :=
  l ≫= checks_of cfg.

Lemma worker_checks_NoDup cfg l : NoDup (map fst l) -> NoDup (map ck_Name (worker_checks cfg l)).
Proof.
  intros Hl. unfold worker_checks.
  assert (E : map ck_Name (l ≫= checks_of cfg) = l ≫= fun nw => map ck_Name (checks_of cfg nw)).
  { clear. induction l as [|nw l IH]; [done|]. cbn [mbind list_bind] in *. by rewrite map_app, IH. }
  rewrite E. clear E.
  assert (Hcut : forall nw k, k ∈ map ck_Name (checks_of cfg nw) -> snd <$> cut_chr ":" k = Some nw.1).
  { intros nw k Hk. apply list_elem_of_In, in_map_iff in Hk as (c & <- & Hc%list_elem_of_In).
    apply elem_of_checks_of in Hc as (label & Hlab & ->). by rewrite cut_check_name. }
  apply NoDup_bind.
  - intros [n ws] [n' ws'] k Hx Hx' Hk Hk'. apply Hcut in Hk, Hk'. rewrite Hk in Hk'. injection Hk' as E. cbn in E. subst n'.
    apply (elem_of_list_to_map (M := gmap string)) in Hx, Hx'; [|done..]. congruence.
  - intros [n ws] _. eapply sublist_NoDup; [|apply checks_of_names].
    assert (Hnd : NoDup check_labels) by (apply (bool_decide_unpack _); vm_compute; exact I).
    revert Hnd. assert (Hsub : forall x, x ∈ check_labels -> x ∈ check_labels) by done.
    revert Hsub. generalize check_labels at 1 3 4 as L. induction L as [|x L IH]; intros Hsub Hnd; [constructor|].
    apply NoDup_cons in Hnd as [Hx Hnd]. cbn [map]. constructor; [|apply IH; [set_solver|done]].
    intros Hin. apply list_elem_of_In, in_map_iff in Hin as (y & E & Hy%list_elem_of_In).
    apply (f_equal (cut_chr ":")) in E. rewrite !cut_check_name in E by set_solver. by injection E as ->.
  - clear Hcut. by eapply NoDup_fmap_1.
Qed.

Definition corruption_check (s : Summary) : CheckResult :=
  let total := totalCorrupted (s_Workers s) in
  mk_CheckResult "corruption" (total =? 0) false (f_of_Z total) fzero [num total; Lit " corrupted messages"].

Definition memory_check (cfg : Config) (s : Summary) : CheckResult :=
  let growth := MemoryGrowthFactor (s_Resources s) in
  let max := MaxMemoryGrowthFactor (Thresholds cfg) in
  mk_CheckResult "memory_stability" (fleb growth max) true growth max
    [FloatArg "%.2f" growth; Lit "x growth (threshold "; FloatArg "%.2f" max; Lit "x)"].

Definition memory_checked (s : Summary) : bool := fltb fzero (BaselineRSSMB (s_Resources s)).

(** The checks that decide. *)
Definition gates (cfg : Config) (s : Summary) : list CheckResult :=
  worker_checks cfg (s_Workers s) ++ [corruption_check s].

Lemma check_workers_checks cfg l : forall v,
  foldl (check_worker cfg) v l = add_checks v (worker_checks cfg l).
Proof.
  induction l as [|nw l IH]; intros v; [done|]. cbn [foldl]. unfold worker_checks in *.
  by rewrite bind_cons, add_checks_app, IH, check_worker_checks.
Qed.

(** The end of GenerateVerdict keeps [Passed] and adds the memory check. *)
Lemma GenerateVerdict_gates cfg s :
  let v := GenerateVerdict cfg s in
  let w := add_checks (mk_Verdict "PASSED" true [] ∅) (gates cfg s) in
  v_Passed v = v_Passed w /\
  v_Checks v = (if memory_checked s then insert "memory_stability" (memory_check cfg s) else id) (v_Checks w) /\
  (v_Warnings v = [] <-> memory_checked s && negb (ck_Passed (memory_check cfg s)) = false).
Proof.
  cbv zeta. set (w := add_checks _ _).
  assert (Ew : v_Warnings w = []).
  { unfold w, add_checks. generalize (gates cfg s) as l. intros l.
    assert (G : forall v, v_Warnings v = [] -> v_Warnings (foldl (fun v c => add_check c v) v l) = []); [|by apply G].
    induction l as [|c l IH]; intros v Hv; [done|]. apply IH. unfold add_check. by destruct (ck_Passed c). }
  assert (E : GenerateVerdict cfg s =
    let v := when (memory_checked s) (fun v =>
      let v := v <| v_Checks ::= insert "memory_stability" (memory_check cfg s) |> in
      if ck_Passed (memory_check cfg s) then v
      else v <| v_Warnings ::= fun ws => ws ++ [[Lit "memory_stability: "; FloatArg "%.2f" (MemoryGrowthFactor (s_Resources s));
        Lit "x growth exceeds "; FloatArg "%.2f" (MaxMemoryGrowthFactor (Thresholds cfg)); Lit "x"]] |>) w in
    if negb (v_Passed v) then v <| v_Result := "FAILED" |>
    else match v_Warnings v with [] => v | _ => v <| v_Result := "PASSED_WITH_WARNINGS" |> end).
  { unfold GenerateVerdict. rewrite check_workers_checks. unfold w, gates. by rewrite add_checks_app. }
  rewrite E. clear E. clearbody w. destruct w as [res pass warn ck]. cbn in Ew. subst warn.
  unfold when. destruct (memory_checked s); [destruct (ck_Passed (memory_check cfg s))|]; cbn [andb negb];
    destruct pass; rsimpl; by split_and!.
Qed.

Lemma gates_NoDup cfg s : NoDup (map fst (s_Workers s)) ->
  NoDup (map ck_Name (gates cfg s)) /\ (forall c, c ∈ gates cfg s -> ck_Name c <> "memory_stability").
Proof.
  intros Hnd.
  assert (Hne : forall c k, c ∈ worker_checks cfg (s_Workers s) -> cut_chr ":" k = None -> ck_Name c <> k).
  { intros c k Hc Hk E. apply list_elem_of_bind in Hc as (nw & Hc & _).
    apply elem_of_checks_of in Hc as (label & Hl & En). rewrite E in En. subst k. by rewrite cut_check_name in Hk. }
  unfold gates. split.
  - rewrite map_app. apply NoDup_app. split; [by apply worker_checks_NoDup|]. split; [|apply NoDup_singleton].
    intros k Hk Hk'. apply list_elem_of_In, in_map_iff in Hk as (c & <- & Hc%list_elem_of_In).
    apply list_elem_of_singleton in Hk'. by apply (Hne c "corruption").
  - intros c [Hc| ->%list_elem_of_singleton]%elem_of_app; [by apply Hne|done].
Qed.

(** The console tells the verdict.  For the verdict GenerateVerdict computes from a
    summary whose workers have distinct names, whatever the order in which
    PrintConsole visits the checks: every check is printed under its own name, none
    lost to another of the same name; the verdict passed exactly when the only check
    printed as FAIL, if any, is the advisory memory_stability; and then the
    warnings section is printed exactly when that line says FAIL. *)
Theorem console_tells_verdict cfg s order :
  NoDup (map fst (s_Workers s)) -> order ≡ₚ map_to_list (v_Checks (GenerateVerdict cfg s)) ->
  (forall c, c ∈ gates cfg s -> (ck_Name c, c) ∈ order) /\
  (v_Passed (GenerateVerdict cfg s) = true <->
     forall name c, (name, c) ∈ order -> check_status c = "FAIL" -> name = "memory_stability") /\
  (v_Warnings (GenerateVerdict cfg s) = [] <->
     forall c, ("memory_stability", c) ∈ order -> check_status c <> "FAIL").
Proof.
  intros Hnd Ho. destruct (GenerateVerdict_gates cfg s) as (Hp & Hc & Hw). cbv zeta in *.
  destruct (gates_NoDup cfg s Hnd) as [Hg Hm].
  destruct (add_checks_spec (gates cfg s) (mk_Verdict "PASSED" true [] ∅)) as [Hap Hak]; [done|by intros; apply lookup_empty|].
  assert (Hin : forall name c, (name, c) ∈ order <->
    (c ∈ gates cfg s /\ name = ck_Name c) \/
    (memory_checked s = true /\ name = "memory_stability" /\ c = memory_check cfg s)).
  { intros name c. rewrite Ho, elem_of_map_to_list, Hc.
    assert (Hb : v_Checks (add_checks (mk_Verdict "PASSED" true [] ∅) (gates cfg s)) !! name = Some c
      <-> c ∈ gates cfg s /\ name = ck_Name c) by (rewrite Hak; cbn [v_Checks]; rewrite lookup_empty; naive_solver).
    destruct (memory_checked s); cbn [id]; rewrite ?lookup_insert_Some, Hb; naive_solver. }
  assert (Hst : forall c, check_status c = "FAIL" <-> ck_Passed c = false).
  { intros c. unfold check_status. by destruct (ck_Passed c), (ck_Advisory c). }
  split_and!.
  - intros c Hcg. apply Hin. by left.
  - rewrite Hp, Hap. cbn [v_Passed andb]. rewrite forallb_forall. split.
    + intros Hall name c [[Hcg _]|(_ & -> & _)]%Hin Hf; [|done]. apply Hst in Hf.
      by rewrite (Hall c) in Hf by by apply list_elem_of_In.
    + intros Hall c Hcg%list_elem_of_In. destruct (ck_Passed c) eqn:E; [done|]. exfalso.
      apply (Hm c Hcg), (Hall (ck_Name c) c); [apply Hin; by left|by apply Hst].
  - rewrite Hw. split.
    + intros Hoff c [[Hcg E]|(Hmc & _ & ->)]%Hin Hf; [by apply (Hm c Hcg)|].
      apply Hst in Hf. by rewrite Hmc, Hf in Hoff.
    + intros Hall. destruct (memory_checked s) eqn:Hmc, (ck_Passed (memory_check cfg s)) eqn:E; try done.
      exfalso. apply (Hall (memory_check cfg s)); [apply Hin; by right|by apply Hst].
Qed.

(** A run without workers whose memory grew threefold. *)
Definition demo_report : Summary := {|
  s_RunID := "r1"; s_SDK := "go"; s_SDKVersion := ""; s_Mode := "soak"; s_BrokerAddress := "b:9092"; s_Bootstrap := "b:9092";
  s_GroupPrefix := "g"; s_StartedAt := 0; s_EndedAt := 0; s_DurationSeconds := f_lit 3 2; s_AllWorkersEnabled := false;
  s_Workers := [];
  s_Resources := {| PeakRSSMB := f_of_Z 30; BaselineRSSMB := f_of_Z 10; MemoryGrowthFactor := f_of_Z 3 |} |}.
Definition demo_verdict : Verdict := GenerateVerdict DefaultConfig demo_report.

Example console_demo :
  map leading_text (PrintConsole (map_to_list (v_Checks demo_verdict)) demo_report demo_verdict) =
  [nl ++s sep ++s nl; " Kafka Burn-In Report" ++s nl; sep ++s nl; " Run ID:       r1" ++s nl; " Mode:         soak" ++s nl;
   " Duration:     1.5s" ++s nl; " Bootstrap:    b:9092" ++s nl; " Broker:       b:9092" ++s nl; " Group prefix: g" ++s nl;
   " Verdict:      PASSED_WITH_WARNINGS" ++s nl; sep ++s nl; nl ++s sep ++s nl ++s " Checks:" ++s nl;
   "   corruption                             PASS  0 corrupted messages" ++s nl;
   "   memory_stability                       FAIL  ";
   nl ++s " Warnings:" ++s nl; "   - memory_stability: "; nl ++s sep ++s nl ++s " Resources:" ++s nl; "   Memory: peak=";
   sep ++s nl ++s nl].
Proof. vm_compute. reflexivity. Qed.

Lemma console_tells_verdict_witness :
  v_Warnings demo_verdict <> [] /\
  ~ forall c, ("memory_stability", c) ∈ map_to_list (v_Checks demo_verdict) -> check_status c <> "FAIL".
Proof.
  assert (Hw : v_Warnings demo_verdict <> []) by (vm_compute; discriminate). split; [exact Hw|]. intros Hall. apply Hw.
  apply (console_tells_verdict DefaultConfig demo_report (map_to_list (v_Checks demo_verdict))); [constructor|done|exact Hall].
Defined.
