(* ===== verification/Worker.v ===== *)
(** * The shared worker (burnin/worker/worker.go and util.go)

    [BaseWorker]: its counters, accumulators and tracker, the helpers the
    concrete workers call, and the record headers.  Contexts, wait groups, the
    rate limiter and the logger are outside the state; the Prometheus calls a
    worker makes are collected in [events]. *)

From S2P Require Import Prelude Float64 GoStr Payload Config Metrics Transport Tracker.
From S2P Require Verdict.
From Stdlib Require Import Ascii.
Local Open Scope string_scope.
Local Open Scope Z_scope.

(** ** Records and headers (util.go)

    Header values are byte strings; a record's value is its list of bytes. *)

Record RecordHeader := mk_RecordHeader { hKey : string; hValue : string }.

Record KRecord := mk_KRecord {
  rTopic : string; rKey : option string; rValue : list Z;
  rHeaders : list RecordHeader; rOffset : Z
}.

(** [now] is time.Now().UnixNano(). *)
Definition stampHeaders (producerID : string) (seq : Z) (crcHex : string) (now : Z) : list RecordHeader :=
  [mk_RecordHeader AttrWorkerID producerID;
   mk_RecordHeader AttrSequence (FormatUint seq);
   mk_RecordHeader AttrContentHash crcHex;
   mk_RecordHeader AttrTimestampNS (FormatInt now)].

(** What extractMeta has read so far; [m_sentAt = None] is the zero time. *)
Record Meta := mk_Meta { m_producerID : string; m_seq : Z; m_crcHex : string; m_sentAt : option Z }.

Definition meta_step (m : Meta) (h : RecordHeader) : Meta :=
  if String.eqb (hKey h) AttrWorkerID
  then mk_Meta (hValue h) (m_seq m) (m_crcHex m) (m_sentAt m)
  else if String.eqb (hKey h) AttrContentHash
  then mk_Meta (m_producerID m) (m_seq m) (hValue h) (m_sentAt m)
  else if String.eqb (hKey h) AttrSequence
  then match ParseUint (hValue h) with
       | Some n => mk_Meta (m_producerID m) n (m_crcHex m) (m_sentAt m)
       | None => m
       end
  else if String.eqb (hKey h) AttrTimestampNS
  then match ParseInt (hValue h) with
       | Some ns => mk_Meta (m_producerID m) (m_seq m) (m_crcHex m) (Some ns)
       | None => m
       end
  else m.

(** The metadata and [ok]. *)
Definition extractMeta (headers : list RecordHeader) : Meta * bool :=
  match headers with
  | [] => (mk_Meta "" 0 "" None, false)
  | _ =>
      let m := foldl meta_step (mk_Meta "" 0 "" None) headers in
      (m, negb (String.eqb (m_producerID m) ""))
  end.

(** ** BaseWorker *)

Section BaseWorker.
Context `{HdrHistogram}.

Record BaseWorker := mk_BaseWorker {
  name : string; channelName : string; channelIndex : Z; cfg : Config; workerCfg : WorkerConfig;
  sizeDistrib : option SizeDistribution;
  trk : Track.Tracker; latAccum : Latency.LatencyAccumulator;
  peakRate : Peak.PeakRateTracker; rateWindow : Sliding.SlidingRateWindow;
  consumerReady : bool; disconnectGen : Z;
  sent : Z; received : Z; errors : Z; corrupted : Z; reconnections : Z; downtime : Z;
  duplicated : Z; deleted : Z;
  offsetOrderViolations : Z; groupLossRebalance : Z; eosViolations : Z; lagAccuracyErrMax : Z;
  adminOpFailures : Z; adminInvalidRejected : Z; kip890Residual : Z;
  events : list metric_event
}.

#[global] Instance eta_BaseWorker : Eta BaseWorker := fun b =>
  mk_BaseWorker (name b) (channelName b) (channelIndex b) (cfg b) (workerCfg b) (sizeDistrib b)
    (trk b) (latAccum b) (peakRate b) (rateWindow b) (consumerReady b) (disconnectGen b)
    (sent b) (received b) (errors b) (corrupted b) (reconnections b) (downtime b)
    (duplicated b) (deleted b) (offsetOrderViolations b) (groupLossRebalance b)
    (eosViolations b) (lagAccuracyErrMax b) (adminOpFailures b) (adminInvalidRejected b)
    (kip890Residual b) (events b).

(** [workerCfg] is the block GetWorkerConfig finds; for an unknown name the code
    would dereference nil, so there is no worker. *)
Definition NewBaseWorker (nm channel : string) (idx : Z) (c : Config) : option BaseWorker :=
  wc ← GetWorkerConfig c nm;
  let dist :=
    if String.eqb (SizeMode (Message c)) "distribution" then
      match ParseDistribution (SizeDistributionText (Message c)) with
      | Ok d => Some d
      | Err _ => None
      end
    else None in
  Some {| name := nm; channelName := channel; channelIndex := idx; cfg := c; workerCfg := wc;
    sizeDistrib := dist;
    trk := Track.New (ReorderWindow (Message c)); latAccum := Latency.NewLatencyAccumulator;
    peakRate := Peak.NewPeakRateTracker; rateWindow := Sliding.NewSlidingRateWindow;
    consumerReady := false; disconnectGen := 0;
    sent := 0; received := 0; errors := 0; corrupted := 0; reconnections := 0; downtime := 0;
    duplicated := 0; deleted := 0; offsetOrderViolations := 0; groupLossRebalance := 0;
    eosViolations := 0; lagAccuracyErrMax := 0; adminOpFailures := 0; adminInvalidRejected := 0;
    kip890Residual := 0; events := [] |}.

(** The limiter's rate and burst. *)
Definition limiter_burst (wc : WorkerConfig) : Z := if Rate wc <? 1 then 1 else Rate wc.

(** *** Accessors *)

Definition SentCount (b : BaseWorker) : Z := sent b.
Definition ReceivedCount (b : BaseWorker) : Z := received b.
Definition ErrorCount (b : BaseWorker) : Z := errors b.
Definition CorruptedCount (b : BaseWorker) : Z := corrupted b.
Definition ReconnectionCount (b : BaseWorker) : Z := reconnections b.
Definition DuplicatedCount (b : BaseWorker) : Z := duplicated b.
Definition DeletedCount (b : BaseWorker) : Z := deleted b.
Definition DowntimeSeconds_ (b : BaseWorker) : float64 :=
  fdiv (f_of_Z (downtime b)) (f_of_Z Time.Second).

(** *** Client configuration builders *)

Definition kafkaClientCfg (b : BaseWorker) (suffix : string) : KafkaClientConfig :=
  let k := Kafka (cfg b) in
  let clientID := ClientIDPrefix (Broker (cfg b)) ++s "-" ++s channelName b in
  let clientID := if String.eqb suffix "" then clientID else clientID ++s "-" ++s suffix in
  {| cc_Bootstrap := Address (Broker (cfg b)); cc_ClientID := clientID;
     cc_Acks := Acks k; cc_Compression := Compression k; cc_IsolationLevel := IsolationLevel k;
     cc_Idempotent := Idempotent k;
     cc_TransactionalID := ""; cc_ConsumerGroup := ""; cc_ConsumeTopics := [];
     cc_TxnTimeoutMS := TxnTimeoutMS k; cc_FetchMaxWaitMS := FetchMaxWaitMS k;
     cc_DisableAutoCommit := false;
     cc_SASLMechanism := SASLMechanism k; cc_SASLUsername := SASLUsername k;
     cc_SASLPassword := SASLPassword k; cc_TLS := TLS k |}.

Definition groupID (b : BaseWorker) (suffix : string) : string :=
  let g := GroupPrefix (Kafka (cfg b)) ++s "-" ++s channelName b in
  if String.eqb suffix "" then g else g ++s "-" ++s suffix.

(** *** Counter helpers *)

Definition emit (e : metric_event) (b : BaseWorker) : BaseWorker :=
  b <| events ::= fun l => (l ++ [e])%list |>.

Definition add1 (x : Z) : Z := x +u 1.

Definition recordSent (bytes : Z) (b : BaseWorker) : BaseWorker :=
  let b := b <| sent ::= add1 |> <| rateWindow ::= Sliding.Record_ |> <| peakRate ::= Peak.Record_ |> in
  emit (RecordBytesSent (name b) bytes) (emit (IncSent (name b) (channelName b)) b).

Definition recordReceived (bytes : Z) (b : BaseWorker) : BaseWorker :=
  let b := b <| received ::= add1 |> in
  emit (RecordBytesReceived (name b) bytes) (emit (IncReceived (name b) (channelName b)) b).

Definition recordDeleted (b : BaseWorker) : BaseWorker :=
  emit (IncDelete (name b)) (b <| deleted ::= add1 |>).
Definition recordError (errType : string) (b : BaseWorker) : BaseWorker :=
  emit (IncError (name b) errType) (b <| errors ::= add1 |>).
Definition recordCorrupted (b : BaseWorker) : BaseWorker :=
  emit (IncCorrupted (name b)) (b <| corrupted ::= add1 |>).
Definition recordReconnection (b : BaseWorker) : BaseWorker :=
  emit (IncReconnection (name b)) (b <| reconnections ::= add1 |>).
Definition recordLatency (d : Z) (b : BaseWorker) : BaseWorker :=
  emit (ObserveLatency (name b) d) (b <| latAccum ::= fun a => Latency.Record_ a d |>).
Definition recordOffsetOrderViolation (b : BaseWorker) : BaseWorker :=
  emit (IncOffsetOrderViolation (name b)) (b <| offsetOrderViolations ::= add1 |>).

Definition recordGroupLossRebalance (n : Z) (b : BaseWorker) : BaseWorker :=
  if n =? 0 then b
  else
    Nat.iter (Z.to_nat n) (emit (IncGroupLossRebalance (name b)))
      (b <| groupLossRebalance ::= fun x => x +u n |>).

Definition recordEOSViolation (b : BaseWorker) : BaseWorker :=
  emit (IncEOSViolation (name b)) (b <| eosViolations ::= add1 |>).
Definition recordAdminOpFailure (b : BaseWorker) : BaseWorker :=
  emit (IncAdminOpFailure (name b)) (b <| adminOpFailures ::= add1 |>).
Definition recordAdminInvalidRejected (b : BaseWorker) : BaseWorker :=
  emit (IncAdminInvalidRejected (name b)) (b <| adminInvalidRejected ::= add1 |>).
Definition recordKIP890Residual (b : BaseWorker) : BaseWorker :=
  emit (IncKIP890Residual (name b)) (b <| kip890Residual ::= add1 |>).

(** The compare-and-swap loop, run without interference. *)
Definition setLagAccuracyErr (v : Z) (b : BaseWorker) : BaseWorker :=
  if v <=? lagAccuracyErrMax b then b
  else emit (SetLagAccuracyError (name b) (f_of_Z v)) (b <| lagAccuracyErrMax := v |>).

(** [recordTracked]: the flag is isDuplicate. *)
Definition recordTracked (producerID : string) (seq : Z) (b : BaseWorker) : bool * BaseWorker :=
  let '(dup, oo, t) := Track.Record_ (trk b) producerID seq in
  let b := b <| trk := t |> in
  let b := if dup then emit (IncDuplicated (name b)) (b <| duplicated ::= add1 |>) else b in
  let b := if oo then emit (IncOutOfOrder (name b)) b else b in
  (dup, b).

(** [r] is what rand.IntN returns to SelectSize. *)
Definition selectMessageSize (r : Z) (b : BaseWorker) : Z :=
  match sizeDistrib b with
  | Some d =>
      if String.eqb (SizeMode (Message (cfg b))) "distribution" then SelectSize d r
      else SizeBytes (Message (cfg b))
  | None => SizeBytes (Message (cfg b))
  end.

Definition addDowntime (d : Z) (b : BaseWorker) : BaseWorker :=
  emit (AddDowntime (name b) (Seconds d)) (b <| downtime ::= fun x => x +u u64_wrap d |>).

Definition metricObserveSend (d : Z) (b : BaseWorker) : BaseWorker :=
  emit (ObserveSendDuration (name b) d) b.

Definition AdvanceRateWindows (b : BaseWorker) : BaseWorker :=
  b <| rateWindow ::= Sliding.Advance |> <| peakRate ::= Peak.Advance |>.

Definition ResetAfterWarmup (b : BaseWorker) : BaseWorker :=
  b <| trk ::= Track.Reset |> <| latAccum ::= Latency.Reset_ |>
    <| peakRate := Peak.NewPeakRateTracker |> <| rateWindow ::= Sliding.Reset_ |>
    <| sent := 0 |> <| received := 0 |> <| errors := 0 |> <| corrupted := 0 |>
    <| reconnections := 0 |> <| downtime := 0 |> <| duplicated := 0 |> <| deleted := 0 |>
    <| offsetOrderViolations := 0 |> <| groupLossRebalance := 0 |> <| eosViolations := 0 |>
    <| lagAccuracyErrMax := 0 |> <| adminOpFailures := 0 |> <| adminInvalidRejected := 0 |>
    <| kip890Residual := 0 |>.

(** signalReady closes the channel once; a closed channel stays closed. *)
Definition signalReady (b : BaseWorker) : BaseWorker := b <| consumerReady := true |>.

Definition DisconnectConsumers (b : BaseWorker) : BaseWorker := b <| disconnectGen ::= add1 |>.
Definition disconnectGeneration (b : BaseWorker) : Z := disconnectGen b.

(** ** Receiving a record

    The part of handleRecord every data worker shares: integrity, then latency.
    [now] is the time the record is handled. *)

Definition verify_record (r : KRecord) (m : Meta) (b : BaseWorker) : BaseWorker :=
  if negb (String.eqb (m_crcHex m) "") && negb (VerifyCRC (rValue r) (m_crcHex m))
  then recordCorrupted b else b.

Definition latency_record (now : Z) (m : Meta) (b : BaseWorker) : BaseWorker :=
  match m_sentAt m with
  | Some t => recordLatency (Verdict.time_Sub now t) b
  | None => b
  end.

(** The rest of handleRecord once the record is counted. *)
Definition check_record (now : Z) (r : KRecord) (b : BaseWorker) : BaseWorker :=
  let '(m, ok) := extractMeta (rHeaders r) in
  if negb ok then b
  else snd (recordTracked (m_producerID m) (m_seq m) (latency_record now m (verify_record r m b))).

(** handleRecord of produce_round_trip, consumer_group and offset_commit_lag. *)
Definition handleRecord (now : Z) (r : KRecord) (b : BaseWorker) : BaseWorker :=
  check_record now r (recordReceived (Z.of_nat (length (rValue r))) b).

End BaseWorker.
