(* ===== verification/WorkerFacts.v ===== *)
(** * The shared worker: properties

    Record headers survive the round trip; the counters agree with the
    Prometheus counters; and a worker fed by a faithful channel reports exactly
    what happened to its records. *)

From S2P Require Import Prelude Float64 GoStr Payload Config Metrics Transport Tracker TrackerFacts Worker.
From Stdlib Require Import Ascii.
Local Open Scope string_scope.
Local Open Scope Z_scope.
Local Open Scope list_scope.

(** ** Headers *)

(** A header of some other party: none of the four the harness stamps. *)
Definition foreign (h : RecordHeader) : Prop :=
  hKey h ∉ [AttrWorkerID; AttrSequence; AttrContentHash; AttrTimestampNS].

Lemma meta_step_foreign m h : foreign h -> meta_step m h = m.
Proof.
  unfold foreign. rewrite !not_elem_of_cons. intros (H1 & H2 & H3 & H4 & _).
  unfold meta_step. by rewrite !(proj2 (String.eqb_neq _ _)) by done.
Qed.

Lemma meta_foreign m l : Forall foreign l -> foldl meta_step m l = m.
Proof.
  intros Hl. revert m. induction Hl as [|h l Hh Hl IH]; intros m; cbn [foldl]; [done|].
  by rewrite meta_step_foreign.
Qed.

Lemma extractMeta_stamped pre post pid seq crc now :
  Forall foreign pre -> Forall foreign post ->
  pid <> "" -> u64_ok seq -> i64_ok now ->
  extractMeta (pre ++ stampHeaders pid seq crc now ++ post) = (mk_Meta pid seq crc (Some now), true).
Proof.
  intros Hpre Hpost Hpid Hseq Hnow.
  assert (E : foldl meta_step (mk_Meta "" 0 "" None) (pre ++ stampHeaders pid seq crc now ++ post)
    = mk_Meta pid seq crc (Some now)).
  { rewrite !foldl_app, (meta_foreign _ pre), (meta_foreign _ post) by done.
    unfold stampHeaders. cbn [foldl]. unfold meta_step. cbn -[ParseUint ParseInt FormatUint FormatInt].
    by rewrite ParseUint_FormatUint, ParseInt_FormatInt. }
  unfold extractMeta.
  destruct (pre ++ stampHeaders pid seq crc now ++ post) eqn:El.
  - destruct pre; discriminate El.
  - rewrite E. cbn [m_producerID]. by rewrite (proj2 (String.eqb_neq _ _)).
Qed.

(** C25: instrumentation survives the wire.  What a producer stamps on a record
    (its id, any uint64 sequence, the content hash, any int64 timestamp) is what
    the consumer extracts, even when the connector adds other headers before or
    after. *)
Theorem headers_roundtrip pre post pid seq crc now :
  Forall foreign pre -> Forall foreign post ->
  pid <> "" -> u64_ok seq -> i64_ok now ->
  extractMeta (pre ++ stampHeaders pid seq crc now ++ post) = (mk_Meta pid seq crc (Some now), true).
Proof. apply extractMeta_stamped. Qed.

Lemma headers_roundtrip_witness :
  extractMeta ([] ++ stampHeaders "kafka.t-p0" 18446744073709551615 "cbf43926" (-5)
               ++ [mk_RecordHeader "TxnOutcome" "commit"])
  = (mk_Meta "kafka.t-p0" 18446744073709551615 "cbf43926" (Some (-5)), true).
Proof.
  apply headers_roundtrip.
  - by apply Forall_nil.
  - apply Forall_cons. split; [|by apply Forall_nil]. unfold foreign.
    rewrite !not_elem_of_cons. by split_and!; [..|apply not_elem_of_nil].
  - done.
  - unfold u64_ok. lia.
  - unfold i64_ok. lia.
Defined.

(** ** Receiving *)

Section Receiving.
Context `{HdrHistogram}.

(** [r] carries sequence [s] of producer [pid]; its body is the published one, or
    a burst corruption of it when [bad]. *)
Definition arrives (pid : string) (s : Z) (bad : bool) (r : KRecord) : Prop :=
  exists body t, i64_ok t /\
    rHeaders r = stampHeaders pid s (CRC32Hex body) t /\
    if bad then burst_corrupted body (rValue r) else rValue r = body.

Definition deliver (b : BaseWorker) (d : Z * KRecord) : BaseWorker := handleRecord d.1 d.2 b.

(** What one arrival does to the counters the verdict reads. *)
Lemma handleRecord_arrives pid s bad now r b :
  pid <> "" -> u64_ok s -> arrives pid s bad r ->
  let b' := handleRecord now r b in
  let '(dup, oo, t) := Track.Record_ (trk b) pid s in
  trk b' = t /\ received b' = add1 (received b) /\
  duplicated b' = (if dup then add1 (duplicated b) else duplicated b) /\
  corrupted b' = (if bad then add1 (corrupted b) else corrupted b) /\
  errors b' = errors b.
Proof.
  intros Hpid Hs (body & t & Ht & Hh & Hv). unfold handleRecord, check_record. rewrite Hh.
  pose proof (extractMeta_stamped [] [] pid s (CRC32Hex body) t
    (List.Forall_nil _) (List.Forall_nil _) Hpid Hs Ht) as Hm.
  rewrite app_nil_l, app_nil_r in Hm. rewrite Hm.
  cbn [negb]. unfold latency_record, verify_record.
  cbn [m_crcHex m_producerID m_seq m_sentAt].
  assert (Hne : String.eqb (CRC32Hex body) "" = false).
  { apply String.eqb_neq. intros E. apply (f_equal String.length) in E.
    unfold CRC32Hex, fmt_08x in E. rewrite length_hex_digits in E. done. }
  rewrite Hne. cbn [negb andb].
  assert (Hc : VerifyCRC (rValue r) (CRC32Hex body) = negb bad).
  { destruct bad; [by apply burst_detected|]. rewrite Hv. apply VerifyCRC_CRC32Hex. }
  rewrite Hc, negb_involutive.
  set (b1 := recordLatency _ _). unfold recordTracked.
  assert (Hb1 : trk b1 = trk b /\ received b1 = add1 (received b) /\ duplicated b1 = duplicated b /\
    corrupted b1 = (if bad then add1 (corrupted b) else corrupted b) /\ errors b1 = errors b)
    by (unfold b1; destruct bad; by split_and!).
  clearbody b1. destruct Hb1 as (E1 & E2 & E3 & E4 & E5). rewrite E1.
  destruct (Track.Record_ (trk b) pid s) as [[dup oo] tr]. cbn [snd].
  destruct b1. cbn in E1, E2, E3, E4, E5. subst. destruct dup, oo; by split_and!.
Qed.

(** The fields receiving a record leaves alone. *)
Definition other_view (b : BaseWorker) :=
  (sent b, errors b, deleted b, offsetOrderViolations b, groupLossRebalance b, eosViolations b,
   (lagAccuracyErrMax b, kip890Residual b, reconnections b, downtime b, disconnectGen b),
   (name b, channelName b, cfg b, workerCfg b)).

Lemma check_record_frame now r b :
  other_view (check_record now r b) = other_view b /\ received (check_record now r b) = received b.
Proof.
  unfold check_record. destruct (extractMeta (rHeaders r)) as [m []]; cbn [negb]; [|done].
  unfold recordTracked, latency_record, verify_record.
  destruct (negb _ && negb _), (m_sentAt m);
    match goal with |- context [Track.Record_ ?t ?a ?q] => destruct (Track.Record_ t a q) as [[[] []] tr] end;
    done.
Qed.

Lemma handleRecord_frame now r b : other_view (handleRecord now r b) = other_view b.
Proof. exact (proj1 (check_record_frame _ _ _)). Qed.

(** The worker tracks one producer, and its duplicate counter follows the
    tracker's. *)
Definition tracks (rw : Z) (pid : string) (ps : Track.producerState) (b : BaseWorker) : Prop :=
  trk b = Track.mk_Tracker rw {[ pid := ps ]} /\ duplicated b = Track.duplicates ps.

Definition count_true (l : list bool) : Z := Z.of_nat (length (filter (fun x => x = true) l)).

Lemma count_true_cons x l : count_true (x :: l) = (if x then 1 else 0) + count_true l.
Proof.
  unfold count_true. destruct x; [rewrite filter_cons_True by done; simpl length; lia|].
  by rewrite filter_cons_False.
Qed.

Lemma deliveries_run rw pid (ds : list (Z * KRecord)) : pid <> "" -> forall seqs bads b ps,
  Forall3 (fun d s bad => u64_ok s /\ arrives pid s bad d.2) ds seqs bads ->
  tracks rw pid ps b -> 
  let b' := foldl deliver b ds in
  tracks rw pid (foldl (recordState rw) ps seqs) b' /\
  u64_wrap (received b') = u64_wrap (received b + Z.of_nat (length ds)) /\
  u64_wrap (corrupted b') = u64_wrap (corrupted b + count_true bads) /\
  errors b' = errors b.
Proof.
  intros Hpid. induction ds as [|[now r] ds IH]; intros seqs bads b ps H3 [Ht Hd].
  { inversion H3; subst. cbn. by rewrite !Z.add_0_r. }
  inversion H3 as [|d s bad ds' seqs' bads' [Hs Harr] H3']; subst. cbn [foldl deliver].
  pose proof (handleRecord_arrives pid s bad now r b Hpid Hs Harr) as Hstep.
  set (b1 := handleRecord now r b) in *. change (deliver b (now, r)) with b1.
  unfold Track.Record_ in Hstep. rewrite Ht in Hstep. cbn [Track.producers Track.reorderWindow] in Hstep.
  rewrite lookup_singleton_eq in Hstep.
  pose proof (recordKnown_counters rw ps s) as Hcnt.
  assert (Hrs : recordState rw ps s = snd (Track.recordKnown rw ps s)) by done.
  destruct (Track.recordKnown rw ps s) as [[dup oo] q]. cbn [snd] in Hrs.
  destruct Hcnt as (_ & Hdup & _ & _). destruct Hstep as (Ht1 & Hr1 & Hd1 & Hc1 & He1).
  destruct (IH seqs' bads' b1 q H3') as (Htr & Hr & Hc & He).
  { split; [rewrite Ht1; cbv [set_field]; cbn; by rewrite insert_singleton_eq|].
    rewrite Hd1, Hdup, Hd. by destruct dup. }
  cbn [foldl]. rewrite Hrs, count_true_cons. cbn [length]. split_and!.
  - done.
  - rewrite Hr, Hr1. unfold add1. rewrite u64_wrap_add_l. f_equal. lia.
  - rewrite Hc, Hc1. destruct bad; [unfold add1; rewrite u64_wrap_add_l|]; f_equal; lia.
  - by rewrite He.
Qed.

Lemma newProducer_duplicates rw first : Track.duplicates (Track.newProducer rw first) = 0.
Proof.
  unfold Track.newProducer, Track.advanceContiguous.
  match goal with |- context [Track.advance_loop ?n ?p] =>
    destruct (advance_loop_counters n p) as (_ & Hd & _) end.
  by rewrite Hd.
Qed.

Lemma TotalLost_singleton rw pid ps :
  Track.TotalLost (Track.mk_Tracker rw {[ pid := ps ]}) = u64_wrap (Track.confirmedLost ps).
Proof. unfold Track.TotalLost, Track.sum. cbn [Track.producers]. by rewrite map_fold_singleton. Qed.

(** C26: a worker reports what the channel did.  Let a fresh worker handle the
    records of one producer, in any order and with any repetition inside the
    reorder window, each body intact or burst-corrupted.  Then it counts every
    arrival as received, exactly the corrupted ones as corrupted, nothing as
    lost, and no error.  As duplicated it counts exactly the repetitions and the
    arrivals below the first one: all arrivals less the distinct sequences
    delivered at or above the first. *)
Theorem faithful_channel nm ch idx c b pid first l d ds bads :
  NewBaseWorker nm ch idx c = Some b -> Track.window_ok (ReorderWindow (Message c)) -> pid <> "" ->
  Forall3 (fun d s bad => Track.seq_ok s /\ arrives pid s bad d.2) (d :: ds) (first :: l) bads ->
  in_window (ReorderWindow (Message c)) (Track.newProducer (ReorderWindow (Message c)) first) l ->
  let b' := foldl deliver b (d :: ds) in
  let n := Z.of_nat (length (d :: ds)) in
  u64_wrap (received b') = u64_wrap n /\
  u64_wrap (corrupted b') = u64_wrap (count_true bads) /\
  u64_wrap (duplicated b') = u64_wrap (n - Z.of_nat (size (delivered_from first (first :: l)))) /\
  Track.TotalLost (trk b') = 0 /\ errors b' = 0.
Proof.
  intros Hnew Hrw Hpid H3 Hin b' n.
  unfold NewBaseWorker in Hnew. destruct (GetWorkerConfig c nm) as [wc|]; [|done].
  cbn [mbind option_bind] in Hnew. set (rw := ReorderWindow (Message c)) in *.
  assert (Hb : trk b = Track.New rw /\ received b = 0 /\ corrupted b = 0 /\ duplicated b = 0 /\ errors b = 0)
    by (injection Hnew as <-; done).
  clear Hnew. destruct Hb as (Ht & Hr0 & Hc0 & Hd0 & He0).
  inversion H3 as [|d' s bad ds' seqs' bads' [Hs Harr] H3']; subst.
  assert (Hu : forall x, Track.seq_ok x -> u64_ok x) by (unfold Track.seq_ok, u64_ok; lia).
  pose proof (handleRecord_arrives pid first bad d.1 d.2 b Hpid (Hu _ Hs) Harr) as Hstep.
  change (handleRecord d.1 d.2 b) with (deliver b d) in Hstep. set (b1 := deliver b d) in *.
  unfold Track.Record_ in Hstep. rewrite Ht in Hstep. cbn [Track.producers Track.New Track.reorderWindow] in Hstep.
  rewrite lookup_empty in Hstep. destruct Hstep as (Ht1 & Hr1 & Hd1 & Hc1 & He1).
  destruct (deliveries_run rw pid ds Hpid l bads' b1 (Track.newProducer rw first)) as ([Htr Hdup] & Hr & Hc & He).
  { clear -H3' Hu. induction H3' as [|d s bad ds l bads [Hs Ha] H IH]; constructor; [by split; auto|done]. }
  { split; [rewrite Ht1; cbv [set_field]; cbn; by rewrite insert_empty|].
    by rewrite Hd1, Hd0, newProducer_duplicates. }
  change (foldl deliver b1 ds) with b' in *.
  assert (Hls : length ds = length l).
  { clear -H3'. induction H3'; simpl; auto. }
  assert (Hok : Forall Track.seq_ok l).
  { clear -H3'. induction H3' as [|d s bad ds l bads [Hs Ha] H IH]; by constructor. }
  destruct (in_window_run rw pid first l Hrw Hs Hok Hin) as (ps & Hps & _ & Hdps & Hlost & _).
  rewrite recordAll_first in Hps.
  rewrite (recordAll_lookup rw pid l _ (Track.newProducer rw first)) in Hps;
    [|done|unfold Track.Record_; cbn [Track.producers Track.New]; rewrite lookup_empty;
      apply lookup_insert_eq].
  injection Hps as Hps. rewrite Hps in Htr, Hdup.
  assert (Hn : Z.of_nat (length (first :: l)) = n) by (unfold n; simpl; lia).
  split_and!.
  - rewrite Hr, Hr1, Hr0. unfold add1. rewrite u64_wrap_add_l. f_equal. unfold n. simpl length. lia.
  - rewrite Hc, Hc1, Hc0, count_true_cons.
    destruct bad; [unfold add1; rewrite u64_wrap_add_l|]; f_equal; lia.
  - by rewrite Hdup, Hdps, u64_wrap_wrap, Hn.
  - by rewrite Htr, TotalLost_singleton, Hlost.
  - by rewrite He, He1, He0.
Qed.

End Receiving.

(** A histogram that keeps every value: an instance of the library's interface. *)
Definition list_histogram : HdrHistogram := {|
  hist := list Z; hdr_New := fun _ _ _ => []; RecordValue := fun h v => v :: h;
  ValueAtQuantile := fun h _ => hd 0 h; hdr_Reset := fun _ => [];
  hdr_TotalCount := fun h => Z.of_nat (length h) |}.

Definition demo_record (seq : Z) (published received : string) : KRecord :=
  {| rTopic := "burnin.produce_round_trip.0001"; rKey := None; rValue := string_bytes received;
     rHeaders := stampHeaders "p0" seq (CRC32Hex (string_bytes published)) 5; rOffset := seq |}.

Lemma demo_arrives seq body : arrives "p0" seq false (demo_record seq body body).
Proof. exists (string_bytes body), 5. split_and!; [unfold i64_ok; lia..|done|done]. Qed.

Lemma demo_arrives_corrupted seq : arrives "p0" seq true (demo_record seq "abc" "abd").
Proof.
  exists (string_bytes "abc"), 5. split_and!; [unfold i64_ok; lia..|done|].
  unfold burst_corrupted. split_and!; [apply string_bytes_ok..|done|done|].
  exists 16. split; [lia|]. apply (burst_range _ _ _ 7); [vm_compute; reflexivity|lia|lia].
Qed.

Definition demo_worker : @BaseWorker list_histogram :=
  match @NewBaseWorker list_histogram WorkerProduceRoundTrip "kafka.t" 1 DefaultConfig with
  | Some b => b
  | None => @mk_BaseWorker list_histogram "" "" 0 DefaultConfig (ProduceRoundTrip (Workers DefaultConfig))
      None (Track.New 0) [] Peak.NewPeakRateTracker Sliding.NewSlidingRateWindow
      false 0 0 0 0 0 0 0 0 0 0 0 0 0 0 0 0 []
  end.

Lemma faithful_channel_witness :
  let ds := [(9, demo_record 3 "abc" "abc"); (9, demo_record 1 "abc" "abd");
             (9, demo_record 3 "abc" "abc")] in
  let b' := foldl (@deliver list_histogram) demo_worker ((9, demo_record 2 "abc" "abc") :: ds) in
  u64_wrap (received b') = u64_wrap 4 /\ u64_wrap (corrupted b') = u64_wrap 1 /\
  u64_wrap (duplicated b') = u64_wrap 2 /\ Track.TotalLost (trk b') = 0 /\ errors b' = 0.
Proof.
  intros ds.
  apply (@faithful_channel list_histogram WorkerProduceRoundTrip "kafka.t" 1 DefaultConfig demo_worker
    "p0" 2 [3; 1; 3] (9, demo_record 2 "abc" "abc") ds [false; false; true; false]).
  - reflexivity.
  - unfold Track.window_ok. simpl. lia.
  - done.
  - repeat constructor; try (unfold Track.seq_ok; lia);
      first [apply demo_arrives_corrupted | apply demo_arrives].
  - apply (bool_decide_unpack _). vm_compute. exact I.
Defined.

(** ** Counters and Prometheus *)

Section Mirror.
Context `{HdrHistogram}.

(** Everything a concrete worker does to its shared state. *)
Inductive worker_op :=
  | WSent (bytes : Z) | WReceived (bytes : Z) | WDeleted | WError (t : string) | WCorrupted
  | WReconnection | WLatency (d : Z) | WOffsetOrder | WGroupLoss (n : Z) | WEOSViolation
  | WAdminFailure | WAdminRejected | WResidual | WLag (v : Z) | WTracked (pid : string) (seq : Z)
  | WDowntime (d : Z) | WObserveSend (d : Z) | WAdvance | WReady | WDisconnect | WReset.

Definition apply_worker_op (b : BaseWorker) (op : worker_op) : BaseWorker :=
  match op with
  | WSent n => recordSent n b | WReceived n => recordReceived n b | WDeleted => recordDeleted b
  | WError t => recordError t b | WCorrupted => recordCorrupted b
  | WReconnection => recordReconnection b | WLatency d => recordLatency d b
  | WOffsetOrder => recordOffsetOrderViolation b | WGroupLoss n => recordGroupLossRebalance n b
  | WEOSViolation => recordEOSViolation b | WAdminFailure => recordAdminOpFailure b
  | WAdminRejected => recordAdminInvalidRejected b | WResidual => recordKIP890Residual b
  | WLag v => setLagAccuracyErr v b | WTracked pid s => snd (recordTracked pid s b)
  | WDowntime d => addDowntime d b | WObserveSend d => metricObserveSend d b
  | WAdvance => AdvanceRateWindows b | WReady => signalReady b
  | WDisconnect => DisconnectConsumers b | WReset => ResetAfterWarmup b
  end.

(** Increments of the counter vector [metric] in a log. *)
Definition increments (metric : string) (evs : list metric_event) : Z :=
  foldr (fun e n => match e with
                    | CounterAdd nm _ _ => if String.eqb nm metric then n + 1 else n
                    | _ => n end) 0 evs.

Lemma increments_app m a b : increments m (a ++ b) = increments m a + increments m b.
Proof. unfold increments. induction a as [|e a IH]; simpl; [lia|]. destruct e; [case_match; lia|lia..]. Qed.

(** Each counter of the worker and the vector that counts the same thing. *)
Definition mirrored : list ((BaseWorker -> Z) * string) :=
  [(sent, MessagesSentTotal); (received, MessagesReceivedTotal); (errors, ErrorsTotal);
   (corrupted, MessagesCorruptedTotal); (reconnections, ReconnectionsTotal);
   (duplicated, MessagesDuplicatedTotal); (deleted, DeletesTotal);
   (offsetOrderViolations, OffsetOrderViolationsTotal);
   (groupLossRebalance, GroupLossRebalanceTotal); (eosViolations, EOSViolationsTotal);
   (adminOpFailures, AdminOpFailuresTotal); (adminInvalidRejected, AdminInvalidRejectedTotal);
   (kip890Residual, KIP890ResidualTotal)].

(** [b'] extends the log of [b] by [evs] and every counter grows by what [evs] says. *)
Definition grows (b b' : BaseWorker) : Prop :=
  exists evs, events b' = events b ++ evs /\
    forall g m, (g, m) ∈ mirrored -> u64_wrap (g b') = u64_wrap (g b + increments m evs).

Ltac each_mirrored :=
  let Hgm := fresh in intros g m Hgm;
  unfold mirrored in Hgm; rewrite !elem_of_cons, elem_of_nil in Hgm;
  destruct_or? Hgm; simplify_eq.

Lemma grows_refl b b' : events b' = events b -> (forall g m, (g, m) ∈ mirrored -> g b' = g b) ->
  grows b b'.
Proof.
  intros He Hg. exists []. rewrite app_nil_r. split; [done|].
  intros g m Hgm. cbn. by rewrite Z.add_0_r, (Hg _ _ Hgm).
Qed.

Lemma grows_trans b1 b2 b3 : grows b1 b2 -> grows b2 b3 -> grows b1 b3.
Proof.
  intros (e1 & E1 & H1) (e2 & E2 & H2). exists (e1 ++ e2).
  split; [by rewrite E2, E1, app_assoc|]. intros g m Hgm.
  rewrite (H2 g m Hgm), increments_app, <- u64_wrap_add_l, (H1 g m Hgm), u64_wrap_add_l.
  f_equal. lia.
Qed.

(** An operation that emits the concrete log [evs] and moves the counters by it. *)
Lemma grows_by evs b b' : events b' = events b ++ evs ->
  (forall g m, (g, m) ∈ mirrored -> g b' = g b /\ increments m evs = 0 \/
                                    g b' = u64_wrap (g b + increments m evs)) -> grows b b'.
Proof.
  intros He Hg. exists evs. split; [done|]. intros g m Hgm.
  destruct (Hg g m Hgm) as [[-> ->]| ->]; [by rewrite Z.add_0_r|by rewrite u64_wrap_wrap].
Qed.

Lemma events_emit e b : events (emit e b) = events b ++ [e].
Proof. done. Qed.

Lemma emit_counter e b g m : (g, m) ∈ mirrored -> g (emit e b) = g b.
Proof. revert g m. by each_mirrored. Qed.

Ltac by_events b l := apply (grows_by l);
  [first [reflexivity|cbn [snd]; unfold recordSent, recordReceived; cbv zeta; rewrite !events_emit, <- app_assoc; reflexivity]|
  let g := fresh "g" in let m := fresh "m" in let Hgm := fresh "Hgm" in
  intros g m Hgm; cbn [snd]; unfold recordSent, recordReceived; cbv zeta; rewrite ?(emit_counter _ _ g m Hgm);
  revert g m Hgm; each_mirrored; destruct b; first [left; split; reflexivity|right; reflexivity]].

Lemma iter_emit_events n e b :
  events (Nat.iter n (emit e) b) = events b ++ replicate n e.
Proof.
  induction n as [|n IH]; [by rewrite app_nil_r|]. rewrite replicate_S_end, app_assoc, <- IH. done.
Qed.

Lemma iter_emit_counters n e b g m : (g, m) ∈ mirrored -> g (Nat.iter n (emit e) b) = g b.
Proof. intros Hgm. induction n as [|n IH]; [done|]. rewrite <- IH. simpl. revert g m Hgm IH. by each_mirrored. Qed.

Lemma increments_replicate n m nm ls v :
  increments m (replicate n (CounterAdd nm ls v)) = if String.eqb nm m then Z.of_nat n else 0.
Proof. induction n as [|n IH]; cbn [replicate increments foldr]; [by case_match|]. unfold increments in IH. rewrite IH. case_match; lia. Qed.

Definition op_counted (op : worker_op) : Prop :=
  match op with WReset => False | WGroupLoss n => u64_ok n | _ => True end.

Lemma recordGroupLoss_grows n b : u64_ok n -> grows b (recordGroupLossRebalance n b).
Proof.
  intros Hn. unfold recordGroupLossRebalance. destruct (Z.eqb_spec n 0); [by apply grows_refl|].
  set (b1 := b <| groupLossRebalance ::= _ |>).
  apply (grows_by (replicate (Z.to_nat n) (IncGroupLossRebalance (name b)))).
  - by rewrite iter_emit_events.
  - intros g m Hgm. rewrite (iter_emit_counters _ _ _ g m Hgm).
    unfold IncGroupLossRebalance, Inc. rewrite increments_replicate, Z2Nat.id by (unfold u64_ok in Hn; lia).
    revert g m Hgm. each_mirrored; first [left; split; reflexivity|right; reflexivity].
Qed.

Lemma recordTracked_grows pid s b : grows b (snd (recordTracked pid s b)).
Proof.
  unfold recordTracked. destruct (Track.Record_ (trk b) pid s) as [[[] []] t].
  - by_events b [IncDuplicated (name b); IncOutOfOrder (name b)].
  - by_events b [IncDuplicated (name b)].
  - by_events b [IncOutOfOrder (name b)].
  - by apply grows_refl; [|each_mirrored].
Qed.

Lemma apply_worker_op_grows op b : op_counted op -> grows b (apply_worker_op b op).
Proof.
  destruct op; cbn [op_counted apply_worker_op]; intros Hop; try done.
  - by_events b [IncSent (name b) (channelName b); RecordBytesSent (name b) bytes].
  - by_events b [IncReceived (name b) (channelName b); RecordBytesReceived (name b) bytes].
  - by_events b [IncDelete (name b)].
  - by_events b [IncError (name b) t].
  - by_events b [IncCorrupted (name b)].
  - by_events b [IncReconnection (name b)].
  - by_events b [ObserveLatency (name b) d].
  - by_events b [IncOffsetOrderViolation (name b)].
  - by apply recordGroupLoss_grows.
  - by_events b [IncEOSViolation (name b)].
  - by_events b [IncAdminOpFailure (name b)].
  - by_events b [IncAdminInvalidRejected (name b)].
  - by_events b [IncKIP890Residual (name b)].
  - unfold setLagAccuracyErr. destruct (v <=? _); [by apply grows_refl|].
    by_events b [SetLagAccuracyError (name b) (f_of_Z v)].
  - apply recordTracked_grows.
  - by_events b [AddDowntime (name b) (Seconds d)].
  - by_events b [ObserveSendDuration (name b) d].
  - by apply grows_refl; [|each_mirrored].
  - by apply grows_refl; [|each_mirrored].
  - by apply grows_refl; [|each_mirrored].
Qed.

Lemma ops_grow ops : forall b, Forall op_counted ops -> grows b (foldl apply_worker_op b ops).
Proof.
  induction ops as [|op ops IH]; intros b Hops; [by apply grows_refl|].
  apply Forall_cons in Hops as [Hop Hops]. cbn [foldl].
  eapply grows_trans; [by apply apply_worker_op_grows|by apply IH].
Qed.

(** C27: the snapshot counters and the Prometheus counters count the same things.
    Take any history of a worker up to its warmup reset, and any history after
    it: at the end each of the thirteen counters equals (modulo 2^64) the number
    of increments its Prometheus vector received since the reset. *)
Theorem counters_mirror_metrics b before after :
  Forall op_counted after ->
  let b0 := foldl apply_worker_op b (before ++ [WReset]) in
  let b' := foldl apply_worker_op b0 after in
  exists evs, events b' = events b0 ++ evs /\
    forall g m, (g, m) ∈ mirrored -> u64_wrap (g b') = u64_wrap (increments m evs).
Proof.
  intros Hafter b0 b'. destruct (ops_grow after b0 Hafter) as (evs & He & Hg).
  exists evs. split; [done|]. intros g m Hgm. unfold b'. rewrite (Hg g m Hgm).
  assert (E : g b0 = 0); [|by rewrite E].
  unfold b0. rewrite foldl_app. cbn [foldl apply_worker_op].
  revert g m Hgm. by each_mirrored.
Qed.

End Mirror.

Lemma counters_mirror_metrics_witness :
  let ops := [WReceived 3; WTracked "p" 1; WReceived 3; WTracked "p" 1; WGroupLoss 2; WError "x"] in
  exists evs, events (foldl (@apply_worker_op list_histogram)
      (foldl (@apply_worker_op list_histogram) demo_worker ([WReceived 9] ++ [WReset])) ops)
    = events (foldl (@apply_worker_op list_histogram) demo_worker ([WReceived 9] ++ [WReset])) ++ evs /\
  increments GroupLossRebalanceTotal evs = 2 /\ increments MessagesDuplicatedTotal evs = 1.
Proof.
  intros ops.
  destruct (@counters_mirror_metrics list_histogram demo_worker [WReceived 9] ops) as (evs & He & _).
  - repeat constructor; unfold u64_ok; lia.
  - exists evs. split; [exact He|].
    apply (f_equal (drop 2)) in He. vm_compute in He. subst evs. split; vm_compute; reflexivity.
Defined.
