(* ===== verification/Loops.v ===== *)
(** * The consume and produce loops of the data workers

    The six workers repeat the same two loops around their own handlers
    (burnin/worker/*.go).  One turn of a loop is a function of what the outside
    answers in that turn (context, client construction, fetch, rate limiter,
    produce), collected in an environment record; a loop is the fold over the
    answers of its turns.  Each turn is one atomic step of the worker's state. *)

From S2P Require Import Prelude Float64 GoStr Payload Config Metrics Transport Tracker Worker.
From Stdlib Require Import Ascii.
Local Open Scope string_scope.
Local Open Scope Z_scope.

(** The interface a concrete worker offers to the shared code: its embedded
    BaseWorker. *)
Class Worker `{HdrHistogram} (W : Type) := {
  base : W -> BaseWorker;
  upd_base : (BaseWorker -> BaseWorker) -> W -> W;
  base_upd : forall f w, base (upd_base f w) = f (base w)
}.

(** ** consumeLoop *)

(** A fetched batch: per partition, the records with the time each is handled. *)
Definition Fetches : Type := list (Z * list (Z * KRecord)).

(** PollFetches: either fetches.Errors() is non-empty, or the records. *)
Inductive poll := PollErrors | PollRecords (f : Fetches).

Record consume_env := mk_consume_env {
  ce_cancelled : bool;        (* ctx.Err() != nil at the head of the loop *)
  ce_client : bool;           (* NewClient succeeded *)
  ce_elapsed : Z;             (* time.Since(start) when it did not *)
  ce_sleep : bool;            (* sleepCtx(ctx, time.Second) *)
  ce_poll : poll;
  ce_commit : bool;           (* CommitRecords succeeded, for the worker that commits *)
  ce_cancelled_poll : bool    (* ctx.Err() != nil after a fetch or commit error *)
}.

(** The locals of the loop: [gen], and whether [cli] is a live client. *)
Record consumer := mk_consumer { cs_gen : Z; cs_open : bool }.

(** Does the loop go on? *)
Inductive control := Continue | Return.

Section Consume.
Context `{Worker W}.

(** [deliver] is what the worker does with a batch; it may end the loop. *)
Definition consume_turn (generation : W -> Z) (deliver : consume_env -> Fetches -> W -> W * control)
    (env : consume_env) (w : W) (c : consumer) : W * consumer * control :=
  if ce_cancelled env then (w, c, Return) else
  let poll_part (w : W) (c : consumer) :=
    let w := upd_base signalReady w in
    match ce_poll env with
    | PollErrors =>
        if ce_cancelled_poll env then (w, c, Return)
        else (upd_base (recordError "fetch_failure") w, mk_consumer (cs_gen c) false, Continue)
    | PollRecords f => let '(w, k) := deliver env f w in (w, c, k)
    end in
  if negb (cs_open c) || negb (generation w =? cs_gen c) then
    let gen := generation w in
    if negb (ce_client env) then
      let w := upd_base (fun b => addDowntime (ce_elapsed env) (recordError "connect_failure" b)) w in
      (w, mk_consumer gen (cs_open c), if ce_sleep env then Continue else Return)
    else
      let w := if cs_open c then upd_base recordReconnection w else w in
      poll_part w (mk_consumer gen true)
  else poll_part w c.

Fixpoint consume_loop (generation : W -> Z) (deliver : consume_env -> Fetches -> W -> W * control)
    (envs : list consume_env) (w : W) (c : consumer) : W * consumer * control :=
  match envs with
  | [] => (w, c, Continue)
  | env :: envs =>
      let '(w, c, k) := consume_turn generation deliver env w c in
      match k with
      | Return => (w, c, Return)
      | Continue => consume_loop generation deliver envs w c
      end
  end.

(** fetches.EachPartition / EachRecord, with the partition at hand. *)
Definition each_record (handle : Z -> Z -> KRecord -> W -> W) (f : Fetches) (w : W) : W :=
  foldl (fun w '(partition, rs) =>
    foldl (fun w '(now, r) => handle partition now r w) w rs) w f.

End Consume.

(** ** Start *)

(** What Start finds outside: kgo.NewClient and kadm's CreateTopics, and the
    environment variables. *)
Record start_env := mk_start_env {
  se_getenv : string -> string;
  se_build : list kgo_opt -> result unit;
  se_create : string -> Z -> Z -> option error
}.

(** The goroutines a worker launches; a consumer with the client it builds. *)
Inductive goroutine :=
  | ConsumeLoop (client : KafkaClientConfig)
  | RebalanceChurner
  | LagSampler (client : KafkaClientConfig)
  | ProduceLoop (pi : Z)
  | ChurnLoop.

(** if n < 1 { n = 1 } *)
Definition at_least_one (n : Z) : Z := if n <? 1 then 1 else n.

Section Start.
Context `{HdrHistogram}.

(** The admin client and CreateTopic of every data worker's Start. *)
Definition provision (env : start_env) (topic : string) (b : BaseWorker) : result unit :=
  match NewClient (se_build env) (se_getenv env) (kafkaClientCfg b "admin") with
  | Err e => Err (Lit "build kafka client: " :: e)
  | Ok _ =>
      match CreateTopic (se_create env) topic (Partitions (Kafka (cfg b)))
              (ReplicationFactor (Kafka (cfg b))) with
      | Some e => Err (err_text e)
      | None => Ok tt
      end
  end.

(** The client configuration a group consumer builds. *)
Definition group_consumer (b : BaseWorker) (suffix group topic : string) : KafkaClientConfig :=
  (kafkaClientCfg b suffix) <| cc_ConsumerGroup := group |> <| cc_ConsumeTopics := [topic] |>.

(** The tags c0, c1, ... of the consumers of a channel. *)
Definition consumer_tags (b : BaseWorker) : list string :=
  map (fun i => "c" ++s FormatInt i) (seqZ 0 (at_least_one (ConsumersPerChannel (workerCfg b)))).

(** The producer goroutines of StartProducers. *)
Definition producers_of (b : BaseWorker) : list goroutine :=
  map ProduceLoop (seqZ 0 (at_least_one (ProducersPerChannel (workerCfg b)))).

End Start.

(** ** produceLoop *)

Record produce_env := mk_produce_env {
  pe_cancelled : bool;        (* ctx.Err() != nil at the head of the loop *)
  pe_client : bool;           (* NewClient succeeded *)
  pe_sleep : bool;            (* sleepCtx after a failed NewClient *)
  pe_rate : bool;             (* the limiter let the producer through *)
  pe_draw : Z;                (* rand.IntN of SelectSize *)
  pe_rnd : nat -> Z;          (* rand.Uint64 words of Build *)
  pe_now : Z;                 (* time.Now().UnixNano() of stampHeaders *)
  pe_acked : bool;            (* ProduceSync returned no error *)
  pe_cancelled_produce : bool; (* ctx.Err() != nil after a produce error *)
  pe_elapsed : Z              (* time.Since(start) *)
}.

(** The fields every data worker repeats; [prodCli]: a live producer client. *)
Record producer_part := mk_producer_part { topic : string; group : string; seq : Z; prodCli : bool }.
#[global] Instance eta_producer_part : Eta producer_part := fun p =>
  mk_producer_part (topic p) (group p) (seq p) (prodCli p).

Section Produce.
Context `{HdrHistogram}.

(** fmt.Sprintf("%s-p%d", w.channelName, pi) *)
Definition producer_id (b : BaseWorker) (pi : Z) : string :=
  channelName b ++s "-p" ++s FormatInt pi.

(** fmt.Sprintf("k%d", keySeq % uint64(Partitions*4+1)) *)
Definition record_key (b : BaseWorker) (keySeq : Z) : string :=
  "k" ++s FormatUint (keySeq mod u64_wrap ((Partitions (Kafka (cfg b)) *i 4) +i 1)).

(** What a turn leaves: the worker, the producer fields, [keySeq], the record
    handed to ProduceSync (if the turn got there) and whether it was acked. *)
Record produced := mk_produced {
  pd_base : BaseWorker; pd_part : producer_part; pd_keySeq : Z;
  pd_record : option (KRecord * bool); pd_control : control
}.

Definition produce_turn (keyed : bool) (pi : Z) (env : produce_env)
    (b : BaseWorker) (p : producer_part) (keySeq : Z) : produced :=
  if pe_cancelled env then mk_produced b p keySeq None Return
  else if negb (prodCli p) && negb (pe_client env) then
    mk_produced (recordError "connect_failure" b) p keySeq None
      (if pe_sleep env then Continue else Return)
  else
    let p := p <| prodCli := true |> in
    if negb (pe_rate env) then mk_produced b p keySeq None Return
    else
      let p := p <| seq ::= add1 |> in
      let keySeq := if keyed then keySeq +u 1 else keySeq in
      let '(body, crcHex) := Build (pe_rnd env) (selectMessageSize (pe_draw env) b) in
      let rec := {| rTopic := topic p; rKey := if keyed then Some (record_key b keySeq) else None;
                    rValue := body;
                    rHeaders := stampHeaders (producer_id b pi) (seq p) crcHex (pe_now env);
                    rOffset := 0 |} in
      if negb (pe_acked env) then
        if pe_cancelled_produce env then mk_produced b p keySeq (Some (rec, false)) Return
        else mk_produced (recordError "produce_failure" b) (p <| prodCli := false |>) keySeq
               (Some (rec, false)) Continue
      else
        mk_produced (recordSent (Z.of_nat (length body)) (metricObserveSend (pe_elapsed env) b))
          p keySeq (Some (rec, true)) Continue.

(** The loop of one producer: the final state and the records in order. *)
Fixpoint produce_loop (keyed : bool) (pi : Z) (envs : list produce_env)
    (b : BaseWorker) (p : producer_part) (keySeq : Z)
    : BaseWorker * producer_part * list (KRecord * bool) :=
  match envs with
  | [] => (b, p, [])
  | env :: envs =>
      let d := produce_turn keyed pi env b p keySeq in
      let out := match pd_record d with Some r => [r] | None => [] end in
      match pd_control d with
      | Return => (pd_base d, pd_part d, out)
      | Continue =>
          let '(b, p, rs) := produce_loop keyed pi envs (pd_base d) (pd_part d) (pd_keySeq d) in
          (b, p, (out ++ rs)%list)
      end
  end.

(** StopProducers of a data worker: close the producer client. *)
Definition stop_producer (p : producer_part) : producer_part := p <| prodCli := false |>.

End Produce.
