(* ===== verification/LoopsFacts.v ===== *)
(** * The loops: properties

    One turn of the produce loop and one turn of the consume loop, on every
    branch; what concrete workers' theorems are built from. *)

From S2P Require Import Prelude Float64 GoStr Payload Config Metrics Transport Tracker TrackerFacts Worker WorkerFacts Loops.
From Stdlib Require Import Ascii.
Local Open Scope Z_scope.
Local Open Scope list_scope.

Section ProduceFacts.
Context `{HdrHistogram}.

(** The fields of a worker the producers leave alone. *)
Definition consumer_view (b : BaseWorker) :=
  (trk b, received b, duplicated b, corrupted b, cfg b, workerCfg b, name b, channelName b).

(** What a turn hands to ProduceSync: the next sequence, stamped on a body whose
    hash it carries. *)
Definition stamped_record (b : BaseWorker) (p : producer_part) (pi now : Z) (r : KRecord) : Prop :=
  rTopic r = topic p /\
  rHeaders r = stampHeaders (producer_id b pi) (add1 (seq p)) (CRC32Hex (rValue r)) now.

Lemma recordError_view t b : consumer_view (recordError t b) = consumer_view b.
Proof. done. Qed.
Lemma recordSent_view n d b : consumer_view (recordSent n (metricObserveSend d b)) = consumer_view b.
Proof. done. Qed.

Lemma produce_turn_spec keyed pi env b p keySeq :
  let d := produce_turn keyed pi env b p keySeq in
  consumer_view (pd_base d) = consumer_view b /\
  topic (pd_part d) = topic p /\ group (pd_part d) = group p /\
  match pd_record d with
  | None => seq (pd_part d) = seq p /\ sent (pd_base d) = sent b
  | Some (r, acked) =>
      seq (pd_part d) = add1 (seq p) /\ stamped_record b p pi (pe_now env) r /\
      sent (pd_base d) = if acked then add1 (sent b) else sent b
  end.
Proof.
  unfold produce_turn. destruct (pe_cancelled env); [done|].
  destruct (negb (prodCli p) && negb (pe_client env)); [by destruct (pe_sleep env)|].
  destruct (pe_rate env); [|by destruct p]. destruct p as [tp gp sq cl]. cbn [negb].
  unfold Build. cbn iota beta zeta.
  destruct (pe_acked env); [|destruct (pe_cancelled_produce env)]; cbn [negb pd_base pd_part pd_record];
    split_and!; try done; by split.
Qed.

(** A turn goes wrong in one of three counted ways. *)
Lemma produce_turn_errors keyed pi env b p keySeq :
  let d := produce_turn keyed pi env b p keySeq in
  errors (pd_base d) =
    (if pe_cancelled env then errors b
     else if negb (prodCli p) && negb (pe_client env) then add1 (errors b)
     else match pd_record d with
          | Some (_, false) => if pe_cancelled_produce env then errors b else add1 (errors b)
          | _ => errors b
          end).
Proof.
  unfold produce_turn. destruct (pe_cancelled env); [done|].
  destruct (negb (prodCli p) && negb (pe_client env)); [by destruct (pe_sleep env)|].
  destruct (pe_rate env); [|done]. unfold Build. cbn iota beta zeta.
  destruct (pe_acked env); [|destruct (pe_cancelled_produce env)]; by cbn [negb pd_base pd_record].
Qed.

Lemma consumer_view_id b b' pi : consumer_view b = consumer_view b' -> producer_id b pi = producer_id b' pi.
Proof. unfold consumer_view, producer_id. by intros [= _ _ _ _ _ _ _ ->]. Qed.

End ProduceFacts.

(** ** Batches *)

Section ConsumeFacts.
Context `{Worker W}.

(** A property every record keeps, a batch keeps. *)
Lemma each_record_inv (P : W -> Prop) handle f w :
  (forall p now r w, P w -> P (handle p now r w)) -> P w -> P (each_record handle f w).
Proof.
  intros Hstep. revert w. induction f as [|[p rs] f IH]; intros w Hw; [done|].
  unfold each_record in *. cbn [foldl]. apply IH.
  revert w Hw. induction rs as [|[now r] rs IHr]; intros w Hw; [done|]. cbn [foldl]. auto.
Qed.

End ConsumeFacts.
