(* ===== verification/RoundTrip.v ===== *)
(** * produce_round_trip (burnin/worker/produce_round_trip.go)

    The canonical worker: one topic, an idempotent producer, a group consumer. *)

From S2P Require Import Prelude Float64 GoStr Payload Config Metrics Transport Tracker TrackerFacts Worker WorkerFacts Loops LoopsFacts.
From Stdlib Require Import Ascii.
Local Open Scope string_scope.
Local Open Scope Z_scope.
Local Open Scope list_scope.

Module ProduceRoundTrip.
Section ProduceRoundTrip.
Context `{HdrHistogram}.

Record ProduceRoundTripWorker := mk_worker { BaseW : BaseWorker; part : producer_part }.

#[export] Program Instance Worker_ProduceRoundTrip : Worker ProduceRoundTripWorker := {|
  base := BaseW;
  upd_base := fun f w => mk_worker (f (BaseW w)) (part w)
|}.
Next Obligation. done. Qed.

Definition NewProduceRoundTripWorker (getenv : string -> string) (c : Config) (idx : Z)
    : option ProduceRoundTripWorker :=
  let topic := TopicName getenv WorkerProduceRoundTrip idx in
  let channel := MappedChannel topic in
  b ← NewBaseWorker WorkerProduceRoundTrip channel idx c;
  Some (mk_worker b (mk_producer_part topic (groupID b "") 0 false)).

Definition Start (env : start_env) (w : ProduceRoundTripWorker) : result (list goroutine) :=
  _ ← provision env (topic (part w)) (BaseW w);
  Ok (map (fun tag => ConsumeLoop (group_consumer (BaseW w) ("cons-" ++s tag) (group (part w)) (topic (part w))))
          (consumer_tags (BaseW w))).

Definition handleRecord (now : Z) (r : KRecord) (w : ProduceRoundTripWorker) : ProduceRoundTripWorker :=
  upd_base (Worker.handleRecord now r) w.

Definition consumeLoop (envs : list consume_env) (w : ProduceRoundTripWorker)
    : ProduceRoundTripWorker * consumer * control :=
  let generation w := disconnectGeneration (BaseW w) in
  consume_loop generation
    (fun _ f w => (each_record (fun _ now r => handleRecord now r) f w, Continue))
    envs w (mk_consumer (generation w) false).

Definition StartProducers (w : ProduceRoundTripWorker) : list goroutine := producers_of (BaseW w).

Definition produceLoop (pi : Z) (envs : list produce_env) (w : ProduceRoundTripWorker)
    : ProduceRoundTripWorker * list (KRecord * bool) :=
  let '(b, p, out) := produce_loop false pi envs (BaseW w) (part w) 0 in
  (mk_worker b p, out).

Definition StopProducers (w : ProduceRoundTripWorker) : ProduceRoundTripWorker :=
  mk_worker (BaseW w) (stop_producer (part w)).

(** ** Interleaved production and delivery

    A state of the running worker: what it has handed to the connector (with the
    acknowledgement) and the sequences the connector has delivered. *)
Record exec := mk_exec {
  ex_worker : ProduceRoundTripWorker;
  ex_log : list (KRecord * bool);
  ex_delivered : list Z
}.

(** One turn of producer 0, or one record handled by a consumer.  The connector
    delivers what was produced, unchanged. *)
Inductive exec_step : exec -> exec -> Prop :=
  | step_produce env w log del d :
      i64_ok (pe_now env) -> d = produce_turn false 0 env (BaseW w) (part w) 0 ->
      exec_step (mk_exec w log del)
        (mk_exec (mk_worker (pd_base d) (pd_part d))
           (log ++ match pd_record d with Some r => [r] | None => [] end) del)
  | step_deliver now i r w log del acked :
      log !! i = Some (r, acked) ->
      exec_step (mk_exec w log del)
        (mk_exec (handleRecord now r w) log (del ++ [Z.of_nat i + 1])).

(** The states reachable from a new worker. *)
Inductive reachable (w : ProduceRoundTripWorker) : exec -> Prop :=
  | reach_start : reachable w (mk_exec w [] [])
  | reach_step s s' : reachable w s -> exec_step s s' -> reachable w s'.

(** ** What every reachable state satisfies *)

Definition acknowledged (log : list (KRecord * bool)) : Z := count_true (map snd log).

(** The duplicates the tracker counts for [pid]. *)
Definition dups_of (t : Track.Tracker) (pid : string) : Z :=
  match Track.producers t !! pid with Some ps => Track.duplicates ps | None => 0 end.

Record exec_inv (c : Config) (pid : string) (s : exec) : Prop := {
  inv_pid : producer_id (BaseW (ex_worker s)) 0 = pid;
  inv_seq : seq (part (ex_worker s)) = Z.of_nat (length (ex_log s));
  inv_log : forall i r acked, ex_log s !! i = Some (r, acked) ->
              exists now, i64_ok now /\
                rHeaders r = stampHeaders pid (Z.of_nat i + 1) (CRC32Hex (rValue r)) now;
  inv_del : Forall (fun q => 1 <= q <= Z.of_nat (length (ex_log s))) (ex_delivered s);
  inv_trk : trk (BaseW (ex_worker s))
              = Track.recordAll (Track.New (ReorderWindow (Message c))) pid (ex_delivered s);
  inv_dup : duplicated (BaseW (ex_worker s)) = dups_of (trk (BaseW (ex_worker s))) pid;
  inv_received : received (BaseW (ex_worker s)) = u64_wrap (Z.of_nat (length (ex_delivered s)));
  inv_sent : sent (BaseW (ex_worker s)) = u64_wrap (acknowledged (ex_log s));
  inv_corrupted : corrupted (BaseW (ex_worker s)) = 0
}.

Lemma producer_id_nonempty b pi : producer_id b pi <> "".
Proof. unfold producer_id. destruct (channelName b); [done|]. by rewrite append_cons. Qed.

Lemma new_inv getenv c idx w : NewProduceRoundTripWorker getenv c idx = Some w ->
  exec_inv c (producer_id (BaseW w) 0) (mk_exec w [] []).
Proof.
  unfold NewProduceRoundTripWorker, NewBaseWorker.
  destruct (GetWorkerConfig c WorkerProduceRoundTrip); [|done].
  cbn [mbind option_bind]. intros [= <-].
  split; try done; by apply Forall_nil.
Qed.

Lemma count_true_app l k : count_true (l ++ k) = count_true l + count_true k.
Proof. unfold count_true. rewrite filter_app, length_app. lia. Qed.

Lemma dups_of_Record rw pid l q :
  let t := Track.recordAll (Track.New rw) pid l in
  let '(dup, _, t') := Track.Record_ t pid q in
  dups_of t' pid = if dup then add1 (dups_of t pid) else dups_of t pid.
Proof.
  intros t. unfold dups_of, Track.Record_. destruct (Track.producers t !! pid) as [ps|] eqn:E.
  - pose proof (recordKnown_counters (Track.reorderWindow t) ps q) as Hc.
    destruct (Track.recordKnown _ ps q) as [[dup oo] ps']. destruct Hc as (_ & Hd & _).
    cbv [set_field]. cbn [Track.producers]. rewrite lookup_insert_eq, Hd. by destruct dup.
  - cbv [set_field]. cbn [Track.producers]. rewrite lookup_insert_eq. apply newProducer_duplicates.
Qed.

Lemma recordAll_snoc t pid l q :
  Track.recordAll t pid (l ++ [q]) = snd (Track.Record_ (Track.recordAll t pid l) pid q).
Proof. unfold Track.recordAll. by rewrite foldl_app. Qed.

Lemma recordAll_singleton rw pid l : forall ps,
  Track.recordAll (Track.mk_Tracker rw {[ pid := ps ]}) pid l
  = Track.mk_Tracker rw {[ pid := foldl (recordState rw) ps l ]}.
Proof.
  induction l as [|q l IH]; intros ps; [done|]. cbn [foldl]. rewrite <- IH.
  rewrite recordAll_first. f_equal. unfold Track.Record_. cbn [Track.producers Track.reorderWindow].
  rewrite lookup_singleton_eq. unfold recordState.
  destruct (Track.recordKnown rw ps q) as [[dup oo] ps']. cbv [set_field]. cbn.
  by rewrite insert_singleton_eq.
Qed.

Lemma Record_new rw pid first :
  snd (Track.Record_ (Track.New rw) pid first) = Track.mk_Tracker rw {[ pid := Track.newProducer rw first ]}.
Proof. unfold Track.Record_, Track.New. cbn [Track.producers]. rewrite lookup_empty. cbv [set_field]. cbn. by rewrite insert_empty. Qed.

Lemma exec_step_inv c pid s s' : exec_step s s' -> Z.of_nat (length (ex_log s')) < 2 ^ 63 ->
  exec_inv c pid s -> exec_inv c pid s'.
Proof.
  destruct 1 as [env w log del d Hnow ->|now i r w log del acked Hi]; cbn [ex_log]; intros Hlen [];
    cbn [ex_worker ex_log ex_delivered] in *.
  - pose proof (produce_turn_spec false 0 env (BaseW w) (part w) 0) as (Hv & Ht & Hg & Hr).
    set (d := produce_turn _ _ _ _ _ _) in *. clearbody d.
    pose proof (consumer_view_id _ _ 0 Hv) as Hid. unfold consumer_view in Hv.
    injection Hv as Etrk Erec Edup Ecor _ _ _ _.
    destruct (pd_record d) as [[r acked]|].
    + destruct Hr as (Hs & (_ & Hh) & Hsent). rewrite inv_seq0 in *.
      rewrite length_app in Hlen. cbn [length] in Hlen.
      assert (Hadd : add1 (Z.of_nat (length log)) = Z.of_nat (length log) + 1)
        by (unfold add1; unwrap; done).
      rewrite Hadd in *. rewrite inv_pid0 in Hh.
      split; cbn [ex_worker ex_log ex_delivered BaseW part]; rewrite ?Etrk, ?Erec, ?Edup, ?Ecor, ?length_app; try done.
      * by rewrite Hid.
      * rewrite Hs. cbn [length]. lia.
      * intros j r' a' Hj. apply lookup_app_Some in Hj as [Hj|[Hge Hj]]; [eauto|].
        destruct (j - length log)%nat eqn:Ej; [|by destruct n]. injection Hj as <- <-.
        exists (pe_now env). split; [done|]. rewrite Hh. do 2 f_equal. lia.
      * eapply Forall_impl; [exact inv_del0|]. simpl. lia.
      * rewrite Hsent, inv_sent0. unfold acknowledged. rewrite map_app, count_true_app. cbn [map snd].
        rewrite count_true_cons. destruct acked; [unfold add1; rewrite u64_wrap_add_l; f_equal|f_equal];
          unfold count_true; simpl; lia.
    + destruct Hr as (Hs & Hsent).
      split; cbn [ex_worker ex_log ex_delivered BaseW part]; rewrite ?app_nil_r, ?Etrk, ?Erec, ?Edup, ?Ecor, ?Hsent; try done.
      * by rewrite Hid.
      * by rewrite Hs.
  - pose proof (lookup_lt_Some _ _ _ Hi) as Hlt.
    destruct (inv_log0 _ _ _ Hi) as (t & Ht & Hh).
    assert (Harr : arrives pid (Z.of_nat i + 1) false r) by (exists (rValue r), t; done).
    assert (Hpid : pid <> "") by (rewrite <- inv_pid0; apply producer_id_nonempty).
    pose proof (handleRecord_arrives pid (Z.of_nat i + 1) false now r (BaseW w) Hpid
      ltac:(unfold u64_ok; lia) Harr) as Hstep. cbv zeta in Hstep.
    pose proof (dups_of_Record (ReorderWindow (Message c)) pid del (Z.of_nat i + 1)) as Hdup.
    pose proof (handleRecord_frame now r (BaseW w)) as Hframe.
    injection Hframe as Hsent _ _ _ _ _ _ _ _ _ _ _ Hchan _ _.
    rewrite inv_trk0 in Hstep. cbv zeta in Hdup.
    pose proof (recordAll_snoc (Track.New (ReorderWindow (Message c))) pid del (Z.of_nat i + 1)) as Hsnoc.
    destruct (Track.Record_ _ pid (Z.of_nat i + 1)) as [[dup oo] tr]. cbn [snd] in Hsnoc.
    destruct Hstep as (E1 & E2 & E3 & E4 & _).
    split; cbn [ex_worker ex_log ex_delivered handleRecord upd_base Worker_ProduceRoundTrip BaseW part];
      rewrite ?length_app; try done.
    + unfold producer_id. by rewrite Hchan.
    + apply Forall_app. split; [done|]. apply Forall_singleton. lia.
    + by rewrite Hsnoc, E1.
    + rewrite E3, E1, Hdup, inv_dup0, inv_trk0. done.
    + rewrite E2, inv_received0. unfold add1. rewrite u64_wrap_add_l. f_equal. simpl. lia.
    + by rewrite Hsent.
    + by rewrite E4.
Qed.

Lemma reachable_inv getenv c idx w s : NewProduceRoundTripWorker getenv c idx = Some w ->
  reachable w s -> Z.of_nat (length (ex_log s)) < 2 ^ 63 ->
  exec_inv c (producer_id (BaseW w) 0) s.
Proof.
  intros Hnew. induction 1 as [|s s' Hr IH Hstep]; intros Hlen; [by eapply new_inv|].
  apply (exec_step_inv _ _ s s' Hstep Hlen), IH.
  destruct Hstep; cbn [ex_log] in *; [rewrite length_app in Hlen|]; lia.
Qed.

(** C28: a faithful connector passes the round trip.  Interleave the turns of one
    producer (failed connections, failed produces and all) with deliveries of
    produced records, unchanged, in any order and multiplicity within the
    reorder window.  At every moment the worker has counted exactly the
    acknowledged records as sent, the deliveries as received, and nothing as
    lost or corrupted.  As duplicated it has counted exactly the repetitions and
    the deliveries below the first one delivered ([late_start_is_duplicate]). *)
Theorem round_trip_exact getenv c idx w s first rest :
  NewProduceRoundTripWorker getenv c idx = Some w -> Track.window_ok (ReorderWindow (Message c)) ->
  reachable w s -> Z.of_nat (length (ex_log s)) < 2 ^ 63 ->
  ex_delivered s = first :: rest ->
  in_window (ReorderWindow (Message c)) (Track.newProducer (ReorderWindow (Message c)) first) rest ->
  let b := BaseW (ex_worker s) in
  sent b = u64_wrap (acknowledged (ex_log s)) /\
  received b = u64_wrap (Z.of_nat (length (first :: rest))) /\
  duplicated b = u64_wrap (Z.of_nat (length (first :: rest))
                           - Z.of_nat (size (delivered_from first (first :: rest)))) /\
  Track.TotalLost (trk b) = 0 /\ corrupted b = 0.
Proof.
  intros Hnew Hrw Hreach Hlen Hdel Hin b.
  destruct (reachable_inv _ _ _ _ _ Hnew Hreach Hlen). fold b in inv_trk0, inv_dup0, inv_received0, inv_sent0, inv_corrupted0.
  rewrite Hdel in *. set (pid := producer_id (BaseW w) 0) in *.
  apply Forall_cons in inv_del0 as [Hf Hrest].
  assert (Hok : Forall Track.seq_ok rest).
  { eapply Forall_impl; [exact Hrest|]. cbn. intros q Hq. unfold Track.seq_ok. lia. }
  destruct (in_window_run _ pid first rest Hrw ltac:(unfold Track.seq_ok; lia) Hok Hin)
    as (ps & Hps & _ & Hd & Hl & _).
  split_and!; try done.
  - rewrite inv_dup0, inv_trk0. unfold dups_of. by rewrite Hps.
  - rewrite inv_trk0, recordAll_first.
    rewrite recordAll_first, Record_new, recordAll_singleton in Hps.
    cbn [Track.producers] in Hps. rewrite lookup_singleton_eq in Hps. injection Hps as Hps.
    by rewrite Record_new, recordAll_singleton, TotalLost_singleton, Hps, Hl.
Qed.

End ProduceRoundTrip.

(** A turn in which everything works. *)
Definition good_env (now : Z) : produce_env :=
  mk_produce_env false true true true 0 (fun k => 81985529216486895 + Z.of_nat k) now true false 1000.

Definition small_cfg : Config :=
  DefaultConfig <| Message := mk_MessageConfig "fixed" 20 "" 10000 |>.

Lemma good_record `{HdrHistogram} now b p : exists r,
  pd_record (produce_turn false 0 (good_env now) b p 0) = Some (r, true).
Proof.
  unfold produce_turn. cbn [good_env pe_cancelled pe_client pe_rate pe_acked negb].
  rewrite andb_false_r. unfold Build. cbn iota zeta. by eexists.
Qed.

Lemma round_trip_exact_witness : exists w s,
  @NewProduceRoundTripWorker list_histogram (fun _ => "") small_cfg 1 = Some w /\
  reachable w s /\ ex_delivered s = [2; 2; 1] /\
  sent (BaseW (ex_worker s)) = 2 /\ received (BaseW (ex_worker s)) = 3 /\
  duplicated (BaseW (ex_worker s)) = 2 /\ Track.TotalLost (trk (BaseW (ex_worker s))) = 0.
Proof.
  destruct (@NewProduceRoundTripWorker list_histogram (fun _ => "") small_cfg 1) as [w|] eqn:Ew;
    [|vm_compute in Ew; discriminate].
  assert (Hok : forall n, 0 <= n < 10 -> i64_ok (pe_now (good_env n))) by (unfold i64_ok; simpl; lia).
  pose proof (reach_step w _ _ (reach_start w) (step_produce (good_env 5) _ _ _ _ (Hok 5 ltac:(lia)) eq_refl)) as R.
  destruct (good_record 5 (BaseW w) (part w)) as [r1 E1]. rewrite E1 in R.
  pose proof (reach_step w _ _ R (step_produce (good_env 6) _ _ _ _ (Hok 6 ltac:(lia)) eq_refl)) as R2.
  clear R. match type of R2 with context [produce_turn _ _ (good_env 6) ?b ?p _] =>
    destruct (good_record 6 b p) as [r2 E2] end. rewrite E2 in R2.
  assert (R3 : reachable w _) by (eapply reach_step; [exact R2|eapply (step_deliver 8 1); reflexivity]).
  assert (R4 : reachable w _) by (eapply reach_step; [exact R3|eapply (step_deliver 8 1); reflexivity]).
  assert (Hr : reachable w _) by (eapply reach_step; [exact R4|eapply (step_deliver 8 0); reflexivity]).
  clear R2 R3 R4. exists w. eexists. split; [reflexivity|].
  split; [exact Hr|]. split; [reflexivity|].
  destruct (@round_trip_exact list_histogram (fun _ => "") small_cfg 1 w _ 2 [2; 1] Ew
    ltac:(unfold Track.window_ok; simpl; lia) Hr) as (H1 & H2 & H3 & H4 & _).
  - reflexivity.
  - reflexivity.
  - apply (bool_decide_unpack _). vm_compute. exact I.
  - split; [rewrite H1; reflexivity|]. split; [rewrite H2; reflexivity|].
    split; [rewrite H3; reflexivity|exact H4].
Defined.

(** After a reset the first delivery fixes the baseline: an older record that
    arrives later for the first time is reported as a duplicate. *)
Example late_start_is_duplicate :
  let deliver seq b := Worker.handleRecord 9 (demo_record seq "abc" "abc") b in
  let b := deliver 4 (deliver 5 (@ResetAfterWarmup list_histogram demo_worker)) in
  received b = 2 /\ duplicated b = 1.
Proof. split; vm_compute; reflexivity. Qed.

(** A produce the connector refused uses up its sequence: with every accepted
    record delivered once, and a fresh client afterwards, the gap surfaces as a
    loss once the window slides past it. *)
Definition small_window_cfg : Config :=
  DefaultConfig <| Message := mk_MessageConfig "fixed" 20 "" 2 |>.

Definition refused_env : produce_env := 
  mk_produce_env false true true true 0 (fun k => 0) 5 false false 1000.

Example refused_produce_is_loss :
  match @NewProduceRoundTripWorker list_histogram (fun _ => "") small_window_cfg 1 with
  | None => False
  | Some w =>
      let '(w, out) := produceLoop 0 [good_env 1; refused_env; good_env 1; good_env 1; good_env 1] w in
      let accepted := filter (fun r : KRecord * bool => r.2 = true) out in
      let w := foldl (fun w r => handleRecord 9 r.1 w) w accepted in
      sent (BaseW w) = 4 /\ received (BaseW w) = 4 /\ 
      Track.TotalLost (trk (BaseW w)) = 1
  end.
Proof. vm_compute. by split_and!. Qed.

(** Two producers of one channel share the sequence counter but stamp their own
    ids: with nothing refused and everything delivered once, in order, each of
    them appears to have lost what the other one sent. *)
Example shared_sequence_is_loss :
  match @NewProduceRoundTripWorker list_histogram (fun _ => "") small_window_cfg 1 with
  | None => False
  | Some w =>
      let '(w, out) := foldl (fun '(w, out) pi =>
        let '(w, o) := produceLoop pi [good_env 1] w in (w, out ++ o)) (w, []) [0; 1; 0; 1; 0; 1] in
      let w := foldl (fun w r => handleRecord 9 r.1 w) w out in
      sent (BaseW w) = 6 /\ received (BaseW w) = 6 /\ 
      0 < Track.TotalLost (trk (BaseW w))
  end.
Proof. vm_compute. by split_and!. Qed.

End ProduceRoundTrip.
