(* ===== verification/KeyedOrdering.v ===== *)
(** * keyed_ordering (burnin/worker/keyed_ordering.go)

    Keyed records, consumed partition by partition; the worker remembers the last
    offset of each partition and counts every record that does not advance it. *)

From S2P Require Import Prelude Float64 GoStr Payload Config Metrics Transport Tracker TrackerFacts Worker WorkerFacts Loops LoopsFacts.
From stdpp Require Import sorting.
From Stdlib Require Import Ascii.
Local Open Scope string_scope.
Local Open Scope Z_scope.
Local Open Scope list_scope.

Module KeyedOrdering.
Section KeyedOrdering.
Context `{HdrHistogram}.

Record KeyedOrderingWorker := mk_worker {
  BaseW : BaseWorker; part : producer_part; lastOffset : gmap Z Z
}.

#[export] Program Instance Worker_KeyedOrdering : Worker KeyedOrderingWorker := {|
  base := BaseW;
  upd_base := fun f w => mk_worker (f (BaseW w)) (part w) (lastOffset w)
|}.
Next Obligation. done. Qed.

Definition NewKeyedOrderingWorker (getenv : string -> string) (c : Config) (idx : Z)
    : option KeyedOrderingWorker :=
  let topic := TopicName getenv WorkerKeyedOrdering idx in
  let channel := MappedChannel topic in
  b ← NewBaseWorker WorkerKeyedOrdering channel idx c;
  Some (mk_worker b (mk_producer_part topic (groupID b "") 0 false) ∅).

Definition Start (env : start_env) (w : KeyedOrderingWorker) : result (list goroutine) :=
  _ ← provision env (topic (part w)) (BaseW w);
  Ok (map (fun tag => ConsumeLoop (group_consumer (BaseW w) ("cons-" ++s tag) (group (part w)) (topic (part w))))
          (consumer_tags (BaseW w))).

Definition handleRecord (partition now : Z) (r : KRecord) (w : KeyedOrderingWorker) : KeyedOrderingWorker :=
  let b := recordReceived (Z.of_nat (length (rValue r))) (BaseW w) in
  let last := lastOffset w !! partition in
  let b := match last with
           | Some last => if rOffset r <=? last then recordOffsetOrderViolation b else b
           | None => b
           end in
  let advances := match last with Some last => last <? rOffset r | None => true end in
  let m := if advances then <[ partition := rOffset r ]> (lastOffset w) else lastOffset w in
  mk_worker (check_record now r b) (part w) m.

Definition consumeLoop (envs : list consume_env) (w : KeyedOrderingWorker)
    : KeyedOrderingWorker * consumer * control :=
  let generation w := disconnectGeneration (BaseW w) in
  consume_loop generation (fun _ f w => (each_record handleRecord f w, Continue))
    envs w (mk_consumer (generation w) false).

Definition StartProducers (w : KeyedOrderingWorker) : list goroutine := producers_of (BaseW w).

Definition produceLoop (pi : Z) (envs : list produce_env) (w : KeyedOrderingWorker)
    : KeyedOrderingWorker * list (KRecord * bool) :=
  let '(b, p, out) := produce_loop true pi envs (BaseW w) (part w) 0 in
  (mk_worker b p (lastOffset w), out).

Definition StopProducers (w : KeyedOrderingWorker) : KeyedOrderingWorker :=
  mk_worker (BaseW w) (stop_producer (part w)) (lastOffset w).

(** ** Properties *)

(** A fetched batch as the sequence of (partition, offset) it delivers. *)
Definition offsets (f : Fetches) : list (Z * Z) :=
  concat (map (fun '(p, rs) => map (fun '(_, r) => (p, rOffset r)) rs) f).

(** Positions that do not advance their partition: some earlier delivery of the
    same partition had this offset or a larger one. *)
Fixpoint violations (seen l : list (Z * Z)) : Z :=
  match l with
  | [] => 0
  | (p, o) :: l =>
      (if existsb (fun '(p', o') => (p' =? p) && (o <=? o')) seen then 1 else 0)
      + violations ((p, o) :: seen) l
  end.

Definition partition_offsets (p : Z) (l : list (Z * Z)) : list Z :=
  map snd (filter (fun x => x.1 = p) l).

(** [m] holds the largest offset seen of each partition. *)
Definition holds_max (m : gmap Z Z) (seen : list (Z * Z)) : Prop :=
  forall p, match m !! p with
            | Some o => (p, o) ∈ seen /\ forall o', (p, o') ∈ seen -> o' <= o
            | None => forall o', (p, o') ∉ seen
            end.

Lemma holds_max_late m seen p o : holds_max m seen ->
  existsb (fun '(p', o') => (p' =? p) && (o <=? o')) seen
  = match m !! p with Some last => o <=? last | None => false end.
Proof.
  intros Hm. specialize (Hm p). destruct (existsb _ seen) eqn:E.
  - apply existsb_exists in E as ([p' o'] & Hin & Ho). apply list_elem_of_In in Hin. zify_bool. subst p'.
    destruct (m !! p) as [last|]; [|by destruct (Hm o')]. destruct Hm as [_ Hm].
    specialize (Hm _ Hin). symmetry. apply Z.leb_le. lia.
  - destruct (m !! p) as [last|] eqn:El; [|done]. destruct Hm as [Hin _].
    destruct (o <=? last) eqn:Eo; [|done]. rewrite <- E. apply existsb_exists.
    exists (p, last). split; [by apply list_elem_of_In|]. by rewrite Z.eqb_refl, Eo.
Qed.

Lemma holds_max_step m seen p o : holds_max m seen ->
  holds_max (if match m !! p with Some last => last <? o | None => true end
             then <[ p := o ]> m else m) ((p, o) :: seen).
Proof.
  intros Hm q. destruct (decide (q = p)) as [->|Hne].
  - specialize (Hm p). destruct (m !! p) as [last|] eqn:El.
    + destruct Hm as [Hin Hmax]. destruct (Z.ltb_spec last o).
      * rewrite lookup_insert_eq. split; [by left|]. intros o' [[= ->]|Ho']%elem_of_cons; [lia|].
        specialize (Hmax _ Ho'). lia.
      * rewrite El. split; [by right|]. intros o' [[= ->]|Ho']%elem_of_cons; [lia|auto].
    + rewrite lookup_insert_eq. split; [by left|]. intros o' [[= ->]|Ho']%elem_of_cons; [lia|].
      by destruct (Hm o').
  - specialize (Hm q).
    assert (E : (if match m !! p with Some last => last <? o | None => true end
                 then <[ p := o ]> m else m) !! q = m !! q)
      by (destruct (m !! p) as [z|]; [destruct (z <? o)|]; rewrite ?lookup_insert_ne by done; done).
    rewrite E. destruct (m !! q) as [oq|].
    + destruct Hm as [Hin Hmax]. split; [by right|]. intros o' [[= ->]|Ho']%elem_of_cons; [done|auto].
    + intros o' [[= ->]|Ho']%elem_of_cons; [done|by destruct (Hm o')].
Qed.

Lemma check_record_order now r b :
  offsetOrderViolations (check_record now r b) = offsetOrderViolations b /\
  received (check_record now r b) = received b.
Proof. destruct (check_record_frame now r b) as [Hf ?]. by injection Hf. Qed.

(** The batch as one sequence of records, each with its partition. *)
Definition flatten (f : Fetches) : list (Z * (Z * KRecord)) :=
  concat (map (fun '(p, rs) => map (fun d => (p, d)) rs) f).

Definition handle_all (l : list (Z * (Z * KRecord))) (w : KeyedOrderingWorker) : KeyedOrderingWorker :=
  foldl (fun w '(p, (now, r)) => handleRecord p now r w) w l.

Lemma handle_all_order l : forall w seen, holds_max (lastOffset w) seen ->
  let w' := handle_all l w in
  let os := map (fun '(p, (_, r)) => (p, rOffset r)) l in
  u64_wrap (offsetOrderViolations (BaseW w'))
    = u64_wrap (offsetOrderViolations (BaseW w) + violations seen os) /\
  u64_wrap (received (BaseW w')) = u64_wrap (received (BaseW w) + Z.of_nat (length l)) /\
  holds_max (lastOffset w') (rev os ++ seen).
Proof.
  induction l as [|[p [now r]] l IH]; intros w seen Hm; [cbn; rewrite !Z.add_0_r; by split_and!|].
  cbn [map foldl violations handle_all rev].
  destruct (IH (handleRecord p now r w) ((p, rOffset r) :: seen)) as (Hv & Hr & Hh).
  { apply (holds_max_step _ _ p (rOffset r)) in Hm. unfold handleRecord. cbn [lastOffset]. done. }
  unfold handle_all in *. cbv zeta in *. split_and!.
  - rewrite Hv. unfold handleRecord at 1. cbn [BaseW].
    rewrite (proj1 (check_record_order _ _ _)), (holds_max_late _ _ p (rOffset r) Hm).
    assert (E : forall n, offsetOrderViolations (recordReceived n (BaseW w)) = offsetOrderViolations (BaseW w)) by done.
    destruct (lastOffset w !! p) as [last|]; [destruct (rOffset r <=? last)|].
    + change (offsetOrderViolations (recordOffsetOrderViolation ?b)) with (add1 (offsetOrderViolations b)).
      unfold add1. rewrite u64_wrap_add_l. rewrite E. f_equal. lia.
    + by rewrite E.
    + by rewrite E.
  - rewrite Hr. unfold handleRecord at 1. cbn [BaseW].
    rewrite (proj2 (check_record_order _ _ _)).
    assert (E : forall b b', received b' = received b ->
      u64_wrap (received (recordReceived (Z.of_nat (length (rValue r))) b) + Z.of_nat (length l))
      = u64_wrap (received b' + Z.of_nat (S (length l)))).
    { intros b b' ->. change (received (recordReceived _ b)) with (add1 (received b)).
      unfold add1. rewrite u64_wrap_add_l. f_equal. lia. }
    destruct (lastOffset w !! p) as [last|]; [destruct (rOffset r <=? last)|]; by apply E.
  - by rewrite <- app_assoc.
Qed.

(** The sequence is in order, partition by partition. *)
Lemma violations_nonneg l : forall seen, 0 <= violations seen l.
Proof. induction l as [|[p o] l IH]; intros seen; simpl; [lia|]. specialize (IH ((p, o) :: seen)). case_match; lia. Qed.

Lemma violations_le l : forall seen, violations seen l <= Z.of_nat (length l).
Proof. induction l as [|[p o] l IH]; intros seen; cbn [violations length]; [lia|]. specialize (IH ((p, o) :: seen)). case_match; lia. Qed.

Lemma violations_zero l : forall seen,
  violations seen l = 0 <->
  forall p, Sorted.StronglySorted Z.lt (partition_offsets p l) /\
            forall o o', (p, o) ∈ seen -> o' ∈ partition_offsets p l -> o < o'.
Proof.
  induction l as [|[q o] l IH]; intros seen.
  { split; [|done]. intros _ p. split; [constructor|]. intros o o' _ Ho. by apply elem_of_nil in Ho. }
  cbn [violations]. pose proof (violations_nonneg l ((q, o) :: seen)) as Hn.
  assert (Hhere : existsb (fun '(p', o') => (p' =? q) && (o <=? o')) seen = false <->
                  forall o', (q, o') ∈ seen -> o' < o).
  { rewrite <- not_true_iff_false, existsb_exists. split.
    - intros Hno o' Hin. destruct (Z.ltb_spec o' o); [done|]. destruct Hno. exists (q, o').
      split; [by apply list_elem_of_In|]. rewrite Z.eqb_refl. by apply Z.leb_le.
    - intros Hall ([p' o'] & Hin & Ho). apply list_elem_of_In in Hin. zify_bool. subst.
      specialize (Hall _ Hin). lia. }
  assert (Hq : forall p, partition_offsets p ((q, o) :: l)
    = (if decide (q = p) then [o] else []) ++ partition_offsets p l).
  { intros p. unfold partition_offsets. rewrite filter_cons. cbn [fst]. by destruct (decide (q = p)). }
  transitivity (existsb (fun '(p', o') => (p' =? q) && (o <=? o')) seen = false /\
                violations ((q, o) :: seen) l = 0).
  { destruct (existsb _ seen); [split; [lia|by intros [? _]]|]. split; [intros; split; [done|lia]|lia]. }
  rewrite Hhere, IH. clear Hhere IH Hn. split.
  - intros [Hlt Hall] p. destruct (Hall p) as [Hs Hb]. rewrite Hq. destruct (decide (q = p)) as [->|].
    + cbn. split.
      * constructor; [done|]. apply Forall_forall. intros o' Ho'. apply (Hb o o'); [by left|done].
      * intros o1 o2 H1 [->|H2]%elem_of_cons; [by apply Hlt|]. apply (Hb o1); [by right|done].
    + cbn. split; [done|]. intros o1 o2 H1 H2. apply (Hb o1); [by right|done].
  - intros Hall. split.
    + intros o' Ho'. destruct (Hall q) as [_ Hb]. apply (Hb o' o); [done|]. rewrite Hq.
      rewrite decide_True by done. by left.
    + intros p. destruct (Hall p) as [Hs Hb]. rewrite Hq in *. destruct (decide (q = p)) as [->|Hne]; cbn in *.
      * inversion Hs as [|? ? Hs' Hf]; subst. split; [done|].
        intros o1 o2 [[= ->]|H1]%elem_of_cons H2; [by eapply Forall_forall in Hf|].
        apply (Hb o1); [done|by right].
      * split; [done|]. intros o1 o2 [[= -> ->]|H1]%elem_of_cons H2; [done|auto].
Qed.

Lemma elem_of_reverse_rev {A} (x : A) l : x ∈ rev l <-> x ∈ l.
Proof. by rewrite !list_elem_of_In, <- in_rev. Qed.

Lemma elem_of_partition p o l : o ∈ partition_offsets p l <-> (p, o) ∈ l.
Proof.
  unfold partition_offsets. rewrite list_elem_of_fmap. split.
  - intros ([p' o'] & -> & [Hp Hin]%list_elem_of_filter). cbn in *. by subst.
  - intros Hin. exists (p, o). split; [done|]. by apply list_elem_of_filter.
Qed.

Lemma u64_ok_0 : u64_ok 0.
Proof. unfold u64_ok. lia. Qed.

Lemma handle_all_range l : forall w,
  u64_ok (offsetOrderViolations (BaseW w)) -> u64_ok (received (BaseW w)) ->
  u64_ok (offsetOrderViolations (BaseW (handle_all l w))) /\ u64_ok (received (BaseW (handle_all l w))).
Proof.
  induction l as [|[p [now r]] l IH]; intros w Hv Hr; [done|]. apply IH; unfold handleRecord; cbn [BaseW].
  - rewrite (proj1 (check_record_order _ _ _)).
    destruct (lastOffset w !! p) as [last|]; [destruct (rOffset r <=? last)|]; first [done|apply u64_wrap_ok].
  - rewrite (proj2 (check_record_order _ _ _)).
    destruct (lastOffset w !! p) as [last|]; [destruct (rOffset r <=? last)|]; apply u64_wrap_ok.
Qed.

Lemma new_fields getenv c idx w : NewKeyedOrderingWorker getenv c idx = Some w ->
  offsetOrderViolations (BaseW w) = 0 /\ received (BaseW w) = 0 /\ lastOffset w = ∅.
Proof.
  unfold NewKeyedOrderingWorker, NewBaseWorker.
  destruct (GetWorkerConfig c WorkerKeyedOrdering); [|done]. cbn [mbind option_bind]. by intros [= <-].
Qed.

Lemma each_record_flat f : forall w, each_record handleRecord f w = handle_all (flatten f) w.
Proof.
  induction f as [|[p rs] f IH]; intros w; [done|].
  unfold each_record, handle_all, flatten in *. cbn [foldl map concat]. rewrite foldl_app, IH. f_equal.
  revert w. induction rs as [|[now r] rs IHr]; intros w; [done|]. cbn [foldl map]. apply IHr.
Qed.

Lemma flatten_offsets f : map (fun '(p, (_, r)) => (p, rOffset r)) (flatten f) = offsets f.
Proof.
  unfold flatten, offsets. rewrite concat_map, map_map. f_equal. apply map_ext.
  intros [p rs]. rewrite map_map. apply map_ext. by intros [].
Qed.

(** C29: the ordering check is exact.  After a new worker has handled any
    fetched batches, its violation counter is the number of deliveries that
    did not go past every earlier offset of their partition (modulo 2^64), it has
    received every record, and it remembers the largest offset of each partition.
    The gate at zero therefore passes exactly when each partition was delivered
    in strictly increasing offset order. *)
Theorem ordering_exact getenv c idx w f :
  NewKeyedOrderingWorker getenv c idx = Some w -> Z.of_nat (length (offsets f)) < 2 ^ 64 ->
  let w' := each_record handleRecord f w in
  let os := offsets f in
  offsetOrderViolations (BaseW w') = violations [] os /\
  received (BaseW w') = Z.of_nat (length os) /\
  (forall p o, lastOffset w' !! p = Some o <->
     o ∈ partition_offsets p os /\ forall o', o' ∈ partition_offsets p os -> o' <= o) /\
  (offsetOrderViolations (BaseW w') = 0 <->
   forall p, Sorted.StronglySorted Z.lt (partition_offsets p os)).
Proof.
  intros Hnew Hlen w' os. assert (Hw : w' = handle_all (flatten f) w) by apply each_record_flat.
  clearbody w'. subst w'. set (l := flatten f). set (w' := handle_all l w).
  assert (Hos : os = map (fun '(p, (_, r)) => (p, rOffset r)) l) by (symmetry; apply flatten_offsets).
  assert (Hlos : length os = length l) by (rewrite Hos; apply length_map).
  fold os in Hlen. clearbody os. rewrite Hlos in *.
  destruct (new_fields _ _ _ _ Hnew) as (Hv0 & Hr0 & Hm0).
  destruct (handle_all_order l w []) as (Hv & Hr & Hh).
  { rewrite Hm0. intros p. rewrite lookup_empty. intros o'. apply not_elem_of_nil. }
  fold w' in Hv, Hr, Hh. rewrite <- Hos in Hv, Hh. rewrite app_nil_r in Hh.
  destruct (handle_all_range l w) as [Hrv Hrr]; [rewrite Hv0; by apply u64_ok_0|rewrite Hr0; by apply u64_ok_0|].
  fold w' in Hrv, Hrr. rewrite (u64_wrap_id _ Hrv) in Hv. rewrite (u64_wrap_id _ Hrr) in Hr.
  pose proof (violations_nonneg os []). pose proof (violations_le os []) as Hle.
  rewrite Hlos in Hle.
  assert (Hv' : offsetOrderViolations (BaseW w') = violations [] os) by (rewrite Hv, Hv0; unwrap; lia).
  split_and!; [done|rewrite Hr, Hr0; unwrap; lia| |].
  - intros p o. specialize (Hh p). split.
    + intros E. rewrite E in Hh. destruct Hh as [Hin Hmax]. rewrite elem_of_reverse_rev in Hin.
      split; [by apply elem_of_partition|]. intros o' Ho'. apply Hmax.
      by apply elem_of_reverse_rev, elem_of_partition.
    + intros [Hin Hmax]. apply elem_of_partition in Hin. destruct (lastOffset w' !! p) as [q|].
      * destruct Hh as [Hq Hle']. f_equal. apply Z.le_antisymm.
        -- apply Hmax, elem_of_partition. by apply elem_of_reverse_rev.
        -- apply Hle'. by apply elem_of_reverse_rev.
      * destruct (Hh o). by apply elem_of_reverse_rev.
  - rewrite Hv', violations_zero. split; [intros Hall p; apply Hall|].
    intros Hall p. split; [done|]. intros o o' Ho. by apply elem_of_nil in Ho.
Qed.

End KeyedOrdering.

Definition record_at (offset : Z) : Z * KRecord :=
  (9, let r := demo_record 1 "abc" "abc" in
      mk_KRecord (rTopic r) (rKey r) (rValue r) (rHeaders r) offset).

Lemma ordering_exact_witness : exists w,
  @NewKeyedOrderingWorker list_histogram (fun _ => "") DefaultConfig 1 = Some w /\
  let w' := each_record handleRecord [(0, [record_at 1; record_at 4]); (1, [record_at 0]);
                                      (0, [record_at 4; record_at 2; record_at 5])] w in
  offsetOrderViolations (BaseW w') = 2 /\ received (BaseW w') = 6 /\ lastOffset w' !! 0 = Some 5.
Proof.
  destruct (@NewKeyedOrderingWorker list_histogram (fun _ => "") DefaultConfig 1) as [w|] eqn:Ew;
    [|vm_compute in Ew; discriminate].
  exists w. split; [reflexivity|]. intros w'.
  destruct (@ordering_exact list_histogram _ _ _ w
    [(0, [record_at 1; record_at 4]); (1, [record_at 0]);
     (0, [record_at 4; record_at 2; record_at 5])] Ew ltac:(vm_compute; reflexivity)) as (H1 & H2 & H3 & _).
  split; [exact H1|]. split; [exact H2|]. apply H3. split.
  - apply (bool_decide_unpack _). vm_compute. exact I.
  - apply Forall_forall. apply (bool_decide_unpack _). vm_compute. exact I.
Defined.

End KeyedOrdering.
