(* ===== verification/ConsumerGroup.v ===== *)
(** * consumer_group (burnin/worker/consumer_group.go)

    Several members of one group; a churner makes one of them rejoin at every
    tick and attributes the losses confirmed so far to the rebalances. *)

From S2P Require Import Prelude Float64 GoStr Payload Config Metrics Transport Tracker TrackerFacts Worker WorkerFacts Loops LoopsFacts.
From Stdlib Require Import Ascii.
Local Open Scope string_scope.
Local Open Scope Z_scope.
Local Open Scope list_scope.

Module ConsumerGroup.
Section ConsumerGroup.
Context `{HdrHistogram}.

Record ConsumerGroupWorker := mk_worker {
  BaseW : BaseWorker; part : producer_part;
  numConsumers : Z; consumerGen : list Z; attributed : Z
}.

#[export] Instance eta_worker : Eta ConsumerGroupWorker := fun w =>
  mk_worker (BaseW w) (part w) (numConsumers w) (consumerGen w) (attributed w).

#[export] Program Instance Worker_ConsumerGroup : Worker ConsumerGroupWorker := {|
  base := BaseW; upd_base := fun f w => w <| BaseW ::= f |>
|}.
Next Obligation. done. Qed.

(** A group needs at least two members. *)
Definition members (n : Z) : Z := if n <? 2 then 2 else n.

Definition NewConsumerGroupWorker (getenv : string -> string) (c : Config) (idx : Z)
    : option ConsumerGroupWorker :=
  let topic := TopicName getenv WorkerConsumerGroup idx in
  let channel := MappedChannel topic in
  wc ← GetWorkerConfig c WorkerConsumerGroup;
  let n := members (ConsumersPerChannel wc) in
  b ← NewBaseWorker WorkerConsumerGroup channel idx c;
  Some (mk_worker b (mk_producer_part topic (groupID b "") 0 false)
          n (replicate (Z.to_nat n) 0) 0).

Definition Start (env : start_env) (w : ConsumerGroupWorker) : result (list goroutine) :=
  _ ← provision env (topic (part w)) (BaseW w);
  Ok (map (fun mi => ConsumeLoop (group_consumer (BaseW w) ("m" ++s FormatInt mi) (group (part w)) (topic (part w))))
          (seqZ 0 (numConsumers w)) ++ [RebalanceChurner]).

(** [None]: the index is out of range and the code panics. *)
Definition memberGen (mi : Z) (w : ConsumerGroupWorker) : option Z :=
  g ← consumerGen w !! Z.to_nat mi;
  Some (g +u disconnectGeneration (BaseW w)).

Definition handleRecord (now : Z) (r : KRecord) (w : ConsumerGroupWorker) : ConsumerGroupWorker :=
  upd_base (Worker.handleRecord now r) w.

(** The loop of member [mi], one of the [numConsumers]. *)
Definition consumeLoop (mi : Z) (envs : list consume_env) (w : ConsumerGroupWorker)
    : ConsumerGroupWorker * consumer * control :=
  let generation w := default 0 (memberGen mi w) in
  consume_loop generation
    (fun _ f w => (each_record (fun _ now r => handleRecord now r) f w, Continue))
    envs w (mk_consumer (generation w) false).

(** w.trk.DetectGaps(), its result dropped. *)
Definition detectGaps (w : ConsumerGroupWorker) : ConsumerGroupWorker :=
  w <| BaseW ::= fun b => b <| trk ::= fun t => snd (Track.DetectGaps t) |> |>.

(** DetectGaps and reconcileGroupLoss are a row of separate accesses to shared
    state: the churner runs them at every tick and StopProducers once more, and
    deliveries and the other of the two can come between any two of them.  Where
    a goroutine stands, with its locals [lost] and [prev]: *)
Inductive reconciling :=
  | AtDetect                       (* w.trk.DetectGaps() *)
  | AtTotal                        (* lost := w.trk.TotalLost() *)
  | AtLoad (lost : Z)              (* prev := w.attributed.Load() *)
  | AtAdd (lost prev : Z)          (* w.recordGroupLossRebalance(lost - prev) *)
  | AtStore (lost : Z).            (* w.attributed.Store(lost) *)

(** One access, and where it leads; [None]: the call returns. *)
Definition reconcile_step (at_ : reconciling) (w : ConsumerGroupWorker)
    : ConsumerGroupWorker * option reconciling :=
  match at_ with
  | AtDetect => (detectGaps w, Some AtTotal)
  | AtTotal => (w, Some (AtLoad (Track.TotalLost (trk (BaseW w)))))
  | AtLoad lost =>
      let prev := attributed w in (w, if prev <? lost then Some (AtAdd lost prev) else None)
  | AtAdd lost prev =>
      (w <| BaseW ::= recordGroupLossRebalance (lost -u prev) |>, Some (AtStore lost))
  | AtStore lost => (w <| attributed := lost |>, None)
  end.

(** rebalanceChurner: waiting for its ticker, inside a reconciliation, or about
    to make member [next] rejoin. *)
Inductive churn_point := AtTicker | AtReconcile (at_ : reconciling) | AtBump.

Definition churn_step (at_ : churn_point) (next : Z) (w : ConsumerGroupWorker)
    : churn_point * Z * ConsumerGroupWorker :=
  match at_ with
  | AtTicker => (AtReconcile AtDetect, next, w)
  | AtReconcile r =>
      let '(w, r) := reconcile_step r w in
      (match r with Some r => AtReconcile r | None => AtBump end, next, w)
  | AtBump =>
      (AtTicker, Z.rem (next +i 1) (numConsumers w),
       w <| consumerGen ::= alter add1 (Z.to_nat next) |>)
  end.

Definition StartProducers (w : ConsumerGroupWorker) : list goroutine := producers_of (BaseW w).

Definition produceLoop (pi : Z) (envs : list produce_env) (w : ConsumerGroupWorker)
    : ConsumerGroupWorker * list (KRecord * bool) :=
  let '(b, p, out) := produce_loop true pi envs (BaseW w) (part w) 0 in
  (w <| BaseW := b |> <| part := p |>, out).

(** StopProducers after the producers are gone: it closes their client and begins
    its own reconciliation. *)
Definition StopProducers (w : ConsumerGroupWorker) : ConsumerGroupWorker * reconciling :=
  (w <| part ::= stop_producer |>, AtDetect).

(** ** Histories

    The worker with the two goroutines that reconcile, the churner and the one
    inside StopProducers, one access at a time.  The last two fields are records
    of the history: the losses read from the tracker by reconciliations, and the
    amounts added to the counter. *)
Record history := mk_history {
  h_worker : ConsumerGroupWorker;
  h_churn : churn_point; h_next : Z; h_stop : option reconciling;
  h_read : list Z; h_added : list Z
}.

Inductive group_op := Deliver (now : Z) (r : KRecord) | Churn | Stop.

(** What an access reads from the tracker and adds to the counter. *)
Definition reads (at_ : reconciling) (w : ConsumerGroupWorker) : list Z :=
  match at_ with AtTotal => [Track.TotalLost (trk (BaseW w))] | _ => [] end.
Definition adds (at_ : reconciling) : list Z :=
  match at_ with AtAdd lost prev => [lost - prev] | _ => [] end.

Definition apply_op (h : history) (op : group_op) : history :=
  let w := h_worker h in
  match op with
  | Deliver now r =>
      mk_history (handleRecord now r w) (h_churn h) (h_next h) (h_stop h) (h_read h) (h_added h)
  | Churn =>
      let '(at_, next, w') := churn_step (h_churn h) (h_next h) w in
      match h_churn h with
      | AtReconcile r => mk_history w' at_ next (h_stop h) (h_read h ++ reads r w) (h_added h ++ adds r)
      | _ => mk_history w' at_ next (h_stop h) (h_read h) (h_added h)
      end
  | Stop =>
      match h_stop h with
      | None => let '(w, r) := StopProducers w in
                mk_history w (h_churn h) (h_next h) (Some r) (h_read h) (h_added h)
      | Some r => let '(w', r') := reconcile_step r w in
                  mk_history w' (h_churn h) (h_next h) r' (h_read h ++ reads r w) (h_added h ++ adds r)
      end
  end.

Definition start_history (next : Z) (w : ConsumerGroupWorker) : history :=
  mk_history w AtTicker next None [] [].

(** Neither goroutine is inside a reconciliation. *)
Definition quiet (h : history) : Prop :=
  h_stop h = None /\ match h_churn h with AtReconcile _ => False | _ => True end.

(** No reconciliation starts or moves while the other goroutine is inside one. *)
Definition alone (h : history) (op : group_op) : Prop :=
  match op with
  | Deliver _ _ => True
  | Churn => h_stop h = None
  | Stop => match h_churn h with AtReconcile _ => False | _ => True end
  end.

Fixpoint all_alone (h : history) (ops : list group_op) : Prop :=
  match ops with
  | [] => True
  | op :: ops => alone h op /\ all_alone (apply_op h op) ops
  end.

(** ** Properties *)

Lemma sum_ok t f : u64_ok (Track.sum t f).
Proof.
  unfold Track.sum. apply (map_fold_weak_ind (fun r _ => u64_ok r)); [unfold u64_ok; lia|].
  intros. apply u64_wrap_ok.
Qed.

Lemma TotalLost_DetectGaps t : Track.TotalLost (snd (Track.DetectGaps t)) = Track.TotalLost t.
Proof.
  unfold Track.TotalLost, Track.sum, Track.DetectGaps. cbn [snd]. cbv [set_field]. cbn [Track.producers].
  rewrite map_fold_fmap. reflexivity.
Qed.

Lemma groupLoss_recorded n b : groupLossRebalance (recordGroupLossRebalance n b)
  = if n =? 0 then groupLossRebalance b else groupLossRebalance b +u n.
Proof.
  unfold recordGroupLossRebalance. destruct (n =? 0); [done|].
  set (b1 := b <| groupLossRebalance ::= _ |>). 
  assert (E : forall k, groupLossRebalance (Nat.iter k (emit (IncGroupLossRebalance (name b))) b1)
                        = groupLossRebalance b1) by (induction k; done).
  by rewrite E.
Qed.

(** *** Any interleaving

    [A] losses were already attributed when the counter was cleared; [n] is what
    has been added since.  [rs] are the goroutines inside a reconciliation. *)
Definition point_ok (A n : Z) (r : reconciling) : Prop :=
  match r with
  | AtDetect | AtTotal => True
  | AtLoad lost => u64_ok lost
  | AtAdd lost prev => u64_ok lost /\ 0 <= prev < lost /\ prev - A <= n
  | AtStore lost => u64_ok lost /\ lost - A <= n
  end.

(** A loss this goroutine has read and may still have to count. *)
Definition holds (x : Z) (r : reconciling) : Prop :=
  match r with AtLoad lost | AtAdd lost _ => x = lost | _ => False end.

Record sound (A : Z) (w : ConsumerGroupWorker) (rs : list reconciling) (read added : list Z) : Prop := {
  so_counter : groupLossRebalance (BaseW w) = u64_wrap (zsum added);
  so_added : 0 <= zsum added;
  so_attributed : u64_ok (attributed w) /\ attributed w - A <= zsum added;
  so_points : forall r, r ∈ rs -> point_ok A (zsum added) r;
  so_reads : forall x, x ∈ read -> x - A <= zsum added \/ exists r, r ∈ rs /\ holds x r
}.

Lemma zsum_app l k : zsum (l ++ k) = zsum l + zsum k.
Proof. unfold zsum. induction l as [|x l IH]; cbn; [done|]. rewrite IH. lia. Qed.

Lemma point_mono A n n' r : n <= n' -> point_ok A n r -> point_ok A n' r.
Proof. intros Hn. destruct r; cbn; try done; intros; intuition lia. Qed.

(** The goroutine at [r] makes its access; the others stay. *)
Lemma access_sound A w r rs read added : sound A w (r :: rs) read added ->
  let '(w', r') := reconcile_step r w in
  sound A w' (option_list r' ++ rs) (read ++ reads r w) (added ++ adds r).
Proof.
  intros [Hc Hnn [Hau Hat] Hp Hr]. pose proof (Hp r ltac:(by left)) as Hpr.
  assert (Hrest : forall r', r' ∈ rs -> point_ok A (zsum added) r') by (intros; apply Hp; by right).
  assert (Hold : forall x, x ∈ read -> x - A <= zsum added \/ holds x r \/ exists r', r' ∈ rs /\ holds x r').
  { intros x Hx. destruct (Hr x Hx) as [?|(r' & [->|Hin]%elem_of_cons & Hh)]; eauto. }
  destruct r as [| |lost|lost prev|lost]; cbn [reconcile_step reads adds]; rewrite ?app_nil_r.
  - split; try done; cbn; [intros r [->|?]%elem_of_cons; [done|by apply Hrest]|].
    intros x Hx. destruct (Hold x Hx) as [?|[[]|(r' & ? & ?)]]; [by left|right; exists r'; split; [by right|done]].
  - split; try done; cbn; [intros r [->|?]%elem_of_cons; [apply sum_ok|by apply Hrest]|].
    intros x [Hx|Hx]%elem_of_app.
    + destruct (Hold x Hx) as [?|[[]|(r' & ? & ?)]]; [by left|right; exists r'; split; [by right|done]].
    + apply list_elem_of_singleton in Hx as ->. right. eexists. split; [by left|done].
  - cbv zeta. destruct (Z.ltb_spec (attributed w) lost) as [Hlt|Hge]; cbn [option_list app].
    + split; try done; [intros r [->|?]%elem_of_cons; [|by apply Hrest]|].
      { cbn in *. unfold u64_ok in Hau. split; [done|]. split; [lia|lia]. }
      intros x Hx. destruct (Hold x Hx) as [?|[Hh|(r' & ? & ?)]]; [by left|right..].
      * eexists. split; [by left|exact Hh].
      * exists r'. split; [by right|done].
    + split; try done. intros x Hx. destruct (Hold x Hx) as [?|[Hh|?]]; [by left|left|by right].
      cbn in Hh. subst. lia.
  - destruct Hpr as (Hl & Hpv & Hpn). assert (Hs : zsum (added ++ [lost - prev]) = zsum added + (lost - prev)).
    { rewrite zsum_app. cbn. lia. }
    split; rewrite ?Hs; cbn [option_list app].
    + change (groupLossRebalance (recordGroupLossRebalance (lost -u prev) (BaseW w))
        = u64_wrap (zsum added + (lost - prev))).
      rewrite groupLoss_recorded. unfold u64_ok in Hl. unwrap. rewrite (proj2 (Z.eqb_neq _ _)) by lia.
      rewrite Hc. apply u64_wrap_add_l.
    + lia.
    + split; [exact Hau|]. change (attributed _) with (attributed w). lia.
    + intros r [->|?]%elem_of_cons; [cbn; split; [done|lia]|].
      eapply point_mono; [|by apply Hrest]. lia.
    + intros x Hx. destruct (Hold x Hx) as [?|[Hh|(r' & ? & ?)]]; [left; lia|left; cbn in Hh; subst; lia|].
      right. exists r'. split; [by right|done].
  - destruct Hpr as [Hl Hln]. cbn [option_list app]. split; try done.
    intros x Hx. destruct (Hold x Hx) as [?|[[]|?]]; [by left|by right].
Qed.

Lemma sound_ext A w rs rs' read added : (forall r, r ∈ rs <-> r ∈ rs') ->
  sound A w rs read added -> sound A w rs' read added.
Proof. intros E [? ? ? Hp Hr]. split; try done; setoid_rewrite <- E; done. Qed.

(** The reconciliations under way. *)
Definition active (h : history) : list reconciling :=
  (match h_churn h with AtReconcile r => [r] | _ => [] end) ++ option_list (h_stop h).

Definition history_sound (A : Z) (h : history) : Prop :=
  sound A (h_worker h) (active h) (h_read h) (h_added h).

Lemma option_list_spec {A} (o : option A) x : x ∈ option_list o <-> o = Some x.
Proof. destruct o as [y|]; cbn; [rewrite list_elem_of_singleton; naive_solver|by rewrite elem_of_nil]. Qed.

Lemma apply_op_sound A h op : history_sound A h -> history_sound A (apply_op h op).
Proof.
  destruct h as [w at_ next st read added]. unfold history_sound, active.
  cbn [h_worker h_churn h_next h_stop h_read h_added]. intros Hs.
  destruct op as [now r| |]; cbn [apply_op h_worker h_churn h_next h_stop h_read h_added].
  - destruct Hs as [Hc Hn Ha Hp Hr]. split; try done. rewrite <- Hc.
    pose proof (handleRecord_frame now r (BaseW w)) as Hf. by injection Hf.
  - destruct at_ as [|r|]; cbn [churn_step].
    + destruct Hs as [Hc Hn Ha Hp Hr]. split; try done.
      * intros r [->|Hin]%elem_of_cons; [done|by apply Hp].
      * intros x Hx. destruct (Hr x Hx) as [?|(r & ? & ?)]; [by left|right; exists r; by split; [right|]].
    + pose proof (access_sound A w r (option_list st) read added Hs) as Ha.
      destruct (reconcile_step r w) as [w' r']. cbn [fst snd]. destruct r' as [r'|]; exact Ha.
    + destruct Hs as [Hc Hn Ha Hp Hr]. by split.
  - destruct st as [r|].
    + set (rs := match at_ with AtReconcile r0 => [r0] | _ => [] end) in *.
      pose proof (access_sound A w r rs read added) as Ha.
      destruct (reconcile_step r w) as [w' r'].
      eapply sound_ext; [|apply Ha; eapply sound_ext; [|exact Hs]].
      * intros x. cbn. fold rs. rewrite !elem_of_app. tauto.
      * intros x. cbn. set_solver.
    + destruct Hs as [Hc Hn Ha Hp Hr]. split; try done.
      * cbn. intros r [Hin|Hin]%elem_of_app; [apply Hp; apply elem_of_app; by left|].
        by apply list_elem_of_singleton in Hin as ->.
      * cbn. intros x Hx. destruct (Hr x Hx) as [?|(r & Hin & ?)]; [by left|right].
        exists r. split; [|done]. apply elem_of_app in Hin as [?|Hin]; [apply elem_of_app; by left|].
        by apply elem_of_nil in Hin.
Qed.

Lemma foldl_sound A ops : forall h, history_sound A h -> history_sound A (foldl apply_op h ops).
Proof. induction ops as [|op ops IH]; intros h Hs; [done|]. by apply IH, apply_op_sound. Qed.

Lemma foldl_max_bound l : forall X B, foldl Z.max X l <= B <-> X <= B /\ forall x, x ∈ l -> x <= B.
Proof.
  induction l as [|y l IH]; intros X B; cbn [foldl].
  { split; [intros; split; [done|by intros x Hx%elem_of_nil]|tauto]. }
  rewrite IH. split.
  - intros [? Hl]. split; [lia|]. intros x [->|?]%elem_of_cons; [lia|by apply Hl].
  - intros [? Hl]. split; [pose proof (Hl y ltac:(by left)); lia|]. intros x Hx. apply Hl. by right.
Qed.

(** *** One reconciliation at a time *)

(** [M] is the largest loss read so far, or [A]. *)
Definition exact_at (A M n : Z) (w : ConsumerGroupWorker) (o : option reconciling) : Prop :=
  match o with
  | None | Some AtDetect | Some AtTotal => attributed w = M /\ n = M - A
  | Some (AtLoad lost) => M = Z.max (attributed w) lost /\ n = attributed w - A
  | Some (AtAdd lost prev) => M = lost /\ prev = attributed w /\ n = prev - A
  | Some (AtStore lost) => M = lost /\ n = lost - A
  end.

Definition the_active (h : history) : option reconciling :=
  match h_churn h with AtReconcile r => Some r | _ => h_stop h end.

Definition largest (A : Z) (h : history) : Z := foldl Z.max A (h_read h).

Definition history_exact (A : Z) (h : history) : Prop :=
  (match h_churn h with AtReconcile _ => h_stop h = None | _ => True end) /\
  exact_at A (largest A h) (zsum (h_added h)) (h_worker h) (the_active h).

Lemma access_exact A w r read added :
  exact_at A (foldl Z.max A read) (zsum added) w (Some r) ->
  let '(w', r') := reconcile_step r w in
  exact_at A (foldl Z.max A (read ++ reads r w)) (zsum (added ++ adds r)) w' r'.
Proof.
  destruct r as [| |lost|lost prev|lost]; cbn [reconcile_step reads adds exact_at]; rewrite ?app_nil_r.
  - done.
  - intros [Ha Hn]. rewrite foldl_app. cbn [foldl exact_at]. rewrite Ha. split; [done|exact Hn].
  - intros [HM Hn]. cbv zeta. destruct (Z.ltb_spec (attributed w) lost); cbn [exact_at]; split_and!; lia.
  - intros (HM & Hp & Hn). rewrite zsum_app. cbn. change (attributed _) with (attributed w). split; [done|]. lia.
  - intros [HM Hn]. split; [symmetry; exact HM|lia].
Qed.

Lemma apply_op_exact A h op : alone h op -> history_exact A h -> history_exact A (apply_op h op).
Proof.
  destruct h as [w at_ next st read added]. unfold history_exact, largest, the_active.
  destruct op as [now r| |]; cbn [alone apply_op h_worker h_churn h_next h_stop h_read h_added].
  - intros _ [Hone He]. split; [done|]. by destruct at_ as [|[]|], st as [[]|].
  - intros -> [_ He]. destruct at_ as [|r|]; cbn [churn_step]; [by split| |by split].
    pose proof (access_exact A w r read added He) as Ha.
    destruct (reconcile_step r w) as [w' r']. by destruct r' as [r'|].
  - intros Hal [_ He].
    assert (Eo : match at_ with AtReconcile r => Some r | _ => st end = st) by (by destruct at_).
    rewrite Eo in He. destruct st as [r|].
    + pose proof (access_exact A w r read added He) as Ha.
      destruct (reconcile_step r w) as [w' r']. cbn. by destruct at_.
    + cbn. by destruct at_.
Qed.

Lemma foldl_exact A ops : forall h, all_alone h ops -> history_exact A h ->
  history_exact A (foldl apply_op h ops).
Proof.
  induction ops as [|op ops IH]; intros h Hal He; [done|]. destruct Hal as [Ho Hal].
  apply IH; [done|]. by apply apply_op_exact.
Qed.

(** C30: rebalance loss is counted, and what it was cleared of is masked.  Start
    from a cleared counter with [A] losses already attributed (zero for a new
    worker, whatever the warmup left for one just reset) and let deliveries, the
    churner and StopProducers go on in any order, each access of a
    reconciliation to the tracker, to [attributed] and to the counter being a
    step of its own.  The counter is the sum, modulo 2^64, of the amounts added
    to it, and whenever no reconciliation is under way that sum is at least the
    amount by which the largest loss any of them read exceeds [A]: however they
    interleave, no loss found is left out.  If moreover no two of them ever
    overlapped, the counter is exactly that amount. *)
Theorem group_loss_exact w next ops :
  groupLossRebalance (BaseW w) = 0 -> u64_ok (attributed w) ->
  let A := attributed w in
  let h := foldl apply_op (start_history next w) ops in
  let M := foldl Z.max A (h_read h) in
  let counter := groupLossRebalance (BaseW (h_worker h)) in
  counter = u64_wrap (zsum (h_added h)) /\
  (quiet h -> M - A <= zsum (h_added h)) /\
  (quiet h -> all_alone (start_history next w) ops -> counter = M - A /\ attributed (h_worker h) = M).
Proof.
  intros H0 Hok A h M counter.
  assert (Hs : history_sound A h).
  { apply foldl_sound. split; try done; cbn.
    - split; [done|]. unfold A. lia.
    - by intros r Hr%elem_of_nil.
    - by intros x Hx%elem_of_nil. }
  destruct Hs as [Hc Hn [Hau Hat] Hp Hr].
  assert (Hnone : quiet h -> forall r, r ∉ active h).
  { intros [Es Ec] r Hin. unfold active in Hin. rewrite Es, app_nil_r in Hin.
    by destruct (h_churn h); try apply elem_of_nil in Hin. }
  split; [exact Hc|]. split.
  - intros Hq. assert (M <= A + zsum (h_added h)); [|lia]. apply foldl_max_bound. split; [lia|].
    intros x Hx. destruct (Hr x Hx) as [?|(r & Hin & _)]; [lia|]. by destruct (Hnone Hq r).
  - intros [Es Ec] Hal. destruct (foldl_exact A ops (start_history next w) Hal) as [_ He].
    { split; [done|]. cbn. unfold A. split; [done|lia]. }
    fold h in He. unfold the_active in He. rewrite Es in He.
    assert (He' : attributed (h_worker h) = M /\ zsum (h_added h) = M - A) by (by destruct (h_churn h)).
    destruct He' as [Ha Hz]. split; [|done]. unfold counter. rewrite Hc, u64_wrap_id; [done|].
    rewrite Ha in Hau. unfold u64_ok in *. unfold A in *. lia.
Qed.

(** The churner goes round the members. *)
Lemma churner_round next w : 0 <= next < numConsumers w -> numConsumers w < 2 ^ 62 ->
  (churn_step AtBump next w).1.2 = (next + 1) mod numConsumers w.
Proof. intros Hn Hm. cbn. unwrap. by rewrite Z.rem_mod_nonneg by lia. Qed.

End ConsumerGroup.

Definition small_window_cfg : Config :=
  DefaultConfig <| Message := mk_MessageConfig "fixed" 20 "" 2 |>.

Definition arrive (seq : Z) : group_op := Deliver 9 (demo_record seq "abc" "abc").

(** A tick of the churner: with a loss to attribute it takes seven steps. *)
Definition tick : list group_op := replicate 7 Churn.

(** Sequences 2 to 5 go missing, 4 comes late while a tick has already read four
    losses; then the final reconciliation. *)
Definition lossy_ops : list group_op :=
  [arrive 1; arrive 6; arrive 7; arrive 8; Churn; Churn; Churn; arrive 4; Churn; Churn; Churn; Churn]
  ++ replicate 4 Stop.

Definition new_worker : option (@ConsumerGroupWorker list_histogram) :=
  @NewConsumerGroupWorker list_histogram (fun _ => "") small_window_cfg 1.

Definition demo_worker : @ConsumerGroupWorker list_histogram :=
  default (mk_worker WorkerFacts.demo_worker (mk_producer_part "" "" 0 false) 0 [] 0) new_worker.

Lemma group_loss_exact_witness :
  let h := foldl apply_op (start_history 0 demo_worker) lossy_ops in
  groupLossRebalance (BaseW (h_worker h)) = 4 /\ attributed (h_worker h) = 4 /\
  Track.TotalLost (trk (BaseW (h_worker h))) = 3.
Proof.
  intros h.
  destruct (@group_loss_exact list_histogram demo_worker 0 lossy_ops) as (_ & _ & He).
  - vm_compute. reflexivity.
  - unfold u64_ok. vm_compute. by split.
  - fold h in He. destruct He as [Hc Ha].
    + by vm_compute.
    + vm_compute. by split_and!.
    + rewrite Hc, Ha. vm_compute. by split_and!.
Defined.

(** Two reconciliations can count the same loss twice: with four sequences lost,
    the churner's tick and StopProducers can interleave so that the counter ends
    at eight, with [attributed] claiming four; one after the other they count
    four. *)
Definition both_load_first : list group_op :=
  replicate 4 Churn ++ replicate 4 Stop ++ [Churn; Churn; Stop; Stop].
Definition one_by_one : list group_op := replicate 6 Churn ++ replicate 4 Stop.

Example reconcile_race :
  let start := foldl apply_op (start_history 0 demo_worker) [arrive 1; arrive 6; arrive 7; arrive 8] in
  let counted ops := let h := foldl apply_op start ops in
    (h_stop h, groupLossRebalance (BaseW (h_worker h)), attributed (h_worker h)) in
  counted both_load_first = (None, 8, 4) /\ counted one_by_one = (None, 4, 4).
Proof. vm_compute. by split. Qed.

(** What the warmup attributed hides as many losses of the measured run:
    ResetAfterWarmup clears the tracker and the counter but not [attributed]. *)
Example warmup_loss_masks :
  let h := foldl apply_op (start_history 0 demo_worker) lossy_ops in
  let w := (h_worker h) <| BaseW ::= @ResetAfterWarmup list_histogram |> in
  let w := h_worker (foldl apply_op (start_history (h_next h) w)
             ([arrive 101; arrive 106; arrive 107; arrive 108] ++ tick ++ replicate 4 Stop)) in
  Track.TotalLost (trk (BaseW w)) = 4 /\ groupLossRebalance (BaseW w) = 0.
Proof. vm_compute. by split. Qed.

End ConsumerGroup.
