(* ===== verification/OffsetLag.v ===== *)
(** * offset_commit_lag (burnin/worker/offset_commit_lag.go)

    A consumer that commits by hand, and a sampler that compares the group lag the
    connector reports with the worker's own counters. *)

From S2P Require Import Prelude Float64 GoStr Payload Config Metrics Transport Tracker TrackerFacts Worker WorkerFacts Loops LoopsFacts.
From Stdlib Require Import Ascii.
Local Open Scope string_scope.
Local Open Scope Z_scope.
Local Open Scope list_scope.

Module OffsetCommitLag.
Section OffsetCommitLag.
Context `{HdrHistogram}.

Record OffsetCommitLagWorker := mk_worker { BaseW : BaseWorker; part : producer_part; restarted : bool }.

#[export] Instance eta_worker : Eta OffsetCommitLagWorker := fun w =>
  mk_worker (BaseW w) (part w) (restarted w).

#[export] Program Instance Worker_OffsetCommitLag : Worker OffsetCommitLagWorker := {|
  base := BaseW; upd_base := fun f w => w <| BaseW ::= f |>
|}.
Next Obligation. done. Qed.

Definition NewOffsetCommitLagWorker (getenv : string -> string) (c : Config) (idx : Z)
    : option OffsetCommitLagWorker :=
  let topic := TopicName getenv WorkerOffsetCommitLag idx in
  let channel := MappedChannel topic in
  b ← NewBaseWorker WorkerOffsetCommitLag channel idx c;
  Some (mk_worker b (mk_producer_part topic (groupID b "") 0 false) false).

Definition Start (env : start_env) (w : OffsetCommitLagWorker) : result (list goroutine) :=
  _ ← provision env (topic (part w)) (BaseW w);
  Ok [ConsumeLoop ((group_consumer (BaseW w) "cons" (group (part w)) (topic (part w)))
                     <| cc_DisableAutoCommit := true |>);
      LagSampler (kafkaClientCfg (BaseW w) "lag-admin")].

Definition handleRecord (now : Z) (r : KRecord) (w : OffsetCommitLagWorker) : OffsetCommitLagWorker :=
  upd_base (Worker.handleRecord now r) w.

(** The records of a batch, then their commit. *)
Definition deliver_and_commit (env : consume_env) (f : Fetches) (w : OffsetCommitLagWorker)
    : OffsetCommitLagWorker * control :=
  let w := each_record (fun _ now r => handleRecord now r) f w in
  let recs := concat (map snd f) in
  match recs with
  | [] => (w, Continue)
  | _ =>
      if negb (ce_commit env) then
        if ce_cancelled_poll env then (w, Return)
        else (upd_base (recordError "commit_failure") w, Continue)
      else (upd_base (Nat.iter (length recs) recordDeleted) w, Continue)
  end.

Definition consumeLoop (envs : list consume_env) (w : OffsetCommitLagWorker)
    : OffsetCommitLagWorker * consumer * control :=
  let generation w := disconnectGeneration (BaseW w) in
  consume_loop generation deliver_and_commit envs w (mk_consumer (generation w) false).

(** The positive lags of a group, summed as int64. *)
Definition reported_lag (glag : GroupLagMap) : Z :=
  foldl (fun acc '(_, parts) =>
    foldl (fun acc '(_, lag) => if 0 <? lag then acc +i lag else acc) acc parts) 0 glag.

Definition true_lag (b : BaseWorker) : Z :=
  if deleted b <? sent b then i64_wrap (sent b - deleted b) else 0.

(** uint64(|reported - trueLag|) *)
Definition lag_error (glag : GroupLagMap) (b : BaseWorker) : Z :=
  let errMsgs := reported_lag glag -i true_lag b in
  u64_wrap (if errMsgs <? 0 then i64_wrap (- errMsgs) else errMsgs).

(** One tick of lagSampler: the answer of the admin client, and whether the
    context was cancelled when it failed; [samples] is the local counter. *)
Definition lag_tick (answer : string -> lag_response) (cancelled : bool) (samples : Z)
    (w : OffsetCommitLagWorker) : OffsetCommitLagWorker * Z * control :=
  match GroupLag answer (group (part w)) with
  | inl _ => (w, samples, if cancelled then Return else Continue)
  | inr glag =>
      let w := upd_base (setLagAccuracyErr (lag_error glag (BaseW w))) w in
      let samples := samples +i 1 in
      if (samples =? 3) && negb (restarted w)
      then (upd_base DisconnectConsumers (w <| restarted := true |>), samples, Continue)
      else (w, samples, Continue)
  end.

(** lagSampler: its client, then one tick per answer until it is cancelled. *)
Fixpoint lag_loop (ticks : list ((string -> lag_response) * bool)) (samples : Z)
    (w : OffsetCommitLagWorker) : OffsetCommitLagWorker :=
  match ticks with
  | [] => w
  | (answer, cancelled) :: ticks =>
      let '(w, samples, k) := lag_tick answer cancelled samples w in
      match k with Return => w | Continue => lag_loop ticks samples w end
  end.

Definition lagSampler (client : bool) (ticks : list ((string -> lag_response) * bool))
    (w : OffsetCommitLagWorker) : OffsetCommitLagWorker :=
  if negb client then upd_base (recordError "admin_failure") w else lag_loop ticks 0 w.

Definition StartProducers (w : OffsetCommitLagWorker) : list goroutine := producers_of (BaseW w).

Definition produceLoop (pi : Z) (envs : list produce_env) (w : OffsetCommitLagWorker)
    : OffsetCommitLagWorker * list (KRecord * bool) :=
  let '(b, p, out) := produce_loop false pi envs (BaseW w) (part w) 0 in
  (w <| BaseW := b |> <| part := p |>, out).

Definition StopProducers (w : OffsetCommitLagWorker) : OffsetCommitLagWorker :=
  w <| part ::= stop_producer |>.

(** ** Histories: samples among the worker's other activity. *)
Inductive lag_op :=
  | Sample (answer : string -> lag_response)
  | Produced (bytes : Z)
  | Batch (f : Fetches) (committed : bool).

Definition commit_env (committed : bool) : consume_env :=
  mk_consume_env false true 0 true PollErrors committed false.

Definition apply_op (s : OffsetCommitLagWorker * Z) (op : lag_op) : OffsetCommitLagWorker * Z :=
  let '(w, samples) := s in
  match op with
  | Sample answer => (lag_tick answer false samples w).1
  | Produced n => (upd_base (recordSent n) w, samples)
  | Batch f committed => ((deliver_and_commit (commit_env committed) f w).1, samples)
  end.

(** The distances between reported and true lag, as integers, of the samples that
    were answered. *)
Fixpoint sampled_errors (s : OffsetCommitLagWorker * Z) (ops : list lag_op) : list Z :=
  match ops with
  | [] => []
  | op :: ops =>
      match op with
      | Sample answer =>
          match GroupLag answer (group (part s.1)) with
          | inr glag => [Z.abs (reported_lag glag - Z.max 0 (sent (BaseW s.1) - deleted (BaseW s.1)))]
          | inl _ => []
          end
      | _ => []
      end ++ sampled_errors (apply_op s op) ops
  end.

(** ** Properties *)

Definition answer_ok (op : lag_op) : Prop :=
  match op with
  | Sample answer => forall g glag, GroupLag answer g = inr glag -> 0 <= reported_lag glag < 2 ^ 62
  | _ => True
  end.

(** How far an operation can move the two counters. *)
Definition op_size (op : lag_op) : Z :=
  match op with
  | Sample _ => 0
  | Produced _ => 1
  | Batch f _ => Z.of_nat (length (concat (map snd f)))
  end.

Lemma lag_error_abs glag b :
  0 <= reported_lag glag < 2 ^ 62 -> 0 <= sent b < 2 ^ 62 -> 0 <= deleted b < 2 ^ 62 ->
  lag_error glag b = Z.abs (reported_lag glag - Z.max 0 (sent b - deleted b)).
Proof.
  intros Hr Hs Hd. unfold lag_error, true_lag.
  assert (E : (if deleted b <? sent b then i64_wrap (sent b - deleted b) else 0)
              = Z.max 0 (sent b - deleted b)).
  { destruct (Z.ltb_spec (deleted b) (sent b)); unwrap; lia. }
  rewrite E. set (t := Z.max 0 (sent b - deleted b)). assert (0 <= t < 2 ^ 62) by lia. clearbody t.
  unwrap. destruct (Z.ltb_spec (reported_lag glag - t) 0); unwrap; lia.
Qed.

Lemma setLag_max v b : lagAccuracyErrMax (setLagAccuracyErr v b) = Z.max (lagAccuracyErrMax b) v.
Proof.
  unfold setLagAccuracyErr. destruct (Z.leb_spec v (lagAccuracyErrMax b)); [lia|].
  transitivity v; [done|lia].
Qed.

(** What the sampler reads and writes. *)
Definition lag_view (w : OffsetCommitLagWorker) :=
  (sent (BaseW w), lagAccuracyErrMax (BaseW w), disconnectGen (BaseW w), part w, restarted w).

Lemma deliver_view env f w :
  let w' := (deliver_and_commit env f w).1 in
  lag_view w' = lag_view w /\
  deleted (BaseW w') = deleted (BaseW w) \/
  lag_view w' = lag_view w /\
  deleted (BaseW w') = Nat.iter (length (concat (map snd f))) add1 (deleted (BaseW w)).
Proof.
  cbv zeta.
  assert (Hf : forall w1, w1 = each_record (fun _ now r => handleRecord now r) f w ->
    lag_view w1 = lag_view w /\ deleted (BaseW w1) = deleted (BaseW w)).
  { intros w1 ->. apply (each_record_inv (fun w1 => lag_view w1 = lag_view w /\ deleted (BaseW w1) = deleted (BaseW w)));
      [|done].
    intros p now r w1 [Hv Hd]. pose proof (handleRecord_frame now r (BaseW w1)) as Hf.
    injection Hf as E1 _ E3 _ _ _ E7 _ _ _ E11 _ _ _ _. rewrite <- Hv, <- Hd.
    unfold lag_view, handleRecord. cbn [upd_base Worker_OffsetCommitLag]. cbv [set_field].
    cbn [BaseW part restarted]. by rewrite E1, E3, E7, E11. }
  unfold deliver_and_commit. specialize (Hf _ eq_refl). set (w1 := each_record _ f w) in *. clearbody w1.
  destruct Hf as [Hv Hd].
  destruct (concat (map snd f)) as [|x recs]; [by left|]. destruct (ce_commit env); cbn [negb].
  - right. rewrite <- Hv, <- Hd. set (n := length (x :: recs)).
    assert (E : forall b, let b' := Nat.iter n recordDeleted b in
      (sent b', lagAccuracyErrMax b', disconnectGen b') = (sent b, lagAccuracyErrMax b, disconnectGen b) /\
      deleted b' = Nat.iter n add1 (deleted b)).
    { intros b. clearbody n. induction n as [|n [IH1 IH2]]; [done|]. cbv zeta in *. rewrite !Nat.iter_succ. 
      split; [by rewrite <- IH1|]. by rewrite <- IH2. }
    destruct (E (BaseW w1)) as [E1 E2]. split; [|exact E2].
    clearbody n. injection E1 as E3 E4 E5.
    transitivity (sent (Nat.iter n recordDeleted (BaseW w1)), lagAccuracyErrMax (Nat.iter n recordDeleted (BaseW w1)),
       disconnectGen (Nat.iter n recordDeleted (BaseW w1)), part w1, restarted w1); [reflexivity|].
    by rewrite E3, E4, E5.
  - left. by destruct (ce_cancelled_poll env).
Qed.

Lemma iter_add1 n x : 0 <= x -> x + Z.of_nat n < 2 ^ 62 -> Nat.iter n add1 x = x + Z.of_nat n.
Proof.
  intros Hx. induction n as [|n IH]; intros Hn; [simpl; lia|].
  rewrite Nat.iter_succ, IH by lia. unfold add1. unwrap. lia.
Qed.

(** The sampler's part of the state after some of the history. *)
Definition lag_run (w : OffsetCommitLagWorker) (samples : Z) (errs : list Z)
    (w' : OffsetCommitLagWorker) (samples' : Z) : Prop :=
  lagAccuracyErrMax (BaseW w') = foldl Z.max (lagAccuracyErrMax (BaseW w)) errs /\
  samples' = samples + Z.of_nat (length errs) /\
  let fires := (samples <? 3) && (3 <=? samples') && negb (restarted w) in
  restarted w' = restarted w || fires /\
  disconnectGen (BaseW w') = (if fires then add1 (disconnectGen (BaseW w)) else disconnectGen (BaseW w)).

Lemma lag_run_refl w samples w' :
  lagAccuracyErrMax (BaseW w') = lagAccuracyErrMax (BaseW w) ->
  disconnectGen (BaseW w') = disconnectGen (BaseW w) -> restarted w' = restarted w ->
  lag_run w samples [] w' samples.
Proof.
  intros E1 E2 E3. split; [done|]. split; [simpl; lia|]. cbv zeta.
  destruct (Z.ltb_spec samples 3), (Z.leb_spec 3 samples); try lia; by rewrite ?orb_false_r, E3, E2.
Qed.

Lemma lag_run_trans w s e1 w1 s1 e2 w2 s2 :
  lag_run w s e1 w1 s1 -> lag_run w1 s1 e2 w2 s2 -> lag_run w s (e1 ++ e2) w2 s2.
Proof.
  intros (M1 & S1 & R1 & D1) (M2 & S2 & R2 & D2). split; [by rewrite foldl_app, <- M1|].
  split; [rewrite length_app; lia|]. cbv zeta. rewrite R2, D2, R1, D1.
  destruct (restarted w), (Z.ltb_spec s 3), (Z.leb_spec 3 s1), (Z.ltb_spec s1 3), (Z.leb_spec 3 s2);
    try lia; done.
Qed.

Definition counters_below (n : Z) (w : OffsetCommitLagWorker) : Prop :=
  0 <= sent (BaseW w) < n /\ 0 <= deleted (BaseW w) < n.

Lemma apply_op_lag op w samples :
  answer_ok op -> 0 <= samples < 2 ^ 62 -> counters_below (2 ^ 62 - op_size op) w ->
  let '(w', samples') := apply_op (w, samples) op in
  lag_run w samples (sampled_errors (w, samples) [op]) w' samples' /\
  0 <= sent (BaseW w') <= sent (BaseW w) + op_size op /\
  0 <= deleted (BaseW w') <= deleted (BaseW w) + op_size op.
Proof.
  intros Hok Hs [Hse Hde]. destruct op as [answer|n|f committed]; cbn [op_size] in *.
  - cbn [apply_op sampled_errors fst]. rewrite app_nil_r. unfold lag_tick.
    destruct (GroupLag answer (group (part w))) as [e|glag] eqn:Eg; cbn [fst].
    { split; [by apply lag_run_refl|lia]. }
    specialize (Hok _ _ Eg). rewrite lag_error_abs by lia.
    set (v := Z.abs _). replace (samples +i 1) with (samples + 1) by (unwrap; lia).
    set (w1 := upd_base (setLagAccuracyErr v) w).
    assert (E1 : lagAccuracyErrMax (BaseW w1) = Z.max (lagAccuracyErrMax (BaseW w)) v) by apply setLag_max.
    assert (E2 : sent (BaseW w1) = sent (BaseW w) /\ deleted (BaseW w1) = deleted (BaseW w) /\
                 disconnectGen (BaseW w1) = disconnectGen (BaseW w) /\ restarted w1 = restarted w).
    { unfold w1. cbn [upd_base Worker_OffsetCommitLag]. cbv [set_field]. cbn [BaseW restarted].
      unfold setLagAccuracyErr. by destruct (v <=? lagAccuracyErrMax (BaseW w)). }
    clearbody w1. destruct E2 as (E2 & E3 & E4 & E5).
    rewrite E5. destruct ((samples + 1 =? 3) && negb (restarted w)) eqn:Ef; cbn [fst].
    + set (w2 := upd_base DisconnectConsumers _).
      assert (F1 : sent (BaseW w2) = sent (BaseW w1)) by done.
      assert (F2 : deleted (BaseW w2) = deleted (BaseW w1)) by done.
      assert (F3 : lagAccuracyErrMax (BaseW w2) = lagAccuracyErrMax (BaseW w1)) by done.
      assert (F4 : restarted w2 = true) by done.
      assert (F5 : disconnectGen (BaseW w2) = add1 (disconnectGen (BaseW w1))) by done.
      clearbody w2. split; [|lia].
      zify_bool. split; [by rewrite F3, E1|]. split; [simpl; lia|]. cbv zeta.
      assert (Hr : restarted w = false) by by destruct (restarted w).
      rewrite Hr, (proj2 (Z.ltb_lt _ _)), (proj2 (Z.leb_le _ _)) by lia.
      split; [by rewrite F4|by rewrite F5, E4].
    + split; [|lia]. split; [exact E1|]. split; [simpl; lia|]. cbv zeta. rewrite E4, E5.
      destruct (restarted w), (Z.eqb_spec (samples + 1) 3), (Z.ltb_spec samples 3), (Z.leb_spec 3 (samples + 1));
        try lia; done.
  - cbn [apply_op sampled_errors app]. split; [by apply lag_run_refl|].
    assert (E : sent (BaseW (upd_base (recordSent n) w)) = add1 (sent (BaseW w))) by done.
    assert (E' : deleted (BaseW (upd_base (recordSent n) w)) = deleted (BaseW w)) by done.
    rewrite E, E'. unfold add1. unwrap. lia.
  - cbn [apply_op sampled_errors app].
    destruct (deliver_view (commit_env committed) f w) as [[Hv Hd]|[Hv Hd]];
      unfold lag_view in Hv; injection Hv as E1 E2 E3 _ E5; (split; [by apply lag_run_refl|]);
      rewrite Hd, E1; [lia|].
    rewrite iter_add1 by lia. lia.
Qed.

Lemma sampled_one w samples op : (length (sampled_errors (w, samples) [op]) <= 1)%nat.
Proof. destruct op; simpl; [case_match|..]; simpl; lia. Qed.

Lemma ops_lag ops : forall w samples,
  Forall answer_ok ops -> 0 <= samples -> samples + Z.of_nat (length ops) < 2 ^ 62 ->
  counters_below (2 ^ 62 - foldr Z.add 0 (map op_size ops)) w ->
  let '(w', samples') := foldl apply_op (w, samples) ops in
  lag_run w samples (sampled_errors (w, samples) ops) w' samples'.
Proof.
  induction ops as [|op ops IH]; intros w samples Hok Hs0 Hs Hc; [by apply lag_run_refl|].
  apply Forall_cons in Hok as [Hop Hok]. cbn [length map foldr] in *.
  assert (Hsz : 0 <= op_size op) by (destruct op; simpl; lia).
  assert (Hszs : 0 <= foldr Z.add 0 (map op_size ops))
    by (clear; induction ops as [|[] ops IH]; simpl; lia).
  unfold counters_below in Hc.
  pose proof (apply_op_lag op w samples Hop ltac:(lia) ltac:(unfold counters_below; lia)) as Hstep.
  pose proof (sampled_one w samples op) as Hlen.
  assert (E : sampled_errors (w, samples) (op :: ops)
              = sampled_errors (w, samples) [op] ++ sampled_errors (apply_op (w, samples) op) ops)
    by (cbn [sampled_errors]; by rewrite app_nil_r).
  rewrite E. clear E. cbn [foldl]. set (e := sampled_errors (w, samples) [op]) in *. clearbody e.
  destruct (apply_op (w, samples) op) as [w1 s1]. destruct Hstep as (Hrun & Hs1 & Hd1).
  pose proof Hrun as (_ & Es1 & _).
  specialize (IH w1 s1 Hok ltac:(lia) ltac:(lia) ltac:(unfold counters_below; lia)).
  destruct (foldl apply_op (w1, s1) ops) as [w2 s2]. by eapply lag_run_trans.
Qed.

(** C31: the lag gate sees the worst sample, and the resume test runs once.
    Interleave sends, batches and samples in any way, the counters and the
    reported lags staying below 2^62: at the end the accuracy error is the
    largest |reported - max(0, sent - committed)| over the samples that were
    answered, and the consumers were disconnected exactly once, at the third of
    them, unless they had been before. *)
Theorem lag_error_exact ops w samples :
  Forall answer_ok ops -> 0 <= samples -> samples + Z.of_nat (length ops) < 2 ^ 62 ->
  counters_below (2 ^ 62 - foldr Z.add 0 (map op_size ops)) w ->
  let '(w', samples') := foldl apply_op (w, samples) ops in
  let errs := sampled_errors (w, samples) ops in
  lagAccuracyErrMax (BaseW w') = foldl Z.max (lagAccuracyErrMax (BaseW w)) errs /\
  samples' = samples + Z.of_nat (length errs) /\
  let fires := (samples <? 3) && (3 <=? samples') && negb (restarted w) in
  restarted w' = restarted w || fires /\
  disconnectGen (BaseW w') = (if fires then add1 (disconnectGen (BaseW w)) else disconnectGen (BaseW w)).
Proof. apply ops_lag. Qed.

End OffsetCommitLag.

(** An admin client that reports [n] messages of lag. *)
Definition reports (n : Z) (group : string) : lag_response :=
  LagResponse (Some (None, [("t", [(0, n); (1, -1)])])).

Definition demo_ops : list lag_op :=
  [Produced 20; Produced 20; Sample (reports 2); Sample (reports 5);
   Batch [(0, [(9, demo_record 1 "abc" "abc")])] true; Sample (reports 1); Sample (reports 1)].

Lemma sample_ops_ok : Forall answer_ok demo_ops.
Proof.
  assert (E : forall n g glag, GroupLag (reports n) g = inr glag -> glag = [("t", [(0, n); (1, -1)])])
    by (intros n g glag [= <-]; done).
  unfold demo_ops. repeat apply Forall_cons_2; try exact I; [..|by apply Forall_nil];
    intros g glag Hg; apply E in Hg; subst; vm_compute; split; congruence.
Qed.

Lemma lag_error_exact_witness : exists w,
  @NewOffsetCommitLagWorker list_histogram (fun _ => "") DefaultConfig 1 = Some w /\
  let '(w', samples) := foldl apply_op (w, 0) demo_ops in
  lagAccuracyErrMax (BaseW w') = 3 /\ samples = 4 /\ restarted w' = true /\ disconnectGen (BaseW w') = 1.
Proof.
  destruct (@NewOffsetCommitLagWorker list_histogram (fun _ => "") DefaultConfig 1) as [w|] eqn:Ew;
    [|vm_compute in Ew; discriminate].
  exists w. split; [reflexivity|].
  pose proof (@lag_error_exact list_histogram demo_ops w 0) as Hex.
  vm_compute in Ew. injection Ew as <-.
  specialize (Hex sample_ops_ok ltac:(lia) ltac:(vm_compute; reflexivity)
    ltac:(unfold counters_below; simpl; lia)).
  match goal with |- let '(_, _) := ?e in _ => destruct e as [w' samples'] eqn:El end.
  vm_compute in El. injection El as <- <-. destruct Hex as (H1 & H2 & H3 & H4).
  split; [rewrite H1; vm_compute; reflexivity|].
  split; [rewrite H2; vm_compute; reflexivity|]. split; [exact H3|exact H4].
Defined.

End OffsetCommitLag.
