(* ===== verification/AdminChurn.v ===== *)
(** * admin_topic_churn (burnin/worker/admin_topic_churn.go)

    Create, describe, grow, three invalid partition changes, delete: a cycle is a
    function of what the connector answers, and yields the requests it made. *)

From S2P Require Import Prelude Float64 GoStr Payload Config Metrics Transport Tracker Worker WorkerFacts Loops.
From Stdlib Require Import Ascii.
Local Open Scope string_scope.
Local Open Scope Z_scope.
Local Open Scope list_scope.

Module AdminTopicChurn.

(** The stages of a cycle: where runCycle looks at the context, and the call an
    answer to UpdatePartitions belongs to (the growth, or one of the probes). *)
Inductive cycle_point := AtCreate | AtDescribe | AtMetadata | AtGrow | AtProbe (bad : Z).

Record cycle_env := mk_cycle_env {
  cy_create : string -> Z -> Z -> option error;    (* CreateTopics *)
  cy_describe : bool;                              (* DescribeTopicConfigs returned no error *)
  cy_metadata : bool;                              (* Metadata returned no error *)
  cy_update : cycle_point -> string -> Z -> topic_response;   (* UpdatePartitions, call by call *)
  cy_delete : string -> topic_response;            (* DeleteTopics *)
  cy_cancelled : cycle_point -> bool               (* ctx.Err() != nil *)
}.

Inductive admin_request :=
  | ReqCreate (topic : string) (partitions rf : Z)
  | ReqDescribe (topic : string) | ReqMetadata (topic : string)
  | ReqPartitions (topic : string) (total : Z)
  | ReqDelete (topic : string).

Section AdminTopicChurn.
Context `{HdrHistogram}.

Record AdminTopicChurnWorker := mk_worker {
  BaseW : BaseWorker; baseTopic : string; cycle : Z; admCli : bool
}.

#[export] Instance eta_worker : Eta AdminTopicChurnWorker := fun w =>
  mk_worker (BaseW w) (baseTopic w) (cycle w) (admCli w).

#[export] Program Instance Worker_AdminTopicChurn : Worker AdminTopicChurnWorker := {|
  base := BaseW; upd_base := fun f w => w <| BaseW ::= f |>
|}.
Next Obligation. done. Qed.

Definition NewAdminTopicChurnWorker (getenv : string -> string) (c : Config) (idx : Z)
    : option AdminTopicChurnWorker :=
  let topic := TopicName getenv WorkerAdminTopicChurn idx in
  let channel := MappedChannel topic in
  b ← NewBaseWorker WorkerAdminTopicChurn channel idx c;
  Some (mk_worker b topic 0 false).

(** Start keeps its admin client and is ready at once. *)
Definition Start (env : start_env) (w : AdminTopicChurnWorker) : result AdminTopicChurnWorker :=
  match NewClient (se_build env) (se_getenv env) (kafkaClientCfg (BaseW w) "admin") with
  | Err e => Err (Lit "build kafka client: " :: e)
  | Ok _ => Ok (w <| admCli := true |> <| BaseW ::= signalReady |>)
  end.

Definition StartProducers (w : AdminTopicChurnWorker) : list goroutine := [ChurnLoop].

Definition probes : list Z := [2; 1; 300].

(** The probe loop; it stops early when the context is cancelled. *)
Fixpoint probe_loop (env : cycle_env) (topic : string) (bads : list Z) (b : BaseWorker)
    : BaseWorker * list admin_request :=
  match bads with
  | [] => (b, [])
  | bad :: bads =>
      if cy_cancelled env (AtProbe bad) then (b, [])
      else
        let b := match CreatePartitions (cy_update env (AtProbe bad)) topic bad with
                 | None => recordAdminOpFailure b
                 | Some e =>
                     if errors_Is e InvalidPartitions then recordAdminInvalidRejected b
                     else recordAdminInvalidRejected b
                 end in
        let '(b, reqs) := probe_loop env topic bads b in
        (b, ReqPartitions topic bad :: reqs)
  end.

(** A failed stage: nothing is counted once the context is cancelled. *)
Definition stage_failed (env : cycle_env) (at_ : cycle_point) (errType : string) (b : BaseWorker)
    : BaseWorker :=
  if cy_cancelled env at_ then b else recordAdminOpFailure (recordError errType b).

(** The stages between the creation and the deferred deletion. *)
Definition cycle_body (env : cycle_env) (topic : string) (b : BaseWorker)
    : BaseWorker * list admin_request :=
  if negb (cy_describe env) then (stage_failed env AtDescribe "admin_failure" b, [ReqDescribe topic])
  else if negb (cy_metadata env) then
    (stage_failed env AtMetadata "admin_failure" b, [ReqDescribe topic; ReqMetadata topic])
  else
    let reqs := [ReqDescribe topic; ReqMetadata topic; ReqPartitions topic 2] in
    match CreatePartitions (cy_update env AtGrow) topic 2 with
    | Some _ => (stage_failed env AtGrow "admin_failure" b, reqs)
    | None =>
        let '(b, probed) := probe_loop env topic probes (recordDeleted b) in
        (b, reqs ++ probed)
    end.

Definition churn_topic (w : AdminTopicChurnWorker) (n : Z) : string :=
  baseTopic w ++s ".c" ++s fmt_04d (n mod 10000).

Definition runCycle (env : cycle_env) (w : AdminTopicChurnWorker)
    : AdminTopicChurnWorker * list admin_request :=
  let w := w <| cycle ::= add1 |> in
  let topic := churn_topic w (cycle w) in
  let rf := ReplicationFactor (Kafka (cfg (BaseW w))) in
  match CreateTopic (cy_create env) topic 1 rf with
  | Some _ =>
      (upd_base (stage_failed env AtCreate "create_failure") w, [ReqCreate topic 1 rf])
  | None =>
      let '(b, reqs) := cycle_body env topic (BaseW w) in
      let b := match DeleteTopic (cy_delete env) topic with
               | Some _ => recordError "admin_failure" b
               | None => b
               end in
      (w <| BaseW := b |>, [ReqCreate topic 1 rf] ++ reqs ++ [ReqDelete topic])
  end.

(** churnLoop over the cycles the limiter lets through. *)
Fixpoint churnLoop (envs : list cycle_env) (w : AdminTopicChurnWorker)
    : AdminTopicChurnWorker * list (list admin_request) :=
  match envs with
  | [] => (w, [])
  | env :: envs =>
      let '(w, reqs) := runCycle env w in
      let '(w, rest) := churnLoop envs w in
      (w, reqs :: rest)
  end.

Definition StopConsumers (w : AdminTopicChurnWorker) : AdminTopicChurnWorker := w <| admCli := false |>.

(** ** What a cycle should count *)

Definition created (env : cycle_env) (topic : string) (rf : Z) : bool :=
  match CreateTopic (cy_create env) topic 1 rf with None => true | Some _ => false end.

Definition accepted (env : cycle_env) (topic : string) (at_ : cycle_point) (n : Z) : bool :=
  match CreatePartitions (cy_update env at_) topic n with None => true | Some _ => false end.

(** The connector took the invalid change to [bad] partitions. *)
Definition accepted_bad (env : cycle_env) (topic : string) (bad : Z) : bool :=
  accepted env topic (AtProbe bad) bad.

(** Every operation that must succeed does. *)
Definition grown (env : cycle_env) (topic : string) (rf : Z) : bool :=
  created env topic rf && cy_describe env && cy_metadata env && accepted env topic AtGrow 2.

Definition accepted_probes (env : cycle_env) (topic : string) : Z :=
  count_true (map (accepted_bad env topic) probes).

Definition cycle_failures (env : cycle_env) (topic : string) (rf : Z) : Z :=
  if grown env topic rf then accepted_probes env topic else 1.
Definition cycle_rejections (env : cycle_env) (topic : string) (rf : Z) : Z :=
  if grown env topic rf then 3 - accepted_probes env topic else 0.

(** The topic of each cycle of a run. *)
Fixpoint cycle_topics (w : AdminTopicChurnWorker) (n : Z) (envs : list cycle_env)
    : list (cycle_env * string) :=
  match envs with
  | [] => []
  | env :: envs => (env, churn_topic w (add1 n)) :: cycle_topics w (add1 n) envs
  end.

Definition total (f : cycle_env -> string -> Z) (l : list (cycle_env * string)) : Z :=
  foldr (fun '(env, topic) acc => f env topic + acc) 0 l.

(** ** Properties *)

Definition admin_view (b : BaseWorker) := (adminOpFailures b, adminInvalidRejected b, deleted b).

Lemma probe_loop_counts env topic : (forall p, cy_cancelled env p = false) -> forall bads b,
  let b' := (probe_loop env topic bads b).1 in
  let n := count_true (map (accepted_bad env topic) bads) in
  u64_wrap (adminOpFailures b') = u64_wrap (adminOpFailures b + n) /\
  u64_wrap (adminInvalidRejected b') = u64_wrap (adminInvalidRejected b + (Z.of_nat (length bads) - n)) /\
  deleted b' = deleted b /\ cfg b' = cfg b.
Proof.
  intros Hc. induction bads as [|bad bads IH]; intros b.
  { cbn. rewrite !Z.add_0_r. by split_and!. }
  cbn [probe_loop map]. rewrite Hc. rewrite count_true_cons. set (b1 := match CreatePartitions _ _ _ with None => _ | Some _ => _ end).
  specialize (IH b1). destruct (probe_loop env topic bads b1) as [b2 reqs]. cbv zeta in *. cbn [fst] in *.
  destruct IH as (-> & -> & -> & ->).
  assert (Hb1 : adminOpFailures b1 = (if accepted_bad env topic bad then add1 (adminOpFailures b) else adminOpFailures b) /\
    adminInvalidRejected b1 = (if accepted_bad env topic bad then adminInvalidRejected b else add1 (adminInvalidRejected b)) /\
    deleted b1 = deleted b /\ cfg b1 = cfg b).
  { unfold b1, accepted_bad, accepted. destruct (CreatePartitions _ _ _) as [e|]; [destruct (errors_Is e _)|]; by split_and!. }
  destruct Hb1 as (-> & -> & -> & ->). cbn [length].
  destruct (accepted_bad env topic bad); unfold add1; rewrite ?u64_wrap_add_l; split_and!; try done; f_equal; lia.
Qed.

(** What one uncancelled piece of work adds to the three counters. *)
Definition counts (b b' : BaseWorker) (failures rejections mutations : Z) : Prop :=
  u64_wrap (adminOpFailures b') = u64_wrap (adminOpFailures b + failures) /\
  u64_wrap (adminInvalidRejected b') = u64_wrap (adminInvalidRejected b + rejections) /\
  u64_wrap (deleted b') = u64_wrap (deleted b + mutations) /\ cfg b' = cfg b.

Lemma counts_trans b1 b2 b3 f1 r1 m1 f2 r2 m2 :
  counts b1 b2 f1 r1 m1 -> counts b2 b3 f2 r2 m2 -> counts b1 b3 (f1 + f2) (r1 + r2) (m1 + m2).
Proof.
  intros (F1 & R1 & M1 & C1) (F2 & R2 & M2 & C2). unfold counts.
  rewrite F2, R2, M2, <- (u64_wrap_add_l (adminOpFailures b2)), <- (u64_wrap_add_l (adminInvalidRejected b2)),
    <- (u64_wrap_add_l (deleted b2)), F1, R1, M1, !u64_wrap_add_l, C2.
  split_and!; [f_equal; lia..|done].
Qed.

Lemma stage_failed_counts env p t b : cy_cancelled env p = false -> counts b (stage_failed env p t b) 1 0 0.
Proof.
  unfold stage_failed, counts. intros ->. split_and!; rewrite ?Z.add_0_r; try done.
  change (adminOpFailures (recordAdminOpFailure (recordError t b))) with (u64_wrap (adminOpFailures b + 1)).
  apply u64_wrap_wrap.
Qed.

Definition body_ok (env : cycle_env) (topic : string) : bool :=
  cy_describe env && cy_metadata env && accepted env topic AtGrow 2.

Lemma cycle_body_counts env topic b : (forall p, cy_cancelled env p = false) ->
  let n := accepted_probes env topic in
  if body_ok env topic then counts b (cycle_body env topic b).1 n (3 - n) 1
  else counts b (cycle_body env topic b).1 1 0 0.
Proof.
  intros Hc n. unfold cycle_body, body_ok.
  destruct (cy_describe env); cbn [negb andb]; [|by apply stage_failed_counts].
  destruct (cy_metadata env); cbn [negb andb]; [|by apply stage_failed_counts].
  unfold accepted. destruct (CreatePartitions (cy_update env AtGrow) topic 2); [by apply stage_failed_counts|].
  pose proof (probe_loop_counts env topic Hc probes (recordDeleted b)) as Hp.
  destruct (probe_loop env topic probes (recordDeleted b)) as [b' reqs]. cbv zeta in Hp. cbn [fst] in *.
  destruct Hp as (Hf & Hr & Hd & Hg). unfold counts. rewrite Hf, Hr, Hd, Hg. split_and!; try done.
  change (deleted (recordDeleted b)) with (u64_wrap (deleted b + 1)). apply u64_wrap_wrap.
Qed.

Lemma runCycle_counts env w : (forall p, cy_cancelled env p = false) ->
  let w' := (runCycle env w).1 in
  let topic := churn_topic w (add1 (cycle w)) in
  let rf := ReplicationFactor (Kafka (cfg (BaseW w))) in
  counts (BaseW w) (BaseW w') (cycle_failures env topic rf) (cycle_rejections env topic rf)
    (if grown env topic rf then 1 else 0) /\
  cycle w' = add1 (cycle w) /\ baseTopic w' = baseTopic w.
Proof.
  intros Hc. destruct w as [b bt cy cl]. unfold runCycle, cycle_failures, cycle_rejections, grown, created.
  cbv [set_field]. unfold churn_topic. cbn [BaseW baseTopic cycle eta_expand eta_worker]. 
  set (topic := bt ++s _). set (rf := ReplicationFactor _).
  pose proof (cycle_body_counts env topic b Hc) as Hb. unfold body_ok in Hb.
  destruct (CreateTopic (cy_create env) topic 1 rf); cbn [andb fst].
  { split; [by apply (stage_failed_counts env AtCreate "create_failure")|done]. }
  destruct (cycle_body env topic b) as [b' reqs]. cbv zeta in Hb. cbn [fst] in *. split; [|done].
  assert (Hdel : forall n r m, counts b b' n r m -> counts b
    (match DeleteTopic (cy_delete env) topic with Some _ => recordError "admin_failure" b' | None => b' end) n r m)
    by (intros; by destruct (DeleteTopic (cy_delete env) topic)).
  destruct (cy_describe env && cy_metadata env && accepted env topic AtGrow 2); by apply Hdel.
Qed.

Lemma cycle_topics_base w w1 envs : baseTopic w1 = baseTopic w ->
  forall n, cycle_topics w1 n envs = cycle_topics w n envs.
Proof.
  intros Hbt. induction envs as [|env envs IH]; intros n; [done|].
  cbn [cycle_topics]. rewrite IH. unfold churn_topic. by rewrite Hbt.
Qed.

Lemma churn_counts envs : forall w, Forall (fun env => forall p, cy_cancelled env p = false) envs ->
  let w' := (churnLoop envs w).1 in
  let rf := ReplicationFactor (Kafka (cfg (BaseW w))) in
  let cs := cycle_topics w (cycle w) envs in
  counts (BaseW w) (BaseW w')
    (total (fun env t => cycle_failures env t rf) cs)
    (total (fun env t => cycle_rejections env t rf) cs)
    (total (fun env t => if grown env t rf then 1 else 0) cs).
Proof.
  induction envs as [|env envs IH]; intros w Hc.
  { unfold counts. cbn. by rewrite !Z.add_0_r. }
  apply Forall_cons in Hc as [Hc Hcs]. cbn [churnLoop cycle_topics total foldr].
  destruct (runCycle_counts env w Hc) as (Hcnt & Hcy & Hbt). cbv zeta in *.
  destruct (runCycle env w) as [w1 reqs]. cbn [fst] in *. specialize (IH w1 Hcs).
  destruct (churnLoop envs w1) as [w2 rest]. cbn [fst] in *.
  pose proof Hcnt as (_ & _ & _ & Hcfg). rewrite Hcfg, Hcy in IH.
  rewrite (cycle_topics_base w w1 _ Hbt) in IH. exact (counts_trans _ _ _ _ _ _ _ _ _ Hcnt IH).
Qed.

Lemma accepted_probes_range env topic : 0 <= accepted_probes env topic <= 3.
Proof. unfold accepted_probes, probes. cbn [map]. rewrite !count_true_cons. unfold count_true. simpl. repeat case_match; lia. Qed.

Lemma failures_nonneg env topic rf : 0 <= cycle_failures env topic rf.
Proof. unfold cycle_failures. pose proof (accepted_probes_range env topic). case_match; lia. Qed.

(** C32: the churn accounting is exact.  Over any uncancelled cycles, whatever
    the connector answers to each single call: a cycle whose creation, descriptions and growth all
    succeed counts one mutation, one failure for each invalid partition change the
    connector accepted and one rejection for each it refused; any other cycle
    counts one failure.  So the failure gate holds exactly when every cycle
    succeeded and every invalid change was refused. *)
Theorem churn_exact envs w :
  Forall (fun env => forall p, cy_cancelled env p = false) envs ->
  let b' := BaseW (churnLoop envs w).1 in
  let rf := ReplicationFactor (Kafka (cfg (BaseW w))) in
  let cs := cycle_topics w (cycle w) envs in
  let failures := total (fun env t => cycle_failures env t rf) cs in
  u64_wrap (adminOpFailures b') = u64_wrap (adminOpFailures (BaseW w) + failures) /\
  u64_wrap (adminInvalidRejected b') = u64_wrap (adminInvalidRejected (BaseW w)
    + total (fun env t => cycle_rejections env t rf) cs) /\
  u64_wrap (deleted b') = u64_wrap (deleted (BaseW w)
    + total (fun env t => if grown env t rf then 1 else 0) cs) /\
  (failures = 0 <->
   Forall (fun '(env, t) => grown env t rf = true /\ accepted_probes env t = 0) cs).
Proof.
  intros Hc b' rf cs failures. destruct (churn_counts envs w Hc) as (Hf & Hr & Hm & _).
  split; [exact Hf|]. split; [exact Hr|]. split; [exact Hm|].
  unfold failures. clear. induction cs as [|[env t] cs IH]; cbn [total foldr]; [done|].
  assert (Hn : 0 <= total (fun env t => cycle_failures env t rf) cs).
  { clear. induction cs as [|[env t] cs IH]; cbn [total foldr]; [lia|].
    pose proof (failures_nonneg env t rf). unfold total in IH. lia. }
  unfold total in *. pose proof (failures_nonneg env t rf). pose proof (accepted_probes_range env t).
  rewrite Forall_cons, <- IH. unfold cycle_failures in *. destruct (grown env t rf).
  - split; [intros; split; [split; [done|]|]; lia|intros [[_ ?] ?]; lia].
  - split; [lia|]. by intros [[? _] _].
Qed.

(** A request between the creation and the deletion of [topic]. *)
Definition inner_request (topic : string) (r : admin_request) : Prop :=
  match r with
  | ReqDescribe t | ReqMetadata t | ReqPartitions t _ => t = topic
  | ReqCreate _ _ _ | ReqDelete _ => False
  end.

(** A cycle's requests: the topic is deleted, last, exactly if it was created. *)
Definition cleans_up (rf : Z) (env : cycle_env) (topic : string) (reqs : list admin_request) : Prop :=
  if created env topic rf then
    exists inner, reqs = [ReqCreate topic 1 rf] ++ inner ++ [ReqDelete topic] /\
                  Forall (inner_request topic) inner
  else reqs = [ReqCreate topic 1 rf].

Lemma probe_loop_inner env topic bads : forall b, Forall (inner_request topic) (probe_loop env topic bads b).2.
Proof.
  induction bads as [|bad bads IH]; intros b; cbn [probe_loop]; [by apply Forall_nil|].
  destruct (cy_cancelled env (AtProbe bad)); [by apply Forall_nil|].
  match goal with |- context [probe_loop env topic bads ?b1] => specialize (IH b1);
    destruct (probe_loop env topic bads b1) as [b2 reqs] end.
  cbn [snd] in *. by apply Forall_cons.
Qed.

Lemma probe_loop_cfg env topic bads : forall b, cfg (probe_loop env topic bads b).1 = cfg b.
Proof.
  induction bads as [|bad bads IH]; intros b; cbn [probe_loop]; [done|].
  destruct (cy_cancelled env (AtProbe bad)); [done|].
  match goal with |- context [probe_loop env topic bads ?b1] => specialize (IH b1);
    destruct (probe_loop env topic bads b1) as [b2 reqs] eqn:E end.
  cbn [fst] in *. rewrite IH. destruct (CreatePartitions _ _ _) as [e|]; [by destruct (errors_Is e _)|done].
Qed.

Lemma cycle_body_inner env topic b :
  Forall (inner_request topic) (cycle_body env topic b).2 /\ cfg (cycle_body env topic b).1 = cfg b.
Proof.
  unfold cycle_body, stage_failed.
  destruct (cy_describe env); cbn [negb]; [|split; [by repeat constructor|by destruct (cy_cancelled env _)]].
  destruct (cy_metadata env); cbn [negb]; [|split; [by repeat constructor|by destruct (cy_cancelled env _)]].
  destruct (CreatePartitions _ _ _); [split; [by repeat constructor|by destruct (cy_cancelled env _)]|].
  pose proof (probe_loop_inner env topic probes (recordDeleted b)).
  pose proof (probe_loop_cfg env topic probes (recordDeleted b)).
  destruct (probe_loop env topic probes (recordDeleted b)) as [b' reqs]. cbn [fst snd] in *.
  split; [|done]. apply Forall_app. split; [by repeat constructor|done].
Qed.

Lemma runCycle_cleans env w :
  let '(w', reqs) := runCycle env w in
  cleans_up (ReplicationFactor (Kafka (cfg (BaseW w)))) env (churn_topic w (add1 (cycle w))) reqs /\
  cfg (BaseW w') = cfg (BaseW w) /\ cycle w' = add1 (cycle w) /\ baseTopic w' = baseTopic w.
Proof.
  destruct w as [b bt cy cl]. unfold runCycle, cleans_up, created.
  cbv [set_field]. unfold churn_topic. cbn [BaseW baseTopic cycle eta_expand eta_worker].
  set (topic := bt ++s _). set (rf := ReplicationFactor _).
  destruct (CreateTopic (cy_create env) topic 1 rf).
  { split; [done|]. split; [|done]. unfold upd_base, Worker_AdminTopicChurn. cbv [set_field]. cbn [BaseW].
    unfold stage_failed. by destruct (cy_cancelled env AtCreate). }
  destruct (cycle_body_inner env topic b) as [Hi Hg].
  destruct (cycle_body env topic b) as [b' reqs]. cbn [fst snd] in *.
  split; [by exists reqs|]. split; [|done]. cbn [BaseW].
  rewrite <- Hg. by destruct (DeleteTopic (cy_delete env) topic).
Qed.

(** C33: the churn leaves nothing behind.  Whatever the connector answers to each
    single call and whenever the run is cancelled, each cycle works on its own topic, and its
    last request deletes that topic exactly if it was created. *)
Theorem churn_cleans_up envs : forall w,
  Forall2 (fun '(env, topic) reqs =>
             cleans_up (ReplicationFactor (Kafka (cfg (BaseW w)))) env topic reqs)
    (cycle_topics w (cycle w) envs) (churnLoop envs w).2.
Proof.
  induction envs as [|env envs IH]; intros w; [by constructor|].
  cbn [churnLoop cycle_topics]. pose proof (runCycle_cleans env w) as Hcyc.
  destruct (runCycle env w) as [w1 reqs]. destruct Hcyc as (Hclean & Hcfg & Hcy & Hbt).
  specialize (IH w1). destruct (churnLoop envs w1) as [w2 rest]. cbn [snd] in *.
  rewrite Hcfg, Hcy in IH.
  rewrite (cycle_topics_base w w1 _ Hbt) in IH. by constructor.
Qed.

End AdminTopicChurn.

(** A connector that follows the Kafka rules, up to the partition cap [cap]: a
    topic has one partition until the growth and two from then on, and a change
    must raise the count and stay within the cap. *)
Definition connector (cap : Z) : cycle_env := {|
  cy_create := fun _ _ _ => None; cy_describe := true; cy_metadata := true;
  cy_update := fun at_ _ n =>
    let current := match at_ with AtProbe _ => 2 | _ => 1 end in
    if (current <? n) && (n <=? cap) then Response (Some None) None
    else Response (Some (Some (mk_error InvalidPartitions []))) None;
  cy_delete := fun _ => Response (Some None) None; cy_cancelled := fun _ => false |}.

(** A cycle against it, with Kafka's cap of 256, is clean. *)
Example connector_clean topic rf :
  (grown (connector 256) topic rf, cycle_failures (connector 256) topic rf,
   cycle_rejections (connector 256) topic rf) = (true, 0, 3).
Proof. reflexivity. Qed.

Definition refused : cycle_env := {|
  cy_create := fun _ _ _ => Some (mk_error OtherError []); cy_describe := true; cy_metadata := true;
  cy_update := fun _ _ _ => Response None None; cy_delete := fun _ => Response None None;
  cy_cancelled := fun _ => false |}.

(** A clean cycle, one against a connector without a cap that matters, which takes
    the 300 partitions, and one whose creation fails. *)
Lemma churn_exact_witness : exists w,
  @NewAdminTopicChurnWorker list_histogram (fun _ => "") DefaultConfig 1 = Some w /\
  (let b' := BaseW (churnLoop [connector 256] w).1 in
   u64_wrap (adminOpFailures b') = 0 /\ u64_wrap (adminInvalidRejected b') = 3) /\
  (let b' := BaseW (churnLoop [connector 256; connector 1000; refused] w).1 in
   u64_wrap (adminOpFailures b') = 2 /\ u64_wrap (adminInvalidRejected b') = 5 /\
   u64_wrap (deleted b') = 2).
Proof.
  destruct (@NewAdminTopicChurnWorker list_histogram (fun _ => "") DefaultConfig 1) as [w|] eqn:Ew;
    [|vm_compute in Ew; discriminate].
  exists w. split; [reflexivity|]. vm_compute in Ew. injection Ew as <-. split.
  - match goal with |- context [churnLoop ?envs ?w] =>
      destruct (@churn_exact list_histogram envs w) as (H1 & H2 & _); [by repeat constructor|] end.
    split; [rewrite H1; vm_compute; reflexivity|rewrite H2; vm_compute; reflexivity].
  - match goal with |- context [churnLoop ?envs ?w] =>
      destruct (@churn_exact list_histogram envs w) as (H1 & H2 & H3 & _); [by repeat constructor|] end.
    split; [rewrite H1; vm_compute; reflexivity|].
    split; [rewrite H2; vm_compute; reflexivity|rewrite H3; vm_compute; reflexivity].
Defined.

End AdminTopicChurn.
