(* ===== verification/TransactionsEOS.v ===== *)
(** * transactions_eos (burnin/worker/transactions_eos.go)

    A transactional producer that alternates aborted and committed transactions,
    and a read_committed consumer that checks what comes out. *)

From S2P Require Import Prelude Float64 GoStr Payload Config Metrics Transport Tracker TrackerFacts Worker WorkerFacts Loops LoopsFacts.
From Stdlib Require Import Ascii.
Local Open Scope string_scope.
Local Open Scope Z_scope.
Local Open Scope list_scope.

Module TransactionsEOS.

Definition txnRecordsPerCycle : nat := 4.
Definition txnOutcomeHeader : string := "TxnOutcome".

(** The value of the first header named [key], or the empty string. *)
Fixpoint headerValue (headers : list RecordHeader) (key : string) : string :=
  match headers with
  | [] => ""
  | h :: headers => if String.eqb (hKey h) key then hValue h else headerValue headers key
  end.

(** What one send of a transaction finds outside. *)
Record txn_send := mk_txn_send {
  ts_rate : bool;         (* the limiter let it through *)
  ts_draw : Z; ts_rnd : nat -> Z; ts_now : Z;
  ts_acked : bool         (* ProduceSync returned no error *)
}.

(** What one turn of produceLoop finds outside. *)
Record txn_env := mk_txn_env {
  te_cancelled : bool;          (* ctx.Err() != nil at the head of the loop *)
  te_client : bool;             (* NewClient succeeded *)
  te_sleep : bool;              (* sleepCtx after it failed *)
  te_begin : bool;              (* BeginTransaction succeeded *)
  te_cancelled_begin : bool;    (* ctx.Err() != nil when it failed *)
  te_sends : nat -> txn_send;
  te_end : bool;                (* EndTransaction succeeded *)
  te_cancelled_end : bool;      (* ctx.Err() != nil when it failed *)
  te_cancelled_after : bool     (* ctx.Err() != nil at the end of the turn *)
}.

(** A transaction as the connector saw it: the records handed to ProduceSync with
    their acknowledgement, whether a commit was requested, and the outcome. *)
Record transaction := mk_transaction {
  tx_records : list (KRecord * bool); tx_commit : bool; tx_ended : bool
}.

Section TransactionsEOS.
Context `{HdrHistogram}.

Record TransactionsEOSWorker := mk_worker {
  BaseW : BaseWorker; topic : string; group : string; txnID : string; txnCli : bool;
  committedSeq : Z; abortSeq : Z; cycle : Z; seen : gset string
}.

#[export] Instance eta_worker : Eta TransactionsEOSWorker := fun w =>
  mk_worker (BaseW w) (topic w) (group w) (txnID w) (txnCli w)
    (committedSeq w) (abortSeq w) (cycle w) (seen w).

#[export] Program Instance Worker_TransactionsEOS : Worker TransactionsEOSWorker := {|
  base := BaseW; upd_base := fun f w => w <| BaseW ::= f |>
|}.
Next Obligation. done. Qed.

Definition NewTransactionsEOSWorker (getenv : string -> string) (c : Config) (idx : Z)
    : option TransactionsEOSWorker :=
  let topic := TopicName getenv WorkerTransactionsEOS idx in
  let channel := MappedChannel topic in
  b ← NewBaseWorker WorkerTransactionsEOS channel idx c;
  Some (mk_worker b topic (groupID b "eos")
          (ClientIDPrefix (Broker c) ++s "-" ++s channel ++s "-txn") false 0 0 0 ∅).

Definition txnClientCfg (w : TransactionsEOSWorker) : KafkaClientConfig :=
  (kafkaClientCfg (BaseW w) "txn")
    <| cc_Acks := "all" |> <| cc_Idempotent := true |> <| cc_TransactionalID := txnID w |>
    <| cc_TxnTimeoutMS := TxnTimeoutMS (Kafka (cfg (BaseW w))) |>.

Definition consumerCfg (w : TransactionsEOSWorker) : KafkaClientConfig :=
  (group_consumer (BaseW w) "cons" (group w) (topic w)) <| cc_IsolationLevel := "read_committed" |>.

Definition Start (env : start_env) (w : TransactionsEOSWorker) : result (list goroutine) :=
  _ ← provision env (topic w) (BaseW w);
  Ok [ConsumeLoop (consumerCfg w)].

(** producerID + "|" + fmt.Sprint(seq) *)
Definition seen_key (producerID : string) (seq : Z) : string := producerID ++s "|" ++s FormatUint seq.

Definition handleRecord (now : Z) (r : KRecord) (w : TransactionsEOSWorker) : TransactionsEOSWorker :=
  let b := recordReceived (Z.of_nat (length (rValue r))) (BaseW w) in
  let '(m, ok) := extractMeta (rHeaders r) in
  let outcome := headerValue (rHeaders r) txnOutcomeHeader in
  if String.eqb outcome "abort" then w <| BaseW := recordEOSViolation b |>
  else if negb ok then w <| BaseW := b |>
  else
    let b := latency_record now m (verify_record r m b) in
    let key := seen_key (m_producerID m) (m_seq m) in
    if bool_decide (key ∈ seen w) then w <| BaseW := recordKIP890Residual b |>
    else
      w <| seen ::= fun s => {[ key ]} ∪ s |>
        <| BaseW := b <| trk ::= fun t => snd (Track.Record_ t (m_producerID m) (m_seq m)) |> |>.

Definition consumeLoop (envs : list consume_env) (w : TransactionsEOSWorker)
    : TransactionsEOSWorker * consumer * control :=
  let generation w := disconnectGeneration (BaseW w) in
  consume_loop generation
    (fun _ f w => (each_record (fun _ now r => handleRecord now r) f w, Continue))
    envs w (mk_consumer (generation w) false).

Definition StartProducers (w : TransactionsEOSWorker) : list goroutine := [ProduceLoop 0].

(** The sends of one transaction, [k] of them left: the worker with its sequence
    counters moved, the records produced, and [produceErr]. *)
Fixpoint send_loop (commit : bool) (sends : nat -> txn_send) (k : nat) (w : TransactionsEOSWorker)
    : TransactionsEOSWorker * list (KRecord * bool) * bool :=
  match k with
  | O => (w, [], false)
  | S k =>
      let s := sends (txnRecordsPerCycle - S k)%nat in
      if negb (ts_rate s) then (w, [], true)
      else
        let w := if commit then w <| committedSeq ::= add1 |> else w <| abortSeq ::= add1 |> in
        let seq := if commit then committedSeq w else abortSeq w in
        let pid := channelName (BaseW w) ++s (if commit then "-txn" else "-abort") in
        let outcome := if commit then "commit" else "abort" in
        let '(body, crcHex) := Build (ts_rnd s) (selectMessageSize (ts_draw s) (BaseW w)) in
        let rec := {| rTopic := topic w; rKey := None; rValue := body;
                      rHeaders := stampHeaders pid seq crcHex (ts_now s)
                                  ++ [mk_RecordHeader txnOutcomeHeader outcome];
                      rOffset := 0 |} in
        if negb (ts_acked s) then (w, [(rec, false)], true)
        else
          let '(w, recs, err) := send_loop commit sends k w in
          (w, (rec, true) :: recs, err)
  end.

(** metricObserveSend(0) and recordSent for every record of the transaction. *)
Definition count_sent (recs : list (KRecord * bool)) (b : BaseWorker) : BaseWorker :=
  foldl (fun b r => recordSent (Z.of_nat (length (rValue r.1))) (metricObserveSend 0 b)) b recs.

Definition produce_turn (env : txn_env) (w : TransactionsEOSWorker)
    : TransactionsEOSWorker * list transaction * control :=
  if te_cancelled env then (w, [], Return)
  else if negb (txnCli w) && negb (te_client env) then
    (w <| BaseW ::= recordError "txn_failure" |>, [], if te_sleep env then Continue else Return)
  else
    let w := w <| txnCli := true |> <| cycle ::= add1 |> in
    let commit := cycle w mod 2 =? 0 in
    if negb (te_begin env) then
      if te_cancelled_begin env then (w, [], Return)
      else (w <| BaseW ::= recordError "txn_failure" |> <| txnCli := false |>, [], Continue)
    else
      let '(w, recs, produceErr) := send_loop commit (te_sends env) txnRecordsPerCycle w in
      let try_commit := negb (negb commit || produceErr) in
      let tx := mk_transaction recs try_commit (te_end env) in
      if negb (te_end env) then
        if te_cancelled_end env then (w, [tx], Return)
        else (w <| BaseW ::= recordError "txn_failure" |> <| txnCli := false |>, [tx], Continue)
      else
        let w := if try_commit && negb produceErr then w <| BaseW ::= count_sent recs |> else w in
        (w, [tx], if te_cancelled_after env then Return else Continue).

Fixpoint produceLoop (envs : list txn_env) (w : TransactionsEOSWorker)
    : TransactionsEOSWorker * list transaction :=
  match envs with
  | [] => (w, [])
  | env :: envs =>
      let '(w, txs, k) := produce_turn env w in
      match k with
      | Return => (w, txs)
      | Continue => let '(w, rest) := produceLoop envs w in (w, txs ++ rest)
      end
  end.

Definition StopProducers (w : TransactionsEOSWorker) : TransactionsEOSWorker := w <| txnCli := false |>.

(** ** The read_committed consumer *)

Lemma last_cut {A} (x : A) l1 l2 k1 k2 : x ∉ k1 -> x ∉ k2 ->
  l1 ++ x :: k1 = l2 ++ x :: k2 -> l1 = l2 /\ k1 = k2.
Proof.
  intros H1 H2. revert l2. induction l1 as [|y l1 IH]; intros [|z l2] E; cbn in E.
  - by injection E as ->.
  - injection E as -> E. destruct H1. rewrite E. apply elem_of_app. right. by left.
  - injection E as -> E. destruct H2. rewrite <- E. apply elem_of_app. right. by left.
  - injection E as -> E. by destruct (IH l2 E) as [-> ->].
Qed.

Lemma all_digits_bar s : all_digits s = true -> "|"%char ∉ String.list_ascii_of_string s.
Proof.
  unfold all_digits. intros Hd Hin. rewrite forallb_forall in Hd.
  apply list_elem_of_In in Hin. by apply Hd in Hin.
Qed.

(** Distinct (producer, sequence) pairs have distinct keys. *)
Lemma seen_key_inj p s p' s' : 0 <= s -> 0 <= s' -> seen_key p s = seen_key p' s' -> p = p' /\ s = s'.
Proof.
  intros Hs Hs' E. unfold seen_key in E. apply (f_equal String.list_ascii_of_string) in E.
  rewrite !list_ascii_append in E. apply last_cut in E as [Ep Es];
    [|by apply all_digits_bar, FormatUint_digits..].
  apply (f_equal String.string_of_list_ascii) in Ep, Es.
  rewrite !String.string_of_list_ascii_of_string in Ep, Es. split; [done|].
  by apply FormatUint_inj.
Qed.

Lemma ParseUint_range s n : ParseUint s = Some n -> u64_ok n.
Proof.
  assert (Hd : forall s acc m, 0 <= acc -> parse_digits acc s = Some m -> 0 <= m).
  { clear. induction s as [|c s IH]; intros acc m Ha; cbn [parse_digits]; [by intros [= ->]|].
    destruct (is_digit c) eqn:Ec; [|done]. apply IH. unfold is_digit, digit_val in *. zify_bool. lia. }
  unfold ParseUint. destruct s as [|c s]; [done|].
  destruct (parse_digits 0 (String c s)) as [k|] eqn:E; cbn [mbind option_bind]; [|done].
  apply Hd in E; [|lia]. destruct (Z.ltb_spec k (2 ^ 64)); intros [= <-]. unfold u64_ok. lia.
Qed.

Lemma extractMeta_seq_ok hs m ok : extractMeta hs = (m, ok) -> u64_ok (m_seq m).
Proof.
  assert (Hf : forall hs m, u64_ok (m_seq m) -> u64_ok (m_seq (foldl meta_step m hs))).
  { clear. induction hs as [|h hs IH]; intros m Hm; [done|]. cbn [foldl]. apply IH. unfold meta_step.
    repeat case_match; try done. cbn. by eapply ParseUint_range. }
  assert (H0 : u64_ok 0) by (unfold u64_ok; lia).
  unfold extractMeta. destruct hs as [|h hs]; intros [= <- _]; [exact H0|]. exact (Hf (h :: hs) (mk_Meta "" 0 "" None) H0).
Qed.

(** What the consumer makes of a delivery. *)
Inductive delivery := AbortedLeak | Foreign | Committed (pid : string) (seq : Z).

Definition classify (r : KRecord) : delivery :=
  if String.eqb (headerValue (rHeaders r) txnOutcomeHeader) "abort" then AbortedLeak
  else match extractMeta (rHeaders r) with
       | (m, true) => Committed (m_producerID m) (m_seq m)
       | (_, false) => Foreign
       end.

Definition leaks (rs : list KRecord) : Z :=
  count_true (map (fun r => match classify r with AbortedLeak => true | _ => false end) rs).

(** The committed (producer, sequence) pairs delivered, in order. *)
Definition committed (rs : list KRecord) : list (string * Z) :=
  omap (fun r => match classify r with Committed p s => Some (p, s) | _ => None end) rs.

(** The first delivery of each pair. *)
Fixpoint firsts (known l : list (string * Z)) : list (string * Z) :=
  match l with
  | [] => []
  | x :: l => if decide (x ∈ known) then firsts known l else x :: firsts (x :: known) l
  end.

Lemma firsts_elem l : forall known x, x ∈ firsts known l <-> x ∈ l /\ x ∉ known.
Proof.
  induction l as [|y l IH]; intros known x; cbn [firsts]; [rewrite elem_of_nil; tauto|].
  destruct (decide (y ∈ known)); rewrite ?elem_of_cons, IH, ?elem_of_cons; [naive_solver|].
  destruct (decide (x = y)) as [->|]; naive_solver.
Qed.

Lemma firsts_NoDup l : forall known, NoDup (firsts known l).
Proof.
  induction l as [|y l IH]; intros known; cbn [firsts]; [by constructor|].
  destruct (decide (y ∈ known)); [done|]. constructor; [|done].
  rewrite firsts_elem, elem_of_cons. tauto.
Qed.

Definition track_pairs (t : Track.Tracker) (l : list (string * Z)) : Track.Tracker :=
  foldl (fun t '(p, s) => snd (Track.Record_ t p s)) t l.

Definition handle_all (ds : list (Z * KRecord)) (w : TransactionsEOSWorker) : TransactionsEOSWorker :=
  foldl (fun w '(now, r) => handleRecord now r w) w ds.

(** [seen] holds the keys of the pairs in [known]. *)
Definition seen_pairs (w : TransactionsEOSWorker) (known : list (string * Z)) : Prop :=
  Forall (fun x => 0 <= x.2) known /\
  forall k, k ∈ seen w <-> exists p s, (p, s) ∈ known /\ k = seen_key p s.

Lemma seen_pairs_mem w known p s : seen_pairs w known -> 0 <= s ->
  bool_decide (seen_key p s ∈ seen w) = bool_decide ((p, s) ∈ known).
Proof.
  intros [Hk Hs] H0. apply bool_decide_ext. rewrite Hs. split; [|by eauto].
  intros (p' & s' & Hin & E). rewrite Forall_forall in Hk. specialize (Hk _ Hin).
  apply seen_key_inj in E as [-> ->]; done.
Qed.

(** One delivery. *)
Lemma handleRecord_step now r w known : seen_pairs w known ->
  let w' := handleRecord now r w in let b := BaseW w in let b' := BaseW w' in
  received b' = add1 (received b) /\ duplicated b' = duplicated b /\
  match classify r with
  | AbortedLeak => eosViolations b' = add1 (eosViolations b) /\ kip890Residual b' = kip890Residual b /\
                   trk b' = trk b /\ seen_pairs w' known
  | Foreign => eosViolations b' = eosViolations b /\ kip890Residual b' = kip890Residual b /\
               trk b' = trk b /\ seen_pairs w' known
  | Committed p s =>
      0 <= s /\ eosViolations b' = eosViolations b /\
      if decide ((p, s) ∈ known) then
        kip890Residual b' = add1 (kip890Residual b) /\ trk b' = trk b /\ seen_pairs w' known
      else
        kip890Residual b' = kip890Residual b /\ trk b' = snd (Track.Record_ (trk b) p s) /\
        seen_pairs w' ((p, s) :: known)
  end.
Proof.
  intros Hk. destruct w as [b tp gp tx cl cs as_ cy sn]. cbv zeta. unfold handleRecord, classify. cbn [BaseW].
  set (b0 := recordReceived _ b).
  assert (E0 : received b0 = add1 (received b) /\ duplicated b0 = duplicated b /\
    eosViolations b0 = eosViolations b /\ kip890Residual b0 = kip890Residual b /\ trk b0 = trk b) by done.
  clearbody b0. destruct E0 as (R0 & D0 & V0 & K0 & T0).
  destruct (extractMeta (rHeaders r)) as [m ok] eqn:Em. pose proof (extractMeta_seq_ok _ _ _ Em) as Hseq.
  destruct (String.eqb (headerValue _ _) "abort").
  { rewrite <- R0, <- D0, <- V0, <- K0, <- T0. by split_and!. }
  destruct ok; cbn [negb]; [|by rewrite <- R0, <- D0, <- V0, <- K0, <- T0; split_and!].
  set (b1 := latency_record _ _ _).
  assert (E1 : received b1 = received b0 /\ duplicated b1 = duplicated b0 /\
    eosViolations b1 = eosViolations b0 /\ kip890Residual b1 = kip890Residual b0 /\ trk b1 = trk b0).
  { unfold b1, latency_record, verify_record. by destruct (negb _ && negb _), (m_sentAt m). }
  clearbody b1. rewrite R0, D0, V0, K0, T0 in E1. destruct E1 as (R1 & D1 & V1 & K1 & T1).
  pose proof (seen_pairs_mem _ _ (m_producerID m) (m_seq m) Hk ltac:(unfold u64_ok in Hseq; lia)) as Hmem.
  cbn [seen] in Hmem. cbn [seen].
  destruct (bool_decide_reflect (seen_key (m_producerID m) (m_seq m) ∈ sn)) as [Hin|Hin];
    destruct (decide ((m_producerID m, m_seq m) ∈ known)) as [Hkn|Hkn];
    rewrite ?bool_decide_true, ?bool_decide_false in Hmem by done; try done.
  - rewrite <- R1, <- D1, <- V1, <- K1, <- T1. unfold u64_ok in Hseq. split_and!; try done; lia.
  - rewrite <- R1, <- D1, <- V1, <- K1, <- T1. unfold u64_ok in Hseq. split_and!; try done; try lia.
    destruct Hk as [Hpos Hs]. split; [apply Forall_cons; split; [simpl; lia|done]|].
    intros k. cbv [set_field]. cbn [seen] in *. rewrite elem_of_union, elem_of_singleton, Hs. split.
    + intros [->|(p & s & Hps & ->)]; [by exists (m_producerID m), (m_seq m); split; [left|]|].
      exists p, s. split; [by right|done].
    + intros (p & s & [[= -> ->]|Hps]%elem_of_cons & ->); [by left|right; by exists p, s].
Qed.

Lemma handle_all_run ds : forall w known, seen_pairs w known ->
  let w' := handle_all ds w in let b := BaseW w in let b' := BaseW w' in
  let rs := map snd ds in
  u64_wrap (received b') = u64_wrap (received b + Z.of_nat (length ds)) /\
  duplicated b' = duplicated b /\
  u64_wrap (eosViolations b') = u64_wrap (eosViolations b + leaks rs) /\
  u64_wrap (kip890Residual b') = u64_wrap (kip890Residual b +
     (Z.of_nat (length (committed rs)) - Z.of_nat (length (firsts known (committed rs))))) /\
  trk b' = track_pairs (trk b) (firsts known (committed rs)).
Proof.
  induction ds as [|[now r] ds IH]; intros w known Hk.
  { cbn. rewrite !Z.add_0_r. by split_and!. }
  cbn [handle_all foldl map snd length]. unfold leaks. cbn [map committed omap list_omap].
  rewrite count_true_cons. destruct (handleRecord_step now r w known Hk) as (HR & HD & Hcase).
  set (w1 := handleRecord now r w) in *. change (foldl _ w1 ds) with (handle_all ds w1).
  change (omap _ (map snd ds)) with (committed (map snd ds)).
  change (count_true (map _ (map snd ds))) with (leaks (map snd ds)).
  destruct (classify r) as [| |p s].
  - destruct Hcase as (HV & HK & HT & Hk1). destruct (IH w1 known Hk1) as (R & D & V & K & T).
    rewrite R, D, V, K, T, HR, HD, HV, HK, HT. unfold add1. rewrite !u64_wrap_add_l.
    split_and!; try done; f_equal; lia.
  - destruct Hcase as (HV & HK & HT & Hk1). destruct (IH w1 known Hk1) as (R & D & V & K & T).
    rewrite R, D, V, K, T, HR, HD, HV, HK, HT. unfold add1. rewrite !u64_wrap_add_l.
    split_and!; try done; f_equal; lia.
  - destruct Hcase as (H0 & HV & Hcase). cbn [firsts length]. 
    destruct (decide ((p, s) ∈ known)); destruct Hcase as (HK & HT & Hk1);
      destruct (IH w1 _ Hk1) as (R & D & V & K & T);
      rewrite R, D, V, K, T, HR, HD, HV, HK, HT; unfold add1; rewrite ?u64_wrap_add_l;
      cbn [length track_pairs foldl]; split_and!; try done; f_equal; lia.
Qed.

Lemma new_seen getenv c idx w : NewTransactionsEOSWorker getenv c idx = Some w ->
  seen_pairs w [] /\ received (BaseW w) = 0 /\ duplicated (BaseW w) = 0 /\ eosViolations (BaseW w) = 0 /\
  kip890Residual (BaseW w) = 0 /\ trk (BaseW w) = Track.New (ReorderWindow (Message c)).
Proof.
  unfold NewTransactionsEOSWorker, NewBaseWorker.
  destruct (GetWorkerConfig c WorkerTransactionsEOS); [|done]. cbn [mbind option_bind]. intros [= <-].
  split; [|done]. split; [by apply Forall_nil|]. intros k. cbn. rewrite elem_of_empty.
  split; [done|]. intros (p & s & Hin & _). by apply elem_of_nil in Hin.
Qed.

(** C34: the exactly-once check is exact.  Whatever sequence of records is
    delivered to a new worker, in any interleaving of transactions: it counts one
    violation per record labelled aborted, one KIP-890 residual per repeated
    delivery of a committed (producer, sequence) pair, no duplicate ever, and its
    loss tracker sees each pair once, at its first delivery. *)
Theorem eos_check_exact getenv c idx w ds :
  NewTransactionsEOSWorker getenv c idx = Some w ->
  let b' := BaseW (handle_all ds w) in
  let pairs := committed (map snd ds) in
  u64_wrap (received b') = u64_wrap (Z.of_nat (length ds)) /\
  u64_wrap (eosViolations b') = u64_wrap (leaks (map snd ds)) /\
  u64_wrap (kip890Residual b')
    = u64_wrap (Z.of_nat (length pairs) - Z.of_nat (length (firsts [] pairs))) /\
  NoDup (firsts [] pairs) /\ (forall x, x ∈ firsts [] pairs <-> x ∈ pairs) /\
  duplicated b' = 0 /\
  trk b' = track_pairs (Track.New (ReorderWindow (Message c))) (firsts [] pairs).
Proof.
  intros Hnew b' pairs. destruct (new_seen _ _ _ _ Hnew) as (Hk & R0 & D0 & V0 & K0 & T0).
  destruct (handle_all_run ds w [] Hk) as (R & D & V & K & T). fold b' in R, D, V, K, T.
  rewrite R0 in R. rewrite D0 in D. rewrite V0 in V. rewrite K0 in K. rewrite T0 in T.
  split; [exact R|]. split; [exact V|]. split; [exact K|].
  split; [apply firsts_NoDup|]. split; [|by split].
  intros x. rewrite firsts_elem. split; [by intros [? _]|].
  intros Hx. split; [done|]. apply not_elem_of_nil.
Qed.

(** ** The transactional producer *)

Definition txn_pid (b : BaseWorker) (commit : bool) : string :=
  channelName b ++s (if commit then "-txn" else "-abort").

(** A record of the committing (or aborting) stream, with sequence [s]. *)
Definition labelled (b : BaseWorker) (commit : bool) (s : Z) (r : KRecord) : Prop :=
  exists now, rHeaders r = stampHeaders (txn_pid b commit) s (CRC32Hex (rValue r)) now
    ++ [mk_RecordHeader txnOutcomeHeader (if commit then "commit" else "abort")].

Definition next_seq (commit : bool) (w : TransactionsEOSWorker) : Z :=
  if commit then committedSeq w else abortSeq w.

(** Everything but the two sequence counters. *)
Definition still (w : TransactionsEOSWorker) :=
  (BaseW w, topic w, group w, txnID w, txnCli w, cycle w, seen w).

Lemma send_loop_spec commit sends k : forall w,
  u64_ok (next_seq commit w) ->
  let '(w', recs, err) := send_loop commit sends k w in
  still w' = still w /\ next_seq (negb commit) w' = next_seq (negb commit) w /\
  next_seq commit w' = u64_wrap (next_seq commit w + Z.of_nat (length recs)) /\
  (forall i r a, recs !! i = Some (r, a) ->
     labelled (BaseW w) commit (u64_wrap (next_seq commit w + Z.of_nat i + 1)) r) /\
  (length recs <= k)%nat /\
  (err = false -> length recs = k /\ Forall (fun x => x.2 = true) recs).
Proof.
  induction k as [|k IH]; intros w Hok.
  { cbn. rewrite Z.add_0_r, u64_wrap_id by done. by split_and!. }
  cbn [send_loop]. set (s := sends _). destruct (ts_rate s); cbn [negb].
  2: { cbn. rewrite Z.add_0_r, u64_wrap_id by done. split_and!; try done; lia. }
  set (w1 := if commit then _ else _).
  assert (H1 : still w1 = still w /\ next_seq (negb commit) w1 = next_seq (negb commit) w /\
               next_seq commit w1 = u64_wrap (next_seq commit w + 1)) by (by destruct commit).
  change (if commit then committedSeq w1 else abortSeq w1) with (next_seq commit w1).
  clearbody w1. destruct H1 as (Hst & Hother & Hnext).
  assert (Hb : BaseW w1 = BaseW w) by (unfold still in Hst; by injection Hst).
  unfold Build. cbn iota beta zeta. set (rec := mk_KRecord _ _ _ _ _).
  assert (Hlab : labelled (BaseW w) commit (u64_wrap (next_seq commit w + Z.of_nat 0 + 1)) rec).
  { rewrite Z.add_0_r, <- Hnext, <- Hb. exists (ts_now s). unfold txn_pid. by destruct commit. }
  destruct (ts_acked s); cbn [negb].
  2: { cbn [length]. split_and!; try done; try lia.
       intros [|i] r a Hi; [by injection Hi as <- <-|done]. }
  specialize (IH w1 ltac:(rewrite Hnext; apply u64_wrap_ok)).
  destruct (send_loop commit sends k w1) as [[w2 recs] err]. destruct IH as (I1 & I2 & I3 & I4 & I5 & I6).
  cbn [length]. split_and!.
  - by rewrite I1.
  - by rewrite I2.
  - rewrite I3, Hnext, u64_wrap_add_l. f_equal. lia.
  - intros [|i] r a Hi; [by injection Hi as <- <-|]. cbn in Hi. apply I4 in Hi.
    rewrite Hb, Hnext in Hi. replace (u64_wrap (next_seq commit w + 1) + Z.of_nat i + 1)
      with (u64_wrap (next_seq commit w + 1) + (Z.of_nat i + 1)) in Hi by lia.
    rewrite u64_wrap_add_l in Hi.
    by replace (next_seq commit w + 1 + (Z.of_nat i + 1)) with (next_seq commit w + Z.of_nat (S i) + 1) in Hi by lia.
  - lia.
  - intros He. destruct (I6 He) as [Hl Hf]. split; [lia|by constructor].
Qed.

(** A run of transactions whose committing stream goes on from [c] and whose
    aborting stream goes on from [a]; only a complete, fully acknowledged
    transaction of the committing stream asks for a commit. *)
Inductive numbered (b : BaseWorker) : Z -> Z -> list transaction -> Prop :=
  | numbered_nil c a : numbered b c a []
  | numbered_commit c a tx txs :
      (forall i r k, tx_records tx !! i = Some (r, k) -> labelled b true (u64_wrap (c + Z.of_nat i + 1)) r) ->
      (tx_commit tx = true -> length (tx_records tx) = txnRecordsPerCycle /\
                              Forall (fun x => x.2 = true) (tx_records tx)) ->
      numbered b (u64_wrap (c + Z.of_nat (length (tx_records tx)))) a txs ->
      numbered b c a (tx :: txs)
  | numbered_abort c a tx txs :
      (forall i r k, tx_records tx !! i = Some (r, k) -> labelled b false (u64_wrap (a + Z.of_nat i + 1)) r) ->
      tx_commit tx = false ->
      numbered b c (u64_wrap (a + Z.of_nat (length (tx_records tx)))) txs ->
      numbered b c a (tx :: txs).

(** The transactions that counted as sent. *)
Definition committed_txs (txs : list transaction) : Z :=
  count_true (map (fun tx => tx_commit tx && tx_ended tx) txs).

Lemma count_sent_spec recs : forall b,
  u64_wrap (sent (count_sent recs b)) = u64_wrap (sent b + Z.of_nat (length recs)) /\
  channelName (count_sent recs b) = channelName b.
Proof.
  induction recs as [|r recs IH]; intros b; [by rewrite Z.add_0_r|].
  cbn [count_sent foldl]. set (b1 := recordSent _ _). destruct (IH b1) as [Hs Hc].
  change (foldl _ b1 recs) with (count_sent recs b1). rewrite Hs, Hc.
  change (sent b1) with (u64_wrap (sent b + 1)). rewrite u64_wrap_add_l. split; [f_equal; cbn [length]; lia|done].
Qed.

Lemma send_loop_tx commit sends w : u64_ok (committedSeq w) -> u64_ok (abortSeq w) ->
  let '(w', recs, err) := send_loop commit sends txnRecordsPerCycle w in
  let tc := negb (negb commit || err) in
  BaseW w' = BaseW w /\ u64_ok (committedSeq w') /\ u64_ok (abortSeq w') /\
  (tc = true -> length recs = txnRecordsPerCycle) /\
  forall ended txs', numbered (BaseW w) (committedSeq w') (abortSeq w') txs' ->
    numbered (BaseW w) (committedSeq w) (abortSeq w) (mk_transaction recs tc ended :: txs').
Proof.
  intros Hc Ha. pose proof (send_loop_spec commit sends txnRecordsPerCycle w ltac:(by destruct commit)) as Hs.
  destruct (send_loop commit sends txnRecordsPerCycle w) as [[w' recs] err].
  destruct Hs as (Hst & Hother & Hnext & Hlab & _ & Hfull). unfold still in Hst. injection Hst as Hb _ _ _ _ _ _.
  cbv zeta. destruct commit; cbn [negb orb next_seq] in *.
  - split; [done|]. split; [rewrite Hnext; apply u64_wrap_ok|]. split; [by rewrite Hother|].
    split; [intros Herr; by apply Hfull, negb_true_iff|].
    intros ended txs' Htx. apply numbered_commit; cbn [tx_records tx_commit]; [exact Hlab| |].
    + intros Herr. by apply Hfull, negb_true_iff.
    + by rewrite <- Hnext, <- Hother.
  - split; [done|]. split; [by rewrite Hother|]. split; [rewrite Hnext; apply u64_wrap_ok|].
    split; [done|]. intros ended txs' Htx. apply numbered_abort; cbn [tx_records tx_commit]; [exact Hlab|done|].
    by rewrite <- Hnext, <- Hother.
Qed.

Lemma produce_turn_tx env w : u64_ok (committedSeq w) -> u64_ok (abortSeq w) ->
  let '(w', txs, _) := produce_turn env w in
  channelName (BaseW w') = channelName (BaseW w) /\
  u64_wrap (sent (BaseW w')) = u64_wrap (sent (BaseW w) + 4 * committed_txs txs) /\
  u64_ok (committedSeq w') /\ u64_ok (abortSeq w') /\
  forall txs', numbered (BaseW w) (committedSeq w') (abortSeq w') txs' ->
               numbered (BaseW w) (committedSeq w) (abortSeq w) (txs ++ txs').
Proof.
  intros Hc Ha. unfold produce_turn.
  destruct (te_cancelled env); [by rewrite Z.add_0_r; split_and!|].
  destruct (negb (txnCli w) && negb (te_client env)); [by cbn; rewrite Z.add_0_r; split_and!|].
  set (w0 := w <| txnCli := true |> <| cycle ::= add1 |>).
  assert (H0 : BaseW w0 = BaseW w /\ committedSeq w0 = committedSeq w /\ abortSeq w0 = abortSeq w) by done.
  clearbody w0. destruct H0 as (Hb0 & Hc0 & Ha0). set (commit := cycle w0 mod 2 =? 0). clearbody commit.
  destruct (te_begin env); cbn [negb].
  2: { destruct (te_cancelled_begin env).
       - rewrite Hb0, Hc0, Ha0, Z.add_0_r. by split_and!.
       - change (BaseW (_ <| txnCli := false |>)) with (recordError "txn_failure" (BaseW w0)).
         change (committedSeq (_ <| txnCli := false |>)) with (committedSeq w0).
         change (abortSeq (_ <| txnCli := false |>)) with (abortSeq w0).
         rewrite Hb0, Hc0, Ha0, Z.add_0_r. by split_and!. }
  rewrite <- Hb0, <- Hc0, <- Ha0 in *. clear w Hb0 Hc0 Ha0.
  pose proof (send_loop_tx commit (te_sends env) w0 Hc Ha) as Hs.
  destruct (send_loop commit (te_sends env) txnRecordsPerCycle w0) as [[w1 recs] err].
  destruct Hs as (Hb & Hc1 & Ha1 & Hfull & Hnum). set (tc := negb (negb commit || err)) in *.
  assert (Hsent : forall w2, BaseW w2 = (if tc && te_end env then count_sent recs (BaseW w0) else
      if te_end env then BaseW w0 else BaseW w2) ->
    (te_end env = false -> channelName (BaseW w2) = channelName (BaseW w0) /\ sent (BaseW w2) = sent (BaseW w0)) ->
    committedSeq w2 = committedSeq w1 -> abortSeq w2 = abortSeq w1 ->
    channelName (BaseW w2) = channelName (BaseW w0) /\
    u64_wrap (sent (BaseW w2))
      = u64_wrap (sent (BaseW w0) + 4 * committed_txs [mk_transaction recs tc (te_end env)]) /\
    u64_ok (committedSeq w2) /\ u64_ok (abortSeq w2) /\
    forall txs', numbered (BaseW w0) (committedSeq w2) (abortSeq w2) txs' ->
      numbered (BaseW w0) (committedSeq w0) (abortSeq w0) ([mk_transaction recs tc (te_end env)] ++ txs')).
  { intros w2 E2 Hend -> ->. unfold committed_txs. cbn [map tx_commit tx_ended]. rewrite count_true_cons.
    destruct (count_sent_spec recs (BaseW w0)) as [Hsum Hch].
    assert (H2 : channelName (BaseW w2) = channelName (BaseW w0) /\ u64_wrap (sent (BaseW w2))
      = u64_wrap (sent (BaseW w0) + 4 * (if tc && te_end env then 1 else 0))).
    { destruct (te_end env); [|rewrite andb_false_r, Z.mul_0_r, Z.add_0_r in *; by destruct (Hend eq_refl) as [-> ->]].
      destruct tc; cbn [andb] in *; rewrite E2; [|by rewrite Z.add_0_r]. split; [done|].
      rewrite Hsum, Hfull by done. done. }
    destruct H2 as [H2 H3]. split; [done|]. split; [by rewrite H3; unfold count_true; cbn; do 2 f_equal; lia|].
    split; [done|]. split; [done|]. intros txs' Htx. by apply Hnum. }
  destruct (te_end env) eqn:Eend; cbn [negb].
  - apply Hsent; try done; rewrite ?andb_true_r.
    + destruct tc eqn:Etc; cbn [andb]; [|done]. unfold tc in Etc.
      destruct commit, err; try done. cbn [negb]. by rewrite <- Hb.
    + by destruct (tc && negb err).
    + by destruct (tc && negb err).
  - destruct (te_cancelled_end env); apply Hsent; rewrite ?andb_false_r; try done; intros _; by rewrite <- Hb.
Qed.

Lemma labelled_ext b b' commit q r : channelName b' = channelName b ->
  labelled b commit q r -> labelled b' commit q r.
Proof. unfold labelled, txn_pid. by intros ->. Qed.

Lemma numbered_ext b b' c a txs : channelName b' = channelName b ->
  numbered b c a txs -> numbered b' c a txs.
Proof.
  intros Hch. induction 1 as [c a|c a tx txs Hl Hf _ IH|c a tx txs Hl Hf _ IH].
  - constructor.
  - apply numbered_commit; [|done|done]. intros i r k Hi. eapply labelled_ext; [done|by eapply Hl].
  - apply numbered_abort; [|done|done]. intros i r k Hi. eapply labelled_ext; [done|by eapply Hl].
Qed.

Lemma headerValue_labelled b commit q r : labelled b commit q r ->
  headerValue (rHeaders r) txnOutcomeHeader = if commit then "commit" else "abort".
Proof. intros [now ->]. by destruct commit. Qed.

(** A record whose transaction asked for a commit is never taken for a leak. *)
Lemma numbered_commit_safe b c a txs : numbered b c a txs ->
  Forall (fun tx => tx_commit tx = true -> Forall (fun x => classify x.1 <> AbortedLeak) (tx_records tx)) txs.
Proof.
  induction 1 as [c a|c a tx txs Hl Hf _ IH|c a tx txs Hl Hf _ IH]; constructor; try done.
  - intros _. apply Forall_lookup. intros i [r k] Hi. apply Hl, headerValue_labelled in Hi.
    unfold classify. cbn [fst]. rewrite Hi. cbn. by destruct (extractMeta (rHeaders r)) as [m []].
  - by rewrite Hf.
Qed.

Lemma committed_txs_app l k : committed_txs (l ++ k) = committed_txs l + committed_txs k.
Proof. unfold committed_txs, count_true. rewrite map_app, filter_app, length_app. lia. Qed.

Lemma produceLoop_run envs : forall w, u64_ok (committedSeq w) -> u64_ok (abortSeq w) ->
  let '(w', txs) := produceLoop envs w in
  u64_wrap (sent (BaseW w')) = u64_wrap (sent (BaseW w) + 4 * committed_txs txs) /\
  numbered (BaseW w) (committedSeq w) (abortSeq w) txs.
Proof.
  induction envs as [|env envs IH]; intros w Hc Ha; cbn [produceLoop].
  { rewrite Z.add_0_r. split; [done|constructor]. }
  pose proof (produce_turn_tx env w Hc Ha) as Ht.
  destruct (produce_turn env w) as [[w1 txs] k]. destruct Ht as (Hch & Hs & Hc1 & Ha1 & Hn).
  destruct k.
  - specialize (IH w1 Hc1 Ha1). destruct (produceLoop envs w1) as [w2 rest]. destruct IH as [Hs2 Hn2].
    split.
    + rewrite Hs2, <- u64_wrap_add_l, Hs, u64_wrap_add_l, committed_txs_app. f_equal. lia.
    + apply Hn. by eapply numbered_ext.
  - split; [exact Hs|]. specialize (Hn [] ltac:(constructor)). by rewrite app_nil_r in Hn.
Qed.

(** C35: the transactional stream is what the exactly-once gate assumes.  Through
    any run of the produce loop, every failure and cancellation included: the
    records of each stream are numbered without a break, each with its label and
    the hash of its body; only a complete, acknowledged transaction of the
    committing stream asks for a commit, and none of its records can be taken for
    an aborted leak; and exactly the records of the transactions whose commit
    succeeded count as sent. *)
Theorem transactions_exact envs w : u64_ok (committedSeq w) -> u64_ok (abortSeq w) ->
  let '(w', txs) := produceLoop envs w in
  u64_wrap (sent (BaseW w')) = u64_wrap (sent (BaseW w) + 4 * committed_txs txs) /\
  numbered (BaseW w) (committedSeq w) (abortSeq w) txs /\
  Forall (fun tx => tx_commit tx = true -> Forall (fun x => classify x.1 <> AbortedLeak) (tx_records tx)) txs.
Proof.
  intros Hc Ha. pose proof (produceLoop_run envs w Hc Ha) as Hrun.
  destruct (produceLoop envs w) as [w' txs]. destruct Hrun as [Hs Hn].
  split; [exact Hs|]. split; [exact Hn|]. by eapply numbered_commit_safe.
Qed.

End TransactionsEOS.

Definition small_window_cfg : Config :=
  DefaultConfig <| Message := mk_MessageConfig "fixed" 20 "" 2 |>.

Definition new_worker : option (@TransactionsEOSWorker list_histogram) :=
  @NewTransactionsEOSWorker list_histogram (fun _ => "") small_window_cfg 1.

(** A delivery of sequence [q] with the given outcome label. *)
Definition txn_record (q : Z) (outcome : string) : Z * KRecord :=
  (9, {| rTopic := "t"; rKey := None; rValue := string_bytes "abc";
         rHeaders := stampHeaders "p0" q (CRC32Hex (string_bytes "abc")) 5
                     ++ [mk_RecordHeader txnOutcomeHeader outcome]; rOffset := 0 |}).

Lemma eos_check_exact_witness : exists w, new_worker = Some w /\
  let b' := BaseW (handle_all [txn_record 1 "commit"; txn_record 1 "abort"; txn_record 2 "commit";
                               txn_record 1 "commit"] w) in
  u64_wrap (received b') = 4 /\ u64_wrap (eosViolations b') = 1 /\ u64_wrap (kip890Residual b') = 1 /\
  duplicated b' = 0.
Proof.
  destruct new_worker as [w|] eqn:Ew; [|vm_compute in Ew; discriminate].
  exists w. split; [reflexivity|].
  destruct (@eos_check_exact list_histogram _ _ _ w
    [txn_record 1 "commit"; txn_record 1 "abort"; txn_record 2 "commit"; txn_record 1 "commit"] Ew)
    as (H1 & H2 & H3 & _ & _ & H4 & _).
  split; [rewrite H1; vm_compute; reflexivity|]. split; [rewrite H2; vm_compute; reflexivity|].
  split; [rewrite H3; vm_compute; reflexivity|exact H4].
Defined.

(** A turn whose sends the connector acknowledges up to the [n]-th. *)
Definition turn (n : nat) : txn_env :=
  mk_txn_env false true true true false
    (fun i => mk_txn_send true 0 (fun k => 0) 5 (Nat.ltb i n)) true false false.

Lemma transactions_exact_witness : exists w, new_worker = Some w /\
  let '(w', txs) := produceLoop [turn 4; turn 4; turn 4; turn 2; turn 4; turn 4] w in
  u64_wrap (sent (BaseW w')) = 8 /\ map tx_commit txs = [false; true; false; false; false; true].
Proof.
  destruct new_worker as [w|] eqn:Ew; [|vm_compute in Ew; discriminate].
  exists w. split; [reflexivity|].
  pose proof (@transactions_exact list_histogram [turn 4; turn 4; turn 4; turn 2; turn 4; turn 4] w) as Hex.
  vm_compute in Ew. injection Ew as <-.
  specialize (Hex ltac:(unfold u64_ok; simpl; lia) ltac:(unfold u64_ok; simpl; lia)).
  match goal with |- let '(_, _) := ?e in _ => destruct e as [w' txs] eqn:El end.
  destruct Hex as (Hs & _). vm_compute in El. injection El as <- <-.
  split; [rewrite Hs; vm_compute; reflexivity|vm_compute; reflexivity].
Defined.

(** A produce error inside a committing transaction aborts it, but its sequences
    stay used: with every committed record delivered exactly once, the tracker
    still reports a loss. *)
Example aborted_commit_is_loss :
  match new_worker with
  | None => False
  | Some w =>
      let '(w, txs) := produceLoop [turn 4; turn 4; turn 4; turn 2; turn 4; turn 4] w in
      let delivered := concat (map tx_records (filter (fun tx => tx_commit tx = true) txs)) in
      let w := handle_all (map (fun x => (9, x.1)) delivered) w in
      sent (BaseW w) = 8 /\ received (BaseW w) = 8 /\ 0 < Track.TotalLost (trk (BaseW w))
  end.
Proof. vm_compute. by split_and!. Qed.

End TransactionsEOS.
