(* ===== verification/WorkerGroup.v ===== *)
(** * Worker groups (burnin/engine/worker_group.go)

    The six concrete workers behind the Worker interface, and a group of channel
    instances of one of them.  A method of the interface is a case analysis on
    the constructor; the contexts and wait groups that BaseWorker.StopProducers
    and StopConsumers cancel and wait for are outside the state. *)

From S2P Require Import Prelude Float64 GoStr Payload Config Metrics Transport Tracker Worker Loops.
From S2P Require RoundTrip KeyedOrdering ConsumerGroup OffsetLag AdminChurn TransactionsEOS.
Local Open Scope string_scope.
Local Open Scope Z_scope.
Local Open Scope list_scope.

Module RT := RoundTrip.ProduceRoundTrip.
Module KO := KeyedOrdering.KeyedOrdering.
Module CG := ConsumerGroup.ConsumerGroup.
Module OL := OffsetLag.OffsetCommitLag.
Module AC := AdminChurn.AdminTopicChurn.
Module TX := TransactionsEOS.TransactionsEOS.

#[export] Existing Instances RT.Worker_ProduceRoundTrip KO.Worker_KeyedOrdering
  CG.Worker_ConsumerGroup OL.Worker_OffsetCommitLag AC.Worker_AdminTopicChurn
  TX.Worker_TransactionsEOS CG.eta_worker OL.eta_worker.

Section Workers.
Context `{HdrHistogram}.

(** A value of the interface type worker.Worker. *)
Inductive AnyWorker :=
  | ARoundTrip (w : RT.ProduceRoundTripWorker)
  | AKeyed (w : KO.KeyedOrderingWorker)
  | AGroup (w : CG.ConsumerGroupWorker)
  | ALag (w : OL.OffsetCommitLagWorker)
  | AChurn (w : AC.AdminTopicChurnWorker)
  | ATxn (w : TX.TransactionsEOSWorker).

Definition any_base (a : AnyWorker) : BaseWorker :=
  match a with
  | ARoundTrip w => base w | AKeyed w => base w | AGroup w => base w
  | ALag w => base w | AChurn w => base w | ATxn w => base w
  end.

Definition any_upd (f : BaseWorker -> BaseWorker) (a : AnyWorker) : AnyWorker :=
  match a with
  | ARoundTrip w => ARoundTrip (upd_base f w) | AKeyed w => AKeyed (upd_base f w)
  | AGroup w => AGroup (upd_base f w) | ALag w => ALag (upd_base f w)
  | AChurn w => AChurn (upd_base f w) | ATxn w => ATxn (upd_base f w)
  end.

#[export] Program Instance Worker_Any : Worker AnyWorker := {|
  base := any_base; upd_base := any_upd
|}.
Next Obligation. intros f []; apply base_upd. Qed.

(** ** The methods *)

Definition Start (env : start_env) (a : AnyWorker) : result (AnyWorker * list goroutine) :=
  match a with
  | ARoundTrip w => gs ← RT.Start env w; Ok (a, gs)
  | AKeyed w => gs ← KO.Start env w; Ok (a, gs)
  | AGroup w => gs ← CG.Start env w; Ok (a, gs)
  | ALag w => gs ← OL.Start env w; Ok (a, gs)
  | AChurn w => w ← AC.Start env w; Ok (AChurn w, [])
  | ATxn w => gs ← TX.Start env w; Ok (a, gs)
  end.

Definition StartProducers_ (a : AnyWorker) : list goroutine :=
  match a with
  | ARoundTrip w => RT.StartProducers w | AKeyed w => KO.StartProducers w
  | AGroup w => CG.StartProducers w | ALag w => OL.StartProducers w
  | AChurn w => AC.StartProducers w | ATxn w => TX.StartProducers w
  end.

(** After cancelling the producers and waiting for them: what each type closes,
    and the reconciliation consumer_group still has to make. *)
Definition StopProducers_ (a : AnyWorker) : AnyWorker * option CG.reconciling :=
  match a with
  | ARoundTrip w => (ARoundTrip (RT.StopProducers w), None)
  | AKeyed w => (AKeyed (KO.StopProducers w), None)
  | AGroup w => let '(w, r) := CG.StopProducers w in (AGroup w, Some r)
  | ALag w => (ALag (OL.StopProducers w), None)
  | AChurn w => (a, None) | ATxn w => (ATxn (TX.StopProducers w), None)
  end.

(** The next access of that reconciliation. *)
Definition settle (r : CG.reconciling) (a : AnyWorker) : AnyWorker * option CG.reconciling :=
  match a with
  | AGroup w => let '(w, r) := CG.reconcile_step r w in (AGroup w, r)
  | _ => (a, None)
  end.

(** After cancelling the consumers and waiting for them: only admin_topic_churn
    has a client of its own to close. *)
Definition StopConsumers_ (a : AnyWorker) : AnyWorker :=
  match a with AChurn w => AChurn (AC.StopConsumers w) | _ => a end.

(** ** WorkerGroup *)

Record WorkerGroup := mk_WorkerGroup { g_name : string; g_workers : list AnyWorker }.

(** One turn of the loop of NewWorkerGroup: the switch has no default case.
    [None]: the constructor of the worker would dereference nil. *)
Definition new_worker (getenv : string -> string) (name : string) (c : Config) (i : Z)
    : option (list AnyWorker) :=
  let one {W} (mk : W -> AnyWorker) (w : option W) := w ← w; Some [mk w] in
  if String.eqb name WorkerProduceRoundTrip then one ARoundTrip (RT.NewProduceRoundTripWorker getenv c i)
  else if String.eqb name WorkerKeyedOrdering then one AKeyed (KO.NewKeyedOrderingWorker getenv c i)
  else if String.eqb name WorkerConsumerGroup then one AGroup (CG.NewConsumerGroupWorker getenv c i)
  else if String.eqb name WorkerOffsetCommitLag then one ALag (OL.NewOffsetCommitLagWorker getenv c i)
  else if String.eqb name WorkerAdminTopicChurn then one AChurn (AC.NewAdminTopicChurnWorker getenv c i)
  else if String.eqb name WorkerTransactionsEOS then one ATxn (TX.NewTransactionsEOSWorker getenv c i)
  else Some [].

Definition NewWorkerGroup (getenv : string -> string) (name : string) (c : Config)
    : option WorkerGroup :=
  ws ← mapM (new_worker getenv name c) (seqZ 1 (GetWorkerChannels c name));
  Some (mk_WorkerGroup name (concat ws)).

(** [upd_workers] replaces the workers behind the pointers of a group. *)
Definition upd_workers (f : AnyWorker -> AnyWorker) (g : WorkerGroup) : WorkerGroup :=
  mk_WorkerGroup (g_name g) (map f (g_workers g)).

(** The loop of StartConsumers; [envs] is what each worker's Start finds. The
    workers before a failure stay started. *)
Fixpoint start_workers (gname : string) (envs : nat -> start_env) (ws : list AnyWorker)
    : list AnyWorker * list (list goroutine) * option message :=
  match ws with
  | [] => ([], [], None)
  | w :: ws =>
      match Start (envs O) w with
      | Err e =>
          (w :: ws, [], Some (Lit "start consumer for " :: Lit gname :: Lit "/"
                              :: Lit (channelName (base w)) :: Lit ": " :: e))
      | Ok (w, gs) =>
          let '(ws, rest, e) := start_workers gname (fun i => envs (S i)) ws in
          (w :: ws, gs :: rest, e)
      end
  end.

Definition StartConsumers (envs : nat -> start_env) (g : WorkerGroup)
    : WorkerGroup * list (list goroutine) * option message :=
  let '(ws, gs, e) := start_workers (g_name g) envs (g_workers g) in
  (mk_WorkerGroup (g_name g) ws, gs, e).

(** [ready i]: worker [i] signals before its timer fires. *)
Fixpoint wait_workers (gname : string) (ready : nat -> bool) (ws : list AnyWorker) : option message :=
  match ws with
  | [] => None
  | w :: ws =>
      if consumerReady (base w) || ready O then wait_workers gname (fun i => ready (S i)) ws
      else Some [Lit "consumer ready timeout for "; Lit gname; Lit "/"; Lit (channelName (base w))]
  end.

Definition WaitForConsumerReady (ready : nat -> bool) (g : WorkerGroup) : option message :=
  wait_workers (g_name g) ready (g_workers g).

Definition StartProducers (g : WorkerGroup) : list (list goroutine) := map StartProducers_ (g_workers g).

(** StopProducers and StopConsumers block in the wait group of one worker after
    the other, so they are rows of steps of their caller: visit a group, then for
    each of its workers call its CancelFunc, wait and close, and settle what
    StopProducers of consumer_group has left. *)
Inductive stop_item :=
  | Visit (name : string)
  | Halt (name : string) (k : nat)
  | Join (name : string) (k : nat)
  | Settle (name : string) (k : nat) (r : CG.reconciling).

Definition stop_items (name : string) (g : WorkerGroup) : list stop_item :=
  map (Halt name) (List.seq 0 (length (g_workers g))).

(** The worker at [k] of a group, and its replacement. *)
Definition upd_worker (k : nat) (f : AnyWorker -> AnyWorker) (g : WorkerGroup) : WorkerGroup :=
  mk_WorkerGroup (g_name g) (alter f k (g_workers g)).
Definition DisconnectConsumers (g : WorkerGroup) : WorkerGroup :=
  upd_workers (upd_base Worker.DisconnectConsumers) g.

(** ** What a worker's goroutines do

    One atomic turn of one goroutine of a worker, with any answers from outside
    and any values of the goroutine's locals. *)

(** A turn of a consumer, for a worker whose batches end no loop. *)
Definition consumes {W} `{Worker W} (generation : W -> Z) (handle : Z -> Z -> KRecord -> W -> W)
    (w w' : W) : Prop :=
  exists env c, w' = (consume_turn generation (fun _ f w => (each_record handle f w, Continue)) env w c).1.1.

Definition generation {W} `{Worker W} (w : W) : Z := disconnectGeneration (base w).

Inductive activity : AnyWorker -> AnyWorker -> Prop :=
  | act_rt_consume w w' : consumes generation (fun _ => RT.handleRecord) w w' ->
      activity (ARoundTrip w) (ARoundTrip w')
  | act_rt_produce pi env w d : d = produce_turn false pi env (RT.BaseW w) (RT.part w) 0 ->
      activity (ARoundTrip w) (ARoundTrip (RT.mk_worker (pd_base d) (pd_part d)))
  | act_ko_consume w w' : consumes generation KO.handleRecord w w' ->
      activity (AKeyed w) (AKeyed w')
  | act_ko_produce pi env keySeq w d :
      d = produce_turn true pi env (KO.BaseW w) (KO.part w) keySeq ->
      activity (AKeyed w) (AKeyed (KO.mk_worker (pd_base d) (pd_part d) (KO.lastOffset w)))
  | act_cg_consume mi w w' :
      consumes (fun w => default 0 (CG.memberGen mi w)) (fun _ => CG.handleRecord) w w' ->
      activity (AGroup w) (AGroup w')
  | act_cg_produce pi env keySeq w d :
      d = produce_turn true pi env (CG.BaseW w) (CG.part w) keySeq ->
      activity (AGroup w) (AGroup (w <| CG.BaseW := pd_base d |> <| CG.part := pd_part d |>))
  | act_cg_churn at_ next w : activity (AGroup w) (AGroup (CG.churn_step at_ next w).2)
  | act_ol_consume env c w :
      activity (ALag w) (ALag (consume_turn generation OL.deliver_and_commit env w c).1.1)
  | act_ol_produce pi env w d : d = produce_turn false pi env (OL.BaseW w) (OL.part w) 0 ->
      activity (ALag w) (ALag (w <| OL.BaseW := pd_base d |> <| OL.part := pd_part d |>))
  | act_ol_client w : activity (ALag w) (ALag (OL.lagSampler false [] w))
  | act_ol_sample answer cancelled samples w :
      activity (ALag w) (ALag (OL.lag_tick answer cancelled samples w).1.1)
  | act_ac_cycle env w : activity (AChurn w) (AChurn (AC.runCycle env w).1)
  | act_tx_consume w w' : consumes generation (fun _ => TX.handleRecord) w w' ->
      activity (ATxn w) (ATxn w')
  | act_tx_produce env w : activity (ATxn w) (ATxn (TX.produce_turn env w).1.1).

End Workers.
