(* ===== verification/WorkerGroupFacts.v ===== *)
(** * Worker groups: properties

    What never changes about a worker: its kind, its name, its channel and its
    configuration; and its counters stay 64-bit values.  Every operation of the
    engine on a group and every turn of a worker's goroutines keeps that. *)

From S2P Require Import Prelude Float64 GoStr Payload Config Metrics Transport Tracker Worker WorkerFacts Loops LoopsFacts WorkerGroup.
Local Open Scope string_scope.
Local Open Scope Z_scope.
Local Open Scope list_scope.

Section Base.
Context `{HdrHistogram}.

Definition identity (b : BaseWorker) : string * string * Z * Config * WorkerConfig :=
  (name b, channelName b, channelIndex b, cfg b, workerCfg b).

(** The atomic.Uint64 fields. *)
Definition counters (b : BaseWorker) : list Z :=
  [sent b; received b; errors b; corrupted b; reconnections b; downtime b; duplicated b; deleted b;
   offsetOrderViolations b; groupLossRebalance b; eosViolations b; lagAccuracyErrMax b;
   adminOpFailures b; adminInvalidRejected b; kip890Residual b; disconnectGen b].

Definition base_ok (b : BaseWorker) : Prop := Forall u64_ok (counters b).

Definition keeps (b b' : BaseWorker) : Prop := identity b' = identity b /\ (base_ok b -> base_ok b').

#[export] Instance keeps_preorder : PreOrder keeps.
Proof.
  split; [by intros b; split|]. intros a b c [H1 H2] [H3 H4]. split; [congruence|auto].
Qed.

Lemma keeps_by b b' : identity b' = identity b ->
  Forall2 (fun x y => y = x \/ u64_ok y) (counters b) (counters b') -> keeps b b'.
Proof.
  intros Hi Hc. split; [done|]. unfold base_ok. generalize dependent (counters b').
  induction (counters b) as [|x l IH]; intros k Hk Hl; inversion Hk as [|?? y k' Hxy]; subst;
    [by apply List.Forall_nil|].
  apply Forall_cons in Hl as [Hx Hl]. apply List.Forall_cons; [by destruct Hxy as [->|]|auto].
Qed.

End Base.

(** An operation that leaves the identity and sends each counter to itself, to a
    wrapped value or to zero. *)
Ltac keeps_op :=
  apply keeps_by; [reflexivity|]; unfold counters;
  repeat (apply List.Forall2_cons;
    [first [left; reflexivity | right; refine (u64_wrap_ok _) | right; assumption | right; done]|]);
  apply List.Forall2_nil.

Section Ops.
Context `{HdrHistogram}.

Lemma keeps_emit e b : keeps b (emit e b).
Proof. unfold emit. keeps_op. Qed.
Lemma keeps_iter n f b : (forall b, keeps b (f b)) -> keeps b (Nat.iter n f b).
Proof. intros Hf. induction n as [|n IH]; simpl; [done|]. etrans; [exact IH|apply Hf]. Qed.

Lemma keeps_recordSent n b : keeps b (recordSent n b).
Proof. unfold recordSent, emit, add1. keeps_op. Qed.
Lemma keeps_recordReceived n b : keeps b (recordReceived n b).
Proof. unfold recordReceived, emit, add1. keeps_op. Qed.
Lemma keeps_recordDeleted b : keeps b (recordDeleted b).
Proof. unfold recordDeleted, emit, add1. keeps_op. Qed.
Lemma keeps_recordError t b : keeps b (recordError t b).
Proof. unfold recordError, emit, add1. keeps_op. Qed.
Lemma keeps_recordCorrupted b : keeps b (recordCorrupted b).
Proof. unfold recordCorrupted, emit, add1. keeps_op. Qed.
Lemma keeps_recordReconnection b : keeps b (recordReconnection b).
Proof. unfold recordReconnection, emit, add1. keeps_op. Qed.
Lemma keeps_recordLatency d b : keeps b (recordLatency d b).
Proof. unfold recordLatency, emit, add1. keeps_op. Qed.
Lemma keeps_offsetOrder b : keeps b (recordOffsetOrderViolation b).
Proof. unfold recordOffsetOrderViolation, emit, add1. keeps_op. Qed.
Lemma keeps_eos b : keeps b (recordEOSViolation b).
Proof. unfold recordEOSViolation, emit, add1. keeps_op. Qed.
Lemma keeps_adminOp b : keeps b (recordAdminOpFailure b).
Proof. unfold recordAdminOpFailure, emit, add1. keeps_op. Qed.
Lemma keeps_adminInvalid b : keeps b (recordAdminInvalidRejected b).
Proof. unfold recordAdminInvalidRejected, emit, add1. keeps_op. Qed.
Lemma keeps_kip890 b : keeps b (recordKIP890Residual b).
Proof. unfold recordKIP890Residual, emit, add1. keeps_op. Qed.
Lemma keeps_addDowntime d b : keeps b (addDowntime d b).
Proof. unfold addDowntime, emit. keeps_op. Qed.
Lemma keeps_metricObserveSend d b : keeps b (metricObserveSend d b).
Proof. apply keeps_emit. Qed.
Lemma keeps_signalReady b : keeps b (signalReady b).
Proof. unfold signalReady. keeps_op. Qed.
Lemma keeps_Disconnect b : keeps b (Worker.DisconnectConsumers b).
Proof. unfold Worker.DisconnectConsumers, add1. keeps_op. Qed.
Lemma keeps_Advance b : keeps b (AdvanceRateWindows b).
Proof. unfold AdvanceRateWindows. keeps_op. Qed.
Lemma keeps_Reset b : keeps b (ResetAfterWarmup b).
Proof. unfold ResetAfterWarmup. keeps_op. Qed.
Lemma keeps_trk f b : keeps b (b <| trk ::= f |>).
Proof. keeps_op. Qed.
Lemma keeps_groupLossField n b : keeps b (b <| groupLossRebalance ::= fun x => x +u n |>).
Proof. keeps_op. Qed.
Lemma keeps_dupField b : keeps b (b <| duplicated ::= add1 |>).
Proof. unfold add1. keeps_op. Qed.
Lemma keeps_lagField v b : u64_ok v -> keeps b (b <| lagAccuracyErrMax := v |>).
Proof. intros. keeps_op. Qed.


#[local] Hint Resolve keeps_emit keeps_recordSent keeps_recordReceived keeps_recordDeleted
  keeps_recordError keeps_recordCorrupted keeps_recordReconnection keeps_recordLatency
  keeps_offsetOrder keeps_eos keeps_adminOp keeps_adminInvalid keeps_kip890 keeps_addDowntime
  keeps_metricObserveSend keeps_signalReady keeps_Disconnect keeps_trk : go.

Lemma keeps_groupLoss n b : keeps b (recordGroupLossRebalance n b).
Proof.
  unfold recordGroupLossRebalance. destruct (n =? 0); [done|].
  etrans; [apply (keeps_groupLossField n)|]. apply keeps_iter. auto with go.
Qed.

Lemma keeps_setLag v b : u64_ok v -> keeps b (setLagAccuracyErr v b).
Proof.
  intros. unfold setLagAccuracyErr. destruct (v <=? _); [done|].
  etrans; [by apply (keeps_lagField v)|]. auto with go.
Qed.

Lemma keeps_recordTracked pid s b : keeps b (snd (recordTracked pid s b)).
Proof.
  unfold recordTracked. destruct (Track.Record_ (trk b) pid s) as [[dup oo] t]. cbn [snd].
  set (b1 := b <| trk := t |>). assert (H1 : keeps b b1) by apply keeps_trk. clearbody b1.
  etrans; [exact H1|]. destruct oo; [etrans; [|apply keeps_emit]|]; destruct dup; try done;
    (etrans; [apply keeps_dupField|]; apply keeps_emit).
Qed.

Lemma keeps_check_record now r b : keeps b (check_record now r b).
Proof.
  unfold check_record. destruct (extractMeta (rHeaders r)) as [m []]; cbn [negb]; [|done].
  etrans; [|apply keeps_recordTracked]. unfold latency_record, verify_record.
  destruct (negb _ && negb _), (m_sentAt m); auto with go; [|done].
  etrans; [apply keeps_recordCorrupted|apply keeps_recordLatency].
Qed.

Lemma keeps_handleRecord now r b : keeps b (Worker.handleRecord now r b).
Proof. unfold Worker.handleRecord. etrans; [|apply keeps_check_record]. auto with go. Qed.

Lemma keeps_produce keyed pi env b p keySeq : keeps b (pd_base (produce_turn keyed pi env b p keySeq)).
Proof.
  unfold produce_turn. destruct (pe_cancelled env); [done|].
  destruct (negb (prodCli p) && _); [cbn; auto with go|].
  destruct (pe_rate env); cbn [negb]; [|done]. unfold Build. cbn iota beta zeta.
  destruct (pe_acked env); [|destruct (pe_cancelled_produce env); [done|apply keeps_recordError]].
  etrans; [apply keeps_metricObserveSend|apply keeps_recordSent].
Qed.

(** ** The loops *)

Section Turn.
Context {W : Type} `{!Worker W}.

Lemma keeps_upd f (w : W) : (forall b, keeps b (f b)) -> keeps (base w) (base (upd_base f w)).
Proof. intros Hf. rewrite base_upd. apply Hf. Qed.

Lemma keeps_each_record handle f (w : W) :
  (forall p now r w, keeps (base w) (base (handle p now r w))) ->
  keeps (base w) (base (each_record handle f w)).
Proof.
  intros Hh. apply (each_record_inv (fun w' => keeps (base w) (base w'))); [|done].
  intros. etrans; [eassumption|apply Hh].
Qed.

Lemma keeps_consume_turn gen (deliver : consume_env -> Fetches -> W -> W * control) env w c :
  (forall env f w, keeps (base w) (base (deliver env f w).1)) ->
  keeps (base w) (base (consume_turn gen deliver env w c).1.1).
Proof.
  intros Hd.
  assert (Hpoll : forall w c, keeps (base w) (base (match ce_poll env with
    | PollErrors => if ce_cancelled_poll env then (upd_base signalReady w, c, Return)
        else (upd_base (recordError "fetch_failure") (upd_base signalReady w), mk_consumer (cs_gen c) false, Continue)
    | PollRecords f => let '(w, k) := deliver env f (upd_base signalReady w) in (w, c, k)
    end).1.1)).
  { intros w' c'. pose proof (keeps_upd signalReady w' keeps_signalReady) as Hs.
    destruct (ce_poll env) as [|f].
    - destruct (ce_cancelled_poll env); [exact Hs|]. etrans; [exact Hs|]. apply keeps_upd. auto with go.
    - pose proof (Hd env f (upd_base signalReady w')) as Hk. destruct (deliver _ _ _) as [w'' k]. etrans; eauto. }
  unfold consume_turn. destruct (ce_cancelled env); [done|].
  destruct (negb (cs_open c) || _); [|apply Hpoll].
  destruct (ce_client env); cbn [negb].
  - destruct (cs_open c); [|apply Hpoll]. etrans; [|apply Hpoll]. apply keeps_upd. auto with go.
  - cbn [fst]. apply keeps_upd. intros b. etrans; [apply keeps_recordError|]. auto with go.
Qed.

Lemma keeps_consumes gen handle (w w' : W) :
  (forall p now r w, keeps (base w) (base (handle p now r w))) ->
  consumes gen handle w w' -> keeps (base w) (base w').
Proof.
  intros Hh (env & c & ->). apply keeps_consume_turn. intros env' f w0. cbn [fst].
  by apply keeps_each_record.
Qed.

End Turn.
End Ops.

#[export] Hint Resolve keeps_emit keeps_recordSent keeps_recordReceived keeps_recordDeleted
  keeps_recordError keeps_recordCorrupted keeps_recordReconnection keeps_recordLatency
  keeps_offsetOrder keeps_eos keeps_adminOp keeps_adminInvalid keeps_kip890 keeps_addDowntime
  keeps_metricObserveSend keeps_signalReady keeps_Disconnect keeps_trk keeps_groupLoss
  keeps_handleRecord keeps_produce keeps_check_record keeps_Reset keeps_Advance : go.

Section Concrete.
Context `{HdrHistogram}.

Lemma keeps_KO_handle p now r w : keeps (base w) (base (KO.handleRecord p now r w)).
Proof.
  unfold KO.handleRecord. cbn [base KO.Worker_KeyedOrdering KO.BaseW].
  etrans; [|apply keeps_check_record].
  destruct (KO.lastOffset w !! p) as [last|]; [|apply keeps_recordReceived].
  destruct (rOffset r <=? last); [|apply keeps_recordReceived].
  etrans; [apply keeps_recordReceived|apply keeps_offsetOrder].
Qed.

Lemma keeps_TX_handle now r w : keeps (base w) (base (TX.handleRecord now r w)).
Proof.
  unfold TX.handleRecord. destruct (extractMeta (rHeaders r)) as [m ok].
  cbn [base TX.Worker_TransactionsEOS].
  pose proof (keeps_recordReceived (Z.of_nat (length (rValue r))) (TX.BaseW w)) as Hr.
  set (b := recordReceived _ _) in *. clearbody b.
  assert (Hl : keeps b (latency_record now m (verify_record r m b))).
  { unfold latency_record, verify_record. destruct (negb _ && _), (m_sentAt m); auto with go; [|done].
    etrans; [apply keeps_recordCorrupted|apply keeps_recordLatency]. }
  destruct (String.eqb _ "abort"); [etrans; [exact Hr|]; apply keeps_eos|].
  destruct ok; cbn [negb]; [|exact Hr].
  case_bool_decide; (etrans; [exact Hr|]); (etrans; [exact Hl|]); [apply keeps_kip890|apply keeps_trk].
Qed.

Lemma keeps_CG_reconcile r w : keeps (base w) (base (CG.reconcile_step r w).1).
Proof. destruct w, r; cbn; first [done|apply keeps_trk|apply keeps_groupLoss]. Qed.

Lemma keeps_CG_churn at_ next w : keeps (base w) (base (CG.churn_step at_ next w).2).
Proof.
  destruct at_ as [|r|]; [done| |by destruct w]. cbn [CG.churn_step].
  pose proof (keeps_CG_reconcile r w) as Hk. by destruct (CG.reconcile_step r w).
Qed.

Lemma keeps_OL_deliver env f w : keeps (base w) (base (OL.deliver_and_commit env f w).1).
Proof.
  unfold OL.deliver_and_commit.
  assert (Hr : keeps (base w) (base (each_record (fun _ => OL.handleRecord) f w))).
  { apply keeps_each_record. intros. apply keeps_upd. auto with go. }
  set (w1 := each_record _ f w) in *.
  destruct (concat (map snd f)) as [|r rs]; [exact Hr|]. etrans; [exact Hr|].
  destruct (ce_commit env); cbn [negb fst].
  - apply keeps_upd. intros b. apply keeps_iter. auto with go.
  - destruct (ce_cancelled_poll env); [done|]. cbn [fst]. apply keeps_upd. auto with go.
Qed.

Lemma keeps_OL_sample answer cancelled samples w :
  keeps (base w) (base (OL.lag_tick answer cancelled samples w).1.1).
Proof.
  unfold OL.lag_tick. destruct (GroupLag answer _) as [e|glag]; [done|].
  set (w1 := upd_base _ w).
  assert (Hw : keeps (base w) (base w1))
    by (apply keeps_upd; intros; apply keeps_setLag, u64_wrap_ok).
  destruct (_ && _); [|exact Hw]. etrans; [exact Hw|]. destruct w1. cbn [fst].
  apply keeps_Disconnect.
Qed.

Lemma keeps_stage_failed env p e b : keeps b (AC.stage_failed env p e b).
Proof.
  unfold AC.stage_failed. destruct (AC.cy_cancelled env p); [done|].
  etrans; [apply keeps_recordError|apply keeps_adminOp].
Qed.

Lemma keeps_probe_loop env topic bads b : keeps b (AC.probe_loop env topic bads b).1.
Proof.
  revert b. induction bads as [|bad bads IH]; intros b; cbn [AC.probe_loop]; [done|].
  destruct (AC.cy_cancelled env _); [done|].
  set (b1 := match CreatePartitions (AC.cy_update env (AC.AtProbe bad)) topic bad with
             | None => recordAdminOpFailure b
             | Some e => if errors_Is e InvalidPartitions then recordAdminInvalidRejected b
                         else recordAdminInvalidRejected b
             end).
  assert (Hb : keeps b b1) by (unfold b1; repeat case_match; auto with go).
  specialize (IH b1). destruct (AC.probe_loop env topic bads b1) as [b2 reqs].
  etrans; [exact Hb|exact IH].
Qed.

Lemma keeps_cycle_body env topic b : keeps b (AC.cycle_body env topic b).1.
Proof.
  unfold AC.cycle_body. destruct (AC.cy_describe env); [|apply keeps_stage_failed].
  destruct (AC.cy_metadata env); [|apply keeps_stage_failed]. cbn [negb].
  destruct (CreatePartitions _ topic 2); [apply keeps_stage_failed|].
  pose proof (keeps_probe_loop env topic AC.probes (recordDeleted b)) as Hp.
  destruct (AC.probe_loop _ _ _ _). etrans; [apply keeps_recordDeleted|exact Hp].
Qed.

Lemma keeps_runCycle env w : keeps (base w) (base (AC.runCycle env w).1).
Proof.
  unfold AC.runCycle. set (w1 := w <| AC.cycle ::= add1 |>).
  assert (Hw : base w1 = base w) by (by destruct w). rewrite <- Hw. clearbody w1.
  destruct (CreateTopic _ _ _ _).
  - apply keeps_upd. intros. apply keeps_stage_failed.
  - pose proof (keeps_cycle_body env (AC.churn_topic w1 (AC.cycle w1)) (AC.BaseW w1)) as Hc.
    destruct (AC.cycle_body _ _ _) as [b reqs]. cbn [fst] in *.
    etrans; [exact Hc|]. destruct (DeleteTopic _ _); destruct w1; [apply keeps_recordError|done].
Qed.

Lemma send_loop_base commit sends k w : TX.BaseW (TX.send_loop commit sends k w).1.1 = TX.BaseW w.
Proof.
  revert w. induction k as [|k IH]; intros w; cbn [TX.send_loop]; [done|].
  destruct (TX.ts_rate _); cbn [negb]; [|done].
  set (w1 := if commit then _ else _). assert (Hw : TX.BaseW w1 = TX.BaseW w) by (by destruct commit, w).
  rewrite <- Hw. clearbody w1. destruct (Build _ _) as [body crc].
  destruct (TX.ts_acked _); cbn [negb]; [|done].
  specialize (IH w1). destruct (TX.send_loop _ _ _ w1) as [[w2 recs] err]. exact IH.
Qed.

Lemma keeps_count_sent recs b : keeps b (TX.count_sent recs b).
Proof.
  unfold TX.count_sent. revert b. induction recs as [|r recs IH]; intros b; cbn [foldl]; [done|].
  etrans; [|apply IH]. etrans; [apply keeps_metricObserveSend|apply keeps_recordSent].
Qed.

Lemma keeps_TX_produce env w : keeps (base w) (base (TX.produce_turn env w).1.1).
Proof.
  unfold TX.produce_turn. destruct (TX.te_cancelled env); [done|].
  destruct (negb (TX.txnCli w) && _); [destruct w; apply keeps_recordError|].
  set (w1 := w <| TX.txnCli := true |> <| TX.cycle ::= add1 |>).
  assert (Hw : base w1 = base w) by (by destruct w). rewrite <- Hw. clearbody w1.
  destruct (TX.te_begin env); cbn [negb];
    [|destruct (TX.te_cancelled_begin env); [done|destruct w1; apply keeps_recordError]].
  set (commit := _ =? 0). clearbody commit.
  pose proof (send_loop_base commit (TX.te_sends env) TX.txnRecordsPerCycle w1) as Hs.
  destruct (TX.send_loop _ _ _ _) as [[w2 recs] err]. cbn [fst] in Hs.
  change (base w1) with (TX.BaseW w1). rewrite <- Hs.
  destruct (TX.te_end env); cbn [negb];
    [|destruct (TX.te_cancelled_end env); [done|destruct w2; apply keeps_recordError]].
  destruct (_ && negb err); [|done]. destruct w2. apply keeps_count_sent.
Qed.

End Concrete.

(** ** Workers and groups through a run *)

Section Groups.
Context `{HdrHistogram}.

(** The worker type a value of the interface was built for. *)
Definition kind (a : AnyWorker) : string :=
  match a with
  | ARoundTrip _ => WorkerProduceRoundTrip | AKeyed _ => WorkerKeyedOrdering
  | AGroup _ => WorkerConsumerGroup | ALag _ => WorkerOffsetCommitLag
  | AChurn _ => WorkerAdminTopicChurn | ATxn _ => WorkerTransactionsEOS
  end.

Definition same_worker (a a' : AnyWorker) : Prop := kind a' = kind a /\ keeps (base a) (base a').

Definition same_group (g g' : WorkerGroup) : Prop :=
  g_name g' = g_name g /\ Forall2 same_worker (g_workers g) (g_workers g').

#[export] Instance same_worker_preorder : PreOrder same_worker.
Proof. split; [by intros []|]. intros a b c [H1 H2] [H3 H4]. split; [congruence|by etrans]. Qed.
Lemma same_worker_upd f a : (forall b, keeps b (f b)) -> same_worker a (upd_base f a).
Proof. intros Hf. split; [by destruct a|]. by apply keeps_upd. Qed.

Lemma same_worker_activity a a' : activity a a' -> same_worker a a'.
Proof.
  destruct 1; (split; [done|]); subst; cbn [base Worker_Any any_base].
  - eapply keeps_consumes; [|done]. intros. apply keeps_upd. auto with go.
  - cbn. apply keeps_produce.
  - eapply keeps_consumes; [|done]. intros. apply keeps_KO_handle.
  - cbn. apply keeps_produce.
  - eapply keeps_consumes; [|done]. intros. apply keeps_upd. auto with go.
  - destruct w. cbn. apply keeps_produce.
  - apply keeps_CG_churn.
  - apply keeps_consume_turn, keeps_OL_deliver.
  - destruct w. cbn. apply keeps_produce.
  - apply keeps_upd. auto with go.
  - apply keeps_OL_sample.
  - apply keeps_runCycle.
  - eapply keeps_consumes; [|done]. intros. apply keeps_TX_handle.
  - apply keeps_TX_produce.
Qed.

Lemma same_worker_StopProducers a : same_worker a (StopProducers_ a).1.
Proof. split; destruct a as [w|w|w|w|w|w]; try done; by destruct w. Qed.

Lemma same_worker_settle r a : same_worker a (settle r a).1.
Proof.
  destruct a as [w|w|w|w|w|w]; try done. cbn [settle]. pose proof (keeps_CG_reconcile r w) as Hk.
  split; by destruct (CG.reconcile_step r w).
Qed.

Lemma same_worker_StopConsumers a : same_worker a (StopConsumers_ a).
Proof. split; destruct a as [w|w|w|w|w|w]; try done; by destruct w. Qed.

Lemma same_worker_Start env a a' gs : Start env a = Ok (a', gs) -> same_worker a a'.
Proof.
  destruct a as [w|w|w|w|w|w]; cbn [Start].
  5: { unfold AC.Start. destruct (Transport.NewClient _ _ _); cbn [mbind result_bind]; [|done].
       intros [= <- <-]. split; [done|]. destruct w. apply keeps_signalReady. }
  all: match goal with |- (?x ≫= _) = _ -> _ => destruct x as [l|e] end;
    cbn [mbind result_bind]; [|done]; by intros [= <- <-].
Qed.

(** A group built for [name] under [c]: one worker of the right kind per channel,
    numbered from 1, each on its own topic's channel, its counters uint64 values. *)
Definition worker_typed (getenv : string -> string) (name : string) (c : Config) (i : Z)
    (a : AnyWorker) : Prop :=
  kind a = name /\ base_ok (base a) /\
  exists wc, GetWorkerConfig c name = Some wc /\
    identity (base a) = (name, MappedChannel (TopicName getenv name i), i, c, wc).

Definition group_typed (getenv : string -> string) (name : string) (c : Config) (g : WorkerGroup) : Prop :=
  g_name g = name /\
  Forall2 (worker_typed getenv name c) (seqZ 1 (GetWorkerChannels c name)) (g_workers g).

Lemma same_group_typed getenv name c g g' : same_group g g' ->
  group_typed getenv name c g -> group_typed getenv name c g'.
Proof.
  intros [Hn Hs] [Hn' Ht]. split; [congruence|].
  revert Hs. generalize (g_workers g'). induction Ht as [|i a l ws Ha Ht IH]; intros ws' Hs;
    (inversion Hs as [|? a' ? ws'' Hsw Hs']; subst); [constructor|].
  destruct Hsw as [Hk [Hi Hb]]. constructor; [|by apply IH].
  destruct Ha as (H1 & H2 & wc & H3 & H4). split_and!; [congruence|by apply Hb|].
  exists wc. split; [done|congruence].
Qed.

Lemma NewBaseWorker_ok nm ch i c b : NewBaseWorker nm ch i c = Some b ->
  base_ok b /\ exists wc, GetWorkerConfig c nm = Some wc /\ identity b = (nm, ch, i, c, wc).
Proof.
  unfold NewBaseWorker. destruct (GetWorkerConfig c nm) as [wc|] eqn:E; [|done].
  cbn [mbind option_bind]. intros [= <-]. split; [|eauto].
  unfold base_ok, counters. cbn. repeat (apply List.Forall_cons; [done|]). by apply List.Forall_nil.
Qed.

Ltac new_typed :=
  match goal with
  | |- context [NewBaseWorker ?n ?ch ?i ?c] => destruct (NewBaseWorker n ch i c) as [b|] eqn:E;
      cbn [mbind option_bind]; [|done]; intros [= <-];
      destruct (NewBaseWorker_ok _ _ _ _ _ E) as (Hok & wc & Hwc & Hid);
      eexists; split; [reflexivity|]; split_and!; eauto
  end.

Lemma new_worker_typed getenv name c i ws : name ∈ AllWorkerNames ->
  new_worker getenv name c i = Some ws -> exists a, ws = [a] /\ worker_typed getenv name c i a.
Proof.
  intros Hn. unfold AllWorkerNames in Hn. rewrite !elem_of_cons in Hn.
  destruct Hn as [->|[->|[->|[->|[->|[->|Hn]]]]]]; [..|by apply elem_of_nil in Hn]; unfold new_worker;
    cbn [String.eqb Ascii.eqb Bool.eqb WorkerProduceRoundTrip WorkerKeyedOrdering WorkerConsumerGroup
         WorkerOffsetCommitLag WorkerAdminTopicChurn WorkerTransactionsEOS].
  - unfold RT.NewProduceRoundTripWorker. new_typed.
  - unfold KO.NewKeyedOrderingWorker. new_typed.
  - unfold CG.NewConsumerGroupWorker.
    destruct (GetWorkerConfig c WorkerConsumerGroup) as [wc0|]; [|done]. cbn [mbind option_bind]. new_typed.
  - unfold OL.NewOffsetCommitLagWorker. new_typed.
  - unfold AC.NewAdminTopicChurnWorker. new_typed.
  - unfold TX.NewTransactionsEOSWorker. new_typed.
Qed.

Lemma NewWorkerGroup_typed getenv name c g : name ∈ AllWorkerNames ->
  NewWorkerGroup getenv name c = Some g -> group_typed getenv name c g.
Proof.
  intros Hn. unfold NewWorkerGroup.
  destruct (mapM _ _) as [wss|] eqn:E; [|done]. cbn [mbind option_bind]. intros [= <-].
  split; [done|]. apply mapM_Some in E. cbn [g_workers].
  induction E as [|i ws l wss Hi E IH]; [constructor|]. cbn [concat].
  destruct (new_worker_typed _ _ _ _ _ Hn Hi) as (a & -> & Ha). by constructor.
Qed.

Lemma new_worker_total getenv name c i : exists ws, new_worker getenv name c i = Some ws.
Proof.
  unfold new_worker.
  repeat match goal with |- context [String.eqb name ?n] => destruct (String.eqb_spec name n) as [->|_] end;
    try (eexists; reflexivity).
Qed.

Lemma NewWorkerGroup_total getenv name c : exists g, NewWorkerGroup getenv name c = Some g.
Proof.
  unfold NewWorkerGroup. assert (Hm : forall l, exists wss, mapM (new_worker getenv name c) l = Some wss).
  { induction l as [|i l [wss IH]]; [by exists []|]. destruct (new_worker_total getenv name c i) as [ws Hw].
    exists (ws :: wss). cbn. by rewrite Hw, IH. }
  destruct (Hm (seqZ 1 (GetWorkerChannels c name))) as [wss ->]. by eexists.
Qed.

End Groups.
