(* ===== verification/Heard.v ===== *)
(** * What the workers hear

    The turns of a worker labelled with the records they deliver, and the part of
    a worker the integrity, ordering and transaction gates read, as a function of
    the deliveries alone: [tally_of] after a turn is [hear] over its label. *)

From S2P Require Import Prelude Float64 GoStr Payload Config Metrics Transport Tracker Worker WorkerFacts Loops LoopsFacts WorkerGroup WorkerGroupFacts.
Local Open Scope string_scope.
Local Open Scope Z_scope.
Local Open Scope list_scope.

(** ** Labelled turns *)

(** A delivered record with its partition. *)
Definition delivery : Type := Z * KRecord.

Definition batch (f : Fetches) : list delivery :=
  concat (map (fun '(p, rs) => map (fun '(_, r) => (p, r)) rs) f).

Section Turns.
Context `{HdrHistogram}.

(** What one turn of a consume loop hands to its handler. *)
Definition delivered {W} `{!Worker W} (generation : W -> Z) (env : consume_env) (w : W) (c : consumer)
    : list delivery :=
  if ce_cancelled env then []
  else if (negb (cs_open c) || negb (generation w =? cs_gen c)) && negb (ce_client env) then []
  else match ce_poll env with PollErrors => [] | PollRecords f => batch f end.

Definition plain_turn {W} `{!Worker W} (generation : W -> Z) (handle : Z -> Z -> KRecord -> W -> W) env (w : W) c : W :=
  (consume_turn generation (fun _ f w => (each_record handle f w, Continue)) env w c).1.1.

Definition member_gen (mi : Z) (w : CG.ConsumerGroupWorker) : Z := default 0 (CG.memberGen mi w).

(** The turns that deliver nothing. *)
Inductive silent : AnyWorker -> AnyWorker -> Prop :=
  | silent_rt_produce pi env w :
      silent (ARoundTrip w) (let d := produce_turn false pi env (RT.BaseW w) (RT.part w) 0 in
                             ARoundTrip (RT.mk_worker (pd_base d) (pd_part d)))
  | silent_ko_produce pi env keySeq w :
      silent (AKeyed w) (let d := produce_turn true pi env (KO.BaseW w) (KO.part w) keySeq in
                         AKeyed (KO.mk_worker (pd_base d) (pd_part d) (KO.lastOffset w)))
  | silent_cg_produce pi env keySeq w :
      silent (AGroup w) (let d := produce_turn true pi env (CG.BaseW w) (CG.part w) keySeq in
                         AGroup (w <| CG.BaseW := pd_base d |> <| CG.part := pd_part d |>))
  | silent_cg_churn at_ next w : silent (AGroup w) (AGroup (CG.churn_step at_ next w).2)
  | silent_ol_produce pi env w :
      silent (ALag w) (let d := produce_turn false pi env (OL.BaseW w) (OL.part w) 0 in
                       ALag (w <| OL.BaseW := pd_base d |> <| OL.part := pd_part d |>))
  | silent_ol_client w : silent (ALag w) (ALag (OL.lagSampler false [] w))
  | silent_ol_sample answer cancelled samples w :
      silent (ALag w) (ALag (OL.lag_tick answer cancelled samples w).1.1)
  | silent_ac_cycle env w : silent (AChurn w) (AChurn (AC.runCycle env w).1)
  | silent_tx_produce env w : silent (ATxn w) (ATxn (TX.produce_turn env w).1.1).

Inductive turn : AnyWorker -> list delivery -> AnyWorker -> Prop :=
  | turn_silent a a' : silent a a' -> turn a [] a'
  | turn_rt env c w : turn (ARoundTrip w) (delivered generation env w c)
      (ARoundTrip (plain_turn generation (fun _ => RT.handleRecord) env w c))
  | turn_ko env c w : turn (AKeyed w) (delivered generation env w c)
      (AKeyed (plain_turn generation KO.handleRecord env w c))
  | turn_cg mi env c w : turn (AGroup w) (delivered (member_gen mi) env w c)
      (AGroup (plain_turn (member_gen mi) (fun _ => CG.handleRecord) env w c))
  | turn_ol env c w : turn (ALag w) (delivered generation env w c)
      (ALag (consume_turn generation OL.deliver_and_commit env w c).1.1)
  | turn_tx env c w : turn (ATxn w) (delivered generation env w c)
      (ATxn (plain_turn generation (fun _ => TX.handleRecord) env w c)).

(** The labelled turns are the turns. *)
Lemma turn_activity a a' : activity a a' <-> exists ds, turn a ds a'.
Proof.
  split.
  - destruct 1 as [w w' (env & c & ->)|pi env w d ->|w w' (env & c & ->)|pi env k w d ->|mi w w' (env & c & ->)
      |pi env k w d ->| | |pi env w d ->| | | |w w' (env & c & ->)| ];
      eexists; try (eapply turn_silent; constructor);
      first [apply turn_rt|apply turn_ko|apply turn_cg|apply turn_ol|apply turn_tx].
  - intros (ds & Ht). destruct Ht as [a a' Hs| | | | | ]; [destruct Hs|..]; econstructor; try done; by exists env, c.
Qed.

End Turns.

(** ** Tallies *)

(** What the gates read of a worker, and what its handler needs to count on. *)
Record tally := mk_tally { t_corrupted : Z; t_late : Z; t_leaked : Z; t_last : gmap Z Z }.

(** A record whose body does not match its content hash, for a handler that gets
    that far; one of an aborted transaction; one that does not advance its partition. *)
Definition corrupt (r : KRecord) : bool :=
  let '(m, ok) := extractMeta (rHeaders r) in
  ok && (negb (String.eqb (m_crcHex m) "") && negb (VerifyCRC (rValue r) (m_crcHex m))).
Definition leak (r : KRecord) : bool := String.eqb (TX.headerValue (rHeaders r) TX.txnOutcomeHeader) "abort".
Definition late (last : gmap Z Z) (p : Z) (r : KRecord) : bool :=
  match last !! p with Some o => rOffset r <=? o | None => false end.
Definition raise (last : gmap Z Z) (p : Z) (r : KRecord) : gmap Z Z :=
  if match last !! p with Some o => o <? rOffset r | None => true end then <[ p := rOffset r ]> last else last.

Definition bump (b : bool) (x : Z) : Z := if b then add1 x else x.

(** One delivery to a worker of type [k]. *)
Definition hear (k : string) (t : tally) '((p, r) : delivery) : tally :=
  let leaked := IsTransactionsWorker k && leak r in
  mk_tally (bump (negb leaked && corrupt r) (t_corrupted t))
    (bump (IsKeyedWorker k && late (t_last t) p r) (t_late t))
    (bump leaked (t_leaked t))
    (if IsKeyedWorker k then raise (t_last t) p r else t_last t).

(** The reset after the warmup: the counters start anew, the offsets stay. *)
Definition reset_tally (t : tally) : tally := mk_tally 0 0 0 (t_last t).
Definition new_tally : tally := mk_tally 0 0 0 ∅.

Section Tallies.
Context `{HdrHistogram}.

Definition tallies (b : BaseWorker) : Z * Z * Z := (corrupted b, offsetOrderViolations b, eosViolations b).
Definition last_of (a : AnyWorker) : gmap Z Z := match a with AKeyed w => KO.lastOffset w | _ => ∅ end.
Definition tally_of (a : AnyWorker) : tally :=
  let '(c, o, l) := tallies (base a) in mk_tally c o l (last_of a).

(** An operation that touches none of it. *)
Definition still (b b' : BaseWorker) : Prop := tallies b' = tallies b.

#[export] Instance still_preorder : PreOrder still.
Proof. split; [done|]. unfold still. intros a b c. congruence. Qed.

Lemma still_iter n f b : (forall b, still b (f b)) -> still b (Nat.iter n f b).
Proof. intros Hf. induction n as [|n IH]; simpl; [done|]. etrans; [exact IH|apply Hf]. Qed.

Lemma still_groupLoss n b : still b (recordGroupLossRebalance n b).
Proof.
  unfold recordGroupLossRebalance. destruct (n =? 0); [done|].
  etrans; [|apply still_iter; by intros]. done.
Qed.
Lemma still_setLag v b : still b (setLagAccuracyErr v b).
Proof. unfold setLagAccuracyErr. by destruct (v <=? _). Qed.
Lemma still_recordTracked pid s b : still b (snd (recordTracked pid s b)).
Proof. unfold recordTracked. destruct (Track.Record_ (trk b) pid s) as [[[] []] t]; done. Qed.
Lemma still_latency now m b : still b (latency_record now m b).
Proof. unfold latency_record. by destruct (m_sentAt m). Qed.
Lemma still_produce keyed pi env b p keySeq : still b (pd_base (produce_turn keyed pi env b p keySeq)).
Proof.
  unfold produce_turn. destruct (pe_cancelled env); [done|].
  destruct (negb (prodCli p) && _); [done|]. destruct (pe_rate env); cbn [negb]; [|done].
  unfold Build. cbn iota beta zeta.
  destruct (pe_acked env); [done|]. by destruct (pe_cancelled_produce env).
Qed.

Lemma tally_of_upd f a : (forall b, still b (f b)) -> tally_of (upd_base f a) = tally_of a.
Proof.
  intros Hf. unfold tally_of. rewrite (base_upd f a). rewrite (Hf (base a)). by destruct a.
Qed.

(** *** Silent turns *)

Lemma still_CG_reconcile r w : still (base w) (base (CG.reconcile_step r w).1).
Proof. destruct w, r; cbn; first [done|apply still_groupLoss]. Qed.

Lemma still_CG_churn at_ next w : still (base w) (base (CG.churn_step at_ next w).2).
Proof.
  destruct at_ as [|r|]; [done| |by destruct w]. cbn [CG.churn_step].
  pose proof (still_CG_reconcile r w) as Hk. by destruct (CG.reconcile_step r w).
Qed.

Lemma still_OL_sample answer cancelled samples w :
  still (base w) (base (OL.lag_tick answer cancelled samples w).1.1).
Proof.
  unfold OL.lag_tick. destruct (GroupLag answer _) as [e|glag]; [done|].
  set (w1 := upd_base _ w).
  assert (Hw : still (base w) (base w1)) by (unfold w1; rewrite base_upd; apply still_setLag).
  destruct (_ && _); [|exact Hw]. etrans; [exact Hw|]. by destruct w1.
Qed.

Lemma still_stage_failed env p e b : still b (AC.stage_failed env p e b).
Proof. unfold AC.stage_failed. by destruct (AC.cy_cancelled env p). Qed.

Lemma still_probe_loop env topic bads b : still b (AC.probe_loop env topic bads b).1.
Proof.
  revert b. induction bads as [|bad bads IH]; intros b; cbn [AC.probe_loop]; [done|].
  destruct (AC.cy_cancelled env _); [done|].
  set (b1 := match CreatePartitions (AC.cy_update env (AC.AtProbe bad)) topic bad with
             | None => recordAdminOpFailure b
             | Some e => if errors_Is e InvalidPartitions then recordAdminInvalidRejected b
                         else recordAdminInvalidRejected b
             end).
  assert (Hb : still b b1) by (unfold b1; repeat case_match; done).
  specialize (IH b1). destruct (AC.probe_loop env topic bads b1) as [b2 reqs].
  etrans; [exact Hb|exact IH].
Qed.

Lemma still_cycle_body env topic b : still b (AC.cycle_body env topic b).1.
Proof.
  unfold AC.cycle_body. destruct (AC.cy_describe env); [|apply still_stage_failed].
  destruct (AC.cy_metadata env); [|apply still_stage_failed]. cbn [negb].
  destruct (CreatePartitions _ topic 2); [apply still_stage_failed|].
  pose proof (still_probe_loop env topic AC.probes (recordDeleted b)) as Hp.
  destruct (AC.probe_loop _ _ _ _). exact Hp.
Qed.

Lemma still_runCycle env w : still (base w) (base (AC.runCycle env w).1).
Proof.
  unfold AC.runCycle. set (w1 := w <| AC.cycle ::= add1 |>).
  assert (Hw : base w1 = base w) by (by destruct w). rewrite <- Hw. clearbody w1.
  destruct (CreateTopic _ _ _ _); [cbn [fst]; rewrite base_upd; apply still_stage_failed|].
  pose proof (still_cycle_body env (AC.churn_topic w1 (AC.cycle w1)) (AC.BaseW w1)) as Hc.
  destruct (AC.cycle_body _ _ _) as [b reqs]. cbn [fst] in *.
  etrans; [exact Hc|]. by destruct (DeleteTopic _ _); destruct w1.
Qed.

Lemma still_count_sent recs : forall b, still b (TX.count_sent recs b).
Proof.
  unfold TX.count_sent. induction recs as [|r recs IH]; intros b; cbn [foldl]; [done|]. by etrans; [|apply IH].
Qed.

Lemma still_TX_produce env w : still (base w) (base (TX.produce_turn env w).1.1).
Proof.
  unfold TX.produce_turn. destruct (TX.te_cancelled env); [done|].
  destruct (negb (TX.txnCli w) && _); [by destruct w|].
  set (w1 := w <| TX.txnCli := true |> <| TX.cycle ::= add1 |>).
  assert (Hw : base w1 = base w) by (by destruct w). rewrite <- Hw. clearbody w1.
  destruct (TX.te_begin env); cbn [negb]; [|by destruct (TX.te_cancelled_begin env); [done|destruct w1]].
  set (commit := _ =? 0). clearbody commit.
  pose proof (send_loop_base commit (TX.te_sends env) TX.txnRecordsPerCycle w1) as Hs.
  destruct (TX.send_loop _ _ _ _) as [[w2 recs] err]. cbn [fst] in Hs.
  change (base w1) with (TX.BaseW w1). rewrite <- Hs.
  destruct (TX.te_end env); cbn [negb]; [|by destruct (TX.te_cancelled_end env); [done|destruct w2]].
  destruct (_ && negb err); [|done]. destruct w2. apply still_count_sent.
Qed.

Lemma tally_by a a' : still (base a) (base a') -> last_of a' = last_of a -> tally_of a' = tally_of a.
Proof. intros Hs Hl. unfold tally_of. by rewrite Hs, Hl. Qed.

Lemma silent_tally a a' : silent a a' -> tally_of a' = tally_of a.
Proof.
  destruct 1; (apply tally_by; [|done]); try apply still_produce.
  - apply still_CG_churn.
  - done.
  - apply still_OL_sample.
  - apply still_runCycle.
  - apply still_TX_produce.
Qed.

(** *** Deliveries *)

Lemma tallies_verify r m b : extractMeta (rHeaders r) = (m, true) ->
  tallies (verify_record r m b) = let '(c, o, l) := tallies b in (bump (corrupt r) c, o, l).
Proof. intros E. unfold verify_record, corrupt. rewrite E. cbn [andb]. by destruct (negb _ && negb _). Qed.

Lemma tallies_check now r b :
  tallies (check_record now r b) = let '(c, o, l) := tallies b in (bump (corrupt r) c, o, l).
Proof.
  unfold check_record. destruct (extractMeta (rHeaders r)) as [m ok] eqn:E. destruct ok; cbn [negb].
  - rewrite (still_recordTracked _ _ _), (still_latency now m _). by apply tallies_verify.
  - unfold corrupt. rewrite E. done.
Qed.

Lemma tallies_handle now r b :
  tallies (Worker.handleRecord now r b) = let '(c, o, l) := tallies b in (bump (corrupt r) c, o, l).
Proof. unfold Worker.handleRecord. by rewrite tallies_check. Qed.

(** A type without gates of its own only checks the body. *)
Lemma hear_plain k t p r : IsKeyedWorker k = false -> IsTransactionsWorker k = false ->
  hear k t (p, r) = mk_tally (bump (corrupt r) (t_corrupted t)) (t_late t) (t_leaked t) (t_last t).
Proof. intros E1 E2. unfold hear. rewrite E1, E2. done. Qed.

Lemma hear_base k now r a p : IsKeyedWorker k = false -> IsTransactionsWorker k = false ->
  tally_of (upd_base (Worker.handleRecord now r) a) = hear k (tally_of a) (p, r).
Proof.
  intros E1 E2. rewrite (hear_plain k _ p r E1 E2). unfold tally_of.
  rewrite (base_upd _ a), tallies_handle. by destruct a.
Qed.

Lemma hear_KO p now r w :
  tally_of (AKeyed (KO.handleRecord p now r w)) = hear WorkerKeyedOrdering (tally_of (AKeyed w)) (p, r).
Proof.
  unfold tally_of, hear, KO.handleRecord, late, raise, last_of. cbn [base Worker_Any any_base KO.Worker_KeyedOrdering KO.BaseW].
  rewrite tallies_check. cbn [KO.lastOffset]. change (IsKeyedWorker WorkerKeyedOrdering) with true.
  change (IsTransactionsWorker WorkerKeyedOrdering) with false.
  unfold tallies. cbn [andb negb t_last t_late t_leaked t_corrupted].
  destruct (KO.lastOffset w !! p) as [last|]; [destruct (rOffset r <=? last)|]; done.
Qed.

Lemma hear_TX p now r w :
  tally_of (ATxn (TX.handleRecord now r w)) = hear WorkerTransactionsEOS (tally_of (ATxn w)) (p, r).
Proof.
  unfold tally_of, hear, TX.handleRecord. cbn [base Worker_Any any_base TX.Worker_TransactionsEOS last_of].
  change (IsKeyedWorker WorkerTransactionsEOS) with false. change (IsTransactionsWorker WorkerTransactionsEOS) with true.
  fold (leak r). cbn [andb]. destruct (extractMeta (rHeaders r)) as [m ok] eqn:E.
  set (b := recordReceived _ _).
  destruct (leak r) eqn:El; [by destruct w|]. cbn [negb andb].
  destruct ok; cbn [negb]; [|destruct w; unfold corrupt; rewrite E; done].
  assert (Hb : tallies (latency_record now m (verify_record r m b)) = let '(c, o, l) := tallies (TX.BaseW w) in (bump (corrupt r) c, o, l)).
  { rewrite (still_latency now m _), (tallies_verify _ _ _ E). done. }
  set (b2 := latency_record _ _ _) in *. clearbody b2.
  transitivity (let '(c, o, l) := tallies b2 in mk_tally c o l ∅); [|by rewrite Hb].
  by case_bool_decide; destruct w.
Qed.

(** *** Turns *)

Section Consume.
Context {W : Type} `{!Worker W} (view : W -> tally) (k : string).
Hypothesis view_still : forall f w, (forall b, still b (f b)) -> view (upd_base f w) = view w.

Lemma hear_each handle f w : (forall p now r w, view (handle p now r w) = hear k (view w) (p, r)) ->
  view (each_record handle f w) = foldl (hear k) (view w) (batch f).
Proof.
  intros Hh. revert w. induction f as [|[p rs] f IH]; intros w; [done|].
  unfold each_record, batch in *. cbn [foldl map concat]. rewrite foldl_app, IH. f_equal.
  revert w. induction rs as [|[now r] rs IHr]; intros w; [done|]. cbn [foldl map]. by rewrite IHr, Hh.
Qed.

Lemma hear_turn gen deliver env w c :
  (forall env f w, view (deliver env f w).1 = foldl (hear k) (view w) (batch f)) ->
  view (consume_turn gen deliver env w c).1.1 = foldl (hear k) (view w) (delivered gen env w c).
Proof.
  intros Hd.
  assert (Hpoll : forall w c, view (match ce_poll env with
    | PollErrors => if ce_cancelled_poll env then (upd_base signalReady w, c, Return)
        else (upd_base (recordError "fetch_failure") (upd_base signalReady w), mk_consumer (cs_gen c) false, Continue)
    | PollRecords f => let '(w, k) := deliver env f (upd_base signalReady w) in (w, c, k)
    end).1.1 = foldl (hear k) (view w) (match ce_poll env with PollErrors => [] | PollRecords f => batch f end)).
  { intros w' c'. destruct (ce_poll env) as [|f].
    - destruct (ce_cancelled_poll env); cbn [fst foldl]; by rewrite ?view_still.
    - specialize (Hd env f (upd_base signalReady w')). rewrite view_still in Hd by done.
      by destruct (deliver env f _) as [w2 k2]. }
  unfold consume_turn, delivered. destruct (ce_cancelled env); [done|].
  destruct (negb (cs_open c) || _); cbn [andb]; [|apply Hpoll].
  destruct (ce_client env); cbn [negb].
  - rewrite Hpoll. destruct (cs_open c); by rewrite ?view_still.
  - cbn [fst foldl]. by rewrite view_still.
Qed.

End Consume.

Section Any.
Context {W : Type} `{!Worker W} (into : W -> AnyWorker) (k : string).
Hypothesis into_upd : forall f w, into (upd_base f w) = upd_base f (into w).

Lemma into_still f w : (forall b, still b (f b)) -> tally_of (into (upd_base f w)) = tally_of (into w).
Proof. intros Hf. rewrite into_upd. by apply tally_of_upd. Qed.

Lemma hear_plain_turn handle gen env w c :
  (forall p now r w, tally_of (into (handle p now r w)) = hear k (tally_of (into w)) (p, r)) ->
  tally_of (into (plain_turn gen handle env w c)) = foldl (hear k) (tally_of (into w)) (delivered gen env w c).
Proof.
  intros Hh. apply (hear_turn (fun w => tally_of (into w)) k into_still).
  intros env' f w'. by apply (hear_each (fun w => tally_of (into w))).
Qed.

End Any.

Lemma hear_OL_deliver env f w :
  tally_of (ALag (OL.deliver_and_commit env f w).1) = foldl (hear WorkerOffsetCommitLag) (tally_of (ALag w)) (batch f).
Proof.
  unfold OL.deliver_and_commit. set (w1 := each_record _ f w).
  assert (Hw : tally_of (ALag w1) = foldl (hear WorkerOffsetCommitLag) (tally_of (ALag w)) (batch f)).
  { apply (hear_each (fun w => tally_of (ALag w))). intros. by apply (hear_base _ now r (ALag w0) p). }
  rewrite <- Hw. destruct (concat (map snd f)) as [|r rs]; [done|].
  destruct (ce_commit env); cbn [negb fst].
  - apply (into_still ALag); [done|]. intros b. by apply still_iter.
  - destruct (ce_cancelled_poll env); [done|]. by apply (into_still ALag).
Qed.

(** The tally after a turn is what was heard. *)
Lemma turn_tally a ds a' : turn a ds a' -> kind a' = kind a /\ tally_of a' = foldl (hear (kind a)) (tally_of a) ds.
Proof.
  destruct 1 as [a a' Hs|env c w|env c w|mi env c w|env c w|env c w]; (split; [try done; by destruct Hs|]); cbn [kind].
  - by apply silent_tally.
  - apply (hear_plain_turn ARoundTrip); [done|]. intros. by apply (hear_base _ now r (ARoundTrip w0) p).
  - apply (hear_plain_turn AKeyed); [done|]. intros. apply hear_KO.
  - apply (hear_plain_turn AGroup); [done|]. intros. by apply (hear_base _ now r (AGroup w0) p).
  - apply (hear_turn (fun w => tally_of (ALag w))); [apply (into_still ALag); done|]. intros. apply hear_OL_deliver.
  - apply (hear_plain_turn ATxn); [done|]. intros. apply hear_TX.
Qed.

(** *** The engine's operations *)

Lemma tally_StopProducers a : tally_of (StopProducers_ a).1 = tally_of a.
Proof. destruct a as [w|w|w|w|w|w]; cbn [StopProducers_]; by destruct w. Qed.

Lemma tally_settle r a : tally_of (settle r a).1 = tally_of a.
Proof.
  destruct a as [w|w|w|w|w|w]; try done. cbn [settle]. pose proof (still_CG_reconcile r w) as Hk.
  destruct (CG.reconcile_step r w) as [w' r']. by apply tally_by.
Qed.

Lemma tally_StopConsumers a : tally_of (StopConsumers_ a) = tally_of a.
Proof. destruct a as [w|w|w|w|w|w]; cbn [StopConsumers_]; by destruct w. Qed.

Lemma tally_Start env a a' gs : Start env a = Ok (a', gs) -> tally_of a' = tally_of a.
Proof.
  destruct a as [w|w|w|w|w|w]; cbn [Start].
  5: { unfold AC.Start. destruct (Transport.NewClient _ _ _); cbn [mbind result_bind]; [|done].
       intros [= <- <-]. by destruct w. }
  all: match goal with |- (?x ≫= _) = _ -> _ => destruct x as [l|e] end;
    cbn [mbind result_bind]; [|done]; by intros [= <- <-].
Qed.

Lemma tally_reset a : tally_of (upd_base ResetAfterWarmup a) = reset_tally (tally_of a).
Proof. by destruct a as [w|w|w|w|w|w]; destruct w. Qed.

Lemma NewBaseWorker_tallies nm ch i c b : NewBaseWorker nm ch i c = Some b -> tallies b = (0, 0, 0).
Proof. unfold NewBaseWorker. destruct (GetWorkerConfig c nm); [|done]. cbn [mbind option_bind]. by intros [= <-]. Qed.

End Tallies.

(** ** What was heard since the reset *)

(** The tally of a new worker that hears [before], is reset, and hears [after]. *)
Definition heard (k : string) (before after : list delivery) : tally :=
  foldl (hear k) (reset_tally (foldl (hear k) new_tally before)) after.

Definition is_corrupt (k : string) (d : delivery) : bool := negb (IsTransactionsWorker k && leak d.2) && corrupt d.2.
Definition is_leak (k : string) (d : delivery) : bool := IsTransactionsWorker k && leak d.2.
Definition count (P : delivery -> bool) (ds : list delivery) : Z := Z.of_nat (length (List.filter P ds)).
Definition offsets_of (ds : list delivery) : list (Z * Z) := map (fun d => (d.1, rOffset d.2)) ds.

Lemma count_cons P d ds : count P (d :: ds) = (if P d then 1 else 0) + count P ds.
Proof. unfold count. cbn [List.filter]. destruct (P d); cbn [length]; lia. Qed.
Lemma count_le P ds : 0 <= count P ds <= Z.of_nat (length ds).
Proof. unfold count. pose proof (List.filter_length_le P ds). lia. Qed.
Lemma count_zero P ds : count P ds = 0 -> Forall (fun d => P d = false) ds.
Proof.
  induction ds as [|d ds IH]; [constructor|]. rewrite count_cons. intros Hc.
  pose proof (count_le P ds). destruct (P d) eqn:E; [lia|]. constructor; [done|]. apply IH. lia.
Qed.

Lemma bump_wrap b x y : u64_wrap (bump b x + y) = u64_wrap (x + ((if b then 1 else 0) + y)).
Proof. destruct b; cbn [bump]; [|by rewrite Z.add_0_l]. unfold add1. rewrite u64_wrap_add_l. f_equal. lia. Qed.
Lemma bump_ok b x : u64_ok x -> u64_ok (bump b x).
Proof. destruct b; cbn [bump]; [intros _; apply u64_wrap_ok|done]. Qed.

Lemma hear_counts k ds : forall t, u64_ok (t_corrupted t) -> u64_ok (t_leaked t) ->
  t_corrupted (foldl (hear k) t ds) = u64_wrap (t_corrupted t + count (is_corrupt k) ds) /\
  t_leaked (foldl (hear k) t ds) = u64_wrap (t_leaked t + count (is_leak k) ds).
Proof.
  induction ds as [|[p r] ds IH]; intros t Hc Hl.
  { unfold count. cbn. rewrite !Z.add_0_r, !u64_wrap_id by done. done. }
  cbn [foldl]. destruct (IH (hear k t (p, r))) as [-> ->]; [cbn; by apply bump_ok..|].
  rewrite !count_cons. cbn [hear t_corrupted t_leaked]. rewrite !bump_wrap. done.
Qed.

Lemma hear_late k ds : IsKeyedWorker k = true -> forall t seen, KO.holds_max (t_last t) seen -> u64_ok (t_late t) ->
  t_late (foldl (hear k) t ds) = u64_wrap (t_late t + KO.violations seen (offsets_of ds)) /\
  KO.holds_max (t_last (foldl (hear k) t ds)) (rev (offsets_of ds) ++ seen).
Proof.
  intros Hk. induction ds as [|[p r] ds IH]; intros t seen Hm Ho.
  { cbn. rewrite Z.add_0_r, u64_wrap_id by done. done. }
  cbn [foldl offsets_of map rev KO.violations fst snd].
  destruct (IH (hear k t (p, r)) ((p, rOffset r) :: seen)) as [Hl Hh].
  - cbn [hear t_last]. rewrite Hk. apply (KO.holds_max_step _ _ p (rOffset r)), Hm.
  - cbn [hear t_late]. by apply bump_ok.
  - split; [|by rewrite <- app_assoc]. rewrite Hl. cbn [hear t_late]. rewrite bump_wrap, Hk. cbn [andb].
    unfold late. by rewrite (KO.holds_max_late _ _ p (rOffset r) Hm).
Qed.

Lemma hear_last k ds : forall t t', t_last t = t_last t' -> t_last (foldl (hear k) t ds) = t_last (foldl (hear k) t' ds).
Proof.
  induction ds as [|[p r] ds IH]; intros t t' E; [done|]. cbn [foldl]. apply IH. cbn [hear t_last]. by rewrite E.
Qed.

Lemma heard_reset k before after : reset_tally (heard k before after) = heard k (before ++ after) [].
Proof.
  unfold heard. cbn [foldl]. rewrite foldl_app. unfold reset_tally at 1 3. f_equal. by apply hear_last.
Qed.

Lemma heard_app k before after ds : foldl (hear k) (heard k before after) ds = heard k before (after ++ ds).
Proof. unfold heard. by rewrite foldl_app. Qed.

(** The counters of what was heard. *)
Lemma heard_counts k before after :
  t_corrupted (heard k before after) = u64_wrap (count (is_corrupt k) after) /\
  t_leaked (heard k before after) = u64_wrap (count (is_leak k) after) /\
  (IsKeyedWorker k = true ->
   t_late (heard k before after) = u64_wrap (KO.violations (rev (offsets_of before)) (offsets_of after))).
Proof.
  unfold heard. destruct (hear_counts k after (reset_tally (foldl (hear k) new_tally before))) as [-> ->]; [done..|].
  split_and!; [done..|]. intros Hk.
  destruct (hear_late k before Hk new_tally []) as [_ Hm]; [|done|].
  { intros p. cbn. rewrite lookup_empty. intros o. apply not_elem_of_nil. }
  rewrite app_nil_r in Hm.
  by destruct (hear_late k after Hk (reset_tally (foldl (hear k) new_tally before)) (rev (offsets_of before))) as [-> _].
Qed.

Section New.
Context `{HdrHistogram}.

Lemma new_worker_tally getenv name c i ws : new_worker getenv name c i = Some ws ->
  Forall (fun a => tally_of a = new_tally) ws.
Proof.
  assert (Hone : forall {W} (into : W -> AnyWorker) (o : option W), (forall w, o = Some w -> tally_of (into w) = new_tally) ->
    (w ← o; Some [into w]) = Some ws -> Forall (fun a => tally_of a = new_tally) ws).
  { intros W into o Ho. destruct o as [w|]; [|done]. cbn. intros [= <-]. constructor; [by apply Ho|constructor]. }
  assert (Hb : forall nm ch a b, NewBaseWorker nm ch i c = Some b -> base a = b -> last_of a = ∅ -> tally_of a = new_tally).
  { intros nm ch a b Hnew <- Hl. unfold tally_of. by rewrite (NewBaseWorker_tallies _ _ _ _ _ Hnew), Hl. }
  unfold new_worker. repeat case_match; try (apply Hone; intros w Hw).
  7: by intros [= <-].
  all: cbv delta [RT.NewProduceRoundTripWorker KO.NewKeyedOrderingWorker CG.NewConsumerGroupWorker OL.NewOffsetCommitLagWorker
    AC.NewAdminTopicChurnWorker TX.NewTransactionsEOSWorker] beta zeta in Hw;
    repeat match type of Hw with context [GetWorkerConfig ?x ?y] => destruct (GetWorkerConfig x y); [cbn [mbind option_bind] in Hw|done] end;
    match type of Hw with context [NewBaseWorker ?n ?ch ?j ?cc] => destruct (NewBaseWorker n ch j cc) as [b|] eqn:Eb; [|done] end;
    injection Hw as <-; by eapply Hb.
Qed.

Lemma NewWorkerGroup_tally getenv name c g : NewWorkerGroup getenv name c = Some g ->
  Forall (fun a => tally_of a = new_tally) (g_workers g).
Proof.
  unfold NewWorkerGroup. destruct (mapM _ _) as [wss|] eqn:E; [|done]. cbn [mbind option_bind]. intros [= <-].
  apply mapM_Some in E. cbn [g_workers]. induction E as [|i ws l wss Hi E IH]; [constructor|].
  cbn [concat]. apply Forall_app. split; [by eapply new_worker_tally|done].
Qed.

End New.
