(* ===== verification/Snapshot.v ===== *)
(** * Snapshots, the drain and the periodic tasks (burnin/engine/engine.go, extras.go)

    What the engine computes from its worker groups: the frozen snapshots, the
    gap detection pass, the wait for quiescence, the status line, and one tick
    of each periodic task.  Groups are a map keyed by worker name; a loop over
    it whose result depends on no order is a map operation, and the counter
    increments it emits are listed in one order of the many possible. *)

From S2P Require Import Prelude Float64 GoStr Config Metrics Verdict Tracker Worker Loops WorkerGroup.
Local Open Scope string_scope.
Local Open Scope Z_scope.
Local Open Scope list_scope.

(** map[string]*WorkerGroup *)
Notation Groups := (gmap string WorkerGroup).

Section Engine.
Context `{HdrHistogram}.

(** total += f(w), over the workers of a group *)
Definition add_all (f : BaseWorker -> Z) (total : Z) (ws : list AnyWorker) : Z :=
  foldl (fun t w => t +u f (base w)) total ws.

Definition lost_of (b : BaseWorker) : Z := Track.TotalLost (trk b).
Definition outOfOrder_of (b : BaseWorker) : Z := Track.TotalOutOfOrder (trk b).
Definition rate_of (b : BaseWorker) : float64 := Sliding.Rate (rateWindow b).
Definition peak_of (b : BaseWorker) : float64 := Peak.Peak (peakRate b).

(** ** captureWorkerSnapshots *)

(** The body of the inner loop, the latency selection apart. *)
Definition add_worker (s : Snap.WorkerSnapshot) (w : AnyWorker) : Snap.WorkerSnapshot :=
  let b := base w in {|
    Snap.Sent := Snap.Sent s +u SentCount b;
    Snap.Received := Snap.Received s +u ReceivedCount b;
    Snap.Errors := Snap.Errors s +u ErrorCount b;
    Snap.Corrupted := Snap.Corrupted s +u CorruptedCount b;
    Snap.Reconnections := Snap.Reconnections s +u ReconnectionCount b;
    Snap.DowntimeSeconds := fadd (Snap.DowntimeSeconds s) (DowntimeSeconds_ b);
    Snap.Duplicated := Snap.Duplicated s +u DuplicatedCount b;
    Snap.Lost := Snap.Lost s +u lost_of b;
    Snap.OutOfOrder := Snap.OutOfOrder s +u outOfOrder_of b;
    Snap.Deleted := Snap.Deleted s +u DeletedCount b;
    Snap.OffsetOrderViolations := Snap.OffsetOrderViolations s +u offsetOrderViolations b;
    Snap.GroupLossRebalance := Snap.GroupLossRebalance s +u groupLossRebalance b;
    Snap.EOSViolations := Snap.EOSViolations s +u eosViolations b;
    Snap.LagAccuracyErrMax :=
      if Snap.LagAccuracyErrMax s <? lagAccuracyErrMax b then lagAccuracyErrMax b
      else Snap.LagAccuracyErrMax s;
    Snap.AdminOpFailures := Snap.AdminOpFailures s +u adminOpFailures b;
    Snap.AdminInvalidRejected := Snap.AdminInvalidRejected s +u adminInvalidRejected b;
    Snap.KIP890Residual := Snap.KIP890Residual s +u kip890Residual b;
    Snap.LatencyP50 := Snap.LatencyP50 s; Snap.LatencyP95 := Snap.LatencyP95 s;
    Snap.LatencyP99 := Snap.LatencyP99 s; Snap.LatencyP999 := Snap.LatencyP999 s;
    Snap.PeakRate := if fltb (Snap.PeakRate s) (peak_of b) then peak_of b else Snap.PeakRate s;
    Snap.AvgRate := fadd (Snap.AvgRate s) (rate_of b) |}.

(** bestLat and bestLatCount; metricsLatency only wraps the accumulator. *)
Definition pick_latency (best : option Latency.LatencyAccumulator * Z) (w : AnyWorker)
    : option Latency.LatencyAccumulator * Z :=
  let acc := latAccum (base w) in
  let c := Latency.Count acc in
  if best.2 <? c then (Some acc, c) else best.

Definition with_percentiles (best : option Latency.LatencyAccumulator) (s : Snap.WorkerSnapshot)
    : Snap.WorkerSnapshot :=
  match best with
  | None => s
  | Some acc =>
      let '(p50, p95, p99, p999) := Latency.Percentiles acc in
      s <| Snap.LatencyP50 := p50 |> <| Snap.LatencyP95 := p95 |>
        <| Snap.LatencyP99 := p99 |> <| Snap.LatencyP999 := p999 |>
  end.

Definition snapshot_of (g : WorkerGroup) : Snap.WorkerSnapshot :=
  with_percentiles (foldl pick_latency (None, 0) (g_workers g)).1
    (foldl add_worker Snap.zero (g_workers g)).

Definition captureWorkerSnapshots (groups : Groups) : gmap string Snap.WorkerSnapshot :=
  snapshot_of <$> groups.

(** ** Gap detection *)

(** w.Tracker().DetectGaps() and the AddLost calls on what it returns. *)
Definition mark_gaps (w : AnyWorker) : AnyWorker :=
  upd_base (fun b => b <| trk ::= fun t => snd (Track.DetectGaps t) |>) w.
Definition gap_events (name : string) (w : AnyWorker) : list metric_event :=
  map (fun d => AddLost name d.2) (map_to_list (fst (Track.DetectGaps (trk (base w))))).

(** The loop of shutdownWorkers, of drainToQuiescence and of gapDetector. *)
Definition detect_gaps (groups : Groups) : Groups * list metric_event :=
  (upd_workers mark_gaps <$> groups,
   concat (map (fun '(name, g) => concat (map (gap_events name) (g_workers g))) (map_to_list groups))).

(** ** drainToQuiescence *)

Definition totalReceived (groups : Groups) : Z :=
  map_fold (fun _ g total => add_all ReceivedCount total (g_workers g)) 0 groups.

Definition pollInterval : Z := 250 * Time.Millisecond.
Definition stablePolls : Z := 4.

Definition drain_wait (maxWait : Z) : Z := if maxWait <=? 0 then Time.Second else maxWait.

Record drain := mk_drain { dr_deadline : Z; dr_prev : Z; dr_stable : Z }.

Definition drain_start (now maxWait : Z) (groups : Groups) : drain :=
  mk_drain (now + drain_wait maxWait) (totalReceived groups) 0.

(** One turn after the sleep; [None]: quiescent. *)
Definition drain_poll (groups : Groups) (d : drain) : Groups * list metric_event * option drain :=
  let '(groups, evs) := detect_gaps groups in
  let cur := totalReceived groups in
  if cur =? dr_prev d then
    let stable := dr_stable d + 1 in
    (groups, evs,
     if stablePolls <=? stable then None else Some (mk_drain (dr_deadline d) (dr_prev d) stable))
  else (groups, evs, Some (mk_drain (dr_deadline d) cur 0)).

Inductive drain_end := Quiescent | TimedOut.

(** The loop, [clock i] being the time at its [i]th head and [seen i] the groups
    when its [i]th sleep ends; [None]: out of fuel. *)
Fixpoint drain_loop (fuel : nat) (clock : nat -> Z) (seen : nat -> Groups) (i : nat) (d : drain)
    : option (nat * drain_end) :=
  match fuel with
  | O => None
  | S fuel =>
      if negb (clock i <? dr_deadline d) then Some (i, TimedOut)
      else
        match (drain_poll (seen i) d).2 with
        | None => Some (S i, Quiescent)
        | Some d => drain_loop fuel clock seen (S i) d
        end
  end.

Definition drainToQuiescence (fuel : nat) (maxWait now : Z) (groups : Groups)
    (clock : nat -> Z) (seen : nat -> Groups) : option (nat * drain_end) :=
  drain_loop fuel clock seen O (drain_start now maxWait groups).

(** ** The periodic tasks *)

(** What logStatus prints for one worker type. *)
Record status_line := mk_status_line {
  sl_name : string; sl_sent : Z; sl_recv : Z; sl_lost : Z; sl_dup : Z; sl_err : Z; sl_rate : float64
}.

Definition add_rates (f : BaseWorker -> float64) (ws : list AnyWorker) : float64 :=
  foldl (fun r w => fadd r (f (base w))) fzero ws.

Definition logStatus (groups : Groups) : list status_line :=
  omap (fun name =>
    g ← groups !! name;
    let ws := g_workers g in
    Some (mk_status_line name (add_all SentCount 0 ws) (add_all ReceivedCount 0 ws)
            (add_all lost_of 0 ws) (add_all DuplicatedCount 0 ws) (add_all ErrorCount 0 ws)
            (add_rates rate_of ws))) AllWorkerNames.

(** The counters logFinalSummary prints for a worker type, with their keys. *)
Definition summary_fields (name : string) (s : Snap.WorkerSnapshot) : list (string * Z) :=
  let sent := [("sent", Snap.Sent s); ("recv", Snap.Received s)] in
  let err := [("err", Snap.Errors s)] in
  if IsKeyedWorker name then
    sent ++ [("lost", Snap.Lost s); ("offset_order_viol", Snap.OffsetOrderViolations s);
             ("dup", Snap.Duplicated s)] ++ err
  else if IsConsumerGroupWorker name then
    sent ++ [("lost", Snap.Lost s); ("group_loss_rebalance", Snap.GroupLossRebalance s);
             ("dup", Snap.Duplicated s)] ++ err
  else if IsOffsetLagWorker name then sent ++ [("lag_accuracy_err_max", Snap.LagAccuracyErrMax s)] ++ err
  else if IsAdminWorker name then
    [("admin_op_failures", Snap.AdminOpFailures s); ("admin_invalid_rejected", Snap.AdminInvalidRejected s)] ++ err
  else if IsTransactionsWorker name then
    sent ++ [("eos_violations", Snap.EOSViolations s); ("kip890_residual", Snap.KIP890Residual s)] ++ err
  else sent ++ [("lost", Snap.Lost s); ("dup", Snap.Duplicated s)] ++ err.

(** logFinalSummary: nothing without a verdict; else the verdict and one line per
    worker type with a snapshot. *)
Definition logFinalSummary (verdict : option VerdictResult) (snaps : option (gmap string Snap.WorkerSnapshot))
    : option (VerdictResult * list (string * list (string * Z))) :=
  v ← verdict;
  Some (v, omap (fun name => s ← default ∅ snaps !! name; Some (name, summary_fields name s)) AllWorkerNames).

(** The gauges of one tick of rateAdvancer, after the windows have advanced. *)
Definition rate_events (name : string) (g : WorkerGroup) : list metric_event :=
  let ws := g_workers g in
  let totalSent := add_all SentCount 0 ws in
  let totalRecv := add_all ReceivedCount 0 ws in
  [SetActualRate name (add_rates rate_of ws);
   SetConsumerLag name
     (if totalRecv <? totalSent then f_of_Z (totalSent -u totalRecv) else f_of_Z 0)].

Definition rate_tick (groups : Groups) : Groups * list metric_event :=
  let groups := upd_workers (upd_base AdvanceRateWindows) <$> groups in
  (groups, concat (map (fun '(name, g) => rate_events name g) (map_to_list groups))).

(** The two RSS cells and the locals of memoryTracker. *)
Record memory := mk_memory { baselineRSS : Z; peakRSS : Z }.
Record memory_task := mk_memory_task { mt_start : Z; mt_baselineSet : bool }.

(** if m.Sys > e.peakRSS.Load() { e.peakRSS.Store(m.Sys) } *)
Definition raise_peak (sys : Z) (m : memory) : memory :=
  if peakRSS m <? sys then mk_memory (baselineRSS m) sys else m.

Definition baseline_deadline (runCfg : option Config) : Z :=
  match runCfg with
  | Some c =>
      if (0 <? DurationParsed c) && (DurationParsed c <? 5 * Time.Minute)
      then 10 * Time.Second else 5 * Time.Minute
  | None => 5 * Time.Minute
  end.

Definition memory_tick (now sys : Z) (runCfg : option Config) (t : memory_task) (m : memory)
    : memory_task * memory :=
  let m := raise_peak sys m in
  if negb (mt_baselineSet t) && (baseline_deadline runCfg <=? time_Sub now (mt_start t))
  then (mk_memory_task (mt_start t) true, mk_memory sys (peakRSS m))
  else (t, m).

(** One tick of uptimeTracker. *)
Definition uptime_tick (now bootTime : Z) : metric_event :=
  Set_ UptimeSeconds [] (Seconds (time_Sub now bootTime)).

End Engine.
