(* ===== verification/SnapshotFacts.v ===== *)
(** * Snapshots and the drain: properties *)

From S2P Require Import Prelude Float64 GoStr Config Metrics Verdict Tracker Worker WorkerFacts Loops WorkerGroup WorkerGroupFacts Snapshot.
Local Open Scope string_scope.
Local Open Scope Z_scope.
Local Open Scope list_scope.

Section Snapshots.
Context `{HdrHistogram}.

(** The fields of a snapshot that are sums, with the counter each adds up. *)
Definition summed : list ((Snap.WorkerSnapshot -> Z) * (BaseWorker -> Z)) :=
  [(Snap.Sent, SentCount); (Snap.Received, ReceivedCount); (Snap.Errors, ErrorCount);
   (Snap.Corrupted, CorruptedCount); (Snap.Reconnections, ReconnectionCount);
   (Snap.Duplicated, DuplicatedCount); (Snap.Lost, lost_of); (Snap.OutOfOrder, outOfOrder_of);
   (Snap.Deleted, DeletedCount); (Snap.OffsetOrderViolations, offsetOrderViolations);
   (Snap.GroupLossRebalance, groupLossRebalance); (Snap.EOSViolations, eosViolations);
   (Snap.AdminOpFailures, adminOpFailures); (Snap.AdminInvalidRejected, adminInvalidRejected);
   (Snap.KIP890Residual, kip890Residual)].

Definition sum_of (c : BaseWorker -> Z) (ws : list AnyWorker) : Z := zsum (map (fun w => c (base w)) ws).

Lemma add_all_sum c ws : forall t, u64_ok t -> add_all c t ws = u64_wrap (t + sum_of c ws).
Proof.
  unfold add_all, sum_of. induction ws as [|w ws IH]; intros t Ht; cbn [foldl map zsum foldr].
  { rewrite Z.add_0_r. by rewrite u64_wrap_id. }
  rewrite IH by apply u64_wrap_ok. rewrite u64_wrap_add_l. f_equal. unfold zsum. lia.
Qed.

Lemma with_percentiles_field {A} (f : Snap.WorkerSnapshot -> A) best s :
  (forall s a b c d, f (s <| Snap.LatencyP50 := a |> <| Snap.LatencyP95 := b |>
     <| Snap.LatencyP99 := c |> <| Snap.LatencyP999 := d |>) = f s) ->
  f (with_percentiles best s) = f s.
Proof.
  intros Hf. destruct best as [acc|]; [|done]. unfold with_percentiles.
  destruct (Latency.Percentiles acc) as [[[a b] c] d]. apply Hf.
Qed.

Ltac each_summed tac :=
  let Hfc := fresh in intros Hfc; unfold summed in Hfc;
  repeat (apply elem_of_cons in Hfc as [Hfc|Hfc]; [injection Hfc as -> ->; tac|]);
  by apply elem_of_nil in Hfc.

Lemma add_worker_summed f c s w : (f, c) ∈ summed -> f (add_worker s w) = f s +u c (base w).
Proof. each_summed ltac:(reflexivity). Qed.

Lemma percentiles_summed f c best s : (f, c) ∈ summed -> f (with_percentiles best s) = f s.
Proof. each_summed ltac:(apply with_percentiles_field; by intros []). Qed.

Lemma zero_summed f c : (f, c) ∈ summed -> f Snap.zero = 0.
Proof. each_summed ltac:(reflexivity). Qed.

Lemma snapshot_sum g f c : (f, c) ∈ summed -> f (snapshot_of g) = u64_wrap (sum_of c (g_workers g)).
Proof.
  intros Hfc. unfold snapshot_of. rewrite (percentiles_summed _ _ _ _ Hfc).
  change (sum_of c (g_workers g)) with (0 + sum_of c (g_workers g)).
  rewrite <- add_all_sum by (unfold u64_ok; lia).
  rewrite <- (zero_summed _ _ Hfc). generalize Snap.zero. unfold add_all.
  induction (g_workers g) as [|w ws IH]; intros s; [done|]. cbn [foldl].
  by rewrite IH, (add_worker_summed _ _ _ _ Hfc).
Qed.

(** [m] is the largest of [l], or 0 if all are smaller. *)
Definition maximum (l : list Z) (m : Z) : Prop := Forall (fun x => x <= m) l /\ (m = 0 \/ m ∈ l).

Lemma foldl_maximum {A} (f : A -> Z) l : forall m,
  let r := foldl (fun m x => if m <? f x then f x else m) m l in
  m <= r /\ Forall (fun x => f x <= r) l /\ (r = m \/ r ∈ map f l).
Proof.
  induction l as [|x l IH]; intros m; cbn [foldl map].
  { split_and!; [lia|constructor|by left]. }
  destruct (IH (if m <? f x then f x else m)) as (H1 & H2 & H3). cbv zeta in *.
  set (r := foldl _ _ _) in *. clearbody r. destruct (Z.ltb_spec m (f x)).
  - split_and!; [lia|by apply Forall_cons|]. right. apply elem_of_cons. tauto.
  - split_and!; [lia|apply Forall_cons; split; [lia|done]|].
    destruct H3; [by left|right; apply elem_of_cons; tauto].
Qed.

Lemma snapshot_lag g :
  maximum (map (fun w => lagAccuracyErrMax (base w)) (g_workers g)) (Snap.LagAccuracyErrMax (snapshot_of g)).
Proof.
  unfold snapshot_of. rewrite (with_percentiles_field Snap.LagAccuracyErrMax) by (by intros []).
  destruct (foldl_maximum (fun w => lagAccuracyErrMax (base w)) (g_workers g) 0) as (_ & H2 & H3).
  assert (E : forall ws s, Snap.LagAccuracyErrMax (foldl add_worker s ws)
    = foldl (fun m w => if m <? lagAccuracyErrMax (base w) then lagAccuracyErrMax (base w) else m)
        (Snap.LagAccuracyErrMax s) ws).
  { induction ws as [|w ws IH]; intros s; [done|]. cbn [foldl]. rewrite IH. reflexivity. }
  rewrite E. split; [by apply Forall_map|done].
Qed.

Lemma snapshot_peak g : Forall (fun w => is_nan (peak_of (base w)) = false) (g_workers g) ->
  Forall (fun w => fleb (peak_of (base w)) (Snap.PeakRate (snapshot_of g)) = true) (g_workers g) /\
  (Snap.PeakRate (snapshot_of g) = fzero
   \/ Snap.PeakRate (snapshot_of g) ∈ map (fun w => peak_of (base w)) (g_workers g)).
Proof.
  intros Hn. unfold snapshot_of. rewrite (with_percentiles_field Snap.PeakRate) by (by intros []).
  assert (E : forall ws s, Snap.PeakRate (foldl add_worker s ws)
    = foldl fmax (Snap.PeakRate s) (map (fun w => peak_of (base w)) ws)).
  { induction ws as [|w ws IH]; intros s; [done|]. cbn [foldl map]. rewrite IH. reflexivity. }
  rewrite E. destruct (foldl_fmax (map (fun w => peak_of (base w)) (g_workers g))) with (m := fzero)
    as (_ & _ & Hall & Hin); [by apply Forall_map|done|].
  split; [by apply Forall_map in Hall|done].
Qed.

Definition percentiles (s : Snap.WorkerSnapshot) : float64 * float64 * float64 * float64 :=
  (Snap.LatencyP50 s, Snap.LatencyP95 s, Snap.LatencyP99 s, Snap.LatencyP999 s).

(** The percentiles of the first worker with the most samples: every earlier one
    has fewer, no later one has more.  Zeros without samples. *)
Definition best_percentiles (ws : list AnyWorker) (p : float64 * float64 * float64 * float64) : Prop :=
  let count w := Latency.Count (latAccum (base w)) in
  (Forall (fun w => count w <= 0) ws /\ p = (fzero, fzero, fzero, fzero)) \/
  exists before w after, ws = before ++ w :: after /\ 0 < count w /\
    Forall (fun w' => count w' < count w) before /\ Forall (fun w' => count w' <= count w) after /\
    p = Latency.Percentiles (latAccum (base w)).

Lemma pick_latency_best ws : forall best,
  let count w := Latency.Count (latAccum (base w)) in
  let r := foldl pick_latency best ws in
  (r = best /\ Forall (fun w => count w <= best.2) ws) \/
  exists before w after, ws = before ++ w :: after /\ best.2 < count w /\
    Forall (fun w' => count w' < count w) before /\ Forall (fun w' => count w' <= count w) after /\
    r = (Some (latAccum (base w)), count w).
Proof.
  induction ws as [|w ws IH]; intros best count r; [by left|].
  unfold r. cbn [foldl]. specialize (IH (pick_latency best w)). cbv zeta in IH. fold count in IH.
  revert IH. set (q := foldl pick_latency (pick_latency best w) ws).
  assert (E : pick_latency best w
    = if best.2 <? count w then (Some (latAccum (base w)), count w) else best) by done.
  rewrite E. clearbody q. destruct (Z.ltb_spec best.2 (count w)) as [Hlt|Hge]; cbn [fst snd].
  - intros [[Hr Hle]|(before & w' & after & -> & Hl & Hb & Ha & Hr)]; right.
    + exists [], w, ws. split_and!; [done|done|constructor|done|done].
    + exists (w :: before), w', after. split_and!; [done|lia|by apply Forall_cons|done|exact Hr].
  - intros [[Hr Hle]|(before & w' & after & -> & Hl & Hb & Ha & Hr)]; [left|right].
    + split; [exact Hr|]. by apply Forall_cons.
    + exists (w :: before), w', after.
      split_and!; [done|done|apply Forall_cons; split; [lia|done]|done|exact Hr].
Qed.

Lemma add_workers_percentiles ws : forall s, percentiles (foldl add_worker s ws) = percentiles s.
Proof. induction ws as [|w ws IH]; intros s; [done|]. cbn [foldl]. by rewrite IH. Qed.

Lemma snapshot_latency g : best_percentiles (g_workers g) (percentiles (snapshot_of g)).
Proof.
  unfold snapshot_of, best_percentiles.
  destruct (pick_latency_best (g_workers g) (None, 0))
    as [[-> Hmax]|(before & w & after & Hws & Hlt & Hb & Ha & ->)]; cbn [fst snd] in *.
  - left. split; [done|]. cbn [with_percentiles]. by rewrite add_workers_percentiles.
  - right. exists before, w, after. split_and!; [done..|]. unfold with_percentiles.
    destruct (Latency.Percentiles (latAccum (base w))) as [[[a b] c] d].
    by destruct (foldl add_worker _ _).
Qed.

(** C36: a snapshot is exact.  For every worker type with a group, the frozen
    snapshot holds the sum modulo 2^64 of each additive counter over the group's
    workers, the largest lag error and (when no peak is NaN) the largest peak
    rate of any worker, and the four percentiles of the first worker with the
    most latency samples (zeros when no worker has a sample), so the percentiles
    of the others do not show; a type without a group has no snapshot. *)
Theorem snapshot_exact (groups : Groups) name :
  match groups !! name with
  | None => captureWorkerSnapshots groups !! name = None
  | Some g => exists snap, captureWorkerSnapshots groups !! name = Some snap /\
      (forall field counter, (field, counter) ∈ summed ->
         field snap = u64_wrap (sum_of counter (g_workers g))) /\
      maximum (map (fun w => lagAccuracyErrMax (base w)) (g_workers g)) (Snap.LagAccuracyErrMax snap) /\
      best_percentiles (g_workers g) (percentiles snap) /\
      (Forall (fun w => is_nan (peak_of (base w)) = false) (g_workers g) ->
       Forall (fun w => fleb (peak_of (base w)) (Snap.PeakRate snap) = true) (g_workers g) /\
       (Snap.PeakRate snap = fzero
        \/ Snap.PeakRate snap ∈ map (fun w => peak_of (base w)) (g_workers g)))
  end.
Proof.
  unfold captureWorkerSnapshots. destruct (groups !! name) as [g|] eqn:E; rewrite lookup_fmap, E; [|reflexivity].
  exists (snapshot_of g). split_and!; [done|intros; by apply snapshot_sum|apply snapshot_lag|
    apply snapshot_latency|apply snapshot_peak].
Qed.

End Snapshots.

(** ** The drain *)

Section Drain.
Context `{HdrHistogram}.

Lemma add_all_map c f ws t : (forall w, c (base (f w)) = c (base w)) ->
  add_all c t (map f ws) = add_all c t ws.
Proof.
  intros Hf. unfold add_all. revert t. induction ws as [|w ws IH]; intros t; [done|].
  cbn [map foldl]. by rewrite Hf, IH.
Qed.

(** Detecting gaps moves no message. *)
Lemma totalReceived_detect_gaps (groups : Groups) :
  totalReceived (detect_gaps groups).1 = totalReceived groups.
Proof.
  unfold totalReceived, detect_gaps. cbn [fst]. rewrite map_fold_fmap, !map_fold_foldr.
  apply foldr_ext; try done. intros [nm g] t. cbn. apply add_all_map.
  intros [w|w|w|w|w|w]; by destruct w.
Qed.

Variable maxWait now : Z.
Variable start : Groups.
Variable clock : nat -> Z.
Variable seen : nat -> Groups.

(** The received totals the loop compares: at its start, then after each poll. *)
Definition received_at (i : nat) : Z :=
  match i with O => totalReceived start | S i => totalReceived (seen i) end.

(** No delivery over the last four polls. *)
Definition settled_at (n : nat) : Prop :=
  (4 <= n)%nat /\ forall k, (k <= 4)%nat -> received_at (n - k) = received_at n.

Definition deadline : Z := now + drain_wait maxWait.

(** The locals of the loop at its [i]th head: [stable] counts the last polls
    without a delivery. *)
Record drain_inv (i : nat) (d : drain) : Prop := {
  di_deadline : dr_deadline d = deadline;
  di_prev : dr_prev d = received_at i;
  di_stable : 0 <= dr_stable d < 4 /\ (Z.to_nat (dr_stable d) <= i)%nat;
  di_same : forall k, (k <= Z.to_nat (dr_stable d))%nat -> received_at (i - k) = received_at i;
  di_last : (Z.to_nat (dr_stable d) < i)%nat ->
            received_at (i - S (Z.to_nat (dr_stable d))) <> received_at i;
  di_past : forall m, (m <= i)%nat -> ~ settled_at m
}.

Lemma drain_inv_start : drain_inv 0 (drain_start now maxWait start).
Proof.
  unfold drain_start. split; cbn [dr_deadline dr_prev dr_stable]; try done; try lia.
  - intros m Hm [? _]. lia.
Qed.

(** A poll either finds the fourth quiet turn or keeps the invariant. *)
Lemma drain_poll_inv i d : drain_inv i d ->
  match (drain_poll (seen i) d).2 with
  | None => settled_at (S i)
  | Some d' => drain_inv (S i) d'
  end.
Proof.
  intros [Hd Hp [Hs1 Hs2] Hsame Hlast Hpast]. unfold drain_poll.
  pose proof (totalReceived_detect_gaps (seen i)) as Ht. destruct (detect_gaps (seen i)) as [groups evs].
  cbn [fst] in Ht. rewrite Ht, Hp. change (totalReceived (seen i)) with (received_at (S i)).
  destruct (Z.eqb_spec (received_at (S i)) (received_at i)) as [E|E]; cbn [snd].
  - destruct (Z.leb_spec stablePolls (dr_stable d + 1)) as [Hge|Hlt]; unfold stablePolls in *.
    + assert (E3 : dr_stable d = 3) by lia. rewrite E3 in *. split; [lia|].
      intros [|k] Hk; [done|]. rewrite E. cbn [Nat.sub]. apply Hsame. lia.
    + assert (Hn : Z.to_nat (dr_stable d + 1) = S (Z.to_nat (dr_stable d))) by lia.
      split; cbn [dr_deadline dr_prev dr_stable]; rewrite ?Hn; try done; try lia.
      * intros [|k] Hk; [done|]. rewrite E. cbn [Nat.sub]. apply Hsame. lia.
      * intros Hi. cbn [Nat.sub]. rewrite E. apply Hlast. lia.
      * intros m Hm [Hm4 Hset]. destruct (decide (m = S i)) as [->|]; [|by apply (Hpast m); [lia|split]].
        apply (Hlast ltac:(lia)). specialize (Hset (S (S (Z.to_nat (dr_stable d)))) ltac:(lia)).
        cbn [Nat.sub] in Hset. by rewrite Hset.
  - split; cbn [dr_deadline dr_prev dr_stable]; try done; try lia.
    + intros k Hk. by replace k with 0%nat by lia.
    + intros _. change (S i - S (Z.to_nat 0))%nat with (i - 0)%nat. rewrite Nat.sub_0_r. congruence.
    + intros m Hm [Hm4 Hset]. destruct (decide (m = S i)) as [->|]; [|by apply (Hpast m); [lia|split]].
      specialize (Hset 1%nat ltac:(lia)). change (S i - 1)%nat with (i - 0)%nat in Hset.
      rewrite Nat.sub_0_r in Hset. congruence.
Qed.

(** How the wait ends: at the first quiet second, or at the first turn past the
    deadline. *)
Definition drain_result (n : nat) (e : drain_end) : Prop :=
  match e with
  | Quiescent => settled_at n /\ clock (n - 1) < deadline
  | TimedOut => deadline <= clock n /\ ~ settled_at n
  end /\
  forall m, (m < n)%nat -> clock m < deadline /\ ~ settled_at m.

Lemma drain_loop_result fuel : forall i d, drain_inv i d ->
  (forall m, (m < i)%nat -> clock m < deadline) ->
  (forall j, deadline <= clock j -> (i <= j)%nat -> (j < i + fuel)%nat ->
     exists n e, drain_loop fuel clock seen i d = Some (n, e) /\ (n <= j)%nat /\ drain_result n e).
Proof.
  induction fuel as [|fuel IH]; intros i d Hi Hpast j Hj Hij Hfuel; [lia|].
  cbn [drain_loop]. pose proof (di_deadline _ _ Hi) as Hd. rewrite Hd.
  destruct (Z.ltb_spec (clock i) deadline) as [Hlt|Hge]; cbn [negb].
  - pose proof (drain_poll_inv i d Hi) as Hp. destruct (drain_poll (seen i) d).2 as [d'|].
    + destruct (decide (j = i)) as [->|]; [lia|].
      apply IH; [done| |done|lia|lia]. intros m Hm. destruct (decide (m = i)) as [->|]; [done|apply Hpast; lia].
    + exists (S i), Quiescent. split_and!; [done|destruct (decide (j = i)); [subst; lia|lia]|].
      split; [split; [done|]; by rewrite Nat.sub_1_r|].
      intros m Hm. split; [|apply (di_past _ _ Hi); lia].
      destruct (decide (m = i)) as [->|]; [done|apply Hpast; lia].
  - exists i, TimedOut. split_and!; [done|lia|]. split; [split; [done|by apply (di_past _ _ Hi)]|].
    intros m Hm. split; [by apply Hpast|apply (di_past _ _ Hi); lia].
Qed.

(** As many polls as fit into the wait. *)
Definition max_polls : nat := Z.to_nat ((drain_wait maxWait + pollInterval - 1) / pollInterval).

Lemma clock_past : now <= clock 0%nat -> (forall i, clock i + pollInterval <= clock (S i)) ->
  deadline <= clock max_polls.
Proof.
  intros H0 Hs.
  assert (Hi : forall i, now + Z.of_nat i * pollInterval <= clock i).
  { induction i as [|i IH]; [lia|]. specialize (Hs i). lia. }
  specialize (Hi max_polls). unfold deadline, max_polls in *.
  assert (Hw : 0 < drain_wait maxWait).
  { unfold drain_wait, Time.Second. destruct (Z.leb_spec maxWait 0); lia. }
  assert (Hp : pollInterval = 250000000) by reflexivity. rewrite Hp in *.
  pose proof (Z.div_mod (drain_wait maxWait + 250000000 - 1) 250000000 ltac:(lia)).
  pose proof (Z.mod_pos_bound (drain_wait maxWait + 250000000 - 1) 250000000 ltac:(lia)).
  rewrite Z2Nat.id in Hi by (apply Z.div_pos; lia). lia.
Qed.

End Drain.

(** C37: the drain always ends, and on time.  When the clock moves at least a
    poll interval between two turns (the loop sleeps that long), the wait returns
    after at most as many polls as fit into the drain window, whatever the
    consumers do meanwhile.  It returns quiescent exactly at the first poll that
    closes four polls without a delivery, and otherwise at the first turn at
    which the deadline has passed; any larger fuel gives the same answer. *)
Theorem drain_terminates `{HdrHistogram} maxWait now start (clock : nat -> Z) seen :
  now <= clock 0%nat -> (forall i, clock i + pollInterval <= clock (S i)) ->
  exists n e, (n <= max_polls maxWait)%nat /\ drain_result maxWait now start clock seen n e /\
    forall fuel, (max_polls maxWait < fuel)%nat ->
      drainToQuiescence fuel maxWait now start clock seen = Some (n, e).
Proof.
  intros H0 Hs. pose proof (clock_past maxWait now clock H0 Hs) as Hpast.
  pose proof (drain_inv_start maxWait now start seen) as Hi.
  assert (Hf : forall fuel, (max_polls maxWait < fuel)%nat -> exists n e,
    drain_loop fuel clock seen 0 (drain_start now maxWait start) = Some (n, e) /\
    (n <= max_polls maxWait)%nat /\ drain_result maxWait now start clock seen n e).
  { intros fuel Hfuel. apply (drain_loop_result maxWait now start clock seen); try done; lia. }
  assert (Hmono : forall fuel fuel' i d r, (fuel <= fuel')%nat ->
    drain_loop fuel clock seen i d = Some r -> drain_loop fuel' clock seen i d = Some r).
  { induction fuel as [|fuel IH]; intros [|fuel'] i d r Hle; cbn [drain_loop]; try done; [lia|].
    destruct (negb _); [done|]. destruct (drain_poll (seen i) d).2; [|done]. apply IH. lia. }
  destruct (Hf (S (max_polls maxWait)) ltac:(lia)) as (n & e & He & Hn & Hr).
  exists n, e. split_and!; [done|done|]. intros fuel Hfuel. unfold drainToQuiescence.
  eapply Hmono; [|exact He]. lia.
Qed.

(** Deliveries stop after the third poll of a ten-second drain. *)
#[local] Existing Instance list_histogram.

Definition demo_group (received : Z) : Groups :=
  {[ WorkerProduceRoundTrip := mk_WorkerGroup WorkerProduceRoundTrip
       [ARoundTrip (RT.mk_worker (demo_worker <| Worker.received := received |>)
                      (mk_producer_part "t" "g" 0 false))] ]}.

Definition demo_clock (i : nat) : Z := 1000 + Z.of_nat i * (300 * Time.Millisecond).
Definition demo_seen (i : nat) : Groups := demo_group (Z.min 53 (51 + Z.of_nat i)).

Lemma drain_terminates_witness :
  (max_polls (10 * Time.Second) = 40)%nat /\
  exists n e, (n <= 40)%nat /\
    drain_result (10 * Time.Second) 1000 (demo_group 50) demo_clock demo_seen n e /\
    drainToQuiescence 41 (10 * Time.Second) 1000 (demo_group 50) demo_clock demo_seen = Some (n, e) /\
    (n, e) = (7%nat, Quiescent).
Proof.
  split; [vm_compute; reflexivity|].
  assert (H0 : 1000 <= demo_clock 0) by (vm_compute; discriminate).
  assert (Hs : forall i, demo_clock i + pollInterval <= demo_clock (S i)).
  { intros i. unfold demo_clock. change pollInterval with 250000000.
    change (300 * Time.Millisecond) with 300000000. lia. }
  destruct (drain_terminates (10 * Time.Second) 1000 (demo_group 50) demo_clock demo_seen H0 Hs)
    as (n & e & Hn & Hr & Hf).
  assert (E : max_polls (10 * Time.Second) = 40%nat) by (vm_compute; reflexivity).
  rewrite E in Hn, Hf. specialize (Hf 41%nat ltac:(lia)).
  assert (Hc : drainToQuiescence 41 (10 * Time.Second) 1000 (demo_group 50) demo_clock demo_seen
    = Some (7%nat, Quiescent)) by (vm_compute; reflexivity).
  exists n, e. split; [exact Hn|]. split; [exact Hr|]. split; [exact Hf|].
  rewrite Hf in Hc. by injection Hc as -> ->.
Defined.

(** Two channels: one with three samples of 5 ms, a slow one with a single sample. *)
Definition demo_channel (n : Z) (lat : list Z) : AnyWorker :=
  ARoundTrip (RT.mk_worker (foldl (fun b d => recordLatency d b) (demo_worker <| Worker.sent := n |>) lat)
                (mk_producer_part "t" "g" 0 false)).

Definition demo_workers : list AnyWorker :=
  [demo_channel 3 [5000000; 5000000; 5000000]; demo_channel 4 [9000000000]].
Definition demo_groups : Groups :=
  {[ WorkerProduceRoundTrip := mk_WorkerGroup WorkerProduceRoundTrip demo_workers ]}.

Lemma snapshot_exact_witness : exists snap,
  captureWorkerSnapshots demo_groups !! WorkerProduceRoundTrip = Some snap /\
  Snap.Sent snap = u64_wrap (sum_of SentCount demo_workers) /\
  u64_wrap (sum_of SentCount demo_workers) = 7 /\ Snap.PeakRate snap = fzero.
Proof.
  pose proof (snapshot_exact demo_groups WorkerProduceRoundTrip) as Hs.
  unfold demo_groups in Hs at 1. rewrite lookup_singleton_eq in Hs.
  destruct Hs as (snap & Hsnap & Hsum & _ & _ & Hpeak).
  exists snap. split; [exact Hsnap|]. split; [apply Hsum; by left|]. split; [vm_compute; reflexivity|].
  destruct Hpeak as [_ [Hp|Hp]]; [by repeat constructor|exact Hp|].
  cbn [g_workers map] in Hp. apply elem_of_cons in Hp as [Hp|Hp]; [exact Hp|].
  apply elem_of_cons in Hp as [Hp|Hp]; [exact Hp|by apply elem_of_nil in Hp].
Defined.

(** The slow channel does not show in the percentiles. *)
Example slow_channel_hidden :
  match captureWorkerSnapshots demo_groups !! WorkerProduceRoundTrip with
  | Some snap => Snap.LatencyP999 snap = f_of_Z 5
  | None => False
  end.
Proof. vm_compute. reflexivity. Qed.
