(* ===== verification/Engine.v ===== *)
(** * The run lifecycle (burnin/engine/engine.go)

    The engine, the goroutine runLoop of each run and the calls that interact
    with them, as steps on one system state.  runLoop is cut where it blocks,
    takes the engine's lock or reads its context; [phase] says where it stands
    and [phase_step] is the code up to the next cut.  A context, a done channel
    and a runLoop goroutine are created together by StartRunFromConfig, so one
    index names all three.  The goroutines that a wait group counts are kept with
    whether their context is done, and a Wait blocks while one of its own is left. *)

From S2P Require Import Prelude Float64 GoStr Config Metrics Verdict Tracker Worker Loops WorkerGroup Snapshot.
Local Open Scope string_scope.
Local Open Scope Z_scope.
Local Open Scope list_scope.

Definition StateIdle : string := "idle".
Definition StateStarting : string := "starting".
Definition StateRunning : string := "running".
Definition StateStopping : string := "stopping".
Definition StateStopped : string := "stopped".
Definition StateError : string := "error".

(** ** Goroutines and wait groups

    producerWG and consumerWG of one worker, and a goroutine one of them counts:
    the worker ([th_index] of the group [th_name]), the run whose runLoop started
    it, its loop, and whether the CancelFunc of its context was called. *)
Inductive side := Producers | Consumers.
#[export] Instance side_eq_dec : EqDecision side.
Proof. solve_decision. Defined.

Record thread := mk_thread {
  th_side : side; th_name : string; th_index : nat; th_run : nat; th_loop : goroutine; th_halted : bool
}.
#[export] Instance eta_thread : Eta thread := fun t =>
  mk_thread (th_side t) (th_name t) (th_index t) (th_run t) (th_loop t) (th_halted t).

Definition counts (sd : side) (name : string) (k : nat) (t : thread) : Prop :=
  th_side t = sd /\ th_name t = name /\ th_index t = k.
#[export] Instance counts_dec sd name k t : Decision (counts sd name k t).
Proof. unfold counts. apply _. Defined.

(** The goroutines that the workers of a group start, [loops] worker by worker. *)
Definition launched (sd : side) (name : string) (i : nat) (loops : list (list goroutine)) : list thread :=
  concat (imap (fun k => map (fun loop => mk_thread sd name k i loop false)) loops).

Section Engine.
Context `{HdrHistogram}.

(** os.Getenv: the process never changes its environment. *)
Variable getenv : string -> string.

(** ** The engine

    [threads]: the goroutines of the workers behind [workerGroups]. *)

Record Engine := mk_Engine {
  bootTime : Z; state : string; runCfg : option Config; runID : string;
  runStartedAt : Z; runEndedAt : Z; producersStartedAt : Z; producersStoppedAt : Z;
  runError : message; runCancel : option nat; runDone : option nat;
  workerGroups : option Groups; threads : list thread; workerSnapshots : option (gmap string Snap.WorkerSnapshot);
  mem : memory; verdictResult : option VerdictResult; m_events : list metric_event
}.
#[export] Instance eta_Engine : Eta Engine := fun e =>
  mk_Engine (bootTime e) (state e) (runCfg e) (runID e) (runStartedAt e) (runEndedAt e)
    (producersStartedAt e) (producersStoppedAt e) (runError e) (runCancel e) (runDone e)
    (workerGroups e) (threads e) (workerSnapshots e) (mem e) (verdictResult e) (m_events e).

(** [now] is time.Now(). *)
Definition New (now : Z) : Engine :=
  mk_Engine now StateIdle None "" 0 0 0 0 [] None None None [] None (mk_memory 0 0) None [].

(** A nil map reads as the empty one. *)
Definition groups_of (e : Engine) : Groups := default ∅ (workerGroups e).

Definition allWorkers (e : Engine) : list AnyWorker :=
  concat (omap (fun name => g ← groups_of e !! name; Some (g_workers g)) AllWorkerNames).

(** The workers behind the map's pointers change; a nil map stays nil. *)
Definition with_groups (f : Groups -> Groups) (e : Engine) : Engine :=
  e <| workerGroups ::= option_map f |>.

Definition update_group (name : string) (g : WorkerGroup) (e : Engine) : Engine :=
  with_groups (insert name g) e.

(** A change of the group of one name, if there is one. *)
Definition visit (f : WorkerGroup -> WorkerGroup) (name : string) (e : Engine) : Engine :=
  match groups_of e !! name with
  | None => e
  | Some g => update_group name (f g) e
  end.

(** The same operation on every worker of every group. *)
Definition map_groups (f : AnyWorker -> AnyWorker) (e : Engine) : Engine :=
  with_groups (fun gs => upd_workers f <$> gs) e.

Definition emits (evs : list metric_event) (e : Engine) : Engine :=
  e <| m_events ::= fun l => l ++ evs |>.

Definition setError (msg : message) (e : Engine) : Engine :=
  e <| state := StateError |> <| runError := msg |>.

Definition spawn (new : list thread) (e : Engine) : Engine := e <| threads ::= fun l => l ++ new |>.

(** ** runLoop

    [rest] are the names the loop over AllWorkerNames has still to visit, [todo]
    what StopProducers or StopConsumers has still to do. *)
Inductive phase :=
  | Build
  | StartingConsumers (rest : list string)
  | AwaitingReady (rest : list string)
  | WarmupProducers (rest : list string)
  | WarmupWait (until : Z)
  | WarmupStop (todo : list stop_item)
  | WarmupSettle (until : Z)
  | WarmupReset
  | CheckWarm
  | StartingProducers (rest : list string)
  | Announce
  | Running (until : option Z)
  | Stopping
  | Freeze
  | StoppingProducers (todo : list stop_item)
  | DrainBegin
  | Draining (d : drain)
  | Polling (until : Z) (d : drain)
  | FinalGaps
  | Capture
  | StoppingConsumers (todo : list stop_item)
  | FinalPeak
  | Judge
  | Finish
  | Close (done : option nat)
  | Ended.

(** What one step finds outside. *)
Record answer := mk_answer {
  a_now : Z;                     (* time.Now() *)
  a_start : nat -> start_env;    (* what the Start of each worker of the group finds *)
  a_ready : nat -> bool;         (* which of its workers become ready within 30 s *)
  a_pick : bool;                 (* which ready case a select takes *)
  a_sys : Z;                     (* runtime.MemStats.Sys *)
  a_names : list string          (* the order a range statement visits the snapshots *)
}.

(** The groups of the enabled worker types; [None]: a constructor panicked. *)
Fixpoint build_loop (c : Config) (names : list string) (groups : Groups) : option Groups :=
  match names with
  | [] => Some groups
  | name :: names =>
      match GetWorkerConfig c name with
      | None => build_loop c names groups
      | Some wc =>
          if negb (Enabled wc) then build_loop c names groups
          else g ← NewWorkerGroup getenv name c; build_loop c names (<[ name := g ]> groups)
      end
  end.

Definition build_groups (c : Config) : option Groups := build_loop c AllWorkerNames ∅.

Definition warm_duration (c : Config) : Z :=
  if WarmupDurationParsed c <=? 0 then 5 * Time.Second else WarmupDurationParsed c.

Definition warmup_active (v : Z) : metric_event := Set_ WarmupActive [] (f_of_Z v).

Definition drain_time (c : Config) : Z := DrainTimeoutSeconds (Shutdown c) *i Time.Second.

(** *** Stopping workers *)

(** What producerWG or consumerWG of a worker counts. *)
Definition counted (sd : side) (name : string) (k : nat) (e : Engine) : list thread :=
  filter (counts sd name k) (threads e).

(** producerCancel() or consumerCancel() of a worker. *)
Definition halt (sd : side) (name : string) (k : nat) (e : Engine) : Engine :=
  e <| threads ::= map (fun t => if decide (counts sd name k t) then t <| th_halted := true |> else t) |>.

Definition worker_at (name : string) (k : nat) (e : Engine) : option AnyWorker :=
  g ← groups_of e !! name; g_workers g !! k.

(** An operation on one worker, which may leave a reconciliation to make. *)
Definition operate (f : AnyWorker -> AnyWorker * option CG.reconciling) (name : string) (k : nat) (e : Engine)
    : Engine * list stop_item :=
  match worker_at name k e with
  | None => (e, [])
  | Some w =>
      let '(w, r) := f w in
      (visit (upd_worker k (fun _ => w)) name e,
       match r with Some r => [Settle name k r] | None => [] end)
  end.

(** What StopProducers and StopConsumers do once the goroutines are gone. *)
Definition finish (sd : side) (w : AnyWorker) : AnyWorker * option CG.reconciling :=
  match sd with Producers => StopProducers_ w | Consumers => (StopConsumers_ w, None) end.

(** One step of WorkerGroup.StopProducers or StopConsumers for every group, and
    what it adds in front of the rest; [None]: it waits. *)
Definition stop_step (sd : side) (item : stop_item) (e : Engine) : option (Engine * list stop_item) :=
  match item with
  | Visit name => Some (e, match groups_of e !! name with Some g => stop_items name g | None => [] end)
  | Halt name k => Some (halt sd name k e, [Join name k])
  | Join name k =>
      if decide (counted sd name k e = []) then Some (operate (finish sd) name k e) else None
  | Settle name k r => Some (operate (settle r) name k e)
  end.

Definition visits : list stop_item := map Visit AllWorkerNames.

(** What a step reads of its run: its index, whether its context is done, and
    whether all its periodic tasks have returned. *)
Record context := mk_context { cx_run : nat; cx_cancelled : bool; cx_quiet : bool }.

(** One step of a runLoop for [c] in the context [x]; [None]: it blocks.
    [Finish] and [Close] are the deferred function. *)
Definition phase_step (a : answer) (c : Config) (x : context) (p : phase) (e : Engine)
    : option (Engine * phase) :=
  let now := a_now a in
  let cancelled := cx_cancelled x in
  match p with
  | Build =>
      groups ← build_groups c;
      Some (e <| workerGroups := Some groups |> <| threads := [] |>, StartingConsumers AllWorkerNames)
  | StartingConsumers [] => Some (e, AwaitingReady AllWorkerNames)
  | StartingConsumers (name :: rest) =>
      match groups_of e !! name with
      | None => Some (e, StartingConsumers rest)
      | Some g =>
          let '(g, loops, err) := StartConsumers (a_start a) g in
          let e := spawn (launched Consumers name (cx_run x) loops) (update_group name g e) in
          match err with
          | None => Some (e, StartingConsumers rest)
          | Some err => Some (setError (Lit "start consumers: " :: err) e, Finish)
          end
      end
  | AwaitingReady [] =>
      if cancelled then Some (e, Finish)
      else Some (emits [warmup_active 1] e, WarmupProducers AllWorkerNames)
  | AwaitingReady (name :: rest) =>
      match groups_of e !! name with
      | None => Some (e, AwaitingReady rest)
      | Some g =>
          match WaitForConsumerReady (a_ready a) g with
          | None => Some (e, AwaitingReady rest)
          | Some err => Some (setError (Lit "consumer ready: " :: err) e, Finish)
          end
      end
  | WarmupProducers [] => Some (e, WarmupWait (now + warm_duration c))
  | WarmupProducers (name :: rest) =>
      match groups_of e !! name with
      | None => Some (e, WarmupProducers rest)
      | Some g => Some (spawn (launched Producers name (cx_run x) (StartProducers g)) e, WarmupProducers rest)
      end
  | WarmupWait until =>
      if cancelled || (until <=? now) then Some (e, WarmupStop visits) else None
  | WarmupStop [] => Some (e, WarmupSettle (now + Time.Second))
  | WarmupStop (item :: todo) =>
      match stop_step Producers item e with
      | None => None
      | Some (e, items) => Some (e, WarmupStop (items ++ todo))
      end
  | WarmupSettle until =>
      let fired := until <=? now in
      if cancelled && (negb fired || a_pick a) then Some (emits [warmup_active 0] e, CheckWarm)
      else if fired then Some (e, WarmupReset) else None
  | WarmupReset =>
      Some (emits [warmup_active 0] (map_groups (upd_base ResetAfterWarmup) e), CheckWarm)
  | CheckWarm =>
      if cancelled then Some (e, Finish)
      else Some (e <| producersStartedAt := now |>, StartingProducers AllWorkerNames)
  | StartingProducers [] => Some (e, Announce)
  | StartingProducers (name :: rest) =>
      match groups_of e !! name with
      | None => Some (e, StartingProducers rest)
      | Some g =>
          Some (emits [SetTargetRate name (f_of_Z (GetWorkerRate c name))]
                  (spawn (launched Producers name (cx_run x) (StartProducers g)) e), StartingProducers rest)
      end
  | Announce =>
      Some (e <| state := StateRunning |>,
            Running (if 0 <? DurationParsed c then Some (now + DurationParsed c) else None))
  | Running until =>
      if cancelled || match until with Some t => t <=? now | None => false end
      then Some (e, Stopping) else None
  | Stopping => if cx_quiet x then Some (e <| state := StateStopping |>, Freeze) else None
  | Freeze => Some (e <| producersStoppedAt := now |>, StoppingProducers visits)
  | StoppingProducers [] => Some (e, DrainBegin)
  | StoppingProducers (item :: todo) =>
      match stop_step Producers item e with
      | None => None
      | Some (e, items) => Some (e, StoppingProducers (items ++ todo))
      end
  | DrainBegin => Some (e, Draining (drain_start now (drain_time c) (groups_of e)))
  | Draining d =>
      if now <? dr_deadline d then Some (e, Polling (now + pollInterval) d) else Some (e, FinalGaps)
  | Polling until d =>
      if now <? until then None else
      let '(groups, evs, next) := drain_poll (groups_of e) d in
      let e := emits evs (with_groups (fun _ => groups) e) in
      Some (e, match next with None => FinalGaps | Some d => Draining d end)
  | FinalGaps =>
      let '(groups, evs) := detect_gaps (groups_of e) in
      Some (emits evs (with_groups (fun _ => groups) e), Capture)
  | Capture =>
      Some (e <| workerSnapshots := Some (captureWorkerSnapshots (groups_of e)) |>,
            StoppingConsumers visits)
  | StoppingConsumers [] => Some (e, FinalPeak)
  | StoppingConsumers (item :: todo) =>
      match stop_step Consumers item e with
      | None => None
      | Some (e, items) => Some (e, StoppingConsumers (items ++ todo))
      end
  | FinalPeak => Some (e <| mem ::= raise_peak (a_sys a) |>, Judge)
  | Judge =>
      let snaps := default ∅ (workerSnapshots e) in
      let order := omap (fun name => s ← snaps !! name; Some (name, s)) (a_names a) in
      if bool_decide (a_names a ≡ₚ AllWorkerNames) then
        Some (e <| verdictResult := Some (computeVerdict c (producersStartedAt e) (producersStoppedAt e)
                     (baselineRSS (mem e)) (peakRSS (mem e)) order) |>, Finish)
      else None
  | Finish =>
      let e := if String.eqb (state e) StateError then e else e <| state := StateStopped |> in
      Some (e <| runEndedAt := now |>, Close (runDone e))
  | Close _ | Ended => None
  end.

(** ** The system: the engine, its runs, the clock *)

(** The goroutines of startPeriodicTasks. *)
Inductive task := ReportTask | RateTask | UptimeTask | MemoryTask | GapTask | DisconnectTask.
#[export] Instance task_eq_dec : EqDecision task.
Proof. solve_decision. Defined.

Definition startPeriodicTasks (c : Config) : list task :=
  (if 0 <? ReportIntervalParsed c then [ReportTask] else [])
  ++ [RateTask; UptimeTask; MemoryTask; GapTask]
  ++ (if 0 <? ForcedDisconnInterval c then [DisconnectTask] else []).

(** A runLoop goroutine with its context, its done channel, its periodic tasks
    that periodicWG counts, whether periodicCancel was called, and the locals of
    the memory task. *)
Record run := mk_run {
  r_cfg : Config; r_phase : phase; r_cancelled : bool; r_closed : bool; r_mem : memory_task;
  r_tasks : list task; r_halted : bool
}.
#[export] Instance eta_run : Eta run := fun r =>
  mk_run (r_cfg r) (r_phase r) (r_cancelled r) (r_closed r) (r_mem r) (r_tasks r) (r_halted r).

(** The goroutine StartRunFromConfig launches. *)
Definition new_run (c : Config) : run := mk_run c Build false false (mk_memory_task 0 false) [] false.

Definition context_of (i : nat) (r : run) : context :=
  mk_context i (r_cancelled r) (bool_decide (r_tasks r = [])).

Record System := mk_System { eng : Engine; runs : list run; clock : Z; panicked : bool }.
#[export] Instance eta_System : Eta System := fun s =>
  mk_System (eng s) (runs s) (clock s) (panicked s).

Definition init_system (now : Z) : System := mk_System (New now) [] now false.

(** *** StartRunFromConfig, StopRun *)

Definition can_start (st : string) : bool :=
  negb (negb (String.eqb st StateIdle) && negb (String.eqb st StateStopped)
        && negb (String.eqb st StateError)).

(** [random]: the bytes of RandomRunID. *)
Definition StartRunFromConfig (now : Z) (random : list Z) (c : Config) (s : System)
    : System * option message :=
  let e := eng s in
  if negb (can_start (state e)) then
    (s, Some [Lit "cannot start run: engine in state "; Lit (state e)])
  else
    let i := length (runs s) in
    let e := e <| state := StateStarting |> <| runCfg := Some c |>
               <| runID := if String.eqb (RunID c) "" then RandomRunID random else RunID c |>
               <| runStartedAt := now |> <| runEndedAt := 0 |> <| runError := [] |>
               <| verdictResult := None |> <| workerSnapshots := None |> <| mem := mk_memory 0 0 |>
               <| runCancel := Some i |> <| runDone := Some i |> in
    (mk_System e (runs s ++ [new_run c]) (clock s) (panicked s),
     None).

Definition upd_run (i : nat) (f : run -> run) (s : System) : System := s <| runs ::= alter f i |>.

(** Calling the CancelFunc of a run's context. *)
Definition cancel (i : option nat) (s : System) : System :=
  match i with
  | Some i => upd_run i (fun r => r <| r_cancelled := true |>) s
  | None => s
  end.

Definition StopRun (s : System) : System * option message :=
  let st := state (eng s) in
  if negb (String.eqb st StateStarting) && negb (String.eqb st StateRunning) then
    (s, Some [Lit "cannot stop run: engine in state "; Lit st])
  else (cancel (runCancel (eng s)) s, None).

(** *** One step of runLoop *)

(** close(done) panics on a channel that is closed already. *)
Definition close_done (i : option nat) (s : System) : System :=
  match i with
  | None => s
  | Some i =>
      match runs s !! i with
      | Some r => if r_closed r then s <| panicked := true |>
                  else upd_run i (fun r => r <| r_closed := true |>) s
      | None => s
      end
  end.

(** startPeriodicTasks at [Announce], where the memory task notes its start, and
    periodicCancel() after the select of [Running]. *)
Definition enter (now : Z) (p p' : phase) (r : run) : run :=
  let r := r <| r_phase := p' |> in
  match p with
  | Announce =>
      r <| r_mem := mk_memory_task now false |> <| r_tasks := startPeriodicTasks (r_cfg r) |> <| r_halted := false |>
  | Running _ => r <| r_halted := true |>
  | _ => r
  end.

Definition run_step (a : answer) (i : nat) (s : System) : option System :=
  r ← runs s !! i;
  if a_now a <? clock s then None else
  let s := s <| clock := a_now a |> in
  match r_phase r with
  | Close done => Some (close_done done (upd_run i (fun r => r <| r_phase := Ended |>) s))
  | p =>
      '(e, p') ← phase_step a (r_cfg r) (context_of i r) p (eng s);
      Some (upd_run i (enter (a_now a) p p') (s <| eng := e |>))
  end.

(** *** The periodic tasks *)

(** One tick of a task; the reporter only prints [logStatus]. *)
Definition task_step (t : task) (a : answer) (r : run) (e : Engine) : Engine * run :=
  match t with
  | ReportTask => (e, r)
  | RateTask =>
      let '(groups, evs) := rate_tick (groups_of e) in
      (emits evs (with_groups (fun _ => groups) e), r)
  | UptimeTask => (emits [uptime_tick (a_now a) (bootTime e)] e, r)
  | MemoryTask =>
      let '(t, m) := memory_tick (a_now a) (a_sys a) (runCfg e) (r_mem r) (mem e) in
      (e <| mem := m |>, r <| r_mem := t |>)
  | GapTask =>
      let '(groups, evs) := detect_gaps (groups_of e) in
      (emits evs (with_groups (fun _ => groups) e), r)
  | DisconnectTask =>
      (emits [IncForcedDisconnect] (map_groups (upd_base Worker.DisconnectConsumers) e), r)
  end.

Definition tick_step (t : task) (a : answer) (i : nat) (s : System) : option System :=
  r ← runs s !! i;
  if bool_decide (t ∈ r_tasks r) then
    if a_now a <? clock s then None else
    let '(e, r') := task_step t a r (eng s) in
    Some (upd_run i (fun _ => r') (s <| clock := a_now a |> <| eng := e |>))
  else None.

(** *** Goroutines return *)

(** Consumers run in a context made from their run's, producers in one made from
    context.Background(). *)
Definition context_done (s : System) (t : thread) : bool :=
  th_halted t ||
  match th_side t with
  | Producers => false
  | Consumers => match runs s !! th_run t with Some r => r_cancelled r | None => false end
  end.

(** Only lagSampler returns in a live context, when it gets no client. *)
Definition returns_early (t : thread) : bool :=
  match th_loop t with LagSampler _ => true | _ => false end.

(** A goroutine of a worker returns, and its wait group counts one less. *)
Definition return_step (n : nat) (s : System) : option System :=
  t ← threads (eng s) !! n;
  if context_done s t || returns_early t
  then Some (s <| eng ::= fun e => e <| threads ::= delete n |> |>) else None.

(** A periodic task of run [i] does. *)
Definition leave_step (t : task) (i : nat) (s : System) : option System :=
  r ← runs s !! i;
  if (r_halted r || r_cancelled r) && bool_decide (t ∈ r_tasks r)
  then Some (upd_run i (fun r => r <| r_tasks ::= filter (fun t' => t' <> t) |>) s) else None.

(** *** Everything that can happen *)

Inductive label :=
  | LRun (i : nat) | LTick (i : nat) | LWorker | LStart (ok : bool) | LStop | LTime | LReturn.

#[export] Instance label_eq_dec : EqDecision label.
Proof. solve_decision. Defined.

(** A worker in the engine's groups takes a turn. *)
Inductive worker_step (e : Engine) : Engine -> Prop :=
  | worker_turn name g k w w' :
      groups_of e !! name = Some g -> g_workers g !! k = Some w -> activity w w' ->
      worker_step e (update_group name (mk_WorkerGroup (g_name g) (<[ k := w' ]> (g_workers g))) e).

Inductive sys_step (s : System) : label -> System -> Prop :=
  | step_run a i s' : run_step a i s = Some s' -> sys_step s (LRun i) s'
  | step_tick t a i s' : tick_step t a i s = Some s' -> sys_step s (LTick i) s'
  | step_worker e' : worker_step (eng s) e' -> sys_step s LWorker (s <| eng := e' |>)
  | step_start now random c s' err :
      StartRunFromConfig now random c s = (s', err) ->
      sys_step s (LStart (match err with None => true | Some _ => false end)) s'
  | step_stop s' err : StopRun s = (s', err) -> sys_step s LStop s'
  | step_time now : clock s <= now -> sys_step s LTime (s <| clock := now |>)
  | step_return n s' : return_step n s = Some s' -> sys_step s LReturn s'
  | step_leave t i s' : leave_step t i s = Some s' -> sys_step s LReturn s'.

(** A history of labels; a panic ends the process. *)
Inductive steps : System -> list label -> System -> Prop :=
  | steps_nil s : steps s [] s
  | steps_snoc s tr s1 l s2 : steps s tr s1 -> panicked s1 = false -> sys_step s1 l s2 ->
      steps s (tr ++ [l]) s2.

End Engine.

Arguments steps {H} getenv.
