(* ===== verification/EngineFacts.v ===== *)
(** * The run lifecycle: steps and their measure

    What each kind of step does to a run; the work a runLoop has left, which each
    of its own steps takes some of; and when its next step is enabled. *)

From S2P Require Import Prelude Float64 GoStr Config Metrics Verdict Tracker Worker Loops WorkerGroup WorkerGroupFacts Snapshot SnapshotFacts Engine.
Local Open Scope string_scope.
Local Open Scope Z_scope.
Local Open Scope list_scope.

(** Case analysis on a step of runLoop. *)
Ltac phase_inv Hs :=
  unfold phase_step in Hs;
  repeat (match type of Hs with
          | context [match ?x with _ => _ end] => destruct x eqn:?
          end; try discriminate Hs);
  try (injection Hs as <- <-).

Section Facts.
Context `{HdrHistogram} (getenv : string -> string).

(** ** The work a run has left *)

Definition polls_left (deadline now : Z) : nat :=
  Z.to_nat ((deadline - now + pollInterval - 1) / pollInterval).

(** The steps that stopping a worker takes: its CancelFunc, the wait, and at most
    five accesses of a reconciliation. *)
Definition settle_work (r : CG.reconciling) : nat :=
  match r with
  | CG.AtDetect => 5 | CG.AtTotal => 4 | CG.AtLoad _ => 3 | CG.AtAdd _ _ => 2 | CG.AtStore _ => 1
  end.

Definition item_work (c : Config) (item : stop_item) : nat :=
  match item with
  | Visit name => S (7 * Z.to_nat (GetWorkerChannels c name))
  | Halt _ _ => 7 | Join _ _ => 6 | Settle _ _ r => settle_work r
  end.

Definition stop_work (c : Config) (todo : list stop_item) : nat := list_sum (map (item_work c) todo).

Definition work_of (c : Config) (now : Z) (p : phase) : nat :=
  let m := (2 * max_polls (drain_time c))%nat in
  let w := stop_work c visits in
  match p with
  | Ended => 0 | Close _ => 1 | Finish => 2 | Judge => 3 | FinalPeak => 4
  | StoppingConsumers todo => 5 + stop_work c todo
  | Capture => 6 + w | FinalGaps => 7 + w
  | Draining d => 8 + w + 2 * polls_left (dr_deadline d) now
  | Polling until d => 9 + w + 2 * polls_left (dr_deadline d) until
  | DrainBegin => 9 + w + m
  | StoppingProducers todo => 10 + w + m + stop_work c todo
  | Freeze => 11 + 2 * w + m | Stopping => 12 + 2 * w + m | Running _ => 13 + 2 * w + m
  | Announce => 14 + 2 * w + m
  | StartingProducers rest => 15 + 2 * w + m + length rest
  | CheckWarm => 22 + 2 * w + m | WarmupReset => 23 + 2 * w + m | WarmupSettle _ => 24 + 2 * w + m
  | WarmupStop todo => 25 + 2 * w + m + stop_work c todo
  | WarmupWait _ => 26 + 3 * w + m
  | WarmupProducers rest => 27 + 3 * w + m + length rest
  | AwaitingReady rest => 34 + 3 * w + m + length rest
  | StartingConsumers rest => 41 + 3 * w + m + length rest
  | Build => 48 + 3 * w + m
  end%nat.

(** The groups are no larger than [c] says. *)
Definition sized (c : Config) (e : Engine) : Prop := forall name g, groups_of e !! name = Some g ->
  (length (g_workers g) <= Z.to_nat (GetWorkerChannels c name))%nat.

Lemma stop_work_app c l l' : stop_work c (l ++ l') = (stop_work c l + stop_work c l')%nat.
Proof. unfold stop_work. by rewrite map_app, list_sum_app. Qed.

Lemma stop_work_items c name g : stop_work c (stop_items name g) = (7 * length (g_workers g))%nat.
Proof.
  unfold stop_work, stop_items. rewrite map_map. cbn [item_work].
  rewrite <- (length_seq (length (g_workers g)) 0) at 2. induction (List.seq _ _) as [|k l IH]; [done|].
  cbn [map list_sum foldr length]. unfold list_sum in IH. rewrite IH. lia.
Qed.

(** A reconciliation has at most five accesses. *)
Lemma operate_work c f name k e n : (forall w r, (f w).2 = Some r -> (settle_work r <= n)%nat) ->
  (stop_work c (operate f name k e).2 <= n)%nat.
Proof.
  intros Hf. unfold operate. destruct (worker_at name k e) as [w|]; [|cbn; lia].
  specialize (Hf w). destruct (f w) as [w' [r|]]; cbn; [|lia]. specialize (Hf r eq_refl). lia.
Qed.

Lemma settle_less r w r' : (settle r w).2 = Some r' -> (S (settle_work r') <= settle_work r)%nat.
Proof.
  destruct w; try done. cbn [settle]. destruct r as [| | |l pv|l]; cbn [CG.reconcile_step];
    try (intros [= <-]; cbn; lia); try done. cbn. destruct (_ <? _); [intros [= <-]; cbn; lia|done].
Qed.

Lemma stop_step_work c sd item e e' items : sized c e -> stop_step sd item e = Some (e', items) ->
  (stop_work c items < item_work c item)%nat.
Proof.
  intros Hz. destruct item as [name|name k|name k|name k r]; cbn [stop_step item_work].
  - intros [= <- <-]. destruct (groups_of e !! name) as [g|] eqn:Hg; [|cbn; lia].
    rewrite stop_work_items. specialize (Hz name g Hg). lia.
  - intros [= <- <-]. cbn. lia.
  - destruct (decide _); [|done]. intros [= E]. apply (f_equal snd) in E. cbn [snd] in E. rewrite <- E.
    apply Nat.lt_succ_r, operate_work. intros w r. destruct sd; cbn [finish]; [|done].
    destruct w as [w|w|w|w|w|w]; cbn [StopProducers_]; try done. cbn. intros [= <-]. cbn. lia.
  - intros [= E]. apply (f_equal snd) in E. cbn [snd] in E. rewrite <- E.
    destruct (settle_work r) as [|n] eqn:En; [by destruct r|]. apply Nat.lt_succ_r, operate_work.
    intros w r' Hr. pose proof (settle_less r w r' Hr). lia.
Qed.

Lemma polls_left_mono d now now' : now <= now' -> (polls_left d now' <= polls_left d now)%nat.
Proof.
  intros Hn. unfold polls_left.
  assert ((d - now' + pollInterval - 1) / pollInterval <= (d - now + pollInterval - 1) / pollInterval)
    by (apply Z.div_le_mono; [done|lia]). lia.
Qed.

Lemma polls_left_sleep d now : now < d -> (S (polls_left d (now + pollInterval)) <= polls_left d now)%nat.
Proof.
  intros Hn. unfold polls_left.
  replace (d - now + pollInterval - 1) with (d - (now + pollInterval) + pollInterval - 1 + 1 * pollInterval) by lia.
  rewrite Z.div_add by done.
  assert (0 <= (d - (now + pollInterval) + pollInterval - 1) / pollInterval)
    by (apply Z.div_pos; unfold pollInterval, Time.Millisecond in *; lia). lia.
Qed.

Lemma work_clock c now now' p : now <= now' -> (work_of c now' p <= work_of c now p)%nat.
Proof.
  intros Hn. destruct p; cbn [work_of]; try lia.
  pose proof (polls_left_mono (dr_deadline d) now now' Hn). lia.
Qed.

(** Every step of runLoop takes some of the work away. *)
Lemma phase_step_work a c x p e e' p' now : (p <> Build -> sized c e) -> now <= a_now a ->
  phase_step getenv a c x p e = Some (e', p') -> (work_of c (a_now a) p' < work_of c now p)%nat.
Proof.
  intros Hz Hnow Hs.
  assert (Hl : length AllWorkerNames = 6%nat) by reflexivity.
  destruct p; try discriminate Hs;
    try (phase_inv Hs; cbn [work_of length];
         try match goal with E : stop_step _ _ _ = Some _ |- _ =>
           apply (stop_step_work c) in E; [|by apply Hz]; rewrite stop_work_app;
           change (stop_work c (?i :: ?l)) with (item_work c i + stop_work c l)%nat end;
         change (stop_work c []) with 0%nat; rewrite ?Hl; lia).
  - cbn [phase_step] in Hs. destruct (build_groups getenv c); [|discriminate Hs].
    cbn in Hs. injection Hs as <- <-. cbn [work_of]. rewrite Hl. lia.
  - cbn [phase_step] in Hs. injection Hs as <- <-. cbn [work_of]. unfold drain_start. cbn [dr_deadline].
    unfold polls_left, max_polls.
    replace (a_now a + drain_wait (drain_time c) - a_now a + pollInterval - 1)
      with (drain_wait (drain_time c) + pollInterval - 1) by lia. lia.
  - cbn [phase_step] in Hs. destruct (Z.ltb_spec (a_now a) (dr_deadline d)); injection Hs as <- <-;
      cbn [work_of]; [|lia].
    pose proof (polls_left_sleep (dr_deadline d) (a_now a) ltac:(lia)).
    pose proof (polls_left_mono (dr_deadline d) now (a_now a) Hnow). lia.
  - cbn [phase_step] in Hs. destruct (Z.ltb_spec (a_now a) until); [discriminate Hs|].
    unfold drain_poll in Hs. destruct (detect_gaps (groups_of e)) as [groups evs].
    pose proof (polls_left_mono (dr_deadline d) until (a_now a) ltac:(lia)).
    destruct (_ =? _); [destruct (_ <=? _)|]; injection Hs as <- <-; cbn [work_of dr_deadline]; lia.
Qed.

(** ** Who changes a run *)

Lemma runs_alter i j (f : run -> run) (l : list run) r : l !! j = Some r ->
  alter f i l !! j = Some (if decide (i = j) then f r else r).
Proof.
  intros Hj. case_decide as E; [subst; by rewrite list_lookup_alter_eq, Hj|by rewrite list_lookup_alter_ne].
Qed.

(** What a step leaves of run [j]. *)
Definition run_kept (r r' : run) : Prop := r_cfg r' = r_cfg r /\ (r_cancelled r = true -> r_cancelled r' = true).

Lemma close_done_runs d s j r : runs s !! j = Some r ->
  exists r', runs (close_done d s) !! j = Some r' /\ run_kept r r' /\
    (r_phase r' = r_phase r /\ r_halted r' = r_halted r /\ r_tasks r' = r_tasks r).
Proof.
  intros Hj. unfold close_done. destruct d as [i|]; [|by exists r].
  destruct (runs s !! i) as [ri|] eqn:Hi; [|by exists r].
  destruct (r_closed ri); [by exists r|].
  eexists. split; [by apply runs_alter|]. by case_decide; destruct r.
Qed.

Lemma cancel_runs d s j r : runs s !! j = Some r ->
  exists r', runs (cancel d s) !! j = Some r' /\ run_kept r r' /\
    (r_phase r' = r_phase r /\ r_halted r' = r_halted r /\ r_tasks r' = r_tasks r).
Proof.
  intros Hj. unfold cancel. destruct d as [i|]; [|by exists r].
  eexists. split; [by apply runs_alter|]. by case_decide; destruct r.
Qed.

Lemma run_step_inv a i s s' : run_step getenv a i s = Some s' ->
  exists r, runs s !! i = Some r /\ clock s <= a_now a /\
    ((exists done, r_phase r = Close done /\
        s' = close_done done (upd_run i (fun r => r <| r_phase := Ended |>) (s <| clock := a_now a |>))) \/
     (exists e p, phase_step getenv a (r_cfg r) (context_of i r) (r_phase r) (eng s) = Some (e, p) /\
        s' = upd_run i (enter (a_now a) (r_phase r) p) (s <| clock := a_now a |> <| eng := e |>))).
Proof.
  unfold run_step. destruct (runs s !! i) as [r|] eqn:Hi; [|done]. cbn [mbind option_bind].
  destruct (Z.ltb_spec (a_now a) (clock s)); [done|]. intros Hs. exists r. split_and!; [done|lia|].
  destruct (r_phase r) as [| | | | | | | | | | | | | | | | | | | | | | | |done|] eqn:Hp;
    try (right; destruct (phase_step getenv a (r_cfg r) (context_of i r) _ _) as [[e p]|] eqn:E;
         [|discriminate Hs]; injection Hs as <-; by exists e, p).
  left. injection Hs as <-. by exists done.
Qed.

Lemma tick_step_inv t a i s s' : tick_step t a i s = Some s' ->
  exists r e r', runs s !! i = Some r /\ clock s <= a_now a /\ t ∈ r_tasks r /\
    task_step t a r (eng s) = (e, r') /\
    s' = upd_run i (fun _ => r') (s <| clock := a_now a |> <| eng := e |>).
Proof.
  unfold tick_step. destruct (runs s !! i) as [r|] eqn:Hi; [|done]. cbn [mbind option_bind].
  destruct (bool_decide_reflect (t ∈ r_tasks r)) as [Ht|]; [|done].
  destruct (Z.ltb_spec (a_now a) (clock s)); [done|]. destruct (task_step t a r (eng s)) as [e r'] eqn:E.
  intros [= <-]. exists r, e, r'. split_and!; [done|lia|done..].
Qed.

Lemma return_step_inv n s s' : return_step n s = Some s' ->
  exists t, threads (eng s) !! n = Some t /\ context_done s t || returns_early t = true /\
    s' = s <| eng ::= fun e => e <| threads ::= delete n |> |>.
Proof.
  unfold return_step. destruct (threads (eng s) !! n) as [t|]; [|done]. cbn [mbind option_bind].
  destruct (_ || _) eqn:E; [|done]. intros [= <-]. by exists t.
Qed.

Lemma leave_step_inv t i s s' : leave_step t i s = Some s' ->
  exists r, runs s !! i = Some r /\ r_halted r || r_cancelled r = true /\ t ∈ r_tasks r /\
    s' = upd_run i (fun r => r <| r_tasks ::= filter (fun t' => t' <> t) |>) s.
Proof.
  unfold leave_step. destruct (runs s !! i) as [r|]; [|done]. cbn [mbind option_bind].
  destruct (_ || _) eqn:E; [|done]. destruct (bool_decide_reflect (t ∈ r_tasks r)); [|done].
  intros [= <-]. by exists r.
Qed.

(** A tick leaves all of its run but the locals of the memory task. *)
Lemma task_step_run t a r e : r_cfg (task_step t a r e).2 = r_cfg r /\
  r_cancelled (task_step t a r e).2 = r_cancelled r /\ r_phase (task_step t a r e).2 = r_phase r /\
  r_closed (task_step t a r e).2 = r_closed r /\ r_tasks (task_step t a r e).2 = r_tasks r /\
  r_halted (task_step t a r e).2 = r_halted r.
Proof.
  destruct t; cbn [task_step]; try done; repeat (match goal with |- context [let '(_, _) := ?x in _] => destruct x end);
    by destruct r.
Qed.

(** The effect of one step on run [j]: no step of anyone else touches its phase,
    whether its periodic tasks are halted, or adds one. *)
Definition run_still (r r' : run) : Prop :=
  r_phase r' = r_phase r /\ r_halted r' = r_halted r /\ (length (r_tasks r') <= length (r_tasks r))%nat.

Lemma run_still_refl r : run_still r r.
Proof. done. Qed.

Lemma sys_step_kept l s s' j r : sys_step getenv s l s' -> runs s !! j = Some r ->
  exists r', runs s' !! j = Some r' /\ run_kept r r' /\ clock s <= clock s' /\
    (l <> LRun j -> run_still r r').
Proof.
  intros Hs Hj. destruct Hs as [a i s' Hs|t a i s' Hs|e' Hw|now random c s' err Hs|s' err Hs|now Hn|n s' Hs|t i s' Hs].
  - apply run_step_inv in Hs as (ri & Hi & Hclock & [(d & Hp & ->)|(e & p & Hp & ->)]).
    + destruct (close_done_runs d (upd_run i (fun r => r <| r_phase := Ended |>) (s <| clock := a_now a |>)) j
        (if decide (i = j) then r <| r_phase := Ended |> else r)) as (r' & Hr' & Hk & Hph).
      { cbn [upd_run]. by apply runs_alter. }
      exists r'. split; [done|]. split.
      { destruct Hk as [H1 H2]. split; [rewrite H1; by case_decide; destruct r|].
        intros Hc. apply H2. by case_decide; destruct r. }
      assert (Hcl : forall d s, clock (close_done d s) = clock s).
      { intros [k|] s0; [|done]. cbn [close_done]. by repeat case_match. }
      rewrite Hcl. split; [done|]. intros Hne. rewrite decide_False in Hph by congruence.
      by destruct Hph as (H1 & H2 & H3); split_and!; rewrite ?H1, ?H2, ?H3.
    + eexists. split; [by apply runs_alter|]. split.
      { case_decide; [|done]. unfold enter. by destruct (r_phase ri), r. }
      split; [done|]. intros Hne. rewrite decide_False by congruence. apply run_still_refl.
  - apply tick_step_inv in Hs as (ri & e & r' & Hi & Hclock & _ & Ht & ->).
    eexists. split; [by apply runs_alter|].
    destruct (task_step_run t a ri (eng s)) as (H1 & H2 & H3 & _ & H4 & H5). rewrite Ht in *. cbn [snd] in *.
    case_decide; [|by split_and!]. subst. rewrite Hj in Hi. injection Hi as ->.
    split; [split; [done|congruence]|]. split; [done|]. intros _. split_and!; [done|done|by rewrite H4].
  - exists r. by split_and!.
  - unfold StartRunFromConfig in Hs.
    destruct (negb (can_start _)); injection Hs as <- <-; [by exists r|].
    exists r. split; [by apply lookup_app_l_Some|done].
  - unfold StopRun in Hs.
    destruct (_ && _); injection Hs as <- <-; [by exists r|].
    destruct (cancel_runs (runCancel (eng s)) s j r Hj) as (r' & Hr' & Hk & Hph).
    exists r'. split_and!; try done; [unfold cancel; by destruct (runCancel (eng s))|].
    intros _. by destruct Hph as (H1 & H2 & H3); split_and!; rewrite ?H1, ?H2, ?H3.
  - exists r. by split_and!.
  - apply return_step_inv in Hs as (t & _ & _ & ->). by exists r.
  - apply leave_step_inv in Hs as (ri & Hi & _ & _ & ->). eexists. split; [by apply runs_alter|].
    case_decide; [|by split_and!]. split; [by destruct r|]. split; [done|]. intros _.
    split_and!; [by destruct r..|]. destruct r. apply length_filter.
Qed.

(** ** Not blocked *)

(** What a blocked step waits for. *)
Definition due (p : phase) : Z :=
  match p with
  | WarmupWait t | WarmupSettle t | Polling t _ | Running (Some t) => t
  | _ => 0
  end.

(** An answer that comes late enough. *)
Definition timely (s : System) (r : run) (a : answer) : Prop :=
  clock s <= a_now a /\ due (r_phase r) <= a_now a /\ a_names a ≡ₚ AllWorkerNames.

(** The run will not wait for a cancellation that may never come. *)
Definition bounded (r : run) : Prop := r_cancelled r = true \/ 0 < DurationParsed (r_cfg r).

Lemma build_groups_total c : exists groups, build_groups getenv c = Some groups.
Proof.
  unfold build_groups. generalize (∅ : Groups).
  induction AllWorkerNames as [|name names IH]; intros acc; cbn [build_loop]; [by eexists|].
  destruct (GetWorkerConfig c name) as [wc|]; [|apply IH]. destruct (Enabled wc); [|apply IH].
  cbn [negb]. destruct (NewWorkerGroup_total getenv name c) as [g ->]. apply IH.
Qed.

(** [Running None]: an unbounded run. *)
Definition unbounded_ok (r : run) : Prop := r_phase r = Running None -> DurationParsed (r_cfg r) <= 0.

(** What the Wait at which a run stands counts. *)
Definition awaited_tasks (r : run) : list task :=
  match r_phase r with Stopping => r_tasks r | _ => [] end.

Definition awaited (e : Engine) (r : run) : list thread :=
  match r_phase r with
  | WarmupStop (Join name k :: _) | StoppingProducers (Join name k :: _) => counted Producers name k e
  | StoppingConsumers (Join name k :: _) => counted Consumers name k e
  | _ => []
  end.

Definition pending (e : Engine) (r : run) : nat := (length (awaited_tasks r) + length (awaited e r))%nat.

Lemma stop_step_enabled sd item e : match item with Join name k => counted sd name k e = [] | _ => True end ->
  is_Some (stop_step sd item e).
Proof. destruct item; cbn [stop_step]; try by eexists. intros He. rewrite decide_True by done. by eexists. Qed.

Lemma phase_step_enabled s r a e i : timely s r a -> bounded r -> unbounded_ok r -> pending e r = O ->
  match r_phase r with Close _ | Ended => True | p =>
    is_Some (phase_step getenv a (r_cfg r) (context_of i r) p e) end.
Proof.
  intros (_ & Hd & Hnames) Hb Hu Hw. unfold unbounded_ok in Hu. unfold pending, awaited_tasks, awaited in Hw.
  assert (Hstop : forall sd item todo (P : list stop_item -> phase),
    match item with Join name k => counted sd name k e = [] | _ => True end ->
    is_Some (match stop_step sd item e with None => None | Some (e, items) => Some (e, P (items ++ todo)) end)).
  { intros sd item todo P Hi. destruct (stop_step_enabled sd item e Hi) as [[e' items] ->]. by eexists. }
  destruct (r_phase r) as [|rest|rest|rest|t|todo|t| | |rest| |t| | |todo| |d|t d| | |todo| | | |d|] eqn:Hp;
    try done; cbn [phase_step due context_of cx_cancelled cx_quiet cx_run] in *;
    try (destruct rest; [|destruct (groups_of e !! _)]; by eexists);
    try (destruct todo as [|item todo]; [by eexists|]; apply Hstop; destruct item; try done;
         apply length_zero_iff_nil; exact Hw);
    try by eexists.
  - destruct (build_groups_total (r_cfg r)) as [groups ->]. by eexists.
  - destruct rest as [|name rest]; [by eexists|]. destruct (groups_of e !! name) as [g|]; [|by eexists].
    destruct (StartConsumers (a_start a) g) as [[g' gs] [err|]]; by eexists.
  - destruct rest as [|name rest]; [destruct (r_cancelled r); by eexists|].
    destruct (groups_of e !! name) as [g|]; [|by eexists].
    destruct (WaitForConsumerReady (a_ready a) g); by eexists.
  - rewrite (proj2 (Z.leb_le _ _) Hd), orb_true_r. by eexists.
  - rewrite (proj2 (Z.leb_le _ _) Hd). destruct (r_cancelled r && _); by eexists.
  - destruct (r_cancelled r); by eexists.
  - destruct t as [t|]; [rewrite (proj2 (Z.leb_le _ _) Hd), orb_true_r; by eexists|].
    destruct Hb as [->|Hpos]; [by eexists|]. specialize (Hu eq_refl). lia.
  - rewrite bool_decide_true by (apply length_zero_iff_nil; lia). by eexists.
  - destruct (a_now a <? dr_deadline d); by eexists.
  - destruct (Z.ltb_spec (a_now a) t); [lia|]. destruct (drain_poll (groups_of e) d) as [[g evs] nx]. by eexists.
  - rewrite bool_decide_true by done. by eexists.
Qed.

Lemma run_step_enabled s i r a : runs s !! i = Some r -> timely s r a -> bounded r -> unbounded_ok r ->
  pending (eng s) r = O -> r_phase r <> Ended -> exists s', run_step getenv a i s = Some s'.
Proof.
  intros Hi Ht Hb Hu Hw Hne. pose proof (phase_step_enabled s r a (eng s) i Ht Hb Hu Hw) as He.
  unfold run_step. rewrite Hi. cbn [mbind option_bind].
  destruct (Z.ltb_spec (a_now a) (clock s)); [destruct Ht; lia|].
  destruct (r_phase r); try done; try by eexists.
  all: destruct He as [[e p] He]; cbn [eng set_field] in *;
    change (eng (s <| clock := a_now a |>)) with (eng s); rewrite He; by eexists.
Qed.

End Facts.

(** ** Runs in a history *)

Section Histories.
Context `{HdrHistogram} (getenv : string -> string).

Definition runs_ok (P : run -> Prop) (s : System) : Prop := forall i r, runs s !! i = Some r -> P r.

Lemma upd_run_lookup i j f s r : runs s !! j = Some r ->
  runs (upd_run i f s) !! j = Some (if decide (i = j) then f r else r).
Proof. apply runs_alter. Qed.

Lemma upd_run_length i f s : length (runs (upd_run i f s)) = length (runs s).
Proof. apply length_alter. Qed.

Lemma close_done_length d s : length (runs (close_done d s)) = length (runs s).
Proof. unfold close_done. destruct d as [k|]; repeat case_match; try done. apply upd_run_length. Qed.

(** Only StartRunFromConfig adds a run. *)
Lemma sys_step_length l s s' : sys_step getenv s l s' ->
  length (runs s') = length (runs s) \/
  exists c, runs s' = runs s ++ [new_run c].
Proof.
  destruct 1 as [a i s' Hs|t a i s' Ht|e' Hw|now random c s' err Hs|s' err Hs|now Hn|n s' Hs|t i s' Hs]; try by left.
  - left. apply run_step_inv in Hs as (r & Hr & _ & [(d & _ & ->)|(e & p & _ & ->)]).
    + etrans; [apply close_done_length|]. etrans; [apply upd_run_length|done].
    + etrans; [apply upd_run_length|done].
  - left. apply tick_step_inv in Ht as (r1 & e & r2 & _ & _ & _ & _ & ->). etrans; [apply upd_run_length|done].
  - unfold StartRunFromConfig in Hs. destruct (negb _); injection Hs as <- <-; [by left|right]. by eexists.
  - left. unfold StopRun in Hs. destruct (_ && _); injection Hs as <- <-; [done|].
    unfold cancel. destruct (runCancel (eng s)); [apply upd_run_length|done].
  - left. by apply return_step_inv in Hs as (t & _ & _ & ->).
  - left. apply leave_step_inv in Hs as (r & _ & _ & _ & ->). apply upd_run_length.
Qed.

(** Where a run's own step takes it. *)
Lemma run_step_self a i s s' r : run_step getenv a i s = Some s' -> runs s !! i = Some r ->
  exists r', runs s' !! i = Some r' /\
    ((exists d, r_phase r = Close d /\ r_phase r' = Ended) \/
     exists e, phase_step getenv a (r_cfg r) (context_of i r) (r_phase r) (eng s) = Some (e, r_phase r')).
Proof.
  intros Hs Hi. apply run_step_inv in Hs as (r1 & Hr1 & _ & [(d & Hp & ->)|(e & p & Hp & ->)]);
    rewrite Hi in Hr1; injection Hr1 as <-.
  - set (s1 := s <| clock := a_now a |>).
    pose proof (upd_run_lookup i i (fun r => r <| r_phase := Ended |>) s1 r Hi) as Hu.
    rewrite decide_True in Hu by done.
    destruct (close_done_runs d _ i _ Hu) as (r2 & Hr2 & _ & (Hph & _ & _)). exists r2. split; [done|]. left. by exists d.
  - set (s1 := s <| clock := a_now a |> <| eng := e |>).
    pose proof (upd_run_lookup i i (enter (a_now a) (r_phase r) p) s1 r Hi) as Hu.
    rewrite decide_True in Hu by done. eexists. split; [exact Hu|]. right. exists e.
    replace (r_phase (enter _ _ _ r)) with p by (unfold enter; by destruct (r_phase r)). done.
Qed.

Lemma phase_step_unbounded a c b p e e' : phase_step getenv a c b p e = Some (e', Running None) ->
  DurationParsed c <= 0.
Proof.
  intros Hp. destruct p; try discriminate Hp; try (phase_inv Hp; zify_bool; done).
  cbn [phase_step] in Hp. by destruct (build_groups getenv c).
Qed.

Lemma sys_step_unbounded l s s' : sys_step getenv s l s' -> runs_ok unbounded_ok s -> runs_ok unbounded_ok s'.
Proof.
  intros Hs Hok j r' Hr'. destruct (runs s !! j) as [r|] eqn:Hj.
  - destruct (sys_step_kept getenv l s s' j r Hs Hj) as (r1 & Hr1 & (Hc & _) & _ & Hother).
    rewrite Hr' in Hr1. injection Hr1 as <-. specialize (Hok j r Hj). unfold unbounded_ok in *. rewrite Hc.
    destruct (decide (l = LRun j)) as [->|Hne]; [|destruct (Hother Hne) as (-> & _); done].
    inversion Hs as [a i s0 Hrun| | | | | | |]; subst.
    destruct (run_step_self a j s s' r Hrun Hj) as (r1 & Hr1 & Hd). rewrite Hr' in Hr1. injection Hr1 as <-.
    intros Hp. rewrite Hp in Hd. destruct Hd as [(d & _ & ?)|(e & He)]; [done|].
    by eapply phase_step_unbounded.
  - apply lookup_lt_Some in Hr' as Hlt. apply lookup_ge_None in Hj.
    destruct (sys_step_length l s s' Hs) as [?|(c & Hc)]; [lia|]. rewrite Hc in Hr'.
    apply lookup_app_Some in Hr' as [Hr'|[_ Hr']]; [apply lookup_lt_Some in Hr'; lia|].
    destruct (j - length (runs s))%nat as [|n]; [|by destruct n]. by injection Hr' as <-.
Qed.

Lemma steps_unbounded s tr s' : steps getenv s tr s' -> runs_ok unbounded_ok s -> runs_ok unbounded_ok s'.
Proof. induction 1; eauto using sys_step_unbounded. Qed.

(** The steps of run [i] in a history. *)
Definition moves (i : nat) (tr : list label) : nat := length (filter (fun l => l = LRun i) tr).

Definition work (s : System) (r : run) : nat := work_of (r_cfg r) (clock s) (r_phase r).

Lemma work_Ended s r : work s r = O -> r_phase r = Ended.
Proof. unfold work. destruct (r_phase r); cbn [work_of]; try lia. done. Qed.

End Histories.
