(* ===== verification/EngineLift.v ===== *)
(** * What the engine does to its workers

    A relation on workers that the engine's operations respect holds, worker by
    worker, between the groups before and after every step of the engine that
    neither builds, resets nor lets a worker take a turn. *)

From S2P Require Import Prelude Float64 GoStr Config Metrics Transport Verdict Tracker Worker WorkerFacts Loops WorkerGroup WorkerGroupFacts Snapshot SnapshotFacts Engine EngineFacts.
Local Open Scope string_scope.
Local Open Scope Z_scope.
Local Open Scope list_scope.

(** What the engine does to single workers. *)
Class EngineOps `{HdrHistogram} (R : AnyWorker -> AnyWorker -> Prop) := {
  ops_preorder :: PreOrder R;
  ops_Start : forall env a a' gs, Start env a = Ok (a', gs) -> R a a';
  ops_StopProducers : forall a, R a (StopProducers_ a).1;
  ops_settle : forall r a, R a (settle r a).1;
  ops_StopConsumers : forall a, R a (StopConsumers_ a);
  ops_gaps : forall a, R a (mark_gaps a);
  ops_advance : forall a, R a (upd_base AdvanceRateWindows a);
  ops_disconnect : forall a, R a (upd_base Worker.DisconnectConsumers a)
}.

Section Lift.
Context `{HdrHistogram} (getenv : string -> string) (R : AnyWorker -> AnyWorker -> Prop) `{!EngineOps R}.

Definition group_rel (g g' : WorkerGroup) : Prop :=
  g_name g' = g_name g /\ Forall2 R (g_workers g) (g_workers g').

Definition groups_rel (gs gs' : Groups) : Prop := forall name,
  option_Forall2 group_rel (gs !! name) (gs' !! name).

Definition engine_rel (e e' : Engine) : Prop :=
  option_Forall2 groups_rel (workerGroups e) (workerGroups e').

#[export] Instance group_rel_preorder : PreOrder group_rel.
Proof. split; [by intros g; split|]. intros a b c [H1 H2] [H3 H4]. split; [congruence|by etrans]. Qed.

#[export] Instance groups_rel_preorder : PreOrder groups_rel.
Proof.
  split.
  - intros gs name. destruct (gs !! name); by constructor.
  - intros g1 g2 g3 H1 H2 name. specialize (H1 name). specialize (H2 name).
    destruct H1; inversion H2; subst; constructor. by etrans.
Qed.

Lemma engine_rel_refl e e' : workerGroups e' = workerGroups e -> engine_rel e e'.
Proof. unfold engine_rel. intros ->. destruct (workerGroups e); by constructor. Qed.

Lemma engine_rel_with f e : (forall gs, groups_rel gs (f gs)) -> engine_rel e (with_groups f e).
Proof.
  intros Hf. unfold engine_rel, with_groups.
  change (workerGroups (e <| workerGroups ::= option_map f |>)) with (option_map f (workerGroups e)).
  destruct (workerGroups e); constructor. apply Hf.
Qed.

Lemma groups_rel_insert name g g' gs : gs !! name = Some g -> group_rel g g' ->
  groups_rel gs (<[ name := g' ]> gs).
Proof.
  intros Hg Hs n. destruct (decide (name = n)) as [->|Hne].
  - rewrite lookup_insert_eq, Hg. by constructor.
  - rewrite lookup_insert_ne by done. destruct (gs !! n); by constructor.
Qed.

Lemma engine_rel_update name g g' e : groups_of e !! name = Some g -> group_rel g g' ->
  engine_rel e (update_group name g' e).
Proof.
  intros Hg Hs. unfold engine_rel, update_group, with_groups.
  change (workerGroups (e <| workerGroups ::= option_map (insert name g') |>))
    with (option_map (insert name g') (workerGroups e)).
  unfold groups_of in Hg. destruct (workerGroups e); [|constructor]. constructor. by eapply groups_rel_insert.
Qed.

Lemma group_rel_map f g : (forall a, R a (f a)) -> group_rel g (upd_workers f g).
Proof. intros Hf. split; [done|]. cbn. induction (g_workers g); constructor; auto. Qed.

Lemma groups_rel_fmap f gs : (forall a, R a (f a)) -> groups_rel gs (upd_workers f <$> gs).
Proof.
  intros Hf name. rewrite lookup_fmap. destruct (gs !! name); constructor. by apply group_rel_map.
Qed.

Lemma group_rel_StartConsumers envs g : group_rel g (StartConsumers envs g).1.1.
Proof.
  unfold StartConsumers.
  assert (Hw : forall ws envs, Forall2 R ws (start_workers (g_name g) envs ws).1.1).
  { induction ws as [|a ws IH]; intros envs'; cbn [start_workers]; [by constructor|].
    destruct (Start (envs' O) a) as [[a' gs]|e] eqn:E; [|done].
    specialize (IH (fun i => envs' (S i))). destruct (start_workers _ _ ws) as [[ws' rest] e].
    constructor; [by eapply ops_Start|exact IH]. }
  specialize (Hw (g_workers g) envs). destruct (start_workers _ _ _) as [[ws gs] e]. by split.
Qed.

Lemma groups_rel_detect gs : groups_rel gs (detect_gaps gs).1.
Proof. apply groups_rel_fmap, ops_gaps. Qed.

Lemma groups_rel_poll gs d : groups_rel gs (drain_poll gs d).1.1.
Proof.
  unfold drain_poll. pose proof (groups_rel_detect gs) as Hd. destruct (detect_gaps gs) as [gs' evs].
  by destruct (_ =? _).
Qed.

Lemma engine_rel_const gs e : groups_rel (groups_of e) gs -> engine_rel e (with_groups (fun _ => gs) e).
Proof.
  intros Hr. unfold engine_rel, with_groups.
  change (workerGroups (e <| workerGroups ::= option_map (fun _ => gs) |>))
    with (option_map (fun _ => gs) (workerGroups e)).
  unfold groups_of in Hr. destruct (workerGroups e); by constructor.
Qed.

(** The worker at [k] of a group replaced by a related one. *)
Lemma group_rel_worker k a a' g : g_workers g !! k = Some a -> R a a' ->
  group_rel g (upd_worker k (fun _ => a') g).
Proof.
  intros Hk Ha. split; [done|]. cbn [upd_worker g_workers]. apply Forall2_lookup. intros j.
  destruct (decide (k = j)) as [->|Hne].
  - rewrite list_lookup_alter_eq, Hk. by constructor.
  - rewrite list_lookup_alter_ne by done. destruct (g_workers g !! j); by constructor.
Qed.

Lemma engine_rel_operate f name k e : (forall a, R a (f a).1) -> engine_rel e (operate f name k e).1.
Proof.
  intros Hf. unfold operate. destruct (worker_at name k e) as [a|] eqn:Ha; [|by apply engine_rel_refl].
  specialize (Hf a). destruct (f a) as [a' r]. cbn [fst] in *. unfold worker_at in Ha. unfold visit.
  destruct (groups_of e !! name) as [g|] eqn:Hg; [|by apply engine_rel_refl].
  eapply engine_rel_update; [exact Hg|]. by eapply group_rel_worker.
Qed.

Lemma stop_step_lift sd item e e' items : stop_step sd item e = Some (e', items) -> engine_rel e e'.
Proof.
  destruct item as [name|name k|name k|name k r]; cbn [stop_step].
  - intros [= <- _]. by apply engine_rel_refl.
  - intros [= <- _]. by apply engine_rel_refl.
  - destruct (decide _); [|done]. intros [= E]. apply (f_equal fst) in E. cbn [fst] in E. rewrite <- E.
    apply engine_rel_operate. intros a. destruct sd; [apply ops_StopProducers|apply ops_StopConsumers].
  - intros [= E]. apply (f_equal fst) in E. cbn [fst] in E. rewrite <- E. apply engine_rel_operate, ops_settle.
Qed.

(** The steps of runLoop between the building and the reset, and after it. *)
Lemma phase_step_lift a c x p e e' p' : p <> Build -> p <> WarmupReset ->
  phase_step getenv a c x p e = Some (e', p') -> engine_rel e e'.
Proof.
  intros Hb Hw Hp. destruct p; try done; try discriminate Hp;
    try (phase_inv Hp; first [by apply engine_rel_refl | by eapply stop_step_lift]).
  - phase_inv Hp; try by apply engine_rel_refl.
    all: match goal with E : StartConsumers _ ?g = _ |- _ =>
           pose proof (group_rel_StartConsumers (a_start a) g) as Hs; rewrite E in Hs end.
    all: by eapply (engine_rel_update _ _ _ e).
  - phase_inv Hp.
    all: match goal with E : drain_poll _ ?d = _ |- _ =>
           pose proof (groups_rel_poll (groups_of e) d) as Hs; rewrite E in Hs end.
    all: by apply (engine_rel_const _ e).
  - phase_inv Hp. match goal with E : detect_gaps _ = _ |- _ =>
           pose proof (groups_rel_detect (groups_of e)) as Hs; rewrite E in Hs end.
    by apply (engine_rel_const _ e).
Qed.

Lemma task_step_lift t a r e : engine_rel e (task_step t a r e).1.
Proof.
  destruct t; cbn [task_step].
  - by apply engine_rel_refl.
  - apply (engine_rel_const _ e), groups_rel_fmap, ops_advance.
  - by apply engine_rel_refl.
  - destruct (memory_tick _ _ _ _ _). by apply engine_rel_refl.
  - apply (engine_rel_const _ e), groups_rel_detect.
  - apply (engine_rel_with _ e). intros gs. apply groups_rel_fmap, ops_disconnect.
Qed.

(** One worker replaced by a related one. *)
Lemma group_rel_insert g k a a' : g_workers g !! k = Some a -> R a a' ->
  group_rel g (mk_WorkerGroup (g_name g) (<[ k := a' ]> (g_workers g))).
Proof.
  intros Hk Ha. split; [done|]. cbn [g_workers].
  apply Forall2_lookup. intros j. destruct (decide (k = j)) as [->|Hne].
  - rewrite Hk, list_lookup_insert_eq by (by apply lookup_lt_Some in Hk). by constructor.
  - rewrite list_lookup_insert_ne by done. destruct (g_workers g !! j); by constructor.
Qed.

End Lift.
