(* ===== verification/Lifecycle.v ===== *)
(** * The run lifecycle: invariants

    What the engine's state says about its runs, in every reachable state in
    which no run was started while a failed one was still in its deferred
    function; scripts of steps; and the race that happens otherwise. *)

From S2P Require Import Prelude Float64 GoStr Config Metrics Verdict Tracker Worker WorkerFacts Loops WorkerGroup WorkerGroupFacts Snapshot SnapshotFacts Engine EngineFacts.
Local Open Scope string_scope.
Local Open Scope Z_scope.
Local Open Scope list_scope.

Section Invariant.
Context `{HdrHistogram} (getenv : string -> string).

(** The deferred function has taken the lock: the run no longer touches the engine. *)
Definition over (p : phase) : Prop := match p with Close _ | Ended => True | _ => False end.

(** The engine's state while its last run stands at [p]. *)
Definition state_in (p : phase) (st : string) : Prop :=
  match p with
  | Build | StartingConsumers _ | AwaitingReady _ | WarmupProducers _ | WarmupWait _ | WarmupStop _
  | WarmupSettle _ | WarmupReset | CheckWarm | StartingProducers _ | Announce => st = StateStarting
  | Running _ | Stopping => st = StateRunning
  | Freeze | StoppingProducers _ | DrainBegin | Draining _ | Polling _ _ | FinalGaps | Capture
  | StoppingConsumers _ | FinalPeak | Judge => st = StateStopping
  | Finish => st = StateStarting \/ st = StateStopping \/ st = StateError
  | Close _ | Ended => st = StateStopped \/ st = StateError
  end.

(** The results the engine holds then: none before the capture, a verdict exactly
    with its snapshots at the end, and only after a run that was not cut short. *)
Definition results_in (p : phase) (e : Engine) : Prop :=
  match p with
  | StoppingConsumers _ | FinalPeak | Judge => verdictResult e = None /\ is_Some (workerSnapshots e)
  | Finish | Close _ | Ended =>
      (verdictResult e = None /\ workerSnapshots e = None) \/
      (is_Some (verdictResult e) /\ is_Some (workerSnapshots e) /\
       (state e = StateStopping \/ state e = StateStopped))
  | _ => verdictResult e = None /\ workerSnapshots e = None
  end.

Definition phase_ok (p : phase) (e : Engine) : Prop := state_in p (state e) /\ results_in p e.

(** Run [i]; the engine belongs to the last one. *)
Record run_inv (s : System) (i : nat) (r : run) : Prop := {
  ri_last : S i = length (runs s) ->
    phase_ok (r_phase r) (eng s) /\ runCfg (eng s) = Some (r_cfg r) /\
    runDone (eng s) = Some i /\ runCancel (eng s) = Some i;
  ri_old : (S i < length (runs s))%nat -> over (r_phase r);
  ri_close : forall d, r_phase r = Close d -> d = Some i;
  ri_closed : r_closed r = true <-> r_phase r = Ended
}.

Record lifecycle (s : System) : Prop := {
  lc_panic : panicked s = false;
  lc_idle : runs s = [] -> state (eng s) = StateIdle /\ verdictResult (eng s) = None /\
                          workerSnapshots (eng s) = None;
  lc_runs : forall i r, runs s !! i = Some r -> run_inv s i r
}.

(** No run stands between its last critical section and its deferred function. *)
Definition settled (s : System) : Prop := runs_ok (fun r => r_phase r <> Finish) s.

(** Histories in which a start is accepted only in such states. *)
Inductive serial : System -> list label -> System -> Prop :=
  | serial_nil s : serial s [] s
  | serial_snoc s tr s1 l s2 : serial s tr s1 -> panicked s1 = false -> sys_step getenv s1 l s2 ->
      (l = LStart true -> settled s1) -> serial s (tr ++ [l]) s2.

Lemma serial_steps s tr s' : serial s tr s' -> steps getenv s tr s'.
Proof. induction 1; [constructor|by econstructor]. Qed.

(** *** Steps of runLoop *)

(** What the invariant reads of the engine. *)
Definition view (e : Engine) :=
  (state e, verdictResult e, workerSnapshots e, runCfg e, runDone e, runCancel e).

Lemma phase_ok_view p e e' : view e' = view e -> phase_ok p e -> phase_ok p e'.
Proof.
  unfold view, phase_ok. intros [= Hs Hv Hn _ _ _]. rewrite Hs. intros [H1 H2]. split; [done|].
  unfold results_in in *. by rewrite Hs, Hv, Hn.
Qed.

Lemma view_with_groups f e : view (with_groups f e) = view e.
Proof. by destruct e. Qed.
Lemma view_emits evs e : view (emits evs e) = view e.
Proof. by destruct e. Qed.
Lemma view_spawn new e : view (spawn new e) = view e.
Proof. by destruct e. Qed.
Lemma view_visit f name e : view (visit f name e) = view e.
Proof. unfold visit. destruct (groups_of e !! name); [apply view_with_groups|done]. Qed.
Lemma view_operate f name k e : view (operate f name k e).1 = view e.
Proof. unfold operate. destruct (worker_at name k e); [|done]. destruct (f _). apply view_visit. Qed.
Lemma view_stop sd item e e' items : stop_step sd item e = Some (e', items) -> view e' = view e.
Proof.
  destruct item; cbn [stop_step]; try (destruct (decide _); [|done]); intros [= E];
    try (by rewrite <- E; destruct e); apply (f_equal fst) in E; cbn [fst] in E; rewrite <- E;
    try done; apply view_operate.
Qed.

Lemma phase_step_frame a c x p e e' p' : phase_step getenv a c x p e = Some (e', p') ->
  runCfg e' = runCfg e /\ runDone e' = runDone e /\ runCancel e' = runCancel e.
Proof.
  intros Hp. destruct p; try discriminate Hp;
    try (phase_inv Hp; try match goal with E : stop_step _ _ _ = Some _ |- _ =>
           apply view_stop in E; injection E as _ _ _ E1 E2 E3; rewrite E1, E2, E3 end; by destruct e).
  cbn [phase_step] in Hp. destruct (build_groups getenv c); [|discriminate Hp]. by injection Hp as <- <-.
Qed.

Lemma view_task t a r e : view (task_step t a r e).1 = view e.
Proof.
  destruct t; cbn [task_step]; try done.
  destruct (memory_tick _ _ _ _ _). by destruct e.
Qed.

Lemma phase_step_ok a c x p e e' p' : phase_step getenv a c x p e = Some (e', p') ->
  phase_ok p e -> phase_ok p' e'.
Proof.
  intros Hp Hok.
  destruct p; try discriminate Hp.
  - cbn [phase_step] in Hp. destruct (build_groups getenv c); [|discriminate Hp]. injection Hp as <- <-.
    by destruct e.
  - phase_inv Hp; try exact Hok.
    destruct Hok as [Hs Hr]. split; [by right; right|]. by left.
  - phase_inv Hp; try exact Hok.
    + destruct Hok as [Hs Hr]. split; [by left|by left].
    + destruct Hok as [Hs Hr]. split; [by right; right|]. by left.
  - phase_inv Hp; exact Hok.
  - phase_inv Hp; exact Hok.
  - phase_inv Hp; [exact Hok|]. by eapply phase_ok_view; [eapply view_stop|].
  - phase_inv Hp; exact Hok.
  - phase_inv Hp. exact Hok.
  - phase_inv Hp; [|exact Hok]. destruct Hok as [Hs Hr]. split; [by left|by left].
  - phase_inv Hp; exact Hok.
  - phase_inv Hp; by destruct Hok.
  - phase_inv Hp. exact Hok.
  - phase_inv Hp. by destruct Hok.
  - phase_inv Hp. exact Hok.
  - phase_inv Hp; [exact Hok|]. by eapply phase_ok_view; [eapply view_stop|].
  - phase_inv Hp. exact Hok.
  - phase_inv Hp; exact Hok.
  - phase_inv Hp; exact Hok.
  - phase_inv Hp. exact Hok.
  - phase_inv Hp. destruct Hok as [Hs [Hr _]]. split; [exact Hs|]. by split; [exact Hr|].
  - phase_inv Hp; [exact Hok|]. by eapply phase_ok_view; [eapply view_stop|].
  - phase_inv Hp. exact Hok.
  - phase_inv Hp. destruct Hok as [Hs [Hr Hn]]. split; [by right; left|]. right. split_and!; [done|exact Hn|by left].
  - phase_inv Hp; destruct Hok as [Hs Hr].
    + split; [right; by apply String.eqb_eq|].
      destruct Hr as [Hr|(H1 & H2 & H3)]; [by left|right; by split_and!].
    + split; [by left|]. destruct Hr as [Hr|(H1 & H2 & H3)]; [by left|right; split_and!; [done..|by right]].
Qed.

(** Where the deferred function is entered and left. *)
Lemma phase_step_target a c x p e e' p' : phase_step getenv a c x p e = Some (e', p') ->
  p' <> Ended /\ (forall d, p' = Close d -> d = runDone e) /\ ~ over p.
Proof.
  intros Hp. destruct p; try discriminate Hp;
    try (phase_inv Hp; (split_and!; [done|by intros ? ?; simplify_eq|exact id])).
  cbn [phase_step] in Hp. destruct (build_groups getenv c); [|discriminate Hp]. injection Hp as <- <-.
  split_and!; [done..|exact id].
Qed.

(** ** Preservation *)

(** The engine may change as long as the invariant does not see it, and runs as
    long as their phase, configuration and channel stay. *)
Definition same_run (r r' : run) : Prop :=
  r_phase r' = r_phase r /\ r_cfg r' = r_cfg r /\ r_closed r' = r_closed r.

Lemma lifecycle_same s s' : lifecycle s -> panicked s' = panicked s -> view (eng s') = view (eng s) ->
  length (runs s') = length (runs s) ->
  (forall i r', runs s' !! i = Some r' -> exists r, runs s !! i = Some r /\ same_run r r') ->
  lifecycle s'.
Proof.
  intros [Hp Hi Hr] Hp' Hv Hl Hs. unfold view in Hv. pose proof Hv as Hv'. injection Hv as E1 E2 E3 E4 E5 E6.
  split; [congruence| |].
  - intros Hn. rewrite E1, E2, E3. apply Hi. destruct (runs s); [done|]. by rewrite Hn in Hl.
  - intros i r' Hi'. destruct (Hs i r' Hi') as (r & Hir & F1 & F2 & F3). destruct (Hr i r Hir).
    split; rewrite ?F1, ?F2, ?F3, ?Hl, ?E4, ?E5, ?E6; try done.
    intros Hlast. destruct (ri_last0 Hlast) as (H1 & H2). split; [|done]. by apply (phase_ok_view _ (eng s)).
Qed.

Lemma upd_run_same i f s : (forall r, same_run r (f r)) ->
  forall j r', runs (upd_run i f s) !! j = Some r' -> exists r, runs s !! j = Some r /\ same_run r r'.
Proof.
  intros Hf j r' Hj. destruct (runs s !! j) as [r|] eqn:E.
  - exists r. split; [done|]. rewrite (upd_run_lookup i j f s r E) in Hj. injection Hj as <-.
    case_decide; [apply Hf|done].
  - apply lookup_lt_Some in Hj. rewrite upd_run_length in Hj. apply lookup_ge_None in E. lia.
Qed.

Lemma lifecycle_upd s s' i r r' : lifecycle s -> runs s !! i = Some r ->
  runs s' = <[ i := r' ]> (runs s) -> panicked s' = false ->
  run_inv s' i r' -> (forall j rj, j <> i -> runs s !! j = Some rj -> run_inv s' j rj) -> lifecycle s'.
Proof.
  intros [Hp Hn Hr] Hi Hs Hp' Hinv Hold. split; [done| |].
  - intros E. rewrite Hs in E. apply (f_equal length) in E. rewrite length_insert in E.
    apply lookup_lt_Some in Hi. simpl in E. lia.
  - intros j rj Hj. rewrite Hs in Hj. destruct (decide (j = i)) as [->|Hne].
    + rewrite list_lookup_insert_eq in Hj by (by apply lookup_lt_Some in Hi). by injection Hj as <-.
    + rewrite list_lookup_insert_ne in Hj by done. auto.
Qed.

Lemma alter_insert i (f : run -> run) (l : list run) r : l !! i = Some r -> alter f i l = <[ i := f r ]> l.
Proof. intros Hi. apply list_eq. intros j. destruct (decide (i = j)) as [->|].
  - rewrite list_lookup_alter_eq, Hi, list_lookup_insert_eq; [done|by apply lookup_lt_Some in Hi].
  - by rewrite list_lookup_alter_ne, list_lookup_insert_ne.
Qed.

Lemma run_step_lifecycle a i s s' : lifecycle s -> run_step getenv a i s = Some s' -> lifecycle s'.
Proof.
  intros Hlc Hs. pose proof Hlc as [Hp Hn Hr].
  apply run_step_inv in Hs as (r & Hi & _ & [(d & Hph & ->)|(e & p & Hst & ->)]);
    destruct (Hr i r Hi) as [Hlast Hold Hclose Hclosed].
  - rewrite (Hclose d Hph) in *.
    assert (Hc : r_closed r = false) by (destruct (r_closed r); [|done]; rewrite Hph in Hclosed; by destruct Hclosed as [X _]; specialize (X eq_refl)).
    set (s1 := upd_run i (fun r => r <| r_phase := Ended |>) (s <| clock := a_now a |>)).
    assert (H1 : runs s1 = <[ i := r <| r_phase := Ended |> ]> (runs s)) by (by apply (alter_insert i _ _ r)).
    assert (Hi1 : runs s1 !! i = Some (r <| r_phase := Ended |>))
      by (rewrite H1; apply list_lookup_insert_eq; by apply lookup_lt_Some in Hi).
    unfold close_done. rewrite Hi1. change (r_closed (r <| r_phase := Ended |>)) with (r_closed r). rewrite Hc.
    set (r2 := r <| r_phase := Ended |> <| r_closed := true |>).
    assert (H2 : runs (upd_run i (fun r => r <| r_closed := true |>) s1) = <[ i := r2 ]> (runs s)).
    { etrans; [exact (alter_insert i _ (runs s1) _ Hi1)|]. rewrite H1, list_insert_insert_eq. done. }
    eapply (lifecycle_upd s _ i r r2); [done|done|exact H2|exact Hp| |].
    + assert (Hlen : length (runs (upd_run i (fun r => r <| r_closed := true |>) s1)) = length (runs s))
        by (by rewrite H2, length_insert).
      split; rewrite ?Hlen; try done. intros Hl. destruct (Hlast Hl) as (H3 & H4). rewrite Hph in H3. by split.
    + intros j rj Hne Hj. destruct (Hr j rj Hj) as [L1 L2 L3 L4].
      split; try done; rewrite ?H2, ?length_insert; done.
  - destruct (phase_step_target _ _ _ _ _ _ _ Hst) as (Hne & Hcl & Hno).
    assert (Hl : S i = length (runs s)).
    { apply lookup_lt_Some in Hi as Hlt. destruct (decide (S i = length (runs s))); [done|].
      exfalso. apply Hno, Hold. lia. }
    destruct (Hlast Hl) as (Hok & Hcfg & Hdone & Hcancel).
    destruct (phase_step_frame _ _ _ _ _ _ _ Hst) as (F1 & F2 & F3).
    pose proof (phase_step_ok _ _ _ _ _ _ _ Hst Hok) as Hok'.
    set (f := enter (a_now a) (r_phase r) p).
    assert (Hf : r_phase (f r) = p /\ r_cfg (f r) = r_cfg r /\ r_closed (f r) = r_closed r)
      by (unfold f, enter; by destruct (r_phase r)).
    destruct Hf as (G1 & G2 & G3).
    eapply (lifecycle_upd s _ i r (f r)); [done|done|exact (alter_insert i f _ r Hi)|exact Hp| |].
    + assert (Hlen : length (runs (upd_run i f (s <| clock := a_now a |> <| eng := e |>))) = length (runs s))
        by (etrans; [apply upd_run_length|done]).
      split; rewrite ?Hlen, ?G1, ?G2, ?G3; [|lia| |].
      * intros _. change (eng (upd_run i f (s <| clock := a_now a |> <| eng := e |>))) with e.
        rewrite F1, F2, F3. by split_and!.
      * intros d Hd. rewrite (Hcl d Hd). done.
      * rewrite Hclosed. split; intros E; [exfalso; rewrite E in Hst; discriminate Hst|done].
    + intros j rj Hjne Hj. destruct (Hr j rj Hj) as [L1 L2 L3 L4].
      assert (Hlen : length (runs (upd_run i f (s <| clock := a_now a |> <| eng := e |>))) = length (runs s))
        by (etrans; [apply upd_run_length|done]).
      split; rewrite ?Hlen; try done. intros ?. lia.
Qed.

(** A state that accepts a start: every run is over, or one failed and its
    deferred function is still to come. *)
Lemma can_start_over s i r : lifecycle s -> can_start (state (eng s)) = true ->
  runs s !! i = Some r -> over (r_phase r) \/ (r_phase r = Finish /\ state (eng s) = StateError).
Proof.
  intros [_ _ Hr] Hc Hi. destruct (Hr i r Hi) as [Hlast Hold _ _].
  apply lookup_lt_Some in Hi. destruct (decide (S i = length (runs s))) as [Hl|]; [|left; apply Hold; lia].
  destruct (Hlast Hl) as [[Hst _] _]. revert Hst.
  destruct (r_phase r); cbn [state_in over]; intros Hst; try (by left); try (rewrite Hst in Hc; discriminate Hc).
  right. split; [done|]. destruct Hst as [E|[E|E]]; [rewrite E in Hc; discriminate Hc..|done].
Qed.

Lemma start_lifecycle now random c s s' err : lifecycle s -> StartRunFromConfig now random c s = (s', err) ->
  (err = None -> settled s) -> lifecycle s'.
Proof.
  intros Hlc Hs Hset. unfold StartRunFromConfig in Hs.
  destruct (can_start (state (eng s))) eqn:Hc; cbn [negb] in Hs; injection Hs as <- <-; [|done].
  specialize (Hset eq_refl). pose proof Hlc as [Hp Hn Hr]. split; [done| |].
  - intros E. cbn [runs] in E. by destruct (runs s).
  - intros i r Hi. cbn [runs] in *. apply lookup_app_Some in Hi as [Hi|[Hge Hi]].
    + pose proof (lookup_lt_Some _ _ _ Hi). destruct (Hr i r Hi) as [L1 L2 L3 L4].
      split; cbn [runs]; rewrite ?length_app; cbn [length]; try done; intros Hl; [lia|].
      destruct (can_start_over s i r Hlc Hc Hi) as [?|[Hf _]]; [done|]. by destruct (Hset i r Hi).
    + destruct (i - length (runs s))%nat as [|k] eqn:Ek; [|by destruct k]. injection Hi as <-.
      replace i with (length (runs s)) by lia.
      split; cbn [runs]; rewrite ?length_app; cbn [length]; try done; try lia; intros _; by split_and!.
Qed.

Lemma sys_step_lifecycle l s s' : lifecycle s -> sys_step getenv s l s' ->
  (l = LStart true -> settled s) -> lifecycle s'.
Proof.
  intros Hlc Hs Hset. destruct Hs as [a i s' Hs|t a i s' Ht|e' Hw|now random c s' err Hs|s' err Hs|now Hn|n s' Hs|t i s' Hs].
  - by eapply run_step_lifecycle.
  - apply tick_step_inv in Ht as (r & e & r2 & Hi & _ & _ & Hk & ->).
    assert (Hr : same_run r r2 /\ view e = view (eng s)).
    { pose proof (task_step_run t a r (eng s)) as (H1 & _ & H3 & H4 & _).
      pose proof (view_task t a r (eng s)) as Hv. rewrite Hk in *. by split_and!. }
    destruct Hr as [Hr Hv]. eapply lifecycle_same; [exact Hlc|done|exact Hv| |].
    { etrans; [apply upd_run_length|done]. }
    intros j r' Hj. destruct (runs s !! j) as [rj|] eqn:Ej.
    + exists rj. split; [done|].
      rewrite (upd_run_lookup i j (fun _ => r2) (s <| clock := a_now a |> <| eng := e |>) rj Ej) in Hj.
      injection Hj as <-. case_decide; [|done]. subst. rewrite Ej in Hi. by injection Hi as ->.
    + apply lookup_lt_Some in Hj. rewrite upd_run_length in Hj. apply lookup_ge_None in Ej.
      exfalso. cbn in Hj. change (runs (s <| clock := a_now a |> <| eng := e |>)) with (runs s) in Hj. lia.
  - destruct Hw. eapply lifecycle_same; [exact Hlc|done|apply view_with_groups|done|].
    intros j r' Hj. by exists r'.
  - eapply start_lifecycle; [done|exact Hs|]. intros ->. by apply Hset.
  - unfold StopRun in Hs. destruct (_ && _); injection Hs as <- <-; [done|].
    unfold cancel. destruct (runCancel (eng s)) as [i|]; [|done].
    eapply lifecycle_same; [exact Hlc|done|done|apply upd_run_length|]. by apply upd_run_same.
  - eapply lifecycle_same; [exact Hlc|done..|]. intros j r' Hj. by exists r'.
  - apply return_step_inv in Hs as (t & _ & _ & ->). eapply lifecycle_same; [exact Hlc|done|done|done|].
    intros j r' Hj. by exists r'.
  - apply leave_step_inv in Hs as (r & _ & _ & _ & ->).
    eapply lifecycle_same; [exact Hlc|done|done|apply upd_run_length|]. by apply upd_run_same.
Qed.

Lemma init_lifecycle now : lifecycle (init_system now).
Proof. split; [done|done|]. intros i r Hi. discriminate Hi. Qed.

Lemma serial_lifecycle s tr s' : serial s tr s' -> lifecycle s -> lifecycle s'.
Proof. induction 1; eauto using sys_step_lifecycle. Qed.

(** C6: the lifecycle of a run.  In every state reachable from a new engine, as
    long as no start was accepted while a failed run was in its deferred
    function: no channel is closed twice; a new engine is idle; the state names
    what the last run is doing (starting until it announces itself, running
    while it waits, stopping from the freeze of the window to the verdict,
    stopped or error once its deferred function has run); every earlier run is
    over, so at most one run is ever active; a run's done channel is closed
    exactly when it has returned; and the engine holds snapshots and a verdict
    only after a run that was measured to its end, never from an earlier one. *)
Theorem lifecycle_invariant now tr s : serial (init_system now) tr s -> lifecycle s.
Proof. intros Hs. eapply serial_lifecycle; [exact Hs|]. apply init_lifecycle. Qed.

(** ** Running a script

    [DoRun] is a step of run [i], or when it blocks the return of the first
    goroutine that can return. *)

Definition first_return (i : nat) (s : System) : option System :=
  let threads := map (fun n => return_step n s) (List.seq 0 (length (threads (eng s)))) in
  let tasks := match runs s !! i with Some r => map (fun t => leave_step t i s) (r_tasks r) | None => [] end in
  foldr (fun o rest => match o with Some s => Some s | None => rest end) None (tasks ++ threads).

Inductive action :=
  | DoRun (a : answer) (i : nat)
  | DoStart (now : Z) (random : list Z) (c : Config)
  | DoStop.

Definition act (x : action) (s : System) : option (label * System) :=
  if panicked s then None else
  match x with
  | DoRun a i =>
      match run_step getenv a i s with
      | Some s' => Some (LRun i, s')
      | None => s' ← first_return i s; Some (LReturn, s')
      end
  | DoStart now random c =>
      let '(s', err) := StartRunFromConfig now random c s in
      Some (LStart (match err with None => true | Some _ => false end), s')
  | DoStop => Some (LStop, (StopRun s).1)
  end.

Fixpoint play (xs : list action) (s : System) : option System :=
  match xs with
  | [] => Some s
  | x :: xs => match act x s with Some (_, s') => play xs s' | None => None end
  end.

Lemma first_return_step i s s' : first_return i s = Some s' -> sys_step getenv s LReturn s'.
Proof.
  unfold first_return. set (tasks := match runs s !! i with Some r => _ | None => [] end).
  assert (Ht : forall o, o ∈ tasks -> forall s', o = Some s' -> sys_step getenv s LReturn s').
  { unfold tasks. destruct (runs s !! i) as [r|]; [|by intros o ?%elem_of_nil].
    intros o (t & -> & _)%list_elem_of_fmap s1 E. by eapply step_leave. }
  assert (Hn : forall o, o ∈ map (fun n => return_step n s) (List.seq 0 (length (threads (eng s)))) ->
    forall s', o = Some s' -> sys_step getenv s LReturn s').
  { intros o (n & -> & _)%list_elem_of_fmap s1 E. by eapply step_return. }
  assert (Hall : forall o, o ∈ tasks ++ map (fun n => return_step n s) (List.seq 0 (length (threads (eng s)))) ->
    forall s', o = Some s' -> sys_step getenv s LReturn s').
  { intros o [Ho|Ho]%elem_of_app; [by apply Ht|by apply Hn]. }
  revert Hall. generalize (tasks ++ map (fun n => return_step n s) (List.seq 0 (length (threads (eng s))))).
  intros l. induction l as [|[s1|] l IH]; intros Hall; cbn [foldr]; [done| |].
  - intros [= <-]. by apply (Hall (Some s1)); [left|].
  - apply IH. intros o Ho. apply Hall. by right.
Qed.

Lemma act_step x s l s' : act x s = Some (l, s') -> panicked s = false /\ sys_step getenv s l s'.
Proof.
  unfold act. destruct (panicked s); [done|]. intros Hx. split; [done|]. destruct x as [a i|now random c|].
  - destruct (run_step getenv a i s) eqn:E; [injection Hx as <- <-; by eapply step_run|].
    destruct (first_return i s) eqn:F; [|done]. injection Hx as <- <-. by eapply first_return_step.
  - destruct (StartRunFromConfig now random c s) as [s1 err] eqn:E. injection Hx as <- <-. by econstructor.
  - injection Hx as <- <-. destruct (StopRun s) as [s1 err] eqn:E. by econstructor.
Qed.

Lemma steps_trans s1 tr1 s2 tr2 s3 : steps getenv s1 tr1 s2 -> steps getenv s2 tr2 s3 ->
  steps getenv s1 (tr1 ++ tr2) s3.
Proof. intros H1 H2. induction H2; [by rewrite app_nil_r|]. rewrite app_assoc. econstructor; eauto. Qed.

Lemma play_steps xs : forall s s', play xs s = Some s' -> exists tr, steps getenv s tr s'.
Proof.
  induction xs as [|x xs IH]; intros s s' Hs; cbn [play] in Hs.
  - injection Hs as <-. exists []. constructor.
  - destruct (act x s) as [[l s1]|] eqn:E; [|done]. destruct (act_step _ _ _ _ E) as [Hp Hl].
    destruct (IH _ _ Hs) as [tr Htr]. exists ([l] ++ tr). eapply steps_trans; [|exact Htr].
    apply (steps_snoc getenv s [] s); [constructor|done|done].
Qed.

(** Whether the starts of a script come in settled states. *)
Definition settledb (s : System) : bool :=
  forallb (fun r => match r_phase r with Finish => false | _ => true end) (runs s).

Fixpoint play_serial (xs : list action) (s : System) : option System :=
  match xs with
  | [] => Some s
  | x :: xs =>
      match act x s with
      | Some (l, s') =>
          match l with
          | LStart true => if settledb s then play_serial xs s' else None
          | _ => play_serial xs s'
          end
      | None => None
      end
  end.

Lemma settledb_settled s : settledb s = true -> settled s.
Proof.
  unfold settledb, settled, runs_ok. rewrite forallb_forall. intros Hf i r Hi E.
  specialize (Hf r). rewrite <- list_elem_of_In, E in Hf. 
  discriminate Hf. by eapply list_elem_of_lookup_2.
Qed.

Lemma serial_trans s1 tr1 s2 tr2 s3 : serial s1 tr1 s2 -> serial s2 tr2 s3 -> serial s1 (tr1 ++ tr2) s3.
Proof. intros H1 H2. induction H2; [by rewrite app_nil_r|]. rewrite app_assoc. econstructor; eauto. Qed.

Lemma play_serial_serial xs : forall s s', play_serial xs s = Some s' -> exists tr, serial s tr s'.
Proof.
  induction xs as [|x xs IH]; intros s s' Hs; cbn [play_serial] in Hs.
  - injection Hs as <-. exists []. constructor.
  - destruct (act x s) as [[l s1]|] eqn:E; [|done]. destruct (act_step _ _ _ _ E) as [Hp Hl].
    assert (Hb : play_serial xs s1 = Some s' /\ (l = LStart true -> settled s)).
    { destruct l as [| | |[]| | |]; try done. destruct (settledb s) eqn:Es; [|done].
      split; [done|]. intros _. by apply settledb_settled. }
    destruct Hb as [Hx Hset]. destruct (IH _ _ Hx) as [tr Htr]. exists ([l] ++ tr).
    eapply serial_trans; [|exact Htr]. apply (serial_snoc s [] s); [constructor|done..].
Qed.

End Invariant.

(** ** Concrete runs *)

Section Demo.
#[local] Existing Instance list_histogram.

Definition no_env (v : string) : string := "".

(** Only produce_round_trip, for two seconds. *)
Definition demo_run_cfg : Config :=
  let c := foldl (fun c name => updWorkerConfig c name (fun wc => wc <| Config.Enabled := false |>))
             DefaultConfig (tl AllWorkerNames) in
  c <| DurationParsed := 2 * Time.Second |>.

Definition demo_answer (ok : bool) (t : Z) : answer :=
  mk_answer t
    (fun _ => mk_start_env no_env (fun _ => if ok then Ok tt else Err [Lit "no broker"]) (fun _ _ _ => None))
    (fun _ => true) false 0 AllWorkerNames.

(** [n] times a step of run [i] or a return it waits for, five seconds apart, from
    time [t]. *)
Definition demo_steps (ok : bool) (i n : nat) (t : Z) : list action :=
  map (fun k => DoRun (demo_answer ok (t + Z.of_nat k * (5 * Time.Second))) i) (List.seq 1 n).

Definition demo_run (n : nat) : list action := DoStart 1 [171] demo_run_cfg :: demo_steps true 0 n 1.

Definition summary (s : System) : string * list phase * option string :=
  (state (eng s), map r_phase (runs s), option_map Verdict.Result (verdictResult (eng s))).

Lemma lifecycle_invariant_witness : exists tr s, serial no_env (init_system 1) tr s /\
  summary s = (StateStopped, [Ended], Some "PASSED") /\ lifecycle s.
Proof.
  assert (E : match play_serial no_env (demo_run 82) (init_system 1) with
              | Some s => summary s = (StateStopped, [Ended], Some "PASSED") | None => False end)
    by (vm_compute; reflexivity).
  destruct (play_serial no_env (demo_run 82) (init_system 1)) as [s|] eqn:Ep; [|destruct E].
  destruct (play_serial_serial no_env _ _ _ Ep) as [tr Htr].
  exists tr, s. split; [exact Htr|]. split; [exact E|].
  exact (lifecycle_invariant no_env 1 tr s Htr).
Defined.

(** A start request that arrives between a run's setError and its deferred
    function is accepted; the deferred function then marks the new run stopped
    and closes its done channel, and the new run's own close panics. *)
Definition race : list action :=
  [DoStart 1 [171] demo_run_cfg] ++ demo_steps false 0 2 1
  ++ [DoStart 2 [172] demo_run_cfg] ++ demo_steps false 0 1 (20 * Time.Second).

Example restart_race :
  (match play no_env race (init_system 1) with
   | Some s => summary s = (StateStopped, [Close (Some 1%nat); Build], None)
   | None => False
   end) /\
  (match play no_env (race ++ demo_steps false 0 1 (40 * Time.Second)
                      ++ demo_steps false 1 4 (60 * Time.Second)) (init_system 1) with
   | Some s => panicked s = true
   | None => False
   end).
Proof. split; vm_compute; reflexivity. Qed.

End Demo.
