(* ===== verification/Window.v ===== *)
(** * The measurement window

    The times between which a run is measured, in every reachable state in which
    no run was started while a failed one was still in its deferred function: the
    producers' start is not after their stop, and unless the run was cancelled the
    window is no shorter than the configured duration. *)

From S2P Require Import Prelude Float64 GoStr Config Metrics Verdict Tracker Worker Loops WorkerGroup Snapshot Engine EngineFacts Lifecycle.
Local Open Scope Z_scope.
Local Open Scope list_scope.

Section Window.
Context `{HdrHistogram} (getenv : string -> string).

(** producersStartedAt and producersStoppedAt. *)
Definition times (e : Engine) : Z * Z := (producersStartedAt e, producersStoppedAt e).

(** At [t] a run of [c] that started its producers at [startedAt] may stop them. *)
Definition lasted (c : Config) (cancelled : bool) (startedAt t : Z) : Prop :=
  startedAt <= t /\ (cancelled = false -> 0 < DurationParsed c -> DurationParsed c <= t - startedAt).

Definition window_in (c : Config) (cancelled : bool) (p : phase) (now : Z) (window : Z * Z) : Prop :=
  let '(startedAt, stoppedAt) := window in
  match p with
  | StartingProducers _ | Announce => startedAt <= now
  | Running until =>
      startedAt <= now /\
      match until with Some t => DurationParsed c <= t - startedAt | None => DurationParsed c <= 0 end
  | Stopping | Freeze => lasted c cancelled startedAt now
  | StoppingProducers _ | DrainBegin | Draining _ | Polling _ _ | FinalGaps | Capture
  | StoppingConsumers _ | FinalPeak | Judge => lasted c cancelled startedAt stoppedAt
  | _ => True
  end.

Definition window_ok (s : System) : Prop := forall i r, runs s !! i = Some r -> S i = length (runs s) ->
  window_in (r_cfg r) (r_cancelled r) (r_phase r) (clock s) (times (eng s)).

Lemma lasted_mono c b b' st t t' : t <= t' -> (b = true -> b' = true) -> lasted c b st t -> lasted c b' st t'.
Proof.
  intros Ht Hb [H1 H2]. split; [lia|]. intros -> Hd.
  assert (b = false) as -> by (destruct b; [by specialize (Hb eq_refl)|done]). specialize (H2 eq_refl Hd). lia.
Qed.

Lemma window_mono c b b' p now now' w : now <= now' -> (b = true -> b' = true) ->
  window_in c b p now w -> window_in c b' p now' w.
Proof.
  intros Hn Hb. destruct w as [st sp]. destruct p; cbn [window_in]; try done; try lia;
    first [apply lasted_mono; done || lia | intros [? ?]; split; [lia|done]].
Qed.

Lemma times_stop sd item e e' items : stop_step sd item e = Some (e', items) -> times e' = times e.
Proof.
  assert (Ho : forall f name k, times (operate f name k e).1 = times e).
  { intros f name k. unfold operate. destruct (worker_at name k e); [|done]. destruct (f _).
    unfold visit. by destruct (groups_of e !! name). }
  destruct item; cbn [stop_step]; try (destruct (decide _); [|done]); intros [= E];
    try (by rewrite <- E); apply (f_equal fst) in E; cbn [fst] in E; rewrite <- E; try done; apply Ho.
Qed.

(** Only CheckWarm and Freeze set them. *)
Lemma phase_step_times a c x p e e' p' : phase_step getenv a c x p e = Some (e', p') ->
  times e' = match p with
             | CheckWarm => if cx_cancelled x then times e else (a_now a, producersStoppedAt e)
             | Freeze => (producersStartedAt e, a_now a)
             | _ => times e
             end.
Proof.
  intros Hp. destruct p; try discriminate Hp;
    try (phase_inv Hp; first [done | by eapply times_stop
      | match goal with E : cx_cancelled _ = _ |- _ => by rewrite E end]).
  cbn [phase_step] in Hp. destruct (build_groups getenv c); [|discriminate Hp]. by injection Hp as <- <-.
Qed.

Lemma phase_step_window a c x p e e' p' now : now <= a_now a -> phase_step getenv a c x p e = Some (e', p') ->
  window_in c (cx_cancelled x) p now (times e) -> window_in c (cx_cancelled x) p' (a_now a) (times e').
Proof.
  intros Hn Hp Hw. rewrite (phase_step_times _ _ _ _ _ _ _ Hp). apply (window_mono _ _ _ _ _ _ _ Hn id) in Hw.
  unfold times in *. destruct p; try discriminate Hp;
    try (phase_inv Hp; cbn [window_in] in *; zify_bool; try match goal with E : cx_cancelled _ = _ |- _ => rewrite E in * end;
      unfold lasted in *; try done; lia).
  all: cbn [phase_step] in Hp.
  - destruct (build_groups getenv c); [|discriminate Hp]. by injection Hp as <- <-.
  - destruct (cx_cancelled x || _) eqn:E; [|discriminate Hp]. injection Hp as <- <-. cbn [window_in] in *.
    destruct Hw as [H1 H2]. split; [done|]. intros Hc Hd. rewrite Hc in E. destruct until; zify_bool; [lia|done].
Qed.

Lemma task_times t a r e : times (task_step t a r e).1 = times e.
Proof. destruct t; cbn [task_step]; try done. destruct (memory_tick _ _ _ _ _). done. Qed.

(** A step that changes neither the times nor a phase. *)
Lemma window_same s s' : window_ok s -> times (eng s') = times (eng s) -> clock s <= clock s' ->
  length (runs s') = length (runs s) ->
  (forall i r', runs s' !! i = Some r' -> exists r, runs s !! i = Some r /\ r_cfg r' = r_cfg r /\
     r_phase r' = r_phase r /\ (r_cancelled r = true -> r_cancelled r' = true)) ->
  window_ok s'.
Proof.
  intros Hw Ht Hc Hl Hr i r' Hi Hlast. destruct (Hr i r' Hi) as (r & Hir & -> & -> & Hb).
  rewrite Ht. eapply window_mono; [exact Hc|exact Hb|]. apply (Hw i r Hir). by rewrite <- Hl.
Qed.

Lemma sys_step_window l s s' : lifecycle s -> window_ok s -> sys_step getenv s l s' -> window_ok s'.
Proof.
  intros Hlc Hw Hs.
  assert (Hkept : length (runs s') = length (runs s) -> forall i r', runs s' !! i = Some r' -> l <> LRun i ->
    exists r, runs s !! i = Some r /\ r_cfg r' = r_cfg r /\ r_phase r' = r_phase r /\
      (r_cancelled r = true -> r_cancelled r' = true)).
  { intros Hl i r' Hi Hown. destruct (lookup_lt_is_Some_2 (runs s) i) as [r Hr].
    { rewrite <- Hl. by eapply lookup_lt_Some. }
    destruct (sys_step_kept getenv l s s' i r Hs Hr) as (r1 & Hr1 & [Hc Hb] & _ & Hst).
    rewrite Hi in Hr1. injection Hr1 as <-. exists r. destruct (Hst Hown) as (Hp & _). by split_and!. }
  destruct Hs as [a i s' Hs|t a i s' Hs|e' Hs|now random c s' err Hs|s' err Hs|now Hn|n s' Hs|t i s' Hs].
  - apply run_step_inv in Hs as (r & Hi & Hclk & [(d & Hph & ->)|(e & p & Hst & ->)]).
    + set (s1 := upd_run i (fun r => r <| r_phase := Ended |>) (s <| clock := a_now a |>)) in *.
      assert (Hl : length (runs (close_done d s1)) = length (runs s))
        by (rewrite close_done_length; etrans; [apply upd_run_length|done]).
      assert (He : times (eng (close_done d s1)) = times (eng s) /\ clock (close_done d s1) = a_now a)
        by (unfold close_done; destruct d; repeat case_match; done).
      destruct He as [He Hc]. intros j rj Hj Hjl. rewrite He, Hc. destruct (decide (i = j)) as [<-|Hne].
      * destruct (close_done_runs d s1 i (r <| r_phase := Ended |>)) as (r1 & Hr1 & _ & (Hp1 & _)).
        { etrans; [apply (upd_run_lookup i i _ (s <| clock := a_now a |>) r Hi)|]. by rewrite decide_True. }
        rewrite Hj in Hr1. injection Hr1 as <-. rewrite Hp1. by destruct (times (eng s)).
      * destruct (Hkept Hl j rj Hj ltac:(congruence)) as (r0 & Hr0 & -> & -> & Hb).
        eapply window_mono; [exact Hclk|exact Hb|]. apply (Hw j r0 Hr0). congruence.
    + set (s1 := upd_run i (enter (a_now a) (r_phase r) p) (s <| clock := a_now a |> <| eng := e |>)) in *.
      assert (Hl : length (runs s1) = length (runs s)) by (etrans; [apply upd_run_length|done]).
      destruct (phase_step_target _ _ _ _ _ _ _ _ Hst) as (_ & _ & Hno).
      assert (Hlast : S i = length (runs s)).
      { destruct (lc_runs _ Hlc i r Hi) as [_ Hold _ _]. apply lookup_lt_Some in Hi.
        destruct (decide (S i = length (runs s))); [done|]. exfalso. apply Hno, Hold. lia. }
      intros j rj Hj Hjl. assert (j = i) as -> by lia.
      assert (Hu : runs s1 !! i = Some (enter (a_now a) (r_phase r) p r))
        by (etrans; [apply (upd_run_lookup i i _ (s <| clock := a_now a |> <| eng := e |>) r Hi)|by rewrite decide_True]).
      rewrite Hu in Hj. injection Hj as <-.
      replace (r_cfg (enter _ _ _ r)) with (r_cfg r) by (unfold enter; by destruct (r_phase r)).
      replace (r_cancelled (enter _ _ _ r)) with (r_cancelled r) by (unfold enter; by destruct (r_phase r)).
      replace (r_phase (enter _ _ _ r)) with p by (unfold enter; by destruct (r_phase r)).
      exact (phase_step_window _ _ _ _ _ _ _ _ Hclk Hst (Hw i r Hi Hlast)).
  - apply tick_step_inv in Hs as (r & e & r2 & Hi & Hclk & _ & Hk & ->).
    pose proof (task_times t a r (eng s)) as Ht. rewrite Hk in Ht.
    eapply (window_same s); [exact Hw|exact Ht|exact Hclk|etrans; [apply upd_run_length|done]|].
    intros j rj Hj. apply Hkept; [etrans; [apply upd_run_length|done]|exact Hj|done].
  - eapply (window_same s); [exact Hw|by destruct Hs|done|done|]. intros j rj Hj. by apply Hkept.
  - unfold StartRunFromConfig in Hs. destruct (negb _); injection Hs as <- <-; [done|].
    intros j rj Hj Hl. cbn [runs] in Hj, Hl. rewrite length_app in Hl. cbn [length] in Hl.
    rewrite lookup_app_r in Hj by lia. replace (j - length (runs s))%nat with 0%nat in Hj by lia. by injection Hj as <-.
  - unfold StopRun in Hs. destruct (_ && _); injection Hs as <- <-; [done|].
    assert (Hl : length (runs (cancel (runCancel (eng s)) s)) = length (runs s))
      by (unfold cancel; destruct (runCancel _); [apply upd_run_length|done]).
    eapply (window_same s); [exact Hw|unfold cancel; by destruct (runCancel _)..|exact Hl|].
    intros j rj Hj. by apply Hkept.
  - eapply (window_same s); [exact Hw|done|exact Hn|done|]. intros j rj Hj. by apply Hkept.
  - apply return_step_inv in Hs as (t & _ & _ & ->).
    eapply (window_same s); [exact Hw|done|done|done|]. intros j rj Hj. by apply Hkept.
  - apply leave_step_inv in Hs as (r & Hi & _ & _ & ->).
    eapply (window_same s); [exact Hw|done|done|apply upd_run_length|].
    intros j rj Hj. by apply Hkept; [apply upd_run_length| |].
Qed.

Lemma serial_window now tr s : serial getenv (init_system now) tr s -> window_ok s.
Proof.
  intros Hs. remember (init_system now) as s0 eqn:E0. induction Hs as [s|s tr s1 l s2 Hs IH Hp Hl Hset]; subst.
  - intros i r Hi. discriminate Hi.
  - eapply sys_step_window; [|by apply IH|exact Hl]. eapply serial_lifecycle; [exact Hs|apply init_lifecycle].
Qed.

End Window.
