(* ===== verification/EngineTypes.v ===== *)
(** * The worker groups of a run

    The groups an engine holds are those its configuration asks for, through
    every step of every goroutine. *)

From S2P Require Import Prelude Float64 GoStr Config Metrics Transport Verdict Tracker Worker WorkerFacts Loops WorkerGroup WorkerGroupFacts Snapshot SnapshotFacts Engine EngineFacts EngineLift Lifecycle.
Local Open Scope string_scope.
Local Open Scope Z_scope.
Local Open Scope list_scope.

Section Types.
Context `{HdrHistogram} (getenv : string -> string).

Definition enabled_in (c : Config) (name : string) : Prop :=
  exists wc, GetWorkerConfig c name = Some wc /\ Config.Enabled wc = true.

(** The groups of configuration [c]: one per enabled worker type, each typed. *)
Definition groups_typed (c : Config) (gs : Groups) : Prop := forall name,
  match gs !! name with
  | Some g => name ∈ AllWorkerNames /\ enabled_in c name /\ group_typed getenv name c g
  | None => name ∈ AllWorkerNames -> ~ enabled_in c name
  end.

#[export] Instance same_worker_ops : EngineOps same_worker.
Proof.
  split; [apply _|apply same_worker_Start|apply same_worker_StopProducers|apply same_worker_settle
         |apply same_worker_StopConsumers|..];
    intros a; apply same_worker_upd; intros b; auto with go.
Qed.

Lemma groups_rel_typed c gs gs' : groups_rel same_worker gs gs' -> groups_typed c gs -> groups_typed c gs'.
Proof.
  intros Hr Ht name. specialize (Hr name). specialize (Ht name).
  destruct Hr as [g g' Hg|]; [|done]. destruct Ht as (H1 & H2 & H3). split_and!; [done..|].
  by eapply same_group_typed.
Qed.

(** Every step of runLoop but the first keeps the groups. *)
Lemma phase_step_rel a c x p e e' p' : p <> Build -> phase_step getenv a c x p e = Some (e', p') ->
  engine_rel same_worker e e'.
Proof.
  intros Hb Hp. assert (p = WarmupReset \/ p <> WarmupReset) as [->|Hw] by (destruct p; by auto);
    [|exact (phase_step_lift getenv same_worker _ _ _ _ _ _ _ Hb Hw Hp)].
  phase_inv Hp. apply (engine_rel_with _ _ e). intros gs. apply groups_rel_fmap. intros w.
  apply same_worker_upd, keeps_Reset.
Qed.

Lemma worker_step_rel e e' : worker_step e e' -> engine_rel same_worker e e'.
Proof.
  destruct 1 as [name g k w w' Hg Hk Ha]. eapply (engine_rel_update same_worker); [exact Hg|].
  eapply (group_rel_insert same_worker); [exact Hk|]. by apply same_worker_activity.
Qed.

(** ** Building *)

Lemma build_loop_typed c names acc gs : names ⊆ AllWorkerNames ->
  build_loop getenv c names acc = Some gs ->
  forall name, match gs !! name with
  | Some g => acc !! name = Some g \/ (name ∈ names /\ enabled_in c name /\ group_typed getenv name c g)
  | None => acc !! name = None /\ (name ∈ names -> ~ enabled_in c name)
  end.
Proof.
  revert acc. induction names as [|n names IH]; intros acc Hsub Hb name; cbn [build_loop] in Hb.
  { injection Hb as <-. destruct (acc !! name); [by left|]. split; [done|]. by intros ?%elem_of_nil. }
  assert (Hsub' : names ⊆ AllWorkerNames) by set_solver.
  assert (Hno : ~ enabled_in c n -> build_loop getenv c names acc = Some gs -> match gs !! name with
    | Some g => acc !! name = Some g \/ (name ∈ n :: names /\ enabled_in c name /\ group_typed getenv name c g)
    | None => acc !! name = None /\ (name ∈ n :: names -> ~ enabled_in c name) end).
  { intros Hn Hb'. specialize (IH acc Hsub' Hb' name). destruct (gs !! name); [set_solver|].
    destruct IH as [? IH]. split; [done|]. intros [->|?]%elem_of_cons; auto. }
  destruct (GetWorkerConfig c n) as [wc|] eqn:Ew.
  2: { apply Hno; [|done]. intros (wc & Hwc & _). congruence. }
  destruct (Config.Enabled wc) eqn:Een; cbn [negb] in Hb.
  2: { apply Hno; [|done]. intros (wc' & Hwc & ?). congruence. }
  destruct (NewWorkerGroup getenv n c) as [g|] eqn:Eg; [|discriminate Hb]. cbn [mbind option_bind] in Hb.
  specialize (IH _ Hsub' Hb name). destruct (decide (n = name)) as [->|Hne].
  - rewrite lookup_insert_eq in IH. destruct (gs !! name) as [g'|]; [|by destruct IH].
    right. destruct IH as [[= <-]|(H1 & H2 & H3)]; [|split_and!; [by right|done|done]].
    split_and!; [by left|by exists wc|]. apply NewWorkerGroup_typed; [|done]. set_solver.
  - rewrite lookup_insert_ne in IH by done. destruct (gs !! name); [set_solver|].
    destruct IH as [? IH]. split; [done|]. intros [->|?]%elem_of_cons; [done|auto].
Qed.

Lemma build_groups_typed c gs : build_groups getenv c = Some gs -> groups_typed c gs.
Proof.
  intros Hb name. pose proof (build_loop_typed c AllWorkerNames ∅ gs ltac:(done) Hb name) as Ht.
  rewrite lookup_empty in Ht. destruct (gs !! name); [by destruct Ht|by destruct Ht].
Qed.

(** ** The invariant *)

(** The engine's groups were built for the configuration of one of its runs. *)
Definition engine_typed (s : System) : Prop := forall gs, workerGroups (eng s) = Some gs ->
  exists i r, runs s !! i = Some r /\ groups_typed (r_cfg r) gs.

Lemma engine_typed_rel s s' : engine_typed s -> engine_rel same_worker (eng s) (eng s') ->
  (forall i r, runs s !! i = Some r -> exists r', runs s' !! i = Some r' /\ r_cfg r' = r_cfg r) ->
  engine_typed s'.
Proof.
  intros Ht Hr Hk gs' Hgs'. unfold engine_rel in Hr. rewrite Hgs' in Hr.
  inversion Hr as [gs gs1 Hg E|]; subst. destruct (Ht gs (eq_sym E)) as (i & r & Hi & Hty).
  destruct (Hk i r Hi) as (r' & Hi' & Hc). exists i, r'. split; [done|]. rewrite Hc. by eapply groups_rel_typed.
Qed.

Lemma sys_step_typed l s s' : sys_step getenv s l s' -> engine_typed s -> engine_typed s'.
Proof.
  intros Hs Ht.
  assert (Hk : forall i r, runs s !! i = Some r -> exists r', runs s' !! i = Some r' /\ r_cfg r' = r_cfg r).
  { intros i r Hi. destruct (sys_step_kept getenv l s s' i r Hs Hi) as (r' & Hr' & [Hc _] & _). eauto. }
  destruct Hs as [a i s' Hs|t a i s' Hs|e' Hw|now random c s' err Hs|s' err Hs|now Hn|n s' Hs|t i s' Hs].
  - apply run_step_inv in Hs as (r & Hi & _ & [(d & Hph & ->)|(e & p & Hst & ->)]).
    + eapply engine_typed_rel; [exact Ht| |exact Hk]. unfold close_done.
      destruct d as [k|]; repeat case_match; by apply (engine_rel_refl same_worker).
    + assert (r_phase r = Build \/ r_phase r <> Build) as [Hb|Hb] by (destruct (r_phase r); by auto).
      * rewrite Hb in Hst. cbn [phase_step] in Hst.
        destruct (build_groups getenv (r_cfg r)) as [gs|] eqn:Eg; [|discriminate Hst].
        cbn [mbind option_bind] in Hst. injection Hst as <- <-. intros gs' Hgs'. injection Hgs' as <-.
        destruct (Hk i r Hi) as (r' & Hr' & Hc). exists i, r'. split; [exact Hr'|]. rewrite Hc.
        by apply build_groups_typed.
      * eapply engine_typed_rel; [exact Ht| |exact Hk]. by eapply phase_step_rel.
  - apply tick_step_inv in Hs as (r & e & r2 & _ & _ & _ & Ek & ->).
    pose proof (task_step_lift same_worker t a r (eng s)) as Hrel. rewrite Ek in Hrel.
    eapply engine_typed_rel; [exact Ht|exact Hrel|exact Hk].
  - eapply engine_typed_rel; [exact Ht|by apply worker_step_rel|exact Hk].
  - unfold StartRunFromConfig in Hs. destruct (negb _); injection Hs as <- <-; [done|].
    eapply engine_typed_rel; [exact Ht|by apply (engine_rel_refl same_worker)|exact Hk].
  - unfold StopRun in Hs. destruct (_ && _); injection Hs as <- <-; [done|].
    eapply engine_typed_rel; [exact Ht| |exact Hk]. unfold cancel.
    destruct (runCancel (eng s)); by apply (engine_rel_refl same_worker).
  - eapply engine_typed_rel; [exact Ht|by apply (engine_rel_refl same_worker)|exact Hk].
  - apply return_step_inv in Hs as (t & _ & _ & ->).
    eapply engine_typed_rel; [exact Ht|by apply (engine_rel_refl same_worker)|exact Hk].
  - apply leave_step_inv in Hs as (r & _ & _ & _ & ->).
    eapply engine_typed_rel; [exact Ht|by apply (engine_rel_refl same_worker)|exact Hk].
Qed.

Lemma steps_typed s tr s' : steps getenv s tr s' -> engine_typed s -> engine_typed s'.
Proof. induction 1; eauto using sys_step_typed. Qed.

End Types.

(** C40: worker groups keep their type.  In every reachable state, whatever the
    API calls, the interleaving and the traffic, the engine's groups are those of
    the configuration of one of its runs: a group exactly for every enabled
    worker type, holding exactly one worker of that type per configured channel,
    numbered from 1, each with the topic's channel name, the run's configuration
    and its own worker block, and with every counter a 64-bit unsigned value. *)
Theorem groups_keep_type `{HdrHistogram} getenv now tr s gs :
  steps getenv (init_system now) tr s -> workerGroups (eng s) = Some gs ->
  exists i r, runs s !! i = Some r /\ groups_typed getenv (r_cfg r) gs.
Proof.
  intros Hs. apply (steps_typed getenv _ _ _ Hs). intros gs' Hgs. discriminate Hgs.
Qed.

#[local] Existing Instance list_histogram.

Lemma groups_keep_type_witness : exists tr s gs g,
  steps no_env (init_system 1) tr s /\ workerGroups (eng s) = Some gs /\
  gs !! WorkerProduceRoundTrip = Some g /\ map (fun w => channelIndex (base w)) (g_workers g) = [1] /\
  exists i r, runs s !! i = Some r /\ groups_typed no_env (r_cfg r) gs.
Proof.
  assert (E2 : match play no_env (demo_run 20) (init_system 1) with
    | Some s => match workerGroups (eng s) with
                | Some gs => match gs !! WorkerProduceRoundTrip with
                             | Some g => map (fun w => channelIndex (base w)) (g_workers g) = [1]
                             | None => False end
                | None => False end
    | None => False end) by (vm_compute; reflexivity).
  destruct (play no_env (demo_run 20) (init_system 1)) as [s|] eqn:Ep; [|destruct E2].
  destruct (play_steps no_env _ _ _ Ep) as [tr Hs].
  destruct (workerGroups (eng s)) as [gs|] eqn:Eg; [|destruct E2].
  destruct (gs !! WorkerProduceRoundTrip) as [g|] eqn:Egg; [|destruct E2].
  exists tr, s, gs, g. split; [exact Hs|]. split; [exact Eg|]. split; [exact Egg|]. split; [exact E2|].
  exact (groups_keep_type no_env 1 tr s gs Hs Eg).
Defined.
