(* ===== verification/Main.v ===== *)
(** * The process (burnin/main.go)

    The checks main makes before anything runs, and its main goroutine beside
    the system of Engine.v: waiting for a signal or for the run, the graceful
    shutdown (GracefulShutdown and HasWarnings of engine.go), the exit code. *)

From S2P Require Import Prelude Float64 GoStr Config Metrics Transport Verdict VerdictFacts Tracker Worker WorkerFacts Loops WorkerGroup WorkerGroupFacts Snapshot SnapshotFacts Engine EngineFacts Lifecycle EngineTypes.
Local Open Scope string_scope.
Local Open Scope Z_scope.
Local Open Scope list_scope.

(** ** Before the run *)

(** strings.ToLower on ASCII letters. *)
Definition lower (c : Ascii.ascii) : Ascii.ascii :=
  if (65 <=? ord c) && (ord c <=? 90) then chr (ord c + 32) else c.
Definition ToLower (s : string) : string :=
  String.string_of_list_ascii (map lower (String.list_ascii_of_string s)).

Inductive log_level := LevelDebug | LevelInfo | LevelWarn | LevelError.

Definition parseLogLevel (s : string) : log_level :=
  let s := ToLower s in
  if String.eqb s "debug" then LevelDebug
  else if String.eqb s "warn" || String.eqb s "warning" then LevelWarn
  else if String.eqb s "error" then LevelError
  else LevelInfo.

(** What main does with what config.Load returned: exit at once with a code, or
    go on with the configuration whose bootstrap address is resolved. *)
Definition prepare (getenv : string -> string) (labels : list string) (validateConfig : bool)
    (loaded : result Config) : Z + Config :=
  match loaded with
  | Err _ => inl 1
  | Ok c =>
      let c := c <| Broker ::= set_field Address (BootstrapAddress getenv) |> in
      let hasErrors := negb (forallb is_warning (Validate labels c)) in
      if validateConfig then inl (if hasErrors then 1 else 0)
      else if hasErrors then inl 1 else inr c
  end.

(** ** The main goroutine *)

Section Main.
Context `{HdrHistogram} (getenv : string -> string).

(** The cuts of main after the server is up: the -run start, waitForExit,
    GracefulShutdown (its first critical section, its wait, its last one), then
    HasWarnings and the exit. *)
Inductive main_phase :=
  | Launching
  | Waiting
  | ShuttingDown
  | AwaitingDone (done : option nat) (until : Z)
  | ReadingPassed
  | Reporting (passed : bool)
  | Exited (code : Z).

Record Process := mk_Process { sys : System; main : main_phase }.

(** [mn_signal]: a SIGTERM or SIGINT is there; [mn_tick]: the 500 ms ticker
    fired; [mn_random]: the bytes of RandomRunID. *)
Record main_answer := mk_main_answer { mn_now : Z; mn_signal : bool; mn_tick : bool; mn_random : list Z }.

Definition passed_of (e : Engine) : bool :=
  match verdictResult e with Some v => Passed v | None => false end.

Definition HasWarnings (e : Engine) : bool :=
  match verdictResult e with Some v => String.eqb (Result v) "PASSED_WITH_WARNINGS" | None => false end.

(** A select on the signal, and for a bounded -run also on the state. *)
Definition exit_wanted (auto : bool) (cfg : Config) (a : main_answer) (e : Engine) : bool :=
  mn_signal a ||
  (auto && (0 <? DurationParsed cfg) && mn_tick a
   && (String.eqb (state e) StateStopped || String.eqb (state e) StateError)).

Definition is_closed (d : option nat) (s : System) : bool :=
  match d with
  | Some i => match runs s !! i with Some r => r_closed r | None => false end
  | None => false
  end.

Definition exit_code (passed warnings : bool) : Z :=
  if negb passed then 1 else if warnings then 2 else 0.

(** One step of main for configuration [cfg] and the -run flag [auto]. *)
Definition main_step (cfg : Config) (auto : bool) (a : main_answer) (p : Process) : option Process :=
  let s := sys p in
  let e := eng s in
  match main p with
  | Launching =>
      if auto then
        let '(s, err) := StartRunFromConfig (mn_now a) (mn_random a) cfg s in
        match err with
        | Some _ => Some (mk_Process s (Exited 1))
        | None => Some (mk_Process s Waiting)
        end
      else Some (mk_Process s Waiting)
  | Waiting => if exit_wanted auto cfg a e then Some (mk_Process s ShuttingDown) else None
  | ShuttingDown =>
      if String.eqb (state e) StateRunning || String.eqb (state e) StateStarting then
        let s := cancel (runCancel e) s in
        match runDone e with
        | Some i => Some (mk_Process s (AwaitingDone (Some i) (mn_now a + 120 * Time.Second)))
        | None => Some (mk_Process s ReadingPassed)
        end
      else Some (mk_Process s ReadingPassed)
  | AwaitingDone d until =>
      if is_closed d s || (until <=? mn_now a) then Some (mk_Process s ReadingPassed) else None
  | ReadingPassed => Some (mk_Process s (Reporting (passed_of e)))
  | Reporting passed => Some (mk_Process s (Exited (exit_code passed (HasWarnings e))))
  | Exited _ => None
  end.

(** The process: its other goroutines go on until main exits.  As in [serial],
    a start is only accepted when no failed run is in its deferred function. *)
Inductive process_step (cfg : Config) (auto : bool) (p : Process) : Process -> Prop :=
  | step_main a p' : main_step cfg auto a p = Some p' ->
      (main p = Launching -> settled (sys p)) -> process_step cfg auto p p'
  | step_sys l s' : sys_step getenv (sys p) l s' -> (l = LStart true -> settled (sys p)) ->
      process_step cfg auto p (mk_Process s' (main p)).

Inductive process_reach (now : Z) (cfg : Config) (auto : bool) : Process -> Prop :=
  | reach_init : process_reach now cfg auto (mk_Process (init_system now) Launching)
  | reach_next p p' : process_reach now cfg auto p ->
      panicked (sys p) = false -> (forall code, main p <> Exited code) ->
      process_step cfg auto p p' -> process_reach now cfg auto p'.

End Main.
