(* ===== verification/MainFacts.v ===== *)
(** * The process: properties

    What the exit code of a run says about its workers. *)

From S2P Require Import Prelude Float64 GoStr Config Metrics Transport Verdict VerdictFacts VerdictTable Tracker Worker WorkerFacts Loops WorkerGroup WorkerGroupFacts Snapshot SnapshotFacts Engine EngineFacts EngineLift Lifecycle Window EngineTypes Main.
Local Open Scope string_scope.
Local Open Scope Z_scope.
Local Open Scope list_scope.

Section Evidence.
Context `{HdrHistogram} (getenv : string -> string) (now : Z).

(** The groups [gs] and the window of a run with configuration [c], at the moment
    its snapshots were taken: after producers stopped, drain and gap detection, in a
    state the execution went through on its way to [s0]. *)
Definition measured (s0 : System) (c : Config) (gs : Groups) (window : Z * Z) : Prop :=
  exists tr s tr' i r, serial getenv (init_system now) tr s /\ serial getenv s tr' s0 /\ runs s !! i = Some r /\
    S i = length (runs s) /\ r_phase r = Capture /\ r_cfg r = c /\ times (eng s) = window /\
    workerGroups (eng s) = Some gs /\ groups_typed getenv c gs.

Lemma measured_mono s0 tr s1 c gs w : serial getenv s0 tr s1 -> measured s0 c gs w -> measured s1 c gs w.
Proof.
  intros Ht (tr0 & s & tr' & i & r & H1 & H2 & H3). exists tr0, s, (tr' ++ tr), i, r. split; [done|].
  split; [by eapply serial_trans|done].
Qed.

(** The snapshots in some visiting order. *)
Definition in_order (names : list string) (m : gmap string Snap.WorkerSnapshot)
    : list (string * Snap.WorkerSnapshot) := omap (fun name => s ← m !! name; Some (name, s)) names.

(** A verdict on what was measured. *)
Definition judged (c : Config) (gs : Groups) (window : Z * Z) (v : VerdictResult) : Prop :=
  exists baseline peak names, names ≡ₚ AllWorkerNames /\
    v = computeVerdict c window.1 window.2 baseline peak (in_order names (captureWorkerSnapshots gs)).

(** Where the groups, the snapshots and the verdict of the engine come from. *)
Record evidence (s : System) : Prop := {
  ev_groups : forall i r, runs s !! i = Some r -> S i = length (runs s) -> r_phase r <> Build ->
    exists gs, workerGroups (eng s) = Some gs /\ groups_typed getenv (r_cfg r) gs;
  ev_snaps : forall m, workerSnapshots (eng s) = Some m ->
    exists c gs, runCfg (eng s) = Some c /\ measured s c gs (times (eng s)) /\ m = captureWorkerSnapshots gs;
  ev_verdict : forall v, verdictResult (eng s) = Some v ->
    exists c gs w, runCfg (eng s) = Some c /\ measured s c gs w /\ judged c gs w v
}.

(** A step that moves no run out of [Build] and adds no result. *)
Lemma evidence_same s tr s' : evidence s -> serial getenv s tr s' -> engine_rel same_worker (eng s) (eng s') -> view (eng s') = view (eng s) ->
  times (eng s') = times (eng s) -> length (runs s') = length (runs s) ->
  (forall i r', runs s' !! i = Some r' -> exists r, runs s !! i = Some r /\ r_cfg r' = r_cfg r /\
     (r_phase r' <> Build -> S i = length (runs s) -> r_phase r <> Build)) ->
  evidence s'.
Proof.
  intros [Hg Hs Hv] Hser Hrel Hview Htimes Hl Hr. unfold view in Hview. injection Hview as _ E2 E3 E4 _ _.
  split.
  - intros i r' Hi Hlast Hb. destruct (Hr i r' Hi) as (r & Hir & Hc & Hph). rewrite Hl in Hlast.
    destruct (Hg i r Hir Hlast (Hph Hb Hlast)) as (gs & Hgs & Ht). unfold engine_rel in Hrel.
    rewrite Hgs in Hrel. inversion Hrel as [? gs' Hgr E|]; subst. exists gs'. split; [done|].
    rewrite Hc. by eapply groups_rel_typed.
  - rewrite E3, E4, Htimes. intros m Hm. destruct (Hs m Hm) as (c & gs & Hc & Hmeas & E). exists c, gs.
    split_and!; [done|by eapply measured_mono|done].
  - rewrite E2, E4. intros v Hm. destruct (Hv v Hm) as (c & gs & w & Hc & Hmeas & E). exists c, gs, w.
    split_and!; [done|by eapply measured_mono|done].
Qed.

Lemma phase_step_results a c x p e e' p' : phase_step getenv a c x p e = Some (e', p') ->
  (workerSnapshots e' = workerSnapshots e \/
   (p = Capture /\ workerSnapshots e' = Some (captureWorkerSnapshots (groups_of e)))) /\
  (verdictResult e' = verdictResult e \/
   (p = Judge /\ exists bl pk names, names ≡ₚ AllWorkerNames /\
      verdictResult e' = Some (computeVerdict c (times e).1 (times e).2 bl pk
                                 (in_order names (default ∅ (workerSnapshots e)))))) /\
  p' <> Build.
Proof.
  intros Hp. destruct p; try discriminate Hp;
    try (phase_inv Hp; try match goal with E : stop_step _ _ _ = Some _ |- _ =>
           apply view_stop in E; injection E as _ E2 E3 _ _ _; rewrite E2, E3 end;
         (split_and!; [by left|by left|done])).
  - cbn [phase_step] in Hp. destruct (build_groups getenv c); [|discriminate Hp]. injection Hp as <- <-.
    split_and!; [by left|by left|done].
  - phase_inv Hp. split_and!; [by right|by left|done].
  - phase_inv Hp. split_and!; [by left| |done]. right. split; [done|].
    match goal with E : bool_decide _ = true |- _ => apply bool_decide_eq_true_1 in E end.
    eexists _, _, (a_names a). split; [done|]. reflexivity.
Qed.

Lemma run_step_evidence a i s s' tr tr' : serial getenv (init_system now) tr s -> lifecycle s -> evidence s ->
  serial getenv s tr' s' -> run_step getenv a i s = Some s' -> evidence s'.
Proof.
  intros Hreach Hlc Hev Hser Hs. pose proof Hev as [Hg Hsn Hv]. pose proof Hlc as [_ _ Hinv].
  apply run_step_inv in Hs as (r & Hi & _ & [(d & Hph & ->)|(e & p & Hst & ->)]).
  - set (s1 := upd_run i (fun r => r <| r_phase := Ended |>) (s <| clock := a_now a |>)).
    assert (H1 : forall j r', runs s1 !! j = Some r' -> exists r0, runs s !! j = Some r0 /\ r_cfg r' = r_cfg r0 /\
      (r_phase r' <> Build -> S j = length (runs s) -> r_phase r0 <> Build)).
    { intros j r' Hj. destruct (runs s !! j) as [r0|] eqn:Ej.
      - exists r0. split; [done|].
        assert (Hu : runs s1 !! j = Some (if decide (i = j) then r0 <| r_phase := Ended |> else r0))
          by exact (runs_alter i j _ (runs s) r0 Ej).
        rewrite Hu in Hj.
        injection Hj as <-. case_decide; [|done]. subst. rewrite Ej in Hi. injection Hi as <-. rewrite Hph. done.
      - apply lookup_lt_Some in Hj. unfold s1 in Hj. rewrite upd_run_length in Hj.
        apply lookup_ge_None in Ej. change (runs (s <| clock := a_now a |>)) with (runs s) in Hj. lia. }
    assert (Hl1 : length (runs s1) = length (runs s)) by (etrans; [apply upd_run_length|done]).
    assert (He1 : eng (close_done d s1) = eng s) by (unfold close_done; destruct d; repeat case_match; done).
    eapply evidence_same; [exact Hev|exact Hser|rewrite He1; by apply (engine_rel_refl same_worker)|by rewrite He1..|by rewrite close_done_length|].
    intros j r' Hj. destruct (runs s1 !! j) as [r0|] eqn:Ej.
    + destruct (close_done_runs d s1 j r0 Ej) as (r2 & Hr2 & [Hc _] & (Hp2 & _)). rewrite Hj in Hr2. injection Hr2 as <-.
      destruct (H1 j r0 Ej) as (r3 & H3 & H4 & H5). exists r3. split; [done|]. rewrite Hc, Hp2. done.
    + apply lookup_lt_Some in Hj. rewrite close_done_length in Hj. apply lookup_ge_None in Ej. lia.
  - destruct (Hinv i r Hi) as [Hlast Hold _ _].
    destruct (phase_step_target _ _ _ _ _ _ _ _ Hst) as (_ & _ & Hno).
    assert (Hl : S i = length (runs s)).
    { apply lookup_lt_Some in Hi as Hlt. destruct (decide (S i = length (runs s))); [done|].
      exfalso. apply Hno, Hold. lia. }
    destruct (Hlast Hl) as (Hok & Hcfg & _). destruct (phase_step_frame _ _ _ _ _ _ _ _ Hst) as (F1 & _).
    destruct (phase_step_results _ _ _ _ _ _ _ Hst) as (Hs1 & Hv1 & Hnb).
    set (s' := upd_run i (enter (a_now a) (r_phase r) p) (s <| clock := a_now a |> <| eng := e |>)).
    assert (He : eng s' = e) by done.
    assert (Hgs : r_phase r <> Build -> exists gs, workerGroups (eng s) = Some gs /\ groups_typed getenv (r_cfg r) gs)
      by (intros Hb; by apply (Hg i r)).
    fold s' in Hser. split; rewrite ?He, ?F1, ?Hcfg.
    + intros j r' Hj Hjl _. unfold s' in Hjl. rewrite upd_run_length in Hjl.
      change (runs (s <| clock := a_now a |> <| eng := e |>)) with (runs s) in Hjl.
      assert (j = i) as -> by lia.
      assert (Hu : runs s' !! i = Some (if decide (i = i) then enter (a_now a) (r_phase r) p r else r))
        by exact (runs_alter i i _ (runs s) r Hi).
      rewrite decide_True in Hu by done. rewrite Hu in Hj. injection Hj as <-.
      replace (r_cfg (enter _ _ _ r)) with (r_cfg r) by (unfold enter; by destruct (r_phase r)).
      assert (r_phase r = Build \/ r_phase r <> Build) as [Hb|Hb] by (destruct (r_phase r); by auto).
      * rewrite Hb in Hst. cbn [phase_step] in Hst.
        destruct (build_groups getenv (r_cfg r)) as [gs|] eqn:Eg; [|discriminate Hst].
        cbn [mbind option_bind] in Hst. injection Hst as <- _. exists gs. split; [done|]. by apply build_groups_typed.
      * destruct (Hgs Hb) as (gs & Hgs1 & Ht). pose proof (phase_step_rel _ _ _ _ _ _ _ _ Hb Hst) as Hrel.
        unfold engine_rel in Hrel. rewrite Hgs1 in Hrel. inversion Hrel as [? gs' Hgr E1 E|].
        exists gs'. split; [done|]. by eapply groups_rel_typed.
    + intros m Hm. rewrite (phase_step_times _ _ _ _ _ _ _ _ Hst). destruct Hs1 as [E|[Ep E]].
      * rewrite E in Hm. destruct (Hsn m Hm) as (c & gs & Hc & Hmeas & ->). rewrite Hcfg in Hc.
        assert (Ht : forall P : phase, r_phase r = P -> P <> CheckWarm /\ P <> Freeze).
        { intros P <-. destruct Hok as [_ Hres].
          split; intros E0; rewrite E0 in Hres; destruct Hres as [_ Hno']; by rewrite Hno' in Hm. }
        exists c, gs. destruct (Ht _ eq_refl) as [T1 T2].
        split_and!; [done|by destruct (r_phase r); try done; eapply measured_mono|done].
      * rewrite E in Hm. injection Hm as <-. destruct (Hgs ltac:(rewrite Ep; done)) as (gs & Hgs1 & Ht).
        exists (r_cfg r), gs. split; [done|]. unfold groups_of. rewrite Hgs1, Ep. split; [|done].
        exists tr, s, tr', i, r. by split_and!.
    + intros v Hv'. destruct Hv1 as [E|[Ep (bl & pk & names & Hn & E)]].
      * rewrite E in Hv'. destruct (Hv v Hv') as (c & gs & w & Hc & Hmeas & Hj). rewrite Hcfg in Hc.
        exists c, gs, w. split_and!; [done|by eapply measured_mono|done].
      * rewrite E in Hv'. injection Hv' as <-.
        destruct Hok as [_ Hres]. rewrite Ep in Hres. destruct Hres as [_ [m Hm]].
        destruct (Hsn m Hm) as (c & gs & Hc & Hmeas & Em). rewrite Hcfg in Hc. injection Hc as <-.
        exists (r_cfg r), gs, (times (eng s)). split_and!; [done|by eapply measured_mono|].
        exists bl, pk, names. split; [done|].
        by rewrite Hm, Em.
Qed.


(** A change of one run that leaves its configuration and its phase. *)
Lemma upd_run_old i f s : (forall r, r_cfg (f r) = r_cfg r) -> (forall r, r_phase (f r) = r_phase r) ->
  forall j r', runs (upd_run i f s) !! j = Some r' -> exists r, runs s !! j = Some r /\ r_cfg r' = r_cfg r /\
    (r_phase r' <> Build -> S j = length (runs s) -> r_phase r <> Build).
Proof.
  intros Hc Hp j r' Hj. destruct (runs s !! j) as [rj|] eqn:Ej.
  - exists rj. split; [done|]. rewrite (upd_run_lookup i j f s rj Ej) in Hj.
    injection Hj as <-. case_decide; [|done]. by rewrite Hc, Hp.
  - apply lookup_lt_Some in Hj. rewrite upd_run_length in Hj. apply lookup_ge_None in Ej. lia.
Qed.

Lemma sys_step_evidence l s s' tr : serial getenv (init_system now) tr s -> evidence s ->
  serial getenv s [l] s' -> sys_step getenv s l s' -> evidence s'.
Proof.
  intros Hreach Hev Hser Hs.
  assert (Hlc : lifecycle s) by (eapply serial_lifecycle; [exact Hreach|apply init_lifecycle]).
  assert (Hid : forall s', runs s' = runs s -> forall i r', runs s' !! i = Some r' -> exists r,
    runs s !! i = Some r /\ r_cfg r' = r_cfg r /\ (r_phase r' <> Build -> S i = length (runs s) -> r_phase r <> Build)).
  { intros s0 -> i r' Hi. by exists r'. }
  destruct Hs as [a i s' Hs|t a i s' Ht|e' Hw|t random c s' err Hs|s' err Hs|t Hn|n s' Hs|t i s' Hs].
  - by eapply run_step_evidence.
  - apply tick_step_inv in Ht as (r & e & r2 & Hi & _ & _ & Hk & ->).
    pose proof (task_step_lift same_worker t a r (eng s)) as Hrel. pose proof (view_task t a r (eng s)) as Hview.
    pose proof (task_times t a r (eng s)) as Htimes. destruct (task_step_run t a r (eng s)) as (Hc & _ & Hph & _).
    rewrite Hk in *. cbn [fst snd] in *.
    eapply evidence_same; [exact Hev|exact Hser|exact Hrel|exact Hview|exact Htimes|by etrans; [apply upd_run_length|]|].
    intros j r' Hj. destruct (runs s !! j) as [rj|] eqn:Ej.
    + exists rj. split; [done|].
      rewrite (upd_run_lookup i j (fun _ => r2) (s <| clock := a_now a |> <| eng := e |>) rj Ej) in Hj.
      injection Hj as <-. case_decide; [|done]. subst. rewrite Ej in Hi. injection Hi as ->.
      split; [done|]. by rewrite Hph.
    + apply lookup_lt_Some in Hj. rewrite upd_run_length in Hj. apply lookup_ge_None in Ej.
      change (runs (s <| clock := a_now a |> <| eng := e |>)) with (runs s) in Hj. lia.
  - eapply evidence_same; [exact Hev|exact Hser|by apply worker_step_rel|destruct Hw; apply view_with_groups|by destruct Hw|done|by apply Hid].
  - unfold StartRunFromConfig in Hs. destruct (negb _); injection Hs as <- <-; [done|].
    split; try done. intros i r Hi Hlast Hb. cbn [runs] in *. rewrite length_app in Hlast. cbn [length] in Hlast.
    rewrite lookup_app_r in Hi by lia. replace (i - length (runs s))%nat with 0%nat in Hi by lia.
    by injection Hi as <-.
  - unfold StopRun in Hs. destruct (_ && _); injection Hs as <- <-; [done|].
    unfold cancel. destruct (runCancel (eng s)) as [i|]; [|done].
    eapply evidence_same; [exact Hev|exact Hser|by apply (engine_rel_refl same_worker)|done|done|apply upd_run_length|].
    apply upd_run_old; by intros [].
  - eapply evidence_same; [exact Hev|exact Hser|by apply (engine_rel_refl same_worker)|done|done|done|by apply Hid].
  - apply return_step_inv in Hs as (t & _ & _ & ->).
    eapply evidence_same; [exact Hev|exact Hser|by apply (engine_rel_refl same_worker)|done|done|done|by apply Hid].
  - apply leave_step_inv in Hs as (r & _ & _ & _ & ->).
    eapply evidence_same; [exact Hev|exact Hser|by apply (engine_rel_refl same_worker)|done|done|apply upd_run_length|].
    apply upd_run_old; by intros [].
Qed.

Lemma serial_evidence tr s : serial getenv (init_system now) tr s -> evidence s.
Proof.
  intros Hs. remember (init_system now) as s0 eqn:E0. induction Hs as [s|s tr s1 l s2 Hs IH Hp Hl Hset]; subst.
  - split; [intros i r Hi; discriminate Hi|done|done].
  - eapply sys_step_evidence; [exact Hs|by apply IH| |exact Hl].
    apply (serial_snoc _ s1 [] s1); [constructor|done..].
Qed.

(** ** The process *)

Lemma main_step_serial cfg auto a p p' : panicked (sys p) = false -> main_step cfg auto a p = Some p' ->
  (main p = Launching -> Lifecycle.settled (sys p)) -> exists tr, serial getenv (sys p) tr (sys p').
Proof.
  intros Hp Hm Hset. unfold main_step in Hm.
  assert (Hid : exists tr, serial getenv (sys p) tr (sys p)) by (exists []; constructor).
  assert (Hone : forall l s', sys_step getenv (sys p) l s' -> (l = LStart true -> Lifecycle.settled (sys p)) ->
    exists tr, serial getenv (sys p) tr s')
    by (intros l s' Hl Hs; exists [l]; apply (serial_snoc _ (sys p) [] (sys p)); [constructor|done..]).
  destruct (main p) eqn:Em.
  - destruct auto; [|by injection Hm as <-].
    destruct (StartRunFromConfig _ _ cfg (sys p)) as [s1 err] eqn:E.
    destruct err; injection Hm as <-; (eapply Hone; [by econstructor|by auto]).
  - destruct (exit_wanted _ _ _ _); [|discriminate Hm]. by injection Hm as <-.
  - destruct (String.eqb (state (eng (sys p))) StateRunning || _) eqn:Er; [|by injection Hm as <-].
    assert (Hs1 : exists tr, serial getenv (sys p) tr (cancel (runCancel (eng (sys p))) (sys p))).
    { apply (Hone LStop); [|done]. apply (step_stop _ _ _ None). unfold StopRun.
      rewrite <- negb_orb, orb_comm, Er. done. }
    by destruct (runDone _); injection Hm as <-.
  - destruct (_ || _); [|discriminate Hm]. by injection Hm as <-.
  - by injection Hm as <-.
  - by injection Hm as <-.
  - discriminate Hm.
Qed.

(** What main learned from ReadingPassed on. *)
Definition main_evidence (s : System) (m : main_phase) : Prop :=
  let passed := exists c gs w v, measured s c gs w /\ judged c gs w v /\ Passed v = true in
  match m with
  | Reporting b => b = true -> passed
  | Exited code => (code = 0 \/ code = 1 \/ code = 2) /\ (code <> 1 -> passed)
  | _ => True
  end.

Lemma main_evidence_mono s tr s' m : serial getenv s tr s' -> main_evidence s m -> main_evidence s' m.
Proof.
  intros Hs. assert (Hp : (exists c gs w v, measured s c gs w /\ judged c gs w v /\ Passed v = true) ->
    exists c gs w v, measured s' c gs w /\ judged c gs w v /\ Passed v = true).
  { intros (c & gs & w & v & Hm & Hj & Hv). exists c, gs, w, v. split_and!; [by eapply measured_mono|done..]. }
  destruct m; cbn; try done; [auto|]. intros [H1 H2]. auto.
Qed.

Lemma process_evidence cfg auto p : process_reach getenv now cfg auto p ->
  (exists tr, serial getenv (init_system now) tr (sys p)) /\ main_evidence (sys p) (main p).
Proof.
  induction 1 as [|p p' Hr [[tr Hs] IH] Hp Hne Hstep]; [split; [by exists []; constructor|done]|].
  destruct Hstep as [a p' Hm Hset|l s' Hl Hset].
  - destruct (main_step_serial _ _ _ _ _ Hp Hm Hset) as [tr' Hs'].
    split; [exists (tr ++ tr'); by eapply serial_trans|].
    apply (main_evidence_mono _ _ _ _ Hs') in IH. unfold main_step in Hm. destruct (main p) eqn:Em.
    + destruct auto; [|by injection Hm as <-]. destruct (StartRunFromConfig _ _ _ _) as [s1 [err|]];
        injection Hm as <-; cbn; [|done]. split; [by right; left|done].
    + destruct (exit_wanted _ _ _ _); [|discriminate Hm]. by injection Hm as <-.
    + destruct (_ || _); [|by injection Hm as <-]. by destruct (runDone _); injection Hm as <-.
    + destruct (_ || _); [|discriminate Hm]. by injection Hm as <-.
    + injection Hm as <-. cbn [sys main main_evidence]. unfold passed_of.
      destruct (verdictResult (eng (sys p))) as [v|] eqn:Ev; [|done]. intros Hpass.
      destruct (ev_verdict _ (serial_evidence tr (sys p) Hs) v Ev) as (c & gs & w & _ & Hm & Hj).
      by exists c, gs, w, v.
    + injection Hm as <-. cbn [sys main main_evidence]. unfold exit_code.
      destruct passed; cbn [negb]; [|split; [by right; left|done]].
      destruct (HasWarnings _); (split; [tauto|]); intros _; by apply IH.
    + discriminate Hm.
  - assert (Hs' : serial getenv (sys p) [l] s') by (apply (serial_snoc _ (sys p) [] (sys p)); [constructor|done..]).
    split; [exists (tr ++ [l]); by eapply serial_trans|]. by apply (main_evidence_mono _ _ _ _ Hs').
Qed.

End Evidence.

(** ** What an exit code says *)

Section Exit.
Context `{HdrHistogram}.

(** What a group has counted whose worker type passed every gate, the window being
    [md] nanoseconds: no row of the table trips. *)
Definition group_passed (c : Config) (md : Z) (name : string) (g : WorkerGroup) : Prop :=
  let total counter := u64_wrap (sum_of counter (g_workers g)) in
  let t := Thresholds c in
  total CorruptedCount = 0 /\
  (IsKeyedWorker name = true -> i64_wrap (total offsetOrderViolations) <= MaxOffsetOrderViolations t) /\
  (IsConsumerGroupWorker name = true -> i64_wrap (total groupLossRebalance) <= MaxGroupLossAcrossRebalance t) /\
  (IsTransactionsWorker name = true -> i64_wrap (total eosViolations) <= MaxEOSViolations t) /\
  (IsAdminWorker name = true -> total adminOpFailures = 0) /\
  all_pass (gates_of c md (name, snapshot_of g)).

(** Find a pair in [summed]. *)
Ltac in_summed := unfold summed; repeat (apply elem_of_cons; first [left; reflexivity | right]).

Lemma gates_passed c md name g :
  worker_fails c md (name, snapshot_of g) = false -> group_passed c md name g.
Proof.
  intros Hf. pose proof Hf as Hall. unfold worker_fails in Hf.
  do 11 (apply orb_false_iff in Hf as [Hf ?]).
  assert (Hs : forall f k, (f, k) ∈ summed -> u64_wrap (sum_of k (g_workers g)) = f (snapshot_of g))
    by (intros; symmetry; by apply snapshot_sum).
  assert (Hnn : forall k, 0 <= u64_wrap (sum_of k (g_workers g))) by (intros k; apply u64_wrap_ok).
  unfold group_passed.
  rewrite (Hs Snap.OffsetOrderViolations offsetOrderViolations), (Hs Snap.GroupLossRebalance groupLossRebalance),
    (Hs Snap.EOSViolations eosViolations) by in_summed.
  split_and!.
  - pose proof (Hnn CorruptedCount) as Hz. rewrite (Hs Snap.Corrupted) in Hz |- * by in_summed.
    unfold corruption_gate in Hf. zify_bool. lia.
  - intros E. match goal with Hg : offset_order_gate _ _ _ = false |- _ =>
      unfold offset_order_gate in Hg; rewrite E in Hg; cbn [andb] in Hg end. zify_bool. lia.
  - intros E. match goal with Hg : group_loss_gate _ _ _ = false |- _ =>
      unfold group_loss_gate in Hg; rewrite E in Hg; cbn [andb] in Hg end. zify_bool. lia.
  - intros E. match goal with Hg : eos_gate _ _ _ = false |- _ =>
      unfold eos_gate in Hg; rewrite E in Hg; cbn [andb] in Hg end. zify_bool. lia.
  - intros E. pose proof (Hnn adminOpFailures) as Hz.
    rewrite (Hs Snap.AdminOpFailures) in Hz |- * by in_summed.
    match goal with Hg : admin_gate _ _ = false |- _ =>
      unfold admin_gate in Hg; rewrite E in Hg; cbn [andb] in Hg end. zify_bool. lia.
  - by apply fails_table.
Qed.

Lemma judged_passed c gs w v name g : judged c gs w v -> Passed v = true ->
  name ∈ AllWorkerNames -> gs !! name = Some g -> group_passed c (time_Sub w.2 w.1) name g.
Proof.
  intros (bl & pk & names & Hn & ->) Hp Hname Hg.
  destruct (computeVerdict_fields c w.1 w.2 bl pk (in_order names (captureWorkerSnapshots gs))) as (Hpass & _).
  rewrite Hpass, forallb_Forall, Forall_forall in Hp. apply (gates_passed c (time_Sub w.2 w.1)).
  apply negb_true_iff. apply (Hp (name, snapshot_of g)). unfold in_order. apply list_elem_of_omap.
  exists name. split; [by rewrite Hn|]. unfold captureWorkerSnapshots. by rewrite lookup_fmap, Hg.
Qed.

End Exit.

(** ** Concrete processes *)

Section Demo.
#[local] Existing Instance list_histogram.

Inductive move := MMain (a : main_answer) | MSys (x : action).

Definition make_move (cfg : Config) (m : move) (p : Process) : option Process :=
  match main p with Exited _ => None | _ =>
    if panicked (sys p) then None else
    match m with
    | MMain a => if settledb (sys p) then main_step cfg true a p else None
    | MSys x =>
        match act no_env x (sys p) with
        | Some (LStart true, s') => if settledb (sys p) then Some (mk_Process s' (main p)) else None
        | Some (_, s') => Some (mk_Process s' (main p))
        | None => None
        end
    end
  end.

Fixpoint moves_of (cfg : Config) (ms : list move) (p : Process) : option Process :=
  match ms with
  | [] => Some p
  | m :: ms => match make_move cfg m p with Some p => moves_of cfg ms p | None => None end
  end.

Lemma moves_reach cfg ms : forall p p', process_reach no_env 1 cfg true p ->
  moves_of cfg ms p = Some p' -> process_reach no_env 1 cfg true p'.
Proof.
  induction ms as [|m ms IH]; intros p p' Hr Hm; cbn [moves_of] in Hm; [by injection Hm as <-|].
  destruct (make_move cfg m p) as [p1|] eqn:E; [|done]. apply (IH p1); [|done]. unfold make_move in E.
  assert (Hne : forall code, main p <> Exited code) by (intros code Ec; by rewrite Ec in E).
  assert (E' : (if panicked (sys p) then None else
    match m with
    | MMain a => if settledb (sys p) then main_step cfg true a p else None
    | MSys x =>
        match act no_env x (sys p) with
        | Some (LStart true, s') => if settledb (sys p) then Some (mk_Process s' (main p)) else None
        | Some (_, s') => Some (mk_Process s' (main p))
        | None => None
        end
    end) = Some p1) by (destruct (main p); done). clear E.
  destruct (panicked (sys p)) eqn:Hp; [done|]. eapply reach_next; [done..|]. destruct m as [a|x].
  - destruct (settledb (sys p)) eqn:Es; [|done]. econstructor; [done|]. intros _. by apply settledb_settled.
  - destruct (act no_env x (sys p)) as [[l s']|] eqn:Ea; [|done]. destruct (act_step _ _ _ _ _ Ea) as [_ Hl].
    assert (Hx : p1 = mk_Process s' (main p) /\ (l = LStart true -> Lifecycle.settled (sys p))).
    { destruct l as [| | |[]| | |]; try by injection E' as <-.
      destruct (settledb (sys p)) eqn:Es; [|done]. injection E' as <-. split; [done|]. intros _. by apply settledb_settled. }
    destruct Hx as [-> Hset]. by econstructor.
Qed.

Definition quiet (t : Z) : main_answer := mk_main_answer t false true [171].
Definition signal (t : Z) : main_answer := mk_main_answer t true false [171].

(** A bounded -run that ends by itself, [n] steps of its run before main looks. *)
Definition auto_run (n : nat) (a : main_answer) : list move :=
  [MMain (quiet 1)] ++ map MSys (demo_steps true 0 n 1)
  ++ [MMain a; MMain (quiet 1); MMain (quiet 1); MMain (quiet 1)].

(** A signal that finds the run draining does not wait for it: the process exits
    with 1 although the same run, left alone, ends PASSED. *)
Example signal_while_draining :
  (match moves_of demo_run_cfg (auto_run 63 (signal 1)) (mk_Process (init_system 1) Launching) with
   | Some p => main p = Exited 1 /\ state (eng (sys p)) = StateStopping
   | None => False
   end).
Proof. vm_compute. split; reflexivity. Qed.

End Demo.
