(* ===== verification/RunEnds.v ===== *)
(** * The run lifecycle: every run ends

    What a runLoop waits for in a wait group, and the theorem that it only takes a
    bounded number of steps and is never stuck: a Wait it stands at counts only
    goroutines whose context is done. *)

From S2P Require Import Prelude Float64 GoStr Config Metrics Transport Verdict Tracker Worker WorkerFacts Loops WorkerGroup WorkerGroupFacts Snapshot SnapshotFacts Engine EngineFacts EngineLift Lifecycle EngineTypes Main MainFacts.
Local Open Scope string_scope.
Local Open Scope Z_scope.
Local Open Scope list_scope.

Section Waits.
Context `{HdrHistogram} (getenv : string -> string).

(** ** A Wait comes after the CancelFunc *)

Definition unjoined (item : stop_item) : Prop := match item with Join _ _ => False | _ => True end.

Definition halted_all (sd : side) (name : string) (k : nat) (e : Engine) : Prop :=
  Forall (fun t => th_halted t = true) (counted sd name k e).

(** Only the first item may be a Wait, and what it counts has been cancelled. *)
Definition todo_ok (sd : side) (todo : list stop_item) (e : Engine) : Prop :=
  match todo with
  | [] => True
  | item :: todo => Forall unjoined todo /\ match item with Join name k => halted_all sd name k e | _ => True end
  end.

Definition waits_in (p : phase) (halted : bool) (e : Engine) : Prop :=
  match p with
  | Stopping => halted = true
  | WarmupStop todo | StoppingProducers todo => todo_ok Producers todo e
  | StoppingConsumers todo => todo_ok Consumers todo e
  | _ => True
  end.

Lemma unjoined_ok sd todo e : Forall unjoined todo -> todo_ok sd todo e.
Proof. intros Hu. destruct Hu as [|item todo Hi Hu]; [done|]. split; [done|]. by destruct item. Qed.

Lemma visits_unjoined : Forall unjoined visits.
Proof. repeat constructor. Qed.

Lemma operate_unjoined f name k e : Forall unjoined (operate f name k e).2.
Proof.
  unfold operate. destruct (worker_at name k e); [|constructor]. destruct (f _) as [w [r|]]; repeat constructor.
Qed.

Lemma halt_halts sd name k e : halted_all sd name k (halt sd name k e).
Proof.
  unfold halted_all, counted, halt. change (threads (e <| threads ::= ?f |>)) with (f (threads e)).
  apply Forall_forall. intros t [Hc Ht]%list_elem_of_filter. apply list_elem_of_fmap in Ht as (t0 & -> & _).
  destruct (decide (counts sd name k t0)) as [|Hn]; [done|]. by destruct Hn.
Qed.

Lemma stop_step_ok sd item todo e e' items : todo_ok sd (item :: todo) e ->
  stop_step sd item e = Some (e', items) -> todo_ok sd (items ++ todo) e'.
Proof.
  intros [Hu _]. destruct item as [name|name k|name k|name k r]; cbn [stop_step].
  - intros [= <- <-]. apply unjoined_ok, Forall_app_2; [|done].
    destruct (groups_of e !! name); [|constructor]. unfold stop_items. apply Forall_fmap, Forall_true. done.
  - intros [= <- <-]. split; [done|]. apply halt_halts.
  - destruct (decide _); [|done]. intros [= E]. apply unjoined_ok, Forall_app_2; [|done].
    apply (f_equal snd) in E. cbn [snd] in E. rewrite <- E. apply operate_unjoined.
  - intros [= E]. apply unjoined_ok, Forall_app_2; [|done].
    apply (f_equal snd) in E. cbn [snd] in E. rewrite <- E. apply operate_unjoined.
Qed.

Lemma phase_step_waits a c x p e e' p' now r : phase_step getenv a c x p e = Some (e', p') -> r_phase r = p ->
  waits_in p (r_halted r) e -> waits_in p' (r_halted (enter now p p' r)) e'.
Proof.
  intros Hp Hph Hw. destruct p; try discriminate Hp;
    try (phase_inv Hp; first [done | by eapply stop_step_ok | apply unjoined_ok, visits_unjoined]).
  cbn [phase_step] in Hp. destruct (build_groups getenv c); [|discriminate Hp]. by injection Hp as <- <-.
Qed.

Definition waits_ok (s : System) : Prop := forall i r, runs s !! i = Some r -> S i = length (runs s) ->
  waits_in (r_phase r) (r_halted r) (eng s).

(** *** Threads outside runLoop *)

Lemma waits_threads p h e e' : (forall t, t ∈ threads e' -> t ∈ threads e) -> waits_in p h e -> waits_in p h e'.
Proof.
  intros Ht.
  assert (Hall : forall sd name k, halted_all sd name k e -> halted_all sd name k e').
  { intros sd name k. unfold halted_all, counted. rewrite !Forall_forall. intros Hf t [Hc Hin]%list_elem_of_filter.
    apply Hf, list_elem_of_filter. auto. }
  assert (Htodo : forall sd todo, todo_ok sd todo e -> todo_ok sd todo e').
  { intros sd [|item todo]; [done|]. intros [Hu Hi]. split; [done|]. destruct item; auto. }
  destruct p; cbn [waits_in]; auto.
Qed.

(** Only the last run's own steps and returns change the threads. *)
Definition threads_left (e e' : Engine) : Prop := exists n, threads e' = delete n (threads e) \/ threads e' = threads e.

Lemma threads_left_in e e' : threads_left e e' -> forall t, t ∈ threads e' -> t ∈ threads e.
Proof.
  intros (n & [E|E]) t; rewrite E; [|done]. intros Ht.
  eapply elem_of_sublist; [exact Ht|]. apply sublist_delete.
Qed.

Lemma threads_left_same e e' : threads e' = threads e -> threads_left e e'.
Proof. intros E. exists O. by right. Qed.

Lemma task_threads t a r e : threads (task_step t a r e).1 = threads e.
Proof. destruct t; cbn [task_step]; try done. destruct (memory_tick _ _ _ _ _). done. Qed.

(** No step but runLoop's own adds a goroutine, and of the runs that are not over
    only the last one takes such steps. *)
Lemma others_threads l s s' i r : lifecycle s -> sys_step getenv s l s' -> l <> LRun i ->
  runs s !! i = Some r -> ~ over (r_phase r) -> threads_left (eng s) (eng s').
Proof.
  intros Hlc Hs Hne Hi Hno. destruct Hs as [a j s' Hs|t a j s' Hs|e' Hs|now random c s' err Hs|s' err Hs|now Hn|n s' Hs|t j s' Hs].
  - apply run_step_inv in Hs as (rj & Hj & _ & [(d & _ & ->)|(e & p & Hst & ->)]).
    + apply threads_left_same. unfold close_done. by destruct d; repeat case_match.
    + exfalso. destruct (phase_step_target _ _ _ _ _ _ _ _ Hst) as (_ & _ & Hnj).
      destruct (lc_runs _ Hlc i r Hi) as [_ Hold _ _]. destruct (lc_runs _ Hlc j rj Hj) as [_ Holdj _ _].
      apply lookup_lt_Some in Hi, Hj.
      assert (S i = length (runs s)) by (destruct (decide (S i < length (runs s))%nat); [by destruct Hno; auto|lia]).
      assert (S j = length (runs s)) by (destruct (decide (S j < length (runs s))%nat); [by destruct Hnj; auto|lia]).
      apply Hne. f_equal. lia.
  - apply tick_step_inv in Hs as (rj & e & r2 & _ & _ & _ & Hk & ->). apply threads_left_same.
    pose proof (task_threads t a rj (eng s)) as Ht. by rewrite Hk in Ht.
  - apply threads_left_same. by destruct Hs.
  - apply threads_left_same. unfold StartRunFromConfig in Hs. by destruct (negb _); injection Hs as <- _.
  - apply threads_left_same. unfold StopRun in Hs. destruct (_ && _); injection Hs as <- _; [done|].
    unfold cancel. by destruct (runCancel _).
  - by apply threads_left_same.
  - apply return_step_inv in Hs as (t & _ & _ & ->). exists n. by left.
  - apply leave_step_inv in Hs as (rj & _ & _ & _ & ->). by apply threads_left_same.
Qed.

Lemma sys_step_waits l s s' : lifecycle s -> waits_ok s -> sys_step getenv s l s' -> waits_ok s'.
Proof.
  intros Hlc Hw Hs j rj Hj Hjl. destruct (runs s !! j) as [r|] eqn:Hr.
  - destruct (sys_step_kept getenv l s s' j r Hs Hr) as (r1 & Hr1 & _ & _ & Hst).
    rewrite Hj in Hr1. injection Hr1 as <-.
    assert (Hl : S j = length (runs s)).
    { destruct (sys_step_length getenv l s s' Hs) as [E|(c & E)]; [lia|]. rewrite E, length_app in Hjl. cbn in Hjl.
      apply lookup_lt_Some in Hr. lia. }
    specialize (Hw j r Hr Hl). destruct (decide (l = LRun j)) as [->|Hne].
    + inversion Hs as [a i s0 Hrun| | | | | | |]; subst.
      apply run_step_inv in Hrun as (r1 & Hr1 & _ & [(d & Hp & ->)|(e & p & Hp & ->)]);
        rewrite Hr in Hr1; injection Hr1 as <-.
      * destruct (close_done_runs d (upd_run j (fun r => r <| r_phase := Ended |>) (s <| clock := a_now a |>)) j
          (r <| r_phase := Ended |>)) as (r1 & Hr1 & _ & (Hph & _)).
        { etrans; [apply (upd_run_lookup j j _ (s <| clock := a_now a |>) r Hr)|]. by rewrite decide_True. }
        rewrite Hj in Hr1. injection Hr1 as <-. by rewrite Hph.
      * assert (Hu : rj = enter (a_now a) (r_phase r) p r).
        { apply (inj Some). rewrite <- Hj. etrans;
            [apply (upd_run_lookup j j _ (s <| clock := a_now a |> <| eng := e |>) r Hr)|by rewrite decide_True]. }
        subst rj. replace (r_phase (enter _ _ _ r)) with p by (unfold enter; by destruct (r_phase r)).
        by eapply phase_step_waits.
    + destruct (Hst Hne) as (-> & -> & _).
      assert (over (r_phase r) \/ ~ over (r_phase r)) as [Ho|Hno] by (destruct (r_phase r); cbn; tauto).
      { by destruct (r_phase r). }
      eapply waits_threads; [|exact Hw]. apply threads_left_in. by eapply others_threads.
  - apply lookup_lt_Some in Hj as Hlt. apply lookup_ge_None in Hr.
    destruct (sys_step_length getenv l s s' Hs) as [E|(c & E)]; [lia|]. rewrite E in Hj.
    rewrite lookup_app_r in Hj by done. destruct (j - length (runs s))%nat as [|n]; [|by destruct n].
    by injection Hj as <-.
Qed.

Lemma serial_waits now tr s : serial getenv (init_system now) tr s -> waits_ok s.
Proof.
  intros Hs. remember (init_system now) as s0 eqn:E0. induction Hs as [s|s tr s1 l s2 Hs IH Hp Hl Hset]; subst.
  - intros i r Hi. discriminate Hi.
  - eapply sys_step_waits; [|by apply IH|exact Hl]. eapply serial_lifecycle; [exact Hs|apply init_lifecycle].
Qed.

(** ** What is awaited only falls *)

Lemma filter_delete {A} (P : A -> Prop) `{!forall x, Decision (P x)} n (l : list A) :
  length (filter P l) =
  (length (filter P (delete n l)) + match l !! n with Some x => if decide (P x) then 1 else 0 | None => 0 end)%nat.
Proof.
  revert n. induction l as [|x l IH]; intros n; [by destruct n|]. destruct n as [|n].
  - change (delete 0%nat (x :: l)) with l. change ((x :: l) !! 0%nat) with (Some x).
    rewrite filter_cons. case_decide; cbn [length]; lia.
  - change (delete (S n) (x :: l)) with (x :: delete n l). change ((x :: l) !! S n) with (l !! n).
    rewrite !filter_cons. specialize (IH n). case_decide; cbn [length]; lia.
Qed.

Lemma counted_left sd name k e e' : threads_left e e' ->
  (length (counted sd name k e') <= length (counted sd name k e))%nat.
Proof. intros (n & [E|E]); unfold counted; rewrite E; [|lia]. rewrite (filter_delete _ n (threads e)). lia. Qed.

Lemma awaited_left e e' r r' : threads_left e e' -> run_still r r' ->
  (pending e' r' <= pending e r)%nat.
Proof.
  intros Ht (Hp & _ & Hl). unfold pending, awaited_tasks, awaited. rewrite Hp.
  destruct (r_phase r) as [| | | | |todo| | | | | | | | |todo| | | | | |todo| | | | |]; cbn [length]; try lia;
    destruct todo as [|[| | |] todo]; cbn [length]; try lia; apply counted_left; exact Ht.
Qed.

(** Fewer goroutines of run [i]'s Wait are left in [s] than [n]. *)
Definition below (i : nat) (s : System) (n : nat) : Prop :=
  exists r, runs s !! i = Some r /\ (pending (eng s) r < n)%nat.

Lemma task_below i s r t : runs s !! i = Some r -> waits_in (r_phase r) (r_halted r) (eng s) -> t ∈ awaited_tasks r ->
  r_halted r = true /\ exists s', leave_step t i s = Some s' /\ below i s' (pending (eng s) r).
Proof.
  intros Hi Hw Ht. unfold awaited_tasks in Ht. destruct (r_phase r) eqn:Hp; try by apply elem_of_nil in Ht.
  cbn [waits_in] in Hw. split; [done|]. unfold leave_step. rewrite Hi. cbn [mbind option_bind].
  rewrite Hw, bool_decide_true by done. cbn [orb andb]. eexists. split; [done|].
  exists (r <| r_tasks ::= filter (fun t' => t' <> t) |>).
  split; [etrans; [by apply upd_run_lookup|by rewrite decide_True]|].
  unfold pending, awaited_tasks, awaited. change (r_phase (r <| r_tasks ::= ?f |>)) with (r_phase r).
  change (r_tasks (r <| r_tasks ::= ?f |>)) with (f (r_tasks r)). rewrite Hp. cbn [length].
  assert ((length (filter (fun t' => t' <> t) (r_tasks r)) < length (r_tasks r))%nat); [|lia].
  clear -Ht. induction (r_tasks r) as [|t0 l IH]; [by apply elem_of_nil in Ht|]. rewrite filter_cons.
  pose proof (length_filter (fun t' => t' <> t) l). case_decide as Hd; cbn; [|lia].
  apply elem_of_cons in Ht as [->|Ht]; [done|]. specialize (IH Ht). lia.
Qed.

Lemma thread_below i s r t : runs s !! i = Some r -> waits_in (r_phase r) (r_halted r) (eng s) -> t ∈ awaited (eng s) r ->
  th_halted t = true /\ exists n s', threads (eng s) !! n = Some t /\ return_step n s = Some s' /\
    below i s' (pending (eng s) r).
Proof.
  intros Hi Hw Ht.
  assert (Hd : exists sd name k, t ∈ counted sd name k (eng s) /\ halted_all sd name k (eng s) /\
    forall e, pending e r = length (counted sd name k e)).
  { unfold awaited in Ht.
    assert (Hpd : forall e, awaited_tasks r = [] -> pending e r = length (awaited e r)) by (intros e E; unfold pending; by rewrite E).
    unfold awaited, awaited_tasks in Hpd.
    destruct (r_phase r) as [| | | | |todo| | | | | | | | |todo| | | | | |todo| | | | |] eqn:Hp; try by apply elem_of_nil in Ht.
    all: destruct todo as [|[|  |name k|] todo]; try by apply elem_of_nil in Ht.
    all: destruct Hw as [_ Hw]; eexists _, name, k; split_and!; [exact Ht|exact Hw|intros e; by apply Hpd]. }
  destruct Hd as (sd & name & k & Hin & Hall & Hpend).
  unfold halted_all in Hall. rewrite Forall_forall in Hall. split; [by apply Hall|].
  apply list_elem_of_filter in Hin as Hin'. destruct Hin' as [Hc Hin'].
  apply list_elem_of_lookup in Hin' as [n Hn]. eexists n, _. split; [done|].
  unfold return_step. rewrite Hn. cbn [mbind option_bind]. unfold context_done. rewrite (Hall t Hin). cbn [orb].
  split; [done|]. exists r. split; [done|]. rewrite !Hpend. unfold counted.
  change (threads (eng (s <| eng ::= ?f |>))) with (delete n (threads (eng s))).
  rewrite (filter_delete _ n (threads (eng s))), Hn, decide_True by done. lia.
Qed.

(** ** The work a run has left *)

Definition sized_ok (s : System) : Prop := forall i r, runs s !! i = Some r -> S i = length (runs s) ->
  r_phase r <> Build -> sized (r_cfg r) (eng s).

Lemma serial_sized now tr s : serial getenv (init_system now) tr s -> sized_ok s.
Proof.
  intros Hs i r Hi Hl Hb. destruct (ev_groups _ _ _ (serial_evidence getenv now tr s Hs) i r Hi Hl Hb) as (gs & Hgs & Ht).
  intros name g Hg. unfold groups_of in Hg. rewrite Hgs in Hg. cbn in Hg. specialize (Ht name). rewrite Hg in Ht.
  destruct Ht as (_ & _ & _ & Hf). apply Forall2_length in Hf. rewrite length_seqZ in Hf. lia.
Qed.

Lemma run_step_work a i s s' r : lifecycle s -> sized_ok s -> run_step getenv a i s = Some s' -> runs s !! i = Some r ->
  exists r', runs s' !! i = Some r' /\ (work_of (r_cfg r) (clock s') (r_phase r') < work s r)%nat.
Proof.
  intros Hlc Hz Hs Hi. unfold work.
  apply run_step_inv in Hs as (ri & Hi' & Hclock & [(d & Hp & ->)|(e & p & Hp & ->)]);
    rewrite Hi in Hi'; injection Hi' as <-.
  - destruct (close_done_runs d (upd_run i (fun r => r <| r_phase := Ended |>) (s <| clock := a_now a |>)) i
      (r <| r_phase := Ended |>)) as (r' & Hr' & _ & (Hph & _ & _)).
    { etrans; [apply (upd_run_lookup i i _ (s <| clock := a_now a |>) r Hi)|]. by rewrite decide_True. }
    exists r'. split; [done|]. rewrite Hph, Hp.
    change (r_phase (r <| r_phase := Ended |>)) with Ended. cbn. lia.
  - eexists. split.
    { etrans; [apply (upd_run_lookup i i _ (s <| clock := a_now a |> <| eng := e |>) r Hi)|by rewrite decide_True]. }
    replace (r_phase (enter _ _ _ r)) with p by (unfold enter; by destruct (r_phase r)).
    eapply phase_step_work; [|exact Hclock|exact Hp]. intros Hb. apply (Hz i); [done| |done].
    destruct (phase_step_target _ _ _ _ _ _ _ _ Hp) as (_ & _ & Hno).
    destruct (lc_runs _ Hlc i r Hi) as [_ Hold _ _]. apply lookup_lt_Some in Hi.
    destruct (decide (S i = length (runs s))); [done|]. exfalso. apply Hno, Hold. lia.
Qed.

Lemma serial_work now tr0 s tr s' i r : serial getenv (init_system now) tr0 s -> serial getenv s tr s' ->
  runs s !! i = Some r ->
  exists r', runs s' !! i = Some r' /\ run_kept r r' /\ (moves i tr + work s' r' <= work s r)%nat.
Proof.
  intros H0 Hs Hi. induction Hs as [s|s tr s1 l s2 Hs IH _ Hl _]; [by exists r|].
  destruct (IH H0 Hi) as (r1 & Hr1 & [Hc1 Hb1] & Hw1).
  destruct (sys_step_kept getenv l s1 s2 i r1 Hl Hr1) as (r2 & Hr2 & [Hc2 Hb2] & Hclock & Hother).
  exists r2. split; [done|]. split; [split; [congruence|auto]|].
  unfold moves in *. rewrite filter_app, length_app. destruct (decide (l = LRun i)) as [->|Hne].
  - rewrite filter_cons_True by done. cbn [length filter].
    inversion Hl as [a j s0 Hrun| | | | | | |]; subst.
    pose proof (serial_trans _ _ _ _ _ _ H0 Hs) as H1.
    assert (Hlc : lifecycle s1) by (eapply serial_lifecycle; [exact H1|apply init_lifecycle]).
    destruct (run_step_work a i s1 s2 r1 Hlc (serial_sized _ _ _ H1) Hrun Hr1) as (r3 & Hr3 & Hw).
    rewrite Hr2 in Hr3. injection Hr3 as <-. unfold work in *. rewrite Hc2. simpl. lia.
  - rewrite filter_cons_False by done. destruct (Hother Hne) as (Hp & _). unfold work in *. rewrite Hc2, Hp.
    pose proof (work_clock (r_cfg r1) _ _ (r_phase r1) Hclock). simpl. lia.
Qed.

End Waits.

(** C38: every run ends, as far as it is up to the engine.  Take any state that is
    reachable with no start accepted while a failed run is in its deferred function,
    and a run in it that was cancelled or has a positive duration; let anything
    happen after it under the same restriction (worker traffic, periodic ticks, API
    calls, other runs).  The run takes at most [work] steps of its own, a number
    fixed by where it stood, and once it has taken that many it has returned.  Until
    then its next step is enabled for every answer that comes late enough, unless it
    stands at the Wait of a wait group that is not at zero.  In that case every
    goroutine the group counts has had its CancelFunc called, so it can return, and
    returning takes one away; and nothing that anyone else does adds one. *)
Theorem run_ends `{HdrHistogram} getenv now tr0 s i r tr s' :
  serial getenv (init_system now) tr0 s -> runs s !! i = Some r -> bounded r ->
  serial getenv s tr s' ->
  exists r', runs s' !! i = Some r' /\
    (moves i tr <= work s r)%nat /\ (moves i tr = work s r -> r_phase r' = Ended) /\
    (r_phase r' = Ended \/ (0 < pending (eng s') r')%nat \/
     forall a, timely s' r' a -> exists s'', run_step getenv a i s' = Some s'') /\
    (forall t, t ∈ awaited_tasks r' -> r_halted r' = true /\
       exists s'', leave_step t i s' = Some s'' /\ below i s'' (pending (eng s') r')) /\
    (forall t, t ∈ awaited (eng s') r' -> th_halted t = true /\
       exists n s'', threads (eng s') !! n = Some t /\ return_step n s' = Some s'' /\
         below i s'' (pending (eng s') r')) /\
    (forall l s'', sys_step getenv s' l s'' -> l <> LRun i -> below i s'' (S (pending (eng s') r'))).
Proof.
  intros H0 Hi Hb Hs.
  pose proof (serial_trans _ _ _ _ _ _ H0 Hs) as H1.
  assert (Hlc : lifecycle s') by (eapply serial_lifecycle; [exact H1|apply init_lifecycle]).
  destruct (serial_work getenv now tr0 s tr s' i r H0 Hs Hi) as (r' & Hr' & [Hc Hk] & Hw).
  assert (Hu : unbounded_ok r').
  { eapply (steps_unbounded getenv (init_system now) (tr0 ++ tr)); [by apply serial_steps| |exact Hr']. by intros [|k] r0. }
  assert (Hwait : waits_in (r_phase r') (r_halted r') (eng s')).
  { destruct (decide (S i = length (runs s'))) as [Hl|Hl]; [by apply (serial_waits getenv now _ s' H1 i)|].
    destruct (lc_runs _ Hlc i r' Hr') as [_ Hold _ _]. apply lookup_lt_Some in Hr'.
    assert (Ho : over (r_phase r')) by (apply Hold; lia). by destruct (r_phase r'). }
  exists r'. split; [done|]. split; [lia|]. split; [intros Hm; apply (work_Ended s'); lia|].
  split_and!.
  - destruct (pending (eng s') r') as [|n] eqn:Hn; [|right; left; lia].
    assert (r_phase r' = Ended \/ r_phase r' <> Ended) as [?|Hne] by (destruct (r_phase r'); by auto); [by left|].
    right; right. intros a Ha. apply (run_step_enabled getenv s' i r'); try done.
    destruct Hb as [?|?]; [left; auto|right; by rewrite Hc].
  - intros t. by apply task_below.
  - intros t. by apply thread_below.
  - intros l s'' Hl Hne. destruct (sys_step_kept getenv l s' s'' i r' Hl Hr') as (r2 & Hr2 & _ & _ & Hst).
    exists r2. split; [done|]. apply Nat.lt_succ_r.
    assert (over (r_phase r') \/ ~ over (r_phase r')) as [Ho|Hno] by (destruct (r_phase r'); cbn; tauto).
    + destruct (Hst Hne) as (Hp & _). unfold pending, awaited_tasks, awaited. rewrite Hp.
      destruct (r_phase r'); try done; cbn; lia.
    + apply awaited_left; [by eapply others_threads|by apply Hst].
Qed.

(** ** Concrete runs *)

Section Demo.
#[local] Existing Instance list_histogram.

(** The run of [demo_run_cfg] waiting for its producer, and past that. *)
Lemma run_ends_witness : exists tr0 s r tr s' r',
  serial no_env (init_system 1) tr0 s /\ runs s !! 0%nat = Some r /\ r_phase r = Build /\ work s r = 272%nat /\
  serial no_env s tr s' /\ runs s' !! 0%nat = Some r' /\ (moves 0 tr <= 272)%nat /\
  length (awaited (eng s') r') = 1%nat /\
  forall t, t ∈ awaited (eng s') r' -> exists n s'', return_step n s' = Some s'' /\ below 0 s'' 1.
Proof.
  set (s := (StartRunFromConfig 1 [171] demo_run_cfg (init_system 1)).1).
  assert (E1 : play_serial no_env (demo_run 0) (init_system 1) = Some s) by reflexivity.
  destruct (play_serial_serial no_env _ _ _ E1) as [tr0 H0].
  assert (E2 : match play_serial no_env (demo_steps true 0 53 1) s with
    | Some s' => match runs s' !! 0%nat with Some r' => length (awaited (eng s') r') = 1%nat /\ pending (eng s') r' = 1%nat | None => False end
    | None => False end) by (vm_compute; split; reflexivity).
  destruct (play_serial no_env (demo_steps true 0 53 1) s) as [s'|] eqn:E3; [|destruct E2].
  destruct (play_serial_serial no_env _ _ _ E3) as [tr Hs].
  set (r := new_run demo_run_cfg).
  assert (Hr : runs s !! 0%nat = Some r) by reflexivity.
  assert (Hb : bounded r) by (right; vm_compute; reflexivity).
  assert (Hw : work s r = 272%nat) by (vm_compute; reflexivity).
  destruct (run_ends no_env 1 tr0 s 0 r tr s' H0 Hr Hb Hs) as (r' & Hr' & Hm & _ & _ & _ & Hth & _).
  rewrite Hr' in E2. destruct E2 as [E2 E4]. rewrite Hw in Hm. rewrite E4 in Hth.
  exists tr0, s, r, tr, s', r'.
  split; [exact H0|]. split; [exact Hr|]. split; [reflexivity|]. split; [exact Hw|].
  split; [exact Hs|]. split; [exact Hr'|]. split; [exact Hm|]. split; [exact E2|].
  intros t Ht. destruct (Hth t Ht) as (_ & n & s'' & _ & Hret & Hbelow). exists n, s''. by split.
Defined.

(** A run that fails in the readiness wait leaves its consumers running: neither
    their CancelFunc nor that of the run has been called, StopRun refuses in the
    state it leaves, and the next start takes the engine's reference to the run's. *)
Definition never_ready (t : Z) : action :=
  DoRun (mk_answer t (a_start (demo_answer true t)) (fun _ => false) false 0 AllWorkerNames) 0.

Definition failed_start : option System :=
  play no_env (DoStart 1 [171] demo_run_cfg :: map (fun k => never_ready (Z.of_nat k)) (List.seq 1 11)) (init_system 1).

Example failed_run_leaks :
  match failed_start with
  | Some s => summary s = (StateError, [Ended], None) /\
      map (context_done s) (threads (eng s)) = [false; false] /\ is_Some (StopRun s).2 /\
      runCancel (eng (StartRunFromConfig 100 [172] demo_run_cfg s).1) = Some 1%nat
  | None => False
  end.
Proof. vm_compute. split_and!; try done; by eexists. Qed.

End Demo.
