(* ===== verification/HeardRun.v ===== *)
(** * What a run heard

    Executions of the system that keep, for every worker, the records delivered to
    it before and after the reset that ends the warmup.  Every execution is one of
    them, and in each the workers' tallies are those of what they heard. *)

From S2P Require Import Prelude Float64 GoStr Config Metrics Transport Verdict VerdictFacts VerdictTable Tracker Worker WorkerFacts Loops WorkerGroup WorkerGroupFacts Heard Snapshot SnapshotFacts Engine EngineFacts EngineLift Lifecycle Window EngineTypes Main MainFacts.
Local Open Scope string_scope.
Local Open Scope Z_scope.
Local Open Scope list_scope.

Section Logged.
Context `{HdrHistogram} (getenv : string -> string) (now : Z).

(** Per worker type and channel: the deliveries before the reset, and since. *)
Definition log : Type := string -> nat -> list delivery * list delivery.
Definition silence : log := fun _ _ => ([], []).
Definition hear_at (name : string) (k : nat) (ds : list delivery) (L : log) : log := fun n i =>
  if bool_decide (n = name /\ i = k) then ((L n i).1, (L n i).2 ++ ds) else L n i.
Definition forget (L : log) : log := fun n i => ((L n i).1 ++ (L n i).2, []).
Definition log_phase (p : phase) (L : log) : log :=
  match p with Build => silence | WarmupReset => forget L | _ => L end.

(** The steps of the system, with the log. *)
Inductive logged_step (s : System) (L : log) : label -> System -> log -> Prop :=
  | logged_worker name g k a ds a' :
      groups_of (eng s) !! name = Some g -> g_workers g !! k = Some a -> turn a ds a' ->
      logged_step s L LWorker
        (s <| eng := update_group name (mk_WorkerGroup (g_name g) (<[ k := a' ]> (g_workers g))) (eng s) |>)
        (hear_at name k ds L)
  | logged_run a i r s' : runs s !! i = Some r -> run_step getenv a i s = Some s' ->
      logged_step s L (LRun i) s' (log_phase (r_phase r) L)
  | logged_other l s' : sys_step getenv s l s' ->
      match l with LRun _ | LWorker => False | _ => True end -> logged_step s L l s' L.

Lemma logged_step_iff s L l s' : sys_step getenv s l s' <-> exists L', logged_step s L l s' L'.
Proof.
  split.
  - intros Hs. inversion Hs as [a i s1 Hr|t a i s1 Ht|e' [name g k a a' Hg Hk Ha]|t random c s1 err Hst|s1 err Hst|t Hc|n s1 Hst|t i s1 Hst];
      subst; try (exists L; by constructor).
    + unfold run_step in Hr. destruct (runs s !! i) as [r|] eqn:Hi; [|discriminate Hr].
      exists (log_phase (r_phase r) L). apply (logged_run s L a i r s' Hi). unfold run_step. by rewrite Hi.
    + apply turn_activity in Ha as [ds Hd]. exists (hear_at name k ds L). by apply (logged_worker s L name g k a ds a').
  - intros [L' Hl]. destruct Hl as [name g k a ds a' Hg Hk Ht|a i r s' Hi Hr|l s' Hs _]; [|by eapply step_run|done].
    apply step_worker, (worker_turn _ name g k a a' Hg Hk). apply turn_activity. by exists ds.
Qed.

(** The executions in which a start is accepted only when no run is about to enter
    its deferred function, with their logs. *)
Inductive logged : list label -> System -> log -> Prop :=
  | logged_nil : logged [] (init_system now) silence
  | logged_snoc tr s L l s' L' : logged tr s L -> panicked s = false -> logged_step s L l s' L' ->
      (l = LStart true -> Lifecycle.settled s) -> logged (tr ++ [l]) s' L'.

Lemma serial_logged tr s : serial getenv (init_system now) tr s <-> exists L, logged tr s L.
Proof.
  split.
  - intros Hs. remember (init_system now) as s0 eqn:E. induction Hs as [s|s tr s1 l s2 Hs IH Hp Hl Hset]; subst.
    + exists silence. constructor.
    + destruct (IH eq_refl) as [L HL]. apply (logged_step_iff s1 L) in Hl as [L' Hl']. exists L'. by econstructor.
  - intros [L HL]. induction HL as [|tr s L l s' L' HL IH Hp Hl Hset]; [constructor|].
    econstructor; [exact IH|done| |done]. apply (logged_step_iff s L). by exists L'.
Qed.

(** ** The log explains the tallies *)

Definition agrees (L : log) (gs : Groups) : Prop := forall name g k a,
  gs !! name = Some g -> g_workers g !! k = Some a ->
  tally_of a = heard (kind a) (L name k).1 (L name k).2.

Definition same_tally (a a' : AnyWorker) : Prop := kind a' = kind a /\ tally_of a' = tally_of a.

#[export] Instance same_tally_ops : EngineOps same_tally.
Proof.
  split.
  - split; [done|]. intros a b c [H1 H2] [H3 H4]. split; congruence.
  - intros env a a' gs Hs. split; [by destruct (same_worker_Start env a a' gs Hs)|by eapply tally_Start].
  - intros a. split; [by destruct (same_worker_StopProducers a)|apply tally_StopProducers].
  - intros r a. split; [by destruct (same_worker_settle r a)|apply tally_settle].
  - intros a. split; [by destruct (same_worker_StopConsumers a)|apply tally_StopConsumers].
  - intros a. split; [by destruct a|by apply tally_of_upd].
  - intros a. split; [by destruct a|by apply tally_of_upd].
  - intros a. split; [by destruct a|by apply tally_of_upd].
Qed.

Lemma agrees_groups L gs gs' : groups_rel same_tally gs gs' -> agrees L gs -> agrees L gs'.
Proof.
  intros Hr Ha name g' k a' Hg Hk. specialize (Hr name). rewrite Hg in Hr.
  inversion Hr as [g ? [_ Hf] E|]; subst. eapply Forall2_lookup_r in Hf as (a & Hka & [Hkind Ht]); [|exact Hk].
  rewrite Hkind, Ht. by eapply Ha.
Qed.

Lemma agrees_engine L e e' : engine_rel same_tally e e' -> agrees L (groups_of e) -> agrees L (groups_of e').
Proof.
  intros Hr. apply agrees_groups. unfold groups_of. by destruct Hr.
Qed.

(** A worker takes a turn. *)
Lemma agrees_turn L gs name g k a ds a' : gs !! name = Some g -> g_workers g !! k = Some a -> turn a ds a' ->
  agrees L gs ->
  agrees (hear_at name k ds L) (<[ name := mk_WorkerGroup (g_name g) (<[ k := a' ]> (g_workers g)) ]> gs).
Proof.
  intros Hg Hk Ht Ha n g' i b Hg' Hi. unfold hear_at. case_bool_decide as Hd.
  - destruct Hd as [-> ->]. rewrite lookup_insert_eq in Hg'. injection Hg' as <-. cbn [g_workers] in Hi.
    rewrite list_lookup_insert_eq in Hi by (by apply lookup_lt_Some in Hk). injection Hi as <-.
    destruct (turn_tally a ds a' Ht) as [-> ->]. rewrite (Ha _ _ _ _ Hg Hk). apply heard_app.
  - destruct (decide (n = name)) as [->|Hne].
    + rewrite lookup_insert_eq in Hg'. injection Hg' as <-. cbn [g_workers] in Hi.
      rewrite list_lookup_insert_ne in Hi by (intros ->; by apply Hd). by eapply Ha.
    + rewrite lookup_insert_ne in Hg' by done. by eapply Ha.
Qed.

Lemma agrees_reset L gs : agrees L gs -> agrees (forget L) (upd_workers (upd_base ResetAfterWarmup) <$> gs).
Proof.
  intros Ha n g' k b Hg Hk. rewrite lookup_fmap in Hg. destruct (gs !! n) as [g|] eqn:Hn; [|done].
  injection Hg as <-. cbn [upd_workers g_workers] in Hk. rewrite list_lookup_fmap in Hk.
  destruct (g_workers g !! k) as [a|] eqn:Hka; [|done]. injection Hk as <-.
  etrans; [apply tally_reset|]. rewrite (Ha _ _ _ _ Hn Hka), heard_reset. by destruct a.
Qed.

Lemma agrees_built c gs : build_groups getenv c = Some gs -> agrees silence gs.
Proof.
  assert (Hl : forall names acc gs, agrees silence acc -> build_loop getenv c names acc = Some gs -> agrees silence gs).
  { induction names as [|n names IH]; intros acc gs' Hacc Hb; cbn [build_loop] in Hb; [by injection Hb as <-|].
    destruct (GetWorkerConfig c n) as [wc|]; [|by eapply IH]. destruct (Config.Enabled wc); cbn [negb] in Hb; [|by eapply IH].
    destruct (NewWorkerGroup getenv n c) as [g|] eqn:Eg; [|discriminate Hb]. cbn [mbind option_bind] in Hb.
    eapply IH; [|exact Hb]. intros name g' k a Hg Hk. destruct (decide (n = name)) as [->|Hne].
    - rewrite lookup_insert_eq in Hg. injection Hg as <-. apply NewWorkerGroup_tally in Eg.
      rewrite Forall_lookup in Eg. by rewrite (Eg k a Hk).
    - rewrite lookup_insert_ne in Hg by done. by eapply Hacc. }
  apply Hl. intros name g k a Hg. by rewrite lookup_empty in Hg.
Qed.

Lemma groups_of_with f e : groups_of (with_groups f e) = match workerGroups e with Some gs => f gs | None => ∅ end.
Proof. unfold groups_of, with_groups. change (workerGroups (e <| workerGroups ::= option_map f |>)) with (option_map f (workerGroups e)). by destruct (workerGroups e). Qed.

Lemma phase_step_agrees a c x p e e' p' L : phase_step getenv a c x p e = Some (e', p') ->
  agrees L (groups_of e) -> agrees (log_phase p L) (groups_of e').
Proof.
  intros Hp Ha.
  assert (p = Build \/ p = WarmupReset \/ (p <> Build /\ p <> WarmupReset)) as [->|[->|[Hb Hw]]] by (destruct p; by auto).
  - cbn [phase_step] in Hp. destruct (build_groups getenv c) as [gs|] eqn:Eg; [|discriminate Hp].
    injection Hp as <- _. by eapply agrees_built.
  - phase_inv Hp. cbn [log_phase].
    change (groups_of (emits ?evs ?x)) with (groups_of x). unfold map_groups. rewrite groups_of_with.
    unfold groups_of in Ha. destruct (workerGroups e) as [gs|]; [by apply agrees_reset|].
    intros name g k w Hg. by rewrite lookup_empty in Hg.
  - replace (log_phase p L) with L by (destruct p; done).
    eapply agrees_engine; [|exact Ha]. exact (phase_step_lift getenv same_tally _ _ _ _ _ _ _ Hb Hw Hp).
Qed.

Lemma logged_step_agrees s L l s' L' : logged_step s L l s' L' -> agrees L (groups_of (eng s)) ->
  agrees L' (groups_of (eng s')).
Proof.
  intros Hs Ha. destruct Hs as [name g k a ds a' Hg Hk Ht|a i r s' Hi Hr|l s' Hs Hl].
  - change (eng (s <| eng := ?e |>)) with e. unfold update_group. rewrite groups_of_with. unfold groups_of in Hg, Ha.
    destruct (workerGroups (eng s)) as [gs|]; [by apply (agrees_turn L gs name g k a)|].
    cbn [default from_option] in Hg. by rewrite lookup_empty in Hg.
  - apply run_step_inv in Hr as (r' & Hi' & _ & [(d & Hph & ->)|(e & p & Hst & ->)]); rewrite Hi in Hi'; injection Hi' as <-.
    + rewrite Hph. cbn [log_phase]. unfold close_done. destruct d; repeat case_match; exact Ha.
    + by eapply phase_step_agrees.
  - destruct Hs as [a i s' Hs|t a i s' Ht|e' Hw|t random c s' err Hs|s' err Hs|t Hn|n s' Hs|t i s' Hs]; [done| |done|..].
    + apply tick_step_inv in Ht as (r & e & r2 & _ & _ & _ & Hk & ->).
      eapply agrees_engine; [|exact Ha]. pose proof (task_step_lift same_tally t a r (eng s)) as Hrel. by rewrite Hk in Hrel.
    + unfold StartRunFromConfig in Hs. by destruct (negb _); injection Hs as <- <-.
    + unfold StopRun in Hs. destruct (_ && _); injection Hs as <- <-; [done|].
      unfold cancel. by destruct (runCancel (eng s)).
    + done.
    + by apply return_step_inv in Hs as (t & _ & _ & ->).
    + by apply leave_step_inv in Hs as (r & _ & _ & _ & ->).
Qed.

Lemma logged_agrees tr s L : logged tr s L -> agrees L (groups_of (eng s)).
Proof.
  induction 1 as [|tr s L l s' L' HL IH Hp Hl Hset]; [|by eapply logged_step_agrees].
  replace (groups_of (eng (init_system now))) with (∅ : Groups) by done.
  intros name g k a Hg. by rewrite lookup_empty in Hg.
Qed.

End Logged.

(** ** What a passing group heard *)

Section Passed.
Context `{HdrHistogram}.

(** A quantity of each channel of a group, summed. *)
Definition over (L : log) (name : string) (g : WorkerGroup) (f : list delivery -> list delivery -> Z) : Z :=
  zsum (map (fun k => f (L name k).1 (L name k).2) (List.seq 0 (length (g_workers g)))).

(** The records delivered since the reset. *)
Definition traffic (L : log) (name : string) (g : WorkerGroup) : Z :=
  over L name g (fun _ since => Z.of_nat (length since)).

(** No record was corrupted; no more went back in their partition, or came from an
    aborted transaction, than the run tolerates. *)
Definition heard_passed (c : Config) (L : log) (name : string) (g : WorkerGroup) : Prop :=
  (forall k, (k < length (g_workers g))%nat -> Forall (fun d => is_corrupt name d = false) (L name k).2) /\
  (IsKeyedWorker name = true ->
   over L name g (fun before since => KO.violations (rev (offsets_of before)) (offsets_of since))
     <= MaxOffsetOrderViolations (Thresholds c)) /\
  (IsTransactionsWorker name = true ->
   over L name g (fun _ since => count (is_leak name) since) <= MaxEOSViolations (Thresholds c)).

Lemma zsum_bounds (f h : nat -> Z) l : (forall k, k ∈ l -> 0 <= f k <= h k) -> 0 <= zsum (map f l) <= zsum (map h l).
Proof.
  induction l as [|k l IH]; intros Hf; cbn [map zsum foldr]; [lia|]. fold (zsum (map f l)) (zsum (map h l)).
  pose proof (Hf k ltac:(by left)). assert (0 <= zsum (map f l) <= zsum (map h l)) by (apply IH; intros; apply Hf; by right). lia.
Qed.

Lemma zsum_elem (f : nat -> Z) l k : (forall k, k ∈ l -> 0 <= f k) -> k ∈ l -> f k <= zsum (map f l).
Proof.
  induction l as [|j l IH]; intros Hf; [by intros ?%elem_of_nil|]. cbn [map zsum foldr]. fold (zsum (map f l)).
  destruct (zsum_bounds (fun _ => 0) f l) as [Hs Hs']; [intros i Hi; specialize (Hf i ltac:(by right)); lia|].
  pose proof (Hf j ltac:(by left)). intros [<-|Hk]%elem_of_cons; [lia|].
  assert (f k <= zsum (map f l)) by (apply IH; [intros; apply Hf; by right|done]). lia.
Qed.

Lemma sum_of_channels counter ws f :
  (forall k a, ws !! k = Some a -> counter (base a) = f k) -> sum_of counter ws = zsum (map f (List.seq 0 (length ws))).
Proof.
  revert f. induction ws as [|a ws IH]; intros f Hf; [done|].
  transitivity (f 0%nat + zsum (map f (map S (List.seq 0 (length ws))))); [|by rewrite List.seq_shift].
  rewrite map_map, <- (IH (fun k => f (S k))) by (intros k b Hk; by apply (Hf (S k))).
  by rewrite <- (Hf 0%nat a eq_refl).
Qed.

(** A counter that is what was heard, modulo 2^64, and cannot have wrapped. *)
Lemma total_heard L name g counter (f : list delivery -> list delivery -> Z) :
  (forall k a, g_workers g !! k = Some a -> counter (base a) = u64_wrap (f (L name k).1 (L name k).2)) ->
  (forall before since, 0 <= f before since <= Z.of_nat (length since)) -> traffic L name g < 2 ^ 63 ->
  u64_wrap (sum_of counter (g_workers g)) = over L name g f /\ 0 <= over L name g f < 2 ^ 63 /\
  forall k, (k < length (g_workers g))%nat -> f (L name k).1 (L name k).2 <= over L name g f.
Proof.
  intros Hc Hf Ht. set (ks := List.seq 0 (length (g_workers g))).
  set (F k := f (L name k).1 (L name k).2). set (N k := Z.of_nat (length (L name k).2)).
  change (zsum (map N ks) < 2 ^ 63) in Ht. change (over L name g f) with (zsum (map F ks)).
  assert (HF : forall k, 0 <= F k <= N k) by (intros; apply Hf).
  pose proof (zsum_bounds F N ks ltac:(auto)) as Hb.
  assert (Hin : forall k, (k < length (g_workers g))%nat -> F k <= zsum (map F ks)).
  { intros k Hk. apply zsum_elem; [intros; apply HF|]. apply elem_of_seq. lia. }
  split_and!; [|lia|lia|done].
  rewrite (sum_of_channels counter (g_workers g) F); [fold ks; unwrap; lia|].
  intros k a Hk. rewrite (Hc k a Hk). apply u64_wrap_id. apply lookup_lt_Some in Hk. specialize (Hin k Hk).
  specialize (HF k). unfold u64_ok. fold (F k). lia.
Qed.

Lemma group_kind getenv name c g k a : group_typed getenv name c g -> g_workers g !! k = Some a -> kind a = name.
Proof.
  intros [_ Ht] Hk. eapply Forall2_lookup_r in Ht as (i & _ & [Hkind _]); [exact Hkind|exact Hk].
Qed.

(** The gates on the counters are gates on the deliveries. *)
Lemma passed_heard getenv c md L gs name g : agrees L gs -> gs !! name = Some g -> group_typed getenv name c g ->
  group_passed c md name g -> traffic L name g < 2 ^ 63 -> heard_passed c L name g.
Proof.
  intros Ha Hg Ht (Hcor & Hlate & _ & Heos & _) Htr.
  assert (Hk : forall k a, g_workers g !! k = Some a -> tally_of a = heard name (L name k).1 (L name k).2).
  { intros k a Hk. rewrite (Ha _ _ _ _ Hg Hk). by rewrite (group_kind _ _ _ _ _ _ Ht Hk). }
  assert (Hcounts := fun k => heard_counts name (L name k).1 (L name k).2).
  split_and!.
  - destruct (total_heard L name g CorruptedCount (fun _ since => count (is_corrupt name) since)) as (E & _ & Hle); [|intros; apply count_le|done|].
    { intros k a Hka. destruct (Hcounts k) as (<- & _ & _). by rewrite <- (Hk k a Hka). }
    rewrite E in Hcor. rewrite Hcor in Hle. intros k Hlt. apply count_zero.
    specialize (Hle k Hlt). pose proof (count_le (is_corrupt name) (L name k).2). lia.
  - intros Hkey. specialize (Hlate Hkey).
    destruct (total_heard L name g offsetOrderViolations
      (fun before since => KO.violations (rev (offsets_of before)) (offsets_of since))) as (E & Hb & _); [| |done|].
    + intros k a Hka. destruct (Hcounts k) as (_ & _ & Hl). rewrite <- (Hl Hkey). by rewrite <- (Hk k a Hka).
    + intros before since. split; [apply KO.violations_nonneg|]. etrans; [apply KO.violations_le|].
      unfold offsets_of. by rewrite length_map.
    + rewrite E in Hlate. rewrite i64_wrap_id in Hlate by (unfold i64_ok; lia). exact Hlate.
  - intros Htx. specialize (Heos Htx).
    destruct (total_heard L name g eosViolations (fun _ since => count (is_leak name) since)) as (E & Hb & _); [|intros; apply count_le|done|].
    { intros k a Hka. destruct (Hcounts k) as (_ & <- & _). by rewrite <- (Hk k a Hka). }
    rewrite E in Heos. rewrite i64_wrap_id in Heos by (unfold i64_ok; lia). exact Heos.
Qed.

End Passed.

(** C7: a good exit code is earned by the records delivered.  Take any process in
    which no start is accepted while a failed run is in its deferred function (what
    such a start does to the run in progress is outside this theorem); whatever the
    flags, the API calls, the signals and the traffic, main exits with 0, 1 or 2; and
    an exit with 0 or 2 means that the process went through a capture (producers
    stopped, consumers drained, gaps detected) with a group for every enabled worker
    type, of the right type and size, which passed every gate of the run's
    configuration over the run's own measurement window, from the start of its
    producers to their stop: no row of the table trips.  That window is not negative,
    and unless the run was cancelled it is at least the configured duration.  Of the
    records the consumers of such a group were given since the reset after the warmup,
    fewer than 2^63, none had a body that does not match its hash; over the channels of
    keyed_ordering no more than the configured number failed to go past every earlier
    offset of their partition, warmup included; and over those of transactions_eos no
    more than the configured number came from an aborted transaction. *)
Theorem exit_code_heard `{HdrHistogram} getenv now cfg auto p code :
  process_reach getenv now cfg auto p -> main p = Exited code ->
  (code = 0 \/ code = 1 \/ code = 2) /\
  (code <> 1 -> exists tr s L tr' i r gs,
     logged getenv now tr s L /\ serial getenv s tr' (sys p) /\
     runs s !! i = Some r /\ r_phase r = Capture /\ workerGroups (eng s) = Some gs /\
     producersStartedAt (eng s) <= producersStoppedAt (eng s) /\
     (r_cancelled r = false -> 0 < DurationParsed (r_cfg r) ->
        DurationParsed (r_cfg r) <= producersStoppedAt (eng s) - producersStartedAt (eng s)) /\
     forall name, name ∈ AllWorkerNames -> enabled_in (r_cfg r) name ->
       exists g, gs !! name = Some g /\ group_typed getenv name (r_cfg r) g /\
         group_passed (r_cfg r) (time_Sub (producersStoppedAt (eng s)) (producersStartedAt (eng s))) name g /\
         (traffic L name g < 2 ^ 63 -> heard_passed (r_cfg r) L name g)).
Proof.
  intros Hr Hm. destruct (process_evidence getenv now cfg auto p Hr) as [_ He].
  rewrite Hm in He. destruct He as [Hcode He]. split; [done|]. intros Hne.
  destruct (He Hne) as (c & gs & w & v & (tr & s & tr' & i & r & Hs & Hs' & Hi & Hl & Hph & <- & <- & Hgs & Ht) & Hj & Hp).
  pose proof (serial_window getenv now tr s Hs i r Hi Hl) as Hwin. rewrite Hph in Hwin. destruct Hwin as [Hw1 Hw2].
  apply serial_logged in Hs as [L HL]. exists tr, s, L, tr', i, r, gs. split_and!; [done..|].
  intros name Hname Hen. pose proof (Ht name) as Hty.
  destruct (gs !! name) as [g|] eqn:Hg; [|by destruct (Hty Hname)]. destruct Hty as (_ & _ & Hty).
  pose proof (judged_passed (r_cfg r) gs (times (eng s)) v name g Hj Hp Hname Hg) as Hpass.
  exists g. split_and!; [done..|]. intros Htr. eapply (passed_heard getenv (r_cfg r) _ L gs name g); [|done..].
  apply (logged_agrees getenv now tr s L) in HL. unfold groups_of in HL. by rewrite Hgs in HL.
Qed.

(** ** Concrete processes *)

Section Demo.
#[local] Existing Instance list_histogram.

(** A fresh consumer of channel [k] of produce_round_trip fetches a batch. *)
Definition fetch (k : nat) (rs : list KRecord) (s : System) : option System :=
  g ← groups_of (eng s) !! WorkerProduceRoundTrip;
  match g_workers g !! k with
  | Some (ARoundTrip w) =>
    let env := mk_consume_env false true 0 true (PollRecords [(0, map (fun r => (9, r)) rs)]) true false in
    let w' := plain_turn generation (fun _ => RT.handleRecord) env w (mk_consumer 0 false) in
    Some (s <| eng := update_group WorkerProduceRoundTrip
            (mk_WorkerGroup (g_name g) (<[ k := ARoundTrip w' ]> (g_workers g))) (eng s) |>)
  | _ => None
  end.

Lemma fetch_step k rs s s' : fetch k rs s = Some s' -> sys_step no_env s LWorker s'.
Proof.
  unfold fetch. destruct (groups_of (eng s) !! WorkerProduceRoundTrip) as [g|] eqn:Hg; [|done].
  cbn [mbind option_bind]. destruct (g_workers g !! k) as [[w| | | | |]|] eqn:Hk; try done. intros [= <-].
  apply step_worker, (worker_turn _ _ g k (ARoundTrip w)); [done..|]. apply turn_activity. eexists. apply turn_rt.
Qed.

Definition fetches (k : nat) (rs : list KRecord) (p : Process) : option Process :=
  match main p with
  | Exited _ => None
  | _ => if panicked (sys p) then None else s ← fetch k rs (sys p); Some (mk_Process s (main p))
  end.

Lemma fetches_reach cfg k rs p p' : process_reach no_env 1 cfg true p -> fetches k rs p = Some p' ->
  process_reach no_env 1 cfg true p'.
Proof.
  intros Hr Hf. unfold fetches in Hf.
  assert (Hne : forall code, main p <> Exited code) by (intros code Ec; by rewrite Ec in Hf).
  assert (Hx : panicked (sys p) = false /\ exists s, fetch k rs (sys p) = Some s /\ p' = mk_Process s (main p)).
  { destruct (panicked (sys p)), (fetch k rs (sys p)) as [s|], (main p); try discriminate Hf;
      injection Hf as <-; by eauto. }
  destruct Hx as (Hp & s & Hs & ->). eapply reach_next; [done..|].
  apply (step_sys _ _ _ _ LWorker); [by eapply fetch_step|done].
Qed.

(** The bounded run of [demo_run_cfg]: 44 steps to the running phase, a batch, the
    rest. *)
Definition run_with (rs : list KRecord) : option Process :=
  p ← moves_of demo_run_cfg ([MMain (quiet 1)] ++ map MSys (demo_steps true 0 44 1)) (mk_Process (init_system 1) Launching);
  p ← fetches 0 rs p;
  moves_of demo_run_cfg (map MSys (drop 44 (demo_steps true 0 81 1)) ++ replicate 4 (MMain (quiet 1))) p.

Lemma run_with_reach rs p : run_with rs = Some p -> process_reach no_env 1 demo_run_cfg true p.
Proof.
  unfold run_with. destruct (moves_of _ _ (mk_Process _ _)) as [p1|] eqn:E1; [|done]. cbn [mbind option_bind].
  destruct (fetches 0 rs p1) as [p2|] eqn:E2; [|done]. cbn [mbind option_bind]. intros E3.
  eapply moves_reach; [|exact E3]. eapply fetches_reach; [|exact E2]. eapply moves_reach; [|exact E1]. constructor.
Qed.

Definition exit_of (o : option Process) : option Z :=
  p ← o; match main p with Exited code => Some code | _ => None end.

(** One corrupted record in the measured window, and the process exits with 1. *)
Example corruption_exits_1 : exit_of (run_with [demo_record 1 "abc" "abc"; demo_record 2 "abc" "abd"]) = Some 1.
Proof. vm_compute. reflexivity. Qed.

Lemma exit_code_heard_witness : exists p,
  run_with [demo_record 1 "abc" "abc"; demo_record 2 "abc" "abc"] = Some p /\
  exists tr s L tr' i r gs,
     logged no_env 1 tr s L /\ serial no_env s tr' (sys p) /\
     runs s !! i = Some r /\ r_phase r = Capture /\ workerGroups (eng s) = Some gs /\
     producersStartedAt (eng s) <= producersStoppedAt (eng s) /\
     (r_cancelled r = false -> 0 < DurationParsed (r_cfg r) ->
        DurationParsed (r_cfg r) <= producersStoppedAt (eng s) - producersStartedAt (eng s)) /\
     forall name, name ∈ AllWorkerNames -> enabled_in (r_cfg r) name ->
       exists g, gs !! name = Some g /\ group_typed no_env name (r_cfg r) g /\
         group_passed (r_cfg r) (time_Sub (producersStoppedAt (eng s)) (producersStartedAt (eng s))) name g /\
         (traffic L name g < 2 ^ 63 -> heard_passed (r_cfg r) L name g).
Proof.
  assert (E : exit_of (run_with [demo_record 1 "abc" "abc"; demo_record 2 "abc" "abc"]) = Some 0) by (vm_compute; reflexivity).
  pose proof (run_with_reach [demo_record 1 "abc" "abc"; demo_record 2 "abc" "abc"]) as Hr.
  destruct (run_with [demo_record 1 "abc" "abc"; demo_record 2 "abc" "abc"]) as [p|]; [|discriminate E].
  assert (Em : main p = Exited 0) by (cbn in E; destruct (main p); congruence).
  exists p. split; [reflexivity|].
  exact (proj2 (exit_code_heard no_env 1 demo_run_cfg true p 0 (Hr p eq_refl) Em) ltac:(discriminate)).
Defined.

End Demo.
