(* ===== verification/Disconnect.v ===== *)
(** * Forced disconnects (burnin/disconnect/disconnect.go)

    The manager, over any type of target.  The engine runs it as the
    [DisconnectTask] of Engine.v, its targets being every worker. *)

From S2P Require Import Prelude Float64 GoStr Config Metrics Worker Loops WorkerGroup.
Local Open Scope Z_scope.
Local Open Scope list_scope.

Class Target (T : Type) := DisconnectConsumers_ : T -> T.

Section Manager.
Context `{Target T}.

Record Manager := mk_Manager { interval : Z; duration : Z; targets : list T }.

Definition New (interval duration : Z) (targets : list T) : Manager := mk_Manager interval duration targets.

(** One turn of the loop: does the first select take the tick, and does the
    second one run to the end of the pause? *)
Record turn := mk_turn { t_tick : bool; t_pause : bool }.

Fixpoint run_loop (turns : list turn) (m : Manager) : Manager * list metric_event :=
  match turns with
  | [] => (m, [])
  | t :: turns =>
      if negb (t_tick t) then (m, [])
      else
        let m := mk_Manager (interval m) (duration m) (map DisconnectConsumers_ (targets m)) in
        if negb (t_pause t) then (m, [IncForcedDisconnect])
        else let '(m, evs) := run_loop turns m in (m, IncForcedDisconnect :: evs)
  end.

Definition Run (turns : list turn) (m : Manager) : Manager * list metric_event :=
  if interval m =? 0 then (m, []) else run_loop turns m.

(** The disconnects a run injects: one per tick taken before it returns. *)
Fixpoint injected (turns : list turn) : nat :=
  match turns with
  | [] => 0
  | t :: turns => if t_tick t then S (if t_pause t then injected turns else 0) else 0
  end%nat.

Lemma Run_injects turns m : interval m <> 0 ->
  targets (Run turns m).1 = Nat.iter (injected turns) (map DisconnectConsumers_) (targets m) /\
  (Run turns m).2 = replicate (injected turns) IncForcedDisconnect.
Proof.
  intros Hi. unfold Run. rewrite (proj2 (Z.eqb_neq _ _) Hi). clear Hi.
  revert m. induction turns as [|t turns IH]; intros m; [done|]. cbn [run_loop injected].
  destruct (t_tick t); [|done]. destruct (t_pause t); [|done]. cbn [negb].
  destruct (IH (mk_Manager (interval m) (duration m) (map DisconnectConsumers_ (targets m)))) as [H1 H2].
  destruct (run_loop turns _) as [m' evs]. cbn [fst snd targets] in *. rewrite H1, H2. split; [|done].
  by rewrite Nat.iter_succ_r.
Qed.

End Manager.

(** Every worker is a target. *)
#[export] Instance worker_target `{HdrHistogram} : Target AnyWorker := upd_base Worker.DisconnectConsumers.
