(* ===== verification/Api.v ===== *)
(** * The control API models (burnin/api/models.go) and the engine adapter (burnin/main.go)

    The overlay of a start request on the startup configuration, and the read
    models the adapter builds from the live workers.  encoding/json marshals a
    field unless it is tagged "-" (or is empty and tagged omitempty), refuses
    NaN and infinities, and unmarshals a present field over the old value. *)

From S2P Require Import Prelude Float64 GoStr Config ConfigFacts Metrics Transport Verdict Report Tracker Worker Loops WorkerGroup Snapshot Engine.
Local Open Scope string_scope.
Local Open Scope Z_scope.
Local Open Scope list_scope.

(** ** RunConfig *)

Record RunConfig := mk_RunConfig {
  rc_Duration : string; rc_Mode : string; rc_Kafka : option KafkaConfig;
  rc_Workers : option WorkersConfig; rc_Message : option MessageConfig;
  rc_Thresholds : option ThresholdsConfig; rc_ForcedDisconnect : option ForcedDisconnConfig
}.

(** var rc api.RunConfig *)
Definition empty_RunConfig : RunConfig := mk_RunConfig "" "" None None None None None.

Definition finite (f : float64) : bool :=
  match f with SpecFloat.S754_nan | SpecFloat.S754_infinity _ => false | _ => true end.

(** The encoder's error on the first unsupported float, if any. *)
Definition floats_ok (l : list float64) : result unit :=
  match filter (fun f => finite f = false) l with
  | [] => Ok tt
  | f :: _ => Err [Lit "json: unsupported value: "; FloatArg "%g" f]
  end.

Definition threshold_floats (t : ThresholdsConfig) : list float64 :=
  [MaxLossPct t; MaxDuplicationPct t; MaxP50LatencyMS t; MaxP95LatencyMS t; MaxP99LatencyMS t;
   MaxP999LatencyMS t; MinThroughputPct t; MaxErrorRatePct t; MaxMemoryGrowthFactor t; MaxDowntimePct t].

(** json.Marshal(base) followed by json.Unmarshal into a zero Config: the fields
    tagged "-" come out zero. *)
Definition json_copy (base : Config) : result Config :=
  _ ← floats_ok (ReconnectMultiplier (Recovery base) :: threshold_floats (Thresholds base));
  Ok (base <| DurationParsed := 0 |> <| WarmupDurationParsed := 0 |> <| ReportIntervalParsed := 0 |>
           <| ForcedDisconnInterval := 0 |> <| ForcedDisconnDuration := 0 |> <| ReconnectInterval := 0 |>
           <| ReconnectMaxInterval := 0 |> <| MaxDurationParsed := 0 |> <| Warnings := [] |>).

(** json.Marshal(rc) followed by json.Unmarshal over [cfg]: empty strings and nil
    pointers are omitted, a block that is there replaces all of the old one. *)
Definition json_overlay (rc : RunConfig) (cfg : Config) : result Config :=
  _ ← floats_ok (match rc_Thresholds rc with Some t => threshold_floats t | None => [] end);
  let text s old := if String.eqb s "" then old else s in
  Ok (cfg <| Duration ::= text (rc_Duration rc) |> <| Mode ::= text (rc_Mode rc) |>
          <| Kafka ::= fun old => default old (rc_Kafka rc) |>
          <| Workers ::= fun old => default old (rc_Workers rc) |>
          <| Message ::= fun old => default old (rc_Message rc) |>
          <| Thresholds ::= fun old => default old (rc_Thresholds rc) |>
          <| ForcedDisconnect ::= fun old => default old (rc_ForcedDisconnect rc) |>).

(** fmt.Errorf(prefix + ": %w", err) *)
Definition wrap {A} (prefix : string) (r : result A) : result A :=
  match r with Ok a => Ok a | Err e => Err (Lit prefix :: Lit ": " :: e) end.

(** The first error that is not a warning. *)
Definition first_error (errs : list message) : option message :=
  head (filter (fun e => is_warning e = false) errs).

Definition ToInternalConfig (labels : list string) (random : list Z) (rc : RunConfig) (base : Config)
    : result Config :=
  cfg ← wrap "marshal base config" (json_copy base);
  cfg ← wrap "marshal run config" (json_overlay rc cfg);
  cfg ← wrap "parse durations" (ParseDurationsPublic cfg);
  let cfg := if String.eqb (RunID cfg) "" then cfg <| RunID := RandomRunID random |> else cfg in
  match first_error (Validate labels cfg) with
  | Some e => Err (Lit "config validation: " :: e)
  | None => Ok cfg
  end.

(** ** The read models *)

Module Model.

Record WorkerStatus := mk_WorkerStatus { Sent : Z; Received : Z; Errors : Z; Rate : float64 }.

(** [Workers = None]: the nil map. *)
Record RunStatus := mk_RunStatus {
  State : string; RunID : string; Uptime : float64; Workers : option (gmap string WorkerStatus)
}.

Record WorkerSnapshot := mk_WorkerSnapshot {
  ID : string; Worker : string; Channel : string;
  ws_Sent : Z; ws_Received : Z; ws_Errors : Z; ws_Rate : float64
}.

Record MetricsSnapshot := mk_MetricsSnapshot {
  TotalSent : Z; TotalReceived : Z; TotalErrors : Z; TotalLost : Z; TotalCorrupted : Z;
  TotalDuplicated : Z; TotalEOSViolations : Z; TotalOffsetOrderViolations : Z; UptimeSeconds : float64
}.

Record RunSnapshot := mk_RunSnapshot {
  rs_State : string; rs_RunID : string; rs_Config : option Config;
  rs_Workers : option (gmap string (list WorkerSnapshot)); rs_Metrics : MetricsSnapshot
}.

End Model.

Section Adapter.
Context `{HdrHistogram}.

Definition uptime (now : Z) (e : Engine) : float64 :=
  if IsZero (runStartedAt e) then fzero else Seconds (time_Sub now (runStartedAt e)).

Definition status_of (g : WorkerGroup) : Model.WorkerStatus :=
  let ws := g_workers g in
  Model.mk_WorkerStatus (add_all SentCount 0 ws) (add_all ReceivedCount 0 ws) (add_all ErrorCount 0 ws)
    (add_rates rate_of ws).

Definition RunStatus (now : Z) (e : Engine) : Model.RunStatus :=
  Model.mk_RunStatus (state e) (runID e) (uptime now e)
    (option_map (fun groups : Groups => status_of <$> groups) (workerGroups e)).

Definition snapshot_line (w : AnyWorker) : Model.WorkerSnapshot :=
  let b := base w in
  Model.mk_WorkerSnapshot (name b ++s "/" ++s channelName b) (name b) (channelName b)
    (SentCount b) (ReceivedCount b) (ErrorCount b) (rate_of b).

(** One of the eight totals, over every group. *)
Definition total_of (f : BaseWorker -> Z) (groups : Groups) : Z :=
  map_fold (fun _ g t => add_all f t (g_workers g)) 0 groups.

Definition zero_metrics : Model.MetricsSnapshot := Model.mk_MetricsSnapshot 0 0 0 0 0 0 0 0 fzero.

Definition RunSnapshot (now : Z) (e : Engine) : Model.RunSnapshot :=
  match workerGroups e with
  | None => Model.mk_RunSnapshot (state e) (runID e) (runCfg e) None zero_metrics
  | Some groups =>
      Model.mk_RunSnapshot (state e) (runID e) (runCfg e)
        (Some ((fun g => map snapshot_line (g_workers g)) <$> groups))
        (Model.mk_MetricsSnapshot (total_of SentCount groups) (total_of ReceivedCount groups)
           (total_of ErrorCount groups) (total_of lost_of groups) (total_of CorruptedCount groups)
           (total_of DuplicatedCount groups) (total_of eosViolations groups)
           (total_of offsetOrderViolations groups) (uptime now e))
  end.

(** What RunReport reads through the accessors. *)
Definition view_of (e : Engine) : engine_view :=
  mk_engine_view (workerSnapshots e) (runCfg e) (runID e) (runStartedAt e) (runEndedAt e)
    (baselineRSS (mem e)) (peakRSS (mem e)) (verdictResult e).

(** engineAdapter.StartRun *)
Definition StartRun (getenv : string -> string) (labels : list string) (now : Z) (random : list Z)
    (startupCfg : Config) (rc : RunConfig) (s : System) : System * option message :=
  match wrap "convert run config" (ToInternalConfig labels random rc startupCfg) with
  | Err e => (s, Some e)
  | Ok cfg =>
      StartRunFromConfig now random
        (cfg <| Broker ::= set_field Address (BootstrapAddress getenv) |>) s
  end.

End Adapter.
