(* ===== verification/Server.v ===== *)
(** * The control server (burnin/server/server.go)

    The HTTP handlers against the [RunController] interface, the adapter of
    burnin/main.go as its instance, the CORS middleware, and what a start or a
    stop request does to the engine.  A request is what ServeMux hands to a
    handler, its path already cleaned; a response is its status, its headers
    and the value that is marshalled. *)

From S2P Require Import Prelude Float64 GoStr Config ConfigFacts Metrics Transport Verdict Report Tracker Worker Loops WorkerGroup Snapshot Engine EngineFacts Lifecycle Api.
Local Open Scope string_scope.
Local Open Scope Z_scope.
Local Open Scope list_scope.

(** What a call meets from outside: the clock, the bytes of RandomRunID, the
    order in which GenerateVerdict visits the workers map. *)
Record env := mk_env {
  e_now : Z; e_random : list Z;
  e_order : list (string * Stats.WorkerStats) -> list (string * Stats.WorkerStats)
}.

(** ** The engine surface the server drives *)

Class RunController (S : Type) := {
  State : S -> string;
  StartRun : env -> Api.RunConfig -> S -> S * option message;
  StopRun : S -> S * option message;
  RunID : S -> string;
  RunConfig : S -> option Config;
  RunReport : env -> S -> option Summary * option Verdict;
  RunStatus : env -> S -> Model.RunStatus;
  RunSnapshot : env -> S -> Model.RunSnapshot
}.

(** *engineAdapter, for a startup configuration *)
Definition engineAdapter `{HdrHistogram} (getenv : string -> string) (labels : list string)
    (startupCfg : Config) : RunController System := {|
  State s := state (eng s);
  StartRun e rc := Api.StartRun getenv labels (e_now e) (e_random e) startupCfg rc;
  StopRun := Engine.StopRun;
  RunID s := runID (eng s);
  RunConfig s := runCfg (eng s);
  RunReport e s :=
    match Report.RunReport startupCfg (view_of (eng s)) (e_order e) with
    | Some (summary, verdict) => (Some summary, Some verdict)
    | None => (None, None)
    end;
  RunStatus e s := Api.RunStatus (e_now e) (eng s);
  RunSnapshot e s := Api.RunSnapshot (e_now e) (eng s)
|}.

(** ** Requests and responses *)

(** [rq_body]: what is left of the body, [None] for a nil Body. *)
Record request := mk_request { rq_method : string; rq_path : string; rq_body : option string }.

(** A value handed to writeJSON, and the two replies other handlers write. *)
Inductive reply :=
  | Fields (l : list (string * message))
  | StatusReply (v : Model.RunStatus)
  | ConfigReply (v : Config)
  | ReportReply (summary : Summary) (verdict : Verdict)
  | SnapshotReply (v : Model.RunSnapshot)
  | MetricsText
  | PlainText (s : string).

Record response := mk_response {
  rs_code : Z; rs_headers : list (string * string); rs_body : option reply
}.
#[export] Instance eta_response : Eta response := fun r =>
  mk_response (rs_code r) (rs_headers r) (rs_body r).

(** The floats of a reply: encoding/json refuses NaN and infinities. *)
Definition stats_floats (ws : Stats.WorkerStats) : list float64 :=
  [Stats.LossPct ws; Stats.DowntimeSeconds ws; Stats.LatencyP50MS ws; Stats.LatencyP95MS ws;
   Stats.LatencyP99MS ws; Stats.LatencyP999MS ws; Stats.AvgRate ws; Stats.PeakRate ws].
Definition report_floats (s : Summary) (v : Verdict) : list float64 :=
  s_DurationSeconds s :: concat (map (fun p => stats_floats p.2) (s_Workers s))
  ++ (let r := s_Resources s in [PeakRSSMB r; BaselineRSSMB r; MemoryGrowthFactor r])
  ++ concat (map (fun p => [ck_Value p.2; ck_Threshold p.2]) (map_to_list (v_Checks v))).
Definition config_floats (c : Config) : list float64 :=
  ReconnectMultiplier (Recovery c) :: threshold_floats (Thresholds c).
Definition reply_floats (v : reply) : list float64 :=
  match v with
  | Fields _ | MetricsText | PlainText _ => []
  | StatusReply v => Model.Uptime v ::
      map (fun p => Model.Rate p.2) (map_to_list (default ∅ (Model.Workers v)))
  | ConfigReply c => config_floats c
  | ReportReply s v => report_floats s v
  | SnapshotReply v => Model.UptimeSeconds (Model.rs_Metrics v)
      :: match Model.rs_Config v with Some c => config_floats c | None => [] end
      ++ concat (map (fun p => map Model.ws_Rate p.2) (map_to_list (default ∅ (Model.rs_Workers v))))
  end.

(** The status goes out first; a value Encode refuses leaves the body empty. *)
Definition writeJSON (code : Z) (v : reply) : response :=
  mk_response code [("Content-Type", "application/json")] (if is_ok (floats_ok (reply_floats v)) then Some v else None).

Definition error (code : Z) (m : message) : response := writeJSON code (Fields [("error", m)]).

(** ** The handlers *)

Section Server.
Context {S : Type} `{RunController S}.
Variable startupCfg : Config.

(** What Decode leaves in a zero RunConfig, and its error, which is dropped. *)
Variable Decode : string -> Api.RunConfig * option message.

(** What other goroutines do to the controller between two calls of a handler:
    [before] and [after] StartRun. *)
Variable before after : S -> S.

Definition handleHealth : response := writeJSON 200 (Fields [("status", [Lit "alive"])]).

Definition handleReady (s : S) : response :=
  writeJSON 200 (Fields [("status", [Lit "ready"]); ("state", [Lit (State s)])]).

Definition handleInfo : response :=
  writeJSON 200 (Fields [
    ("sdk", [Lit SDK]); ("version", [Lit (SDKVersion (Output startupCfg))]);
    ("broker", [Lit (Address (Broker startupCfg))]); ("bootstrap", [Lit (Address (Broker startupCfg))]);
    ("group_prefix", [Lit (GroupPrefix (Kafka startupCfg))])]).

Definition handleRunStart (e : env) (r : request) (s : S) : response * S :=
  if negb (String.eqb (rq_method r) "POST") then (error 405 [Lit "method not allowed"], s) else
  let st := State s in
  if negb (String.eqb st "idle") && negb (String.eqb st "stopped") && negb (String.eqb st "error") then
    (writeJSON 409 (Fields [("error", [Lit "cannot start run in state "; Quoted st]); ("state", [Lit st])]), s)
  else
    let rc := match rq_body r with Some b => (Decode b).1 | None => empty_RunConfig end in
    let '(s, err) := StartRun e rc (before s) in
    match err with
    | Some m => (error 500 m, s)
    | None =>
        let s := after s in
        (writeJSON 202 (Fields [("status", [Lit "starting"]); ("run_id", [Lit (RunID s)])]), s)
    end.

Definition handleRunStop (r : request) (s : S) : response * S :=
  if negb (String.eqb (rq_method r) "POST") then (error 405 [Lit "method not allowed"], s) else
  let '(s, err) := StopRun s in
  match err with
  | Some m => (error 409 m, s)
  | None => (writeJSON 202 (Fields [("state", [Lit "stopping"])]), s)
  end.

Definition handleRunStatus (e : env) (s : S) : response := writeJSON 200 (StatusReply (RunStatus e s)).

Definition handleRunConfig (s : S) : response :=
  match RunConfig s with
  | None => error 404 [Lit "no active or completed run"]
  | Some c => writeJSON 200 (ConfigReply c)
  end.

Definition handleRunReport (e : env) (s : S) : response :=
  match RunReport e s with
  | (Some summary, Some verdict) => writeJSON 200 (ReportReply summary verdict)
  | _ => error 404 [Lit "no report available (run not stopped)"]
  end.

Definition handleRunSnapshot (e : env) (s : S) : response := writeJSON 200 (SnapshotReply (RunSnapshot e s)).

(** The mux of New: exact patterns, and ServeMux's own 404. *)
Definition mux (e : env) (r : request) (s : S) : response * S :=
  let path := rq_path r in
  if String.eqb path "/health" then (handleHealth, s)
  else if String.eqb path "/ready" then (handleReady s, s)
  else if String.eqb path "/info" then (handleInfo, s)
  else if String.eqb path "/metrics" then (mk_response 200 [] (Some MetricsText), s)
  else if String.eqb path "/run/start" then handleRunStart e r s
  else if String.eqb path "/run/stop" then handleRunStop r s
  else if String.eqb path "/run/status" then (handleRunStatus e s, s)
  else if String.eqb path "/run/config" then (handleRunConfig s, s)
  else if String.eqb path "/run/report" then (handleRunReport e s, s)
  else if String.eqb path "/run" then (handleRunSnapshot e s, s)
  else (mk_response 404 [] (Some (PlainText "404 page not found")), s).

Definition cors_headers : list (string * string) :=
  let origins := Origins (CORS startupCfg) in
  let origins := if String.eqb origins "" then "*" else origins in
  [("Access-Control-Allow-Origin", origins); ("Access-Control-Allow-Methods", "GET, POST, OPTIONS");
   ("Access-Control-Allow-Headers", "Content-Type, Accept")].

Definition corsMiddleware (next : request -> S -> response * S) (r : request) (s : S) : response * S :=
  if String.eqb (rq_method r) "OPTIONS" then (mk_response 204 cors_headers None, s)
  else let '(resp, s) := next r s in (resp <| rs_headers ::= app cors_headers |>, s).

(** The Handler of the http.Server that New builds. *)
Definition serve (e : env) : request -> S -> response * S := corsMiddleware (mux e).

End Server.
