(* ===== verification/ServerFacts.v ===== *)
(** * The control API: properties

    Which start requests are accepted and with which configuration, and the
    exact outcome of every request, errors included. *)

From S2P Require Import Prelude Float64 GoStr Config ConfigFacts Metrics Transport Verdict Report Tracker Worker WorkerFacts Loops WorkerGroup Snapshot Engine EngineFacts Lifecycle Api Server.
Local Open Scope string_scope.
Local Open Scope Z_scope.
Local Open Scope list_scope.

(** ** The merged configuration *)

(** The fields that are not derived from others: all but the parsed durations
    and the warnings. *)
Definition texts (c : Config) :=
  ((Version c, Broker c, Mode c, Duration c, Config.RunID c, WarmupDuration c),
   (Kafka c, Workers c, Message c, Config.Metrics c, Logging c, ForcedDisconnect c),
   (Recovery c, Shutdown c, Output c, Thresholds c, Warmup c, CORS c)).

(** [base] with the parts of [rc] that are there in place of its own. *)
Definition merge (random : list Z) (rc : Api.RunConfig) (base : Config) : Config :=
  let text s old := if String.eqb s "" then old else s in
  base <| Duration ::= text (rc_Duration rc) |> <| Mode ::= text (rc_Mode rc) |>
       <| Config.RunID ::= fun id => if String.eqb id "" then RandomRunID random else id |>
       <| Kafka := default (Kafka base) (rc_Kafka rc) |>
       <| Workers := default (Workers base) (rc_Workers rc) |>
       <| Message := default (Message base) (rc_Message rc) |>
       <| Thresholds := default (Thresholds base) (rc_Thresholds rc) |>
       <| ForcedDisconnect := default (ForcedDisconnect base) (rc_ForcedDisconnect rc) |>.

Definition duration_ok (zero : bool) (s : string) : bool :=
  String.eqb s "" || (zero && String.eqb s "0") || is_ok (parseDuration s).

Definition durations_ok (c : Config) : Prop :=
  duration_ok true (Duration c) = true /\ duration_ok false (WarmupDuration c) = true /\
  duration_ok false (ReportInterval (Config.Metrics c)) = true /\
  duration_ok true (fd_Interval (ForcedDisconnect c)) = true /\
  duration_ok false (fd_Duration (ForcedDisconnect c)) = true /\
  duration_ok false (rc_ReconnectInterval (Recovery c)) = true /\
  duration_ok false (rc_ReconnectMaxInterval (Recovery c)) = true /\
  duration_ok false (MaxDuration (Thresholds c)) = true.

(** What a start request must satisfy: JSON has no NaN or infinity, so neither
    the startup thresholds nor the request's may be one; every duration of the
    merged configuration parses and the merged configuration is valid. *)
Record acceptable (random : list Z) (rc : Api.RunConfig) (base : Config) : Prop := {
  ac_base : Forall (fun f => finite f = true) (config_floats base);
  ac_rc : forall t, rc_Thresholds rc = Some t -> Forall (fun f => finite f = true) (threshold_floats t);
  ac_durations : durations_ok (merge random rc base);
  ac_valid : config_ok (merge random rc base)
}.

Lemma floats_ok_iff l : is_ok (floats_ok l) = true <-> Forall (fun f => finite f = true) l.
Proof.
  unfold floats_ok. induction l as [|f l IH]; [done|]. rewrite Forall_cons, filter_cons.
  destruct (finite f) eqn:E; case_decide; try done.
  - rewrite <- IH. naive_solver.
  - naive_solver.
Qed.

Lemma config_ok_texts c c' : texts c = texts c' -> config_ok c <-> config_ok c'.
Proof. destruct c, c'. unfold texts. cbn. intros [=]. subst. done. Qed.

Lemma parse_field_cases zero label text store get c : (forall c, store (get c) c = c) ->
  (exists d, parse_field zero label text store c = Ok (store d c) /\ duration_ok zero (text c) = true) \/
  (exists e, parse_field zero label text store c = Err e /\ duration_ok zero (text c) = false).
Proof.
  intros Hget. unfold parse_field, duration_ok. destruct (_ || _) eqn:E.
  - left. exists (get c). by rewrite Hget.
  - destruct (parseDuration _) as [d|e]; [left; by exists d|right; by eexists].
Qed.

(** One field of parseDurations, by its getter: stored, or an error. *)
Ltac field_case get :=
  match goal with
  | |- context [parse_field ?z ?l ?t ?st ?c] =>
      let d := fresh "d" in let e := fresh "e" in let E := fresh "E" in let D := fresh "D" in
      destruct (parse_field_cases z l t st get c) as [(d & E & D)|(e & E & D)];
        [by intros []| |]; rewrite E; clear E;
        cbv [set_field] in D |- *; cbn -[mbind duration_ok parse_field parseDuration] in D |- *;
        [|split; [split; [done|intros Hd; decompose [and] Hd; congruence]|done]]
  end;
  try match goal with |- context [mbind ?k (Ok ?x)] => change (mbind k (Ok x)) with (k x); cbv beta end.

(** Parsing succeeds exactly when every text does, and touches only the durations. *)
Lemma parseDurations_texts c :
  (is_ok (parseDurations c) = true <-> durations_ok c) /\
  (forall c', parseDurations c = Ok c' -> texts c' = texts c).
Proof.
  destruct c. unfold parseDurations, durations_ok.
  cbn -[mbind duration_ok parse_field parseDuration].
  field_case Config.DurationParsed. field_case Config.WarmupDurationParsed.
  field_case Config.ReportIntervalParsed. field_case Config.ForcedDisconnInterval.
  field_case Config.ForcedDisconnDuration. field_case Config.ReconnectInterval.
  field_case Config.ReconnectMaxInterval. field_case Config.MaxDurationParsed.
  split; [done|]. by intros c' [= <-].
Qed.

Lemma durations_ok_texts c c' : texts c = texts c' -> durations_ok c <-> durations_ok c'.
Proof. destruct c, c'. unfold texts. cbn. intros [=]. subst. done. Qed.

Lemma first_error_accepted labels c : first_error (Validate labels c) = None <-> accepted labels c = true.
Proof.
  unfold first_error, accepted. induction (Validate labels c) as [|m l IH]; [done|].
  rewrite filter_cons. cbn [forallb]. destruct (is_warning m) eqn:E; case_decide; done.
Qed.

Lemma wrap_ok {A} prefix (r : result A) : is_ok (wrap prefix r) = is_ok r.
Proof. by destruct r. Qed.

Lemma texts_run_id c c' random : texts c = texts c' ->
  texts (if String.eqb (Config.RunID c) "" then c <| Config.RunID := RandomRunID random |> else c)
  = texts (c' <| Config.RunID ::= fun id => if String.eqb id "" then RandomRunID random else id |>).
Proof.
  intros Ht. assert (Hid : Config.RunID c = Config.RunID c') by (unfold texts in Ht; congruence).
  destruct c, c'. cbn in Hid. subst. cbn [Config.RunID].
  destruct (String.eqb _ "") eqn:E; injection Ht as; subst; repeat apply (f_equal2 pair); try reflexivity;
    lazy -[RandomRunID String.eqb]; by rewrite E.
Qed.

Lemma settled_run_id c random : ConfigFacts.settled c ->
  ConfigFacts.settled (if String.eqb (Config.RunID c) "" then c <| Config.RunID := RandomRunID random |> else c).
Proof. intros Hs. destruct (String.eqb _ ""); exact Hs. Qed.

Lemma json_copy_ok base :
  is_ok (json_copy base) = true <-> Forall (fun f => finite f = true) (config_floats base).
Proof. rewrite <- floats_ok_iff. unfold json_copy, config_floats. by destruct (floats_ok _). Qed.

Lemma json_overlay_ok rc c : is_ok (json_overlay rc c) = true <->
  forall t, rc_Thresholds rc = Some t -> Forall (fun f => finite f = true) (threshold_floats t).
Proof.
  unfold json_overlay. destruct (rc_Thresholds rc) as [t|].
  - transitivity (is_ok (floats_ok (threshold_floats t)) = true); [by destruct (floats_ok _)|].
    rewrite floats_ok_iff. naive_solver.
  - naive_solver.
Qed.

(** The two copies and the run id make the merged configuration. *)
Lemma json_merge random rc base c1 c2 : json_copy base = Ok c1 -> json_overlay rc c1 = Ok c2 ->
  texts (c2 <| Config.RunID ::= fun id => if String.eqb id "" then RandomRunID random else id |>)
  = texts (merge random rc base).
Proof.
  unfold json_copy, json_overlay. destruct (floats_ok _) as [[]|]; [|done]. intros [= <-].
  destruct (floats_ok _) as [[]|]; [|done]. intros [= <-].
  destruct base, rc. vm_compute. reflexivity.
Qed.

(** The conversion succeeds exactly on acceptable requests, with the merged
    configuration and fresh durations. *)
Lemma ToInternalConfig_exact labels random rc base : labels ≡ₚ latency_labels ->
  (is_ok (ToInternalConfig labels random rc base) = true <-> acceptable random rc base) /\
  (forall cfg, ToInternalConfig labels random rc base = Ok cfg ->
     texts cfg = texts (merge random rc base) /\ ConfigFacts.settled cfg).
Proof.
  intros Hl. unfold ToInternalConfig, ParseDurationsPublic. pose proof (json_copy_ok base) as H1.
  destruct (json_copy base) as [c0|e1] eqn:E1; cbn [mbind result_bind wrap is_ok].
  2: { split; [|done]. split; [done|]. intros [Hb _ _ _]. by apply H1 in Hb. }
  pose proof (json_overlay_ok rc c0) as H2.
  destruct (json_overlay rc c0) as [c1|e2] eqn:E2; cbn [mbind result_bind wrap is_ok].
  2: { split; [|done]. split; [done|]. intros [_ Hr _ _]. by apply H2 in Hr. }
  pose proof (json_merge random rc base c0 c1 E1 E2) as Hm. clear E1 E2.
  destruct (parseDurations_texts c1) as [Hiff Htx].
  assert (Hd : durations_ok c1 <-> durations_ok (merge random rc base))
    by (rewrite <- (durations_ok_texts _ _ Hm); done).
  destruct (parseDurations c1) as [c2|e3] eqn:E3; cbn [mbind result_bind wrap is_ok].
  2: { split; [|done]. split; [done|]. intros [_ _ Hp _]. by apply Hd, Hiff in Hp. }
  pose proof (settled_run_id c2 random (parseDurations_settles _ _ E3)) as Hs.
  pose proof (texts_run_id c2 c1 random (Htx c2 eq_refl)) as Ht. rewrite Hm in Ht. clear Htx Hm.
  revert Hs Ht. set (c3 := if String.eqb _ _ then _ else _). clearbody c3. intros Hs Ht.
  pose proof (config_ok_texts _ _ Ht) as Hc. rewrite <- (Validate_iff labels _ Hl) in Hc.
  pose proof (first_error_accepted labels c3) as Hf.
  destruct (first_error _) as [m|].
  - split; [|done]. split; [done|]. intros [_ _ _ Hv]. by apply Hc, Hf in Hv.
  - split; [|by intros ? [= <-]]. split; [|done]. intros _.
    split; [by apply H1|by apply H2|by apply Hd, Hiff|by apply Hc, Hf].
Qed.

(** ** The outcome of a request *)

Section Outcome.
Context `{HdrHistogram} (getenv : string -> string) (labels : list string) (startupCfg : Config)
  (Decode : string -> Api.RunConfig * option message) (before after : System -> System).

Definition startable (st : string) : Prop := st ∈ [StateIdle; StateStopped; StateError].
Definition stoppable (st : string) : Prop := st ∈ [StateStarting; StateRunning].

(** The overlay a request asks for. *)
Definition requested (r : request) : Api.RunConfig :=
  match rq_body r with Some b => (Decode b).1 | None => empty_RunConfig end.

(** [s'] is [s] with a fresh run of [cfg] and nothing left of an earlier one. *)
Record begun (now : Z) (cfg : Config) (s s' : System) : Prop := {
  bg_runs : runs s' = runs s ++ [new_run cfg];
  bg_state : state (eng s') = StateStarting;
  bg_cfg : runCfg (eng s') = Some cfg;
  bg_started : runStartedAt (eng s') = now;
  bg_results : verdictResult (eng s') = None /\ workerSnapshots (eng s') = None
}.

(** The last run is cancelled; the engine and the other runs are as before. *)
Definition cancelled (s s' : System) : Prop :=
  eng s' = eng s /\ exists rs r, runs s = rs ++ [r] /\ runs s' = rs ++ [r <| r_cancelled := true |>].

Definition known_paths : list string :=
  ["/health"; "/ready"; "/info"; "/metrics"; "/run/status"; "/run/config"; "/run/report"; "/run"].

(** What the API answers, and what the request does to the system. *)
Inductive outcome (e : env) (r : request) (s : System) : Z -> System -> Prop :=
  | out_preflight : rq_method r = "OPTIONS" -> outcome e r s 204 s
  | out_method : rq_method r <> "OPTIONS" -> rq_method r <> "POST" ->
      rq_path r ∈ ["/run/start"; "/run/stop"] -> outcome e r s 405 s
  | out_busy : rq_method r = "POST" -> rq_path r = "/run/start" -> ~ startable (state (eng s)) ->
      outcome e r s 409 s
  | out_refused : rq_method r = "POST" -> rq_path r = "/run/start" -> startable (state (eng s)) ->
      (~ acceptable (e_random e) (requested r) startupCfg \/ ~ startable (state (eng (before s)))) ->
      outcome e r s 500 (before s)
  | out_started cfg s1 : rq_method r = "POST" -> rq_path r = "/run/start" -> startable (state (eng s)) ->
      acceptable (e_random e) (requested r) startupCfg -> startable (state (eng (before s))) ->
      texts cfg = texts (merge (e_random e) (requested r) startupCfg) -> ConfigFacts.settled cfg ->
      begun (e_now e) (cfg <| Broker ::= set_field Address (BootstrapAddress getenv) |>) (before s) s1 ->
      outcome e r s 202 (after s1)
  | out_unstoppable : rq_method r = "POST" -> rq_path r = "/run/stop" -> ~ stoppable (state (eng s)) ->
      outcome e r s 409 s
  | out_stopped s1 : rq_method r = "POST" -> rq_path r = "/run/stop" -> stoppable (state (eng s)) ->
      cancelled s s1 -> outcome e r s 202 s1
  | out_missing : rq_method r <> "OPTIONS" ->
      (rq_path r = "/run/config" /\ runCfg (eng s) = None \/
       rq_path r = "/run/report" /\ workerSnapshots (eng s) = None \/
       rq_path r ∉ "/run/start" :: "/run/stop" :: known_paths) -> outcome e r s 404 s
  | out_read : rq_method r <> "OPTIONS" -> rq_path r ∈ known_paths ->
      (rq_path r = "/run/config" -> is_Some (runCfg (eng s))) ->
      (rq_path r = "/run/report" -> is_Some (workerSnapshots (eng s))) -> outcome e r s 200 s.

(** The status codes a rule allows, by method, path and state. *)
Definition start_code (e : env) (r : request) (s : System) (code : Z) : Prop :=
  rq_method r <> "POST" /\ code = 405 \/
  rq_method r = "POST" /\ ~ startable (state (eng s)) /\ code = 409 \/
  (rq_method r = "POST" /\ startable (state (eng s))) /\
    ((acceptable (e_random e) (requested r) startupCfg /\ startable (state (eng (before s)))) /\ code = 202 \/
     ~ (acceptable (e_random e) (requested r) startupCfg /\ startable (state (eng (before s)))) /\ code = 500).

Definition stop_code (r : request) (s : System) (code : Z) : Prop :=
  rq_method r <> "POST" /\ code = 405 \/
  rq_method r = "POST" /\ (stoppable (state (eng s)) /\ code = 202 \/ ~ stoppable (state (eng s)) /\ code = 409).

Definition missing (r : request) (s : System) : Prop :=
  rq_path r = "/run/config" /\ runCfg (eng s) = None \/
  rq_path r = "/run/report" /\ workerSnapshots (eng s) = None \/ rq_path r ∉ known_paths.

Definition code_spec (e : env) (r : request) (s : System) (code : Z) : Prop :=
  rq_method r = "OPTIONS" /\ code = 204 \/
  rq_method r <> "OPTIONS" /\
    (rq_path r = "/run/start" /\ start_code e r s code \/
     rq_path r = "/run/stop" /\ stop_code r s code \/
     (rq_path r <> "/run/start" /\ rq_path r <> "/run/stop") /\
       (missing r s /\ code = 404 \/ ~ missing r s /\ code = 200)).

Lemma known_path p : p ∈ known_paths -> p <> "/run/start" /\ p <> "/run/stop".
Proof. intros Hp. split; intros ->; by apply (bool_decide_eq_false_1 (_ ∈ known_paths)) in Hp. Qed.

Lemma missing_unknown p : p = "/run/config" \/ p = "/run/report" -> p ∈ known_paths.
Proof. intros [-> | ->]; unfold known_paths; rewrite list_elem_of_In; simpl; tauto. Qed.

Lemma outcome_spec e r s code s1 : outcome e r s code s1 -> code_spec e r s code.
Proof.
  assert (Hpost : forall m, m = "POST" -> m <> "OPTIONS") by (intros ? ->; discriminate).
  unfold code_spec, start_code, stop_code. intros [Hm|Ho Hm Hp|Hm Hp Hs|Hm Hp Hs Hn|c s2 Hm Hp Hs Ha Hb _ _ _|Hm Hp Hs
    |s2 Hm Hp Hs _|Ho Hp|Ho Hp H1 H2]; [by left|right; split; [first [done|by apply Hpost]|]..].
  - rewrite !elem_of_cons in Hp. destruct Hp as [Hp|[Hp|Hp]]; [by tauto..|by apply elem_of_nil in Hp].
  - tauto.
  - tauto.
  - tauto.
  - tauto.
  - tauto.
  - assert (Hm : missing r s /\ rq_path r <> "/run/start" /\ rq_path r <> "/run/stop"); [|tauto].
    unfold missing. destruct Hp as [[Hp Hc]|[[Hp Hc]|Hp]].
    + pose proof (known_path _ (missing_unknown _ (or_introl Hp))). tauto.
    + pose proof (known_path _ (missing_unknown _ (or_intror Hp))). tauto.
    + rewrite !not_elem_of_cons in Hp. tauto.
  - pose proof (known_path _ Hp). assert (~ missing r s); [|tauto].
    intros [[Hc E]|[[Hc E]|Hc]]; [apply H1 in Hc|apply H2 in Hc|done]; rewrite E in Hc; by apply is_Some_None in Hc.
Qed.

(** The rules exclude each other. *)
Lemma outcome_code e r s c1 s1 c2 s2 : outcome e r s c1 s1 -> outcome e r s c2 s2 -> c1 = c2.
Proof.
  intros H1%outcome_spec H2%outcome_spec.
  assert ("/run/start" <> "/run/stop") by discriminate. unfold code_spec in *.
  destruct H1 as [[? ->]|[? H1]], H2 as [[? ->]|[? H2]]; try done.
  destruct H1 as [[? H1]|[[? H1]|[? H1]]], H2 as [[? H2]|[[? H2]|[? H2]]];
    try congruence; try tauto; unfold start_code, stop_code in *; intuition congruence.
Qed.

Lemma startable_test st : negb (String.eqb st "idle") && negb (String.eqb st "stopped") && negb (String.eqb st "error")
  = negb (bool_decide (startable st)).
Proof.
  unfold startable, StateIdle, StateStopped, StateError.
  destruct (String.eqb_spec st "idle"), (String.eqb_spec st "stopped"), (String.eqb_spec st "error");
    case_bool_decide; set_solver.
Qed.

Lemma StartRunFromConfig_outcome now random cfg s s1 err :
  StartRunFromConfig now random cfg s = (s1, err) ->
  (startable (state (eng s)) /\ err = None /\ begun now cfg s s1) \/
  (~ startable (state (eng s)) /\ is_Some err /\ s1 = s).
Proof.
  unfold StartRunFromConfig, can_start. rewrite startable_test, negb_involutive.
  case_bool_decide as Hs; intros [= <- <-]; [left|right]; [|by eauto].
  split; [done|]. split; [done|]. by split.
Qed.

Lemma adapter_start_outcome e rc s s1 err : labels ≡ₚ latency_labels ->
  Api.StartRun getenv labels (e_now e) (e_random e) startupCfg rc s = (s1, err) ->
  (exists cfg, err = None /\ acceptable (e_random e) rc startupCfg /\ startable (state (eng s)) /\
     texts cfg = texts (merge (e_random e) rc startupCfg) /\ ConfigFacts.settled cfg /\
     begun (e_now e) (cfg <| Broker ::= set_field Address (BootstrapAddress getenv) |>) s s1) \/
  (is_Some err /\ s1 = s /\ (~ acceptable (e_random e) rc startupCfg \/ ~ startable (state (eng s)))).
Proof.
  intros Hl. unfold Api.StartRun. destruct (ToInternalConfig_exact labels (e_random e) rc startupCfg Hl) as [Hiff Hok].
  destruct (ToInternalConfig _ _ _ _) as [cfg|m]; cbn [wrap].
  - destruct (Hok cfg eq_refl) as [Ht Hs]. intros Hst.
    destruct (StartRunFromConfig_outcome _ _ _ _ _ _ Hst) as [(H1 & -> & H2)|(H1 & H2 & ->)].
    + left. exists cfg. split_and!; try done. by apply Hiff.
    + right. split_and!; [done|done|by right].
  - intros [= <- <-]. right. split; [by eexists|]. split; [done|]. left. intros Ha. by apply Hiff in Ha.
Qed.

Lemma StopRun_outcome s s1 err : lifecycle s -> Engine.StopRun s = (s1, err) ->
  (stoppable (state (eng s)) /\ err = None /\ cancelled s s1) \/
  (~ stoppable (state (eng s)) /\ is_Some err /\ s1 = s).
Proof.
  intros [_ Hidle Hruns]. unfold Engine.StopRun, stoppable, StateStarting, StateRunning.
  destruct (_ && _) eqn:E; intros [= <- <-].
  - right. split; [|by eauto]. apply andb_true_iff in E as [E1 E2].
    apply negb_true_iff, String.eqb_neq in E1, E2. set_solver.
  - left. apply andb_false_iff in E. rewrite !negb_false_iff, !String.eqb_eq in E.
    split; [destruct E as [-> | ->]; set_solver|]. split; [done|].
    destruct (decide (runs s = [])) as [Er|Er]; [destruct (Hidle Er) as [Hi _]; rewrite Hi in E; by destruct E|].
    apply exists_last in Er as (rs0 & r0 & Er).
    destruct (Hruns (length rs0) r0) as [Hlast _ _ _]; [rewrite Er; by apply list_lookup_middle|].
    destruct Hlast as (_ & _ & _ & ->); [rewrite Er, length_app; simpl; lia|].
    split; [done|]. exists rs0, r0. split; [done|].
    change (alter (fun r => r <| r_cancelled := true |>) (length rs0) (runs s) = rs0 ++ [r0 <| r_cancelled := true |>]).
    rewrite Er. clear. induction rs0 as [|x rs0 IH]; [done|]. by apply (f_equal (cons x)).
Qed.

Notation adapter := (engineAdapter getenv labels startupCfg).

Lemma handleRunStart_outcome e r s : labels ≡ₚ latency_labels ->
  rq_path r = "/run/start" -> rq_method r <> "OPTIONS" ->
  let '(resp, s') := handleRunStart (H := adapter) Decode before after e r s in
  outcome e r s (rs_code resp) s' /\
  (rs_code resp <> 202 -> exists m l, rs_body resp = Some (Fields (("error", m) :: l))).
Proof.
  intros Hl Hp Ho. unfold handleRunStart. destruct (String.eqb_spec (rq_method r) "POST") as [Hm|Hm]; cbn [negb].
  2: { split; [apply out_method; [done..|rewrite Hp; set_solver]|by eauto]. }
  rewrite startable_test. cbn [State engineAdapter]. case_bool_decide as Hst; cbn [negb].
  2: { split; [by apply out_busy|by eauto]. }
  fold (requested r). destruct (StartRun e (requested r) (before s)) as [s1 err] eqn:E.
  apply (adapter_start_outcome _ _ _ _ _ Hl) in E as [(cfg & -> & H1 & H2 & H3 & H4 & H5)|([m ->] & -> & Hno)].
  - split; [by eapply out_started|done].
  - split; [by apply out_refused|by eauto].
Qed.

Lemma handleRunStop_outcome e r s : lifecycle s -> rq_path r = "/run/stop" -> rq_method r <> "OPTIONS" ->
  let '(resp, s') := handleRunStop (H := adapter) r s in
  outcome e r s (rs_code resp) s' /\
  (rs_code resp <> 202 -> exists m l, rs_body resp = Some (Fields (("error", m) :: l))).
Proof.
  intros Hlc Hp Ho. unfold handleRunStop. destruct (String.eqb_spec (rq_method r) "POST") as [Hm|Hm]; cbn [negb].
  2: { split; [apply out_method; [done..|rewrite Hp; set_solver]|by eauto]. }
  destruct (StopRun s) as [s1 err] eqn:E.
  apply (StopRun_outcome _ _ _ Hlc) in E as [(H1 & -> & H2)|(H1 & [m ->] & ->)].
  - split; [by eapply out_stopped|done].
  - split; [by apply out_unstoppable|by eauto].
Qed.

(** The read handlers. *)
Lemma handleRead_outcome e r s : rq_method r <> "OPTIONS" ->
  rq_path r <> "/run/start" -> rq_path r <> "/run/stop" ->
  let '(resp, s') := mux (H := adapter) startupCfg Decode before after e r s in
  outcome e r s (rs_code resp) s' /\ (rs_code resp = 200 \/ rs_code resp = 404).
Proof.
  intros Ho H1 H2. unfold mux.
  repeat match goal with |- context [String.eqb (rq_path r) ?p] =>
    destruct (String.eqb_spec (rq_path r) p) as [?|?]; try done end;
  cbn [handleHealth handleReady handleInfo handleRunStatus handleRunSnapshot writeJSON rs_code];
  try (split; [apply out_read; try done; try congruence; unfold known_paths; set_solver|by left]).
  - unfold handleRunConfig. cbn [RunConfig engineAdapter]. destruct (runCfg (eng s)) eqn:E; cbn [error writeJSON rs_code].
    + split; [apply out_read; try done; try congruence; unfold known_paths; set_solver|by left].
    + split; [apply out_missing; by auto|by right].
  - unfold handleRunReport. cbn [RunReport engineAdapter]. unfold Report.RunReport, view_of. cbn [ev_snapshots].
    destruct (workerSnapshots (eng s)) eqn:E; cbn [mbind option_bind error writeJSON rs_code].
    + split; [apply out_read; try done; try congruence; unfold known_paths; set_solver|by left].
    + split; [apply out_missing; by auto|by right].
  - split; [apply out_missing; [done|]|by right]. right. right. unfold known_paths. set_solver.
Qed.

Lemma mux_outcome e r s : labels ≡ₚ latency_labels -> lifecycle s -> rq_method r <> "OPTIONS" ->
  let '(resp, s') := mux (H := adapter) startupCfg Decode before after e r s in
  outcome e r s (rs_code resp) s' /\
  (rs_code resp ∈ [405; 409; 500] -> exists m l, rs_body resp = Some (Fields (("error", m) :: l))).
Proof.
  intros Hl Hlc Ho.
  assert (Hpost : forall resp s', outcome e r s (rs_code resp) s' /\
    (rs_code resp <> 202 -> exists m l, rs_body resp = Some (Fields (("error", m) :: l))) ->
    outcome e r s (rs_code resp) s' /\
    (rs_code resp ∈ [405; 409; 500] -> exists m l, rs_body resp = Some (Fields (("error", m) :: l)))).
  { intros resp s' [H1 H2]. split; [done|]. intros Hc. apply H2. intros E. rewrite E in Hc. set_solver. }
  destruct (decide (rq_path r = "/run/start")) as [E1|E1]; [|destruct (decide (rq_path r = "/run/stop")) as [E2|E2]].
  - pose proof (handleRunStart_outcome e r s Hl E1 Ho) as Hs. unfold mux. rewrite E1. cbn [String.eqb Ascii.eqb Bool.eqb].
    destruct (handleRunStart _ _ _ _ _ _). by apply Hpost.
  - pose proof (handleRunStop_outcome e r s Hlc E2 Ho) as Hs. unfold mux. rewrite E2. cbn [String.eqb Ascii.eqb Bool.eqb].
    destruct (handleRunStop _ _). by apply Hpost.
  - pose proof (handleRead_outcome e r s Ho E1 E2) as Hs. destruct (mux _ _ _ _ _ _ _). destruct Hs as [Hs Hc].
    split; [done|]. destruct Hc as [-> | ->]; set_solver.
Qed.

End Outcome.

(** C39: every request has exactly one outcome, errors included.  In every
    reachable state of a serial history, whatever other goroutines do around
    StartRun: a start is answered 202 and begins exactly one run, of the startup
    configuration with the request's blocks in place of its own and its durations
    re-read, if the engine is idle, stopped or in error both when the handler looks
    and when StartRun does, and the merged configuration is acceptable; otherwise
    it is refused with 405, 409 or 500, an error text, and no effect.  A stop is
    202 exactly while a run starts or runs, and cancels the last run only; the read
    endpoints change nothing; a preflight is 204; every answer carries the CORS
    headers. *)
Theorem requests_exact `{HdrHistogram} getenv labels startupCfg Decode before after e r now tr s :
  labels ≡ₚ latency_labels -> serial getenv (init_system now) tr s ->
  let '(resp, s') := serve (H := engineAdapter getenv labels startupCfg) startupCfg Decode before after e r s in
  outcome getenv startupCfg Decode before after e r s (rs_code resp) s' /\
  (forall code s1, outcome getenv startupCfg Decode before after e r s code s1 -> code = rs_code resp) /\
  (exists hs, rs_headers resp = cors_headers startupCfg ++ hs) /\
  (rs_code resp ∈ [405; 409; 500] -> exists m l, rs_body resp = Some (Fields (("error", m) :: l))).
Proof.
  intros Hl Hs. assert (Hlc : lifecycle s) by (eapply serial_lifecycle; [exact Hs|apply init_lifecycle]).
  unfold serve, corsMiddleware. destruct (String.eqb_spec (rq_method r) "OPTIONS") as [Ho|Ho].
  - split_and!; [by apply out_preflight| |by exists []; rewrite app_nil_r|].
    + intros code s1 H1. eapply outcome_code; [exact H1|by apply out_preflight].
    + cbn. set_solver.
  - pose proof (mux_outcome getenv labels startupCfg Decode before after e r s Hl Hlc Ho) as Hm.
    destruct (mux _ _ _ _ _ _ _) as [resp s'] eqn:E. destruct Hm as [H1 H2]. cbn.
    split_and!; [done| |by eexists|done]. intros code s1 Hc. by eapply outcome_code.
Qed.

Section Demo.
#[local] Existing Instance list_histogram.

(** Start requests on an idle engine, that name no block and that enable no worker. *)
Definition demo_env : env := mk_env 5 [171] (fun l => l).
Definition demo_start : request := mk_request "POST" "/run/start" (Some "{}").
Definition no_workers (b : string) : Api.RunConfig * option message :=
  (mk_RunConfig "10s" "" None
     (Some (Workers (foldl (fun c name => updWorkerConfig c name (fun wc => wc <| Config.Enabled := false |>))
        DefaultConfig AllWorkerNames))) None None None, None).

#[local] Notation demo_serve Decode :=
  (serve (H := engineAdapter no_env latency_labels DefaultConfig) DefaultConfig Decode id id
    demo_env demo_start (init_system 1)).

Definition no_blocks (b : string) : Api.RunConfig * option message := (empty_RunConfig, None).

Lemma requests_exact_witness :
  (rs_code (demo_serve no_blocks).1 = 202 /\ length (runs (demo_serve no_blocks).2) = 1%nat /\
   outcome no_env DefaultConfig no_blocks id id demo_env demo_start (init_system 1) 202 (demo_serve no_blocks).2) /\
  (rs_code (demo_serve no_workers).1 = 500 /\ runs (demo_serve no_workers).2 = [] /\
   outcome no_env DefaultConfig no_workers id id demo_env demo_start (init_system 1) 500 (demo_serve no_workers).2).
Proof.
  assert (Hs : serial no_env (init_system 1) [] (init_system 1)) by constructor.
  assert (E1 : rs_code (demo_serve no_blocks).1 = 202) by (vm_compute; reflexivity).
  assert (E2 : rs_code (demo_serve no_workers).1 = 500) by (vm_compute; reflexivity).
  split; (split; [assumption|split; [vm_compute; reflexivity|]]).
  - pose proof (requests_exact no_env latency_labels DefaultConfig no_blocks id id
      demo_env demo_start 1 [] (init_system 1) (Permutation_refl _) Hs) as Hr.
    destruct (serve _ no_blocks _ _ _ _ _) as [resp s']. cbn [fst snd] in *.
    destruct Hr as [Ho _]. rewrite E1 in Ho. exact Ho.
  - pose proof (requests_exact no_env latency_labels DefaultConfig no_workers id id
      demo_env demo_start 1 [] (init_system 1) (Permutation_refl _) Hs) as Hr.
    destruct (serve _ no_workers _ _ _ _ _) as [resp s']. cbn [fst snd] in *.
    destruct Hr as [Ho _]. rewrite E2 in Ho. exact Ho.
Defined.

End Demo.
