(* ===== verification/FinalReport.v ===== *)
(** * The final report (burnin/main.go, WriteJSON of burnin/report/report.go)

    What main emits between GracefulShutdown and its exit, and the theorem that the
    report and the exit code tell one story.  encoding/json refuses NaN and
    infinities; os.WriteFile is an argument. *)

From S2P Require Import Prelude Float64 GoStr Config Metrics Transport Verdict Report VerdictFacts Console Tracker Worker WorkerFacts Loops WorkerGroup WorkerGroupFacts Snapshot SnapshotFacts Engine EngineFacts EngineLift Lifecycle Window EngineTypes Main MainFacts Api Server.
Local Open Scope string_scope.
Local Open Scope Z_scope.
Local Open Scope list_scope.

(** json.MarshalIndent of the combined report, then os.WriteFile. *)
Definition WriteJSON (WriteFile : string -> Summary -> Verdict -> option message) (path : string)
    (summary : Summary) (verdict : Verdict) : option message :=
  match floats_ok (report_floats summary verdict) with
  | Err e => Some (Lit "marshal report: " :: e)
  | Ok _ => WriteFile path summary verdict
  end.

(** [f_error]: what WriteJSON returned, if it was called and failed. *)
Record final := mk_final { f_error : option message; f_console : list message }.

Section Emit.
Context `{HdrHistogram}.
Variable WriteFile : string -> Summary -> Verdict -> option message.
Variable order : list (string * Stats.WorkerStats) -> list (string * Stats.WorkerStats).
Variable check_order : list (string * CheckResult) -> list (string * CheckResult).

(** What main logs and prints, [None] when there is no report. *)
Definition emit_report (cfg : Config) (e : Engine) : option final :=
  '(summary, verdict) ← Report.RunReport cfg (view_of e) order;
  Some (mk_final
    (if negb (String.eqb (ReportFile (Output cfg)) "")
     then WriteJSON WriteFile (ReportFile (Output cfg)) summary verdict else None)
    (PrintConsole (check_order (map_to_list (v_Checks verdict))) summary verdict)).

End Emit.

(** * Properties *)

(** The line of the console that states the verdict. *)
Definition verdict_line (result : string) : message := line [Lit " Verdict:      "; Lit result].

(** ** The verdict is about the snapshots next to it *)

Section Told.
Context `{HdrHistogram} (getenv : string -> string) (now : Z).

Definition told (e : Engine) : Prop := forall v, verdictResult e = Some v ->
  exists c m startedAt stoppedAt baseline peak names,
    runCfg e = Some c /\ workerSnapshots e = Some m /\ names ≡ₚ AllWorkerNames /\
    v = computeVerdict c startedAt stoppedAt baseline peak (in_order names m).

Lemma told_view e e' : view e' = view e -> told e -> told e'.
Proof. unfold view, told. intros [= _ E2 E3 E4 _ _]. by rewrite E2, E3, E4. Qed.

Lemma phase_step_told a c x p e e' p' : phase_step getenv a c x p e = Some (e', p') ->
  phase_ok p e -> runCfg e = Some c -> told e -> told e'.
Proof.
  intros Hst [_ Hres] Hcfg Ht v Hv. destruct (phase_step_frame _ _ _ _ _ _ _ _ Hst) as (F1 & _).
  destruct (phase_step_results _ _ _ _ _ _ _ _ Hst) as (Hsn & Hvr & _). rewrite F1.
  destruct Hvr as [E|[-> (bl & pk & names & Hn & E)]]; rewrite E in Hv.
  - destruct Hsn as [Es|[-> _]]; [rewrite Es; by apply Ht|]. destruct Hres as [Hnone _]. by rewrite Hnone in Hv.
  - destruct Hsn as [Es|[? _]]; [|done]. destruct Hres as [_ [m Hm]]. injection Hv as <-.
    exists c, m, (times e).1, (times e).2, bl, pk, names. split_and!; [done|by rewrite Es|done|by rewrite Hm].
Qed.

Lemma sys_step_told l s s' : lifecycle s -> sys_step getenv s l s' -> told (eng s) -> told (eng s').
Proof.
  intros Hlc Hs Ht. destruct Hs as [a i s' Hs|t a i s' Hs|e' Hw|t random c s' err Hs|s' err Hs|t Hn|n s' Hs|t i s' Hs].
  - apply run_step_inv in Hs as (r & Hi & _ & [(d & _ & ->)|(e & p & Hst & ->)]).
    + eapply told_view; [|exact Ht]. unfold close_done. destruct d; repeat case_match; done.
    + destruct (lc_runs _ Hlc i r Hi) as [Hlast Hold _ _].
      destruct (phase_step_target _ _ _ _ _ _ _ _ Hst) as (_ & _ & Hno).
      assert (Hl : S i = length (runs s)).
      { apply lookup_lt_Some in Hi as Hlt. destruct (decide (S i = length (runs s))); [done|].
        exfalso. apply Hno, Hold. lia. }
      destruct (Hlast Hl) as (Hok & Hcfg & _). by eapply phase_step_told.
  - apply tick_step_inv in Hs as (r & e & r2 & _ & _ & _ & Hk & ->).
    eapply told_view; [|exact Ht]. pose proof (view_task t a r (eng s)) as Hview. by rewrite Hk in Hview.
  - eapply told_view; [|exact Ht]. destruct Hw. apply view_with_groups.
  - unfold StartRunFromConfig in Hs. destruct (negb _); injection Hs as <- <-; [done|]. intros v Hv. discriminate Hv.
  - unfold Engine.StopRun in Hs. destruct (_ && _); injection Hs as <- <-; [done|].
    unfold cancel. by destruct (runCancel (eng s)).
  - done.
  - apply return_step_inv in Hs as (t & _ & _ & ->). by eapply told_view.
  - by apply leave_step_inv in Hs as (r & _ & _ & _ & ->).
Qed.

Lemma serial_told tr s : serial getenv (init_system now) tr s -> told (eng s).
Proof.
  intros Hs. remember (init_system now) as s0 eqn:E0. induction Hs as [s|s tr s1 l s2 Hs IH Hp Hl Hset]; subst.
  - done.
  - eapply sys_step_told; [|exact Hl|by apply IH]. eapply serial_lifecycle; [exact Hs|apply init_lifecycle].
Qed.

End Told.

Lemma snapshot_of_ok `{HdrHistogram} g : snapshot_ok (snapshot_of g).
Proof.
  assert (Hs : forall f k, (f, k) ∈ summed -> u64_ok (f (snapshot_of g)))
    by (intros f k Hk; rewrite (snapshot_sum g f k Hk); apply u64_wrap_ok).
  unfold snapshot_ok. split_and!; eapply Hs; unfold summed; repeat (apply elem_of_cons; first [left; reflexivity | right]).
Qed.

Section Exit.
Context `{HdrHistogram}.

(** C21: one verdict.  Take any process (no start being accepted while a failed run is
    in its deferred function) whose main reads the engine's verdict, emits the report
    and exits, nothing else running in between, and the report it emits, if any, in
    whatever orders the loops visit the workers and the checks.  If the engine has a
    verdict on a run with comparable thresholds, the console names one of the three
    results: FAILED exactly when the exit code is 1, PASSED_WITH_WARNINGS
    whenever it is 2.  If it has none (the signal came between capture and
    judgement), the exit code is 1, whatever the console says. *)
Theorem one_verdict getenv now cfg auto p a p1 a' p2 code WriteFile order check_order out :
  process_reach getenv now cfg auto p -> main p = ReadingPassed ->
  main_step cfg auto a p = Some p1 -> main_step cfg auto a' p1 = Some p2 -> main p2 = Exited code ->
  (forall l, order l ≡ₚ l) ->
  (forall c, runCfg (eng (sys p)) = Some c -> thresholds_comparable c) ->
  emit_report WriteFile order check_order cfg (eng (sys p)) = Some out ->
  match verdictResult (eng (sys p)) with
  | Some _ => exists result, f_console out !! 9%nat = Some (verdict_line result) /\
      result ∈ ["PASSED"; "PASSED_WITH_WARNINGS"; "FAILED"] /\
      (result = "FAILED" <-> code = 1) /\ (code = 2 -> result = "PASSED_WITH_WARNINGS")
  | None => code = 1
  end.
Proof.
  intros Hr Hm Hs1 Hs2 Hm2 Ho Hthr Hout. set (e := eng (sys p)) in *.
  assert (Hcode : code = exit_code (passed_of e) (HasWarnings e)).
  { unfold main_step in Hs1. rewrite Hm in Hs1. injection Hs1 as <-. cbn in Hs2. injection Hs2 as <-.
    cbn in Hm2. by injection Hm2 as <-. }
  unfold passed_of, HasWarnings in Hcode. unfold emit_report in Hout.
  destruct (Report.RunReport cfg (view_of e) order) as [[summary verdict]|] eqn:Erep; [|discriminate Hout].
  injection Hout as <-. destruct (verdictResult e) as [v|] eqn:Hv; [|done].
  destruct (process_evidence getenv now cfg auto p Hr) as [[tr Hser] _].
  destruct (serial_told getenv now tr (sys p) Hser v Hv) as (c & m & st & sp & bl & pk & names & Hc & Hsn & Hn & ->).
  assert (Hok : map_Forall (fun _ => snapshot_ok) m).
  { destruct (ev_snaps _ _ _ (serial_evidence getenv now tr (sys p) Hser) m Hsn) as (_ & gs & _ & _ & ->).
    intros name snap Hl. unfold captureWorkerSnapshots in Hl. rewrite lookup_fmap in Hl.
    destruct (gs !! name); [|discriminate Hl]. injection Hl as <-. apply snapshot_of_ok. }
  destruct (report_agrees cfg c (view_of e) m st sp bl pk (in_order names m) order summary verdict) as (Hp & Hf & Hw);
    [by apply Hthr|done..| |done|exact Hv|done|].
  { intros name snap Hname Hl. unfold in_order. apply list_elem_of_omap. exists name.
    split; [by rewrite Hn|]. by rewrite Hl. }
  exists (v_Result verdict). split; [reflexivity|]. split; [by eapply RunReport_Result|].
  rewrite Hf, Hcode. unfold exit_code. destruct (Passed _) eqn:Ep; cbn [negb]; [|done].
  destruct (String.eqb_spec (Result (computeVerdict c st sp bl pk (in_order names m))) "PASSED_WITH_WARNINGS");
    intuition discriminate.
Qed.

End Exit.

(** ** Concrete reports *)

Section Demo.
#[local] Existing Instance list_histogram.

(** The run of [demo_run_cfg] after [n] steps, main about to read its verdict. *)
Definition reading (n : nat) : option Process :=
  moves_of demo_run_cfg ([MMain (quiet 1)] ++ map MSys (demo_steps true 0 n 1) ++ [MMain (signal 1); MMain (quiet 1)])
    (mk_Process (init_system 1) Launching).

Lemma reading_reach n p : reading n = Some p -> process_reach no_env 1 demo_run_cfg true p.
Proof. unfold reading. intros E. eapply moves_reach; [|exact E]. constructor. Qed.

Definition demo_emit (p : Process) : option final :=
  emit_report (fun _ _ _ => None) id id demo_run_cfg (eng (sys p)).

(** What the console says and the code main exits with. *)
Definition ending (n : nat) : option (option message * Z) :=
  p ← reading n;
  p1 ← main_step demo_run_cfg true (quiet 1) p;
  p2 ← main_step demo_run_cfg true (quiet 1) p1;
  match main p2 with
  | Exited code => Some (out ← demo_emit p; f_console out !! 9%nat, code)
  | _ => None
  end.
(** A signal between the capture and the judgement: the console says PASSED and the
    process exits with 1.  The same run, left alone, exits with 0. *)
Example passed_exits_1 :
  ending 76 = Some (Some (verdict_line "PASSED"), 1) /\ ending 81 = Some (Some (verdict_line "PASSED"), 0).
Proof. vm_compute. done. Qed.

(** The hypotheses of [one_verdict], decided. *)
Definition comparableb (c : Config) : bool :=
  let t := Thresholds c in
  negb (is_nan (MaxLossPct t)) && negb (is_nan (MaxDuplicationPct t)) && negb (is_nan (MaxErrorRatePct t))
  && fltb fzero (MaxP99LatencyMS t).

Definition reports (p : Process) : bool :=
  match main p, verdictResult (eng (sys p)), demo_emit p, runCfg (eng (sys p)) with
  | ReadingPassed, Some _, Some _, Some c => comparableb c
  | _, _, _, _ => false
  end.

Lemma one_verdict_witness : exists p out result,
  reading 81 = Some p /\ demo_emit p = Some out /\ f_console out !! 9%nat = Some (verdict_line result) /\
  (result = "FAILED" <-> exit_code (passed_of (eng (sys p))) (HasWarnings (eng (sys p))) = 1).
Proof.
  assert (E : (match reading 81 with Some p => reports p | None => false end) = true) by (vm_compute; reflexivity).
  pose proof (reading_reach 81) as Hr.
  destruct (reading 81) as [p|]; [|discriminate E]. unfold reports in E.
  destruct (main p) eqn:Em; try discriminate E. destruct (verdictResult (eng (sys p))) as [v|] eqn:Ev; [|discriminate E].
  destruct (demo_emit p) as [out|] eqn:Eo; [|discriminate E].
  destruct (runCfg (eng (sys p))) as [c|] eqn:Ec; [|discriminate E].
  specialize (Hr p eq_refl). exists p, out.
  set (p1 := mk_Process (sys p) (Reporting (passed_of (eng (sys p))))).
  set (code := exit_code (passed_of (eng (sys p))) (HasWarnings (eng (sys p)))).
  pose proof (one_verdict no_env 1 demo_run_cfg true p (quiet 1) p1 (quiet 1) (mk_Process (sys p) (Exited code)) code
    (fun _ _ _ => None) id id out Hr Em) as H.
  rewrite Ev in H. destruct H as (result & H1 & _ & H2 & _).
  - unfold main_step. by rewrite Em.
  - reflexivity.
  - reflexivity.
  - done.
  - intros c' Hc. rewrite Ec in Hc. injection Hc as <-. unfold comparableb in E.
    rewrite !andb_true_iff, !negb_true_iff in E. unfold thresholds_comparable. tauto.
  - exact Eo.
  - exists result. by split_and!.
Defined.

End Demo.
