(* ===== verification/Script.v ===== *)
(** * Interactive programs

    A program that talks to its environment is an interaction tree over an event
    type [E]: an answer of the environment is a branch, a loop is [ITree.iter], and
    log.Fatalf is an event without answers.  A run is a finite path: [ends] is a run
    to the end of main, [goes] a run to any point of the tree.  [wp] states a property
    of every run that ends, [along] one of every point of every run, and [twp] one of
    every end together with the fact that every run ends; the rules of each follow
    the program's constructs.  [exec] computes the run an environment allows. *)

From S2P Require Import Prelude.
From ITree Require Import ITree.
Local Open Scope list_scope.

Declare Scope prog_scope.
Delimit Scope prog_scope with prog.
Notation "x ← y ; z" := (ITree.bind y (fun x => z))
  (at level 20, y at level 100, z at level 200, only parsing) : prog_scope.
Notation "' x ← y ; z" := (ITree.bind y (fun x => z))
  (at level 20, x pattern, y at level 100, z at level 200, only parsing) : prog_scope.
Notation "x ;; z" := (ITree.bind x (fun _ => z))
  (at level 100, z at level 200, only parsing, right associativity) : prog_scope.

Section Runs.
Context {E : Type -> Type}.

(** An event with the answer it got. *)
Inductive event := | Ev {X : Type} (e : E X) (x : X).

Inductive ends {R} : itree E R -> list event -> R -> Prop :=
  | ends_ret t r : observe t = RetF r -> ends t [] r
  | ends_tau t t' tr r : observe t = TauF t' -> ends t' tr r -> ends t tr r
  | ends_vis t X (e : E X) k x tr r :
      observe t = VisF e k -> ends (k x) tr r -> ends t (Ev e x :: tr) r.

Inductive goes {R} : itree E R -> list event -> itree E R -> Prop :=
  | goes_nil t : goes t [] t
  | goes_tau t t' tr u : observe t = TauF t' -> goes t' tr u -> goes t tr u
  | goes_vis t X (e : E X) k x tr u :
      observe t = VisF e k -> goes (k x) tr u -> goes t (Ev e x :: tr) u.

Lemma observe_bind {R S} (t : itree E R) (k : R -> itree E S) : observe (ITree.bind t k) =
  match observe t with
  | RetF r => observe (k r)
  | TauF t => TauF (ITree.bind t k)
  | VisF e h => VisF e (fun x => ITree.bind (h x) k)
  end.
Proof. unfold observe. cbn. unfold observe. by destruct (_observe t). Qed.

(** Equal nodes have the same event and continuation. *)
Lemma VisF_elim {R T X Y} (e : E X) (k : X -> T) (e0 : E Y) (k0 : Y -> T)
    (P : forall Z, E Z -> (Z -> T) -> Prop) :
  VisF e k = VisF e0 k0 :> itreeF E R T -> P X e k -> P Y e0 k0.
Proof.
  intros H. refine (match H in _ = u return
    match u with VisF e0 k0 => P X e k -> P _ e0 k0 | _ => True end with eq_refl => id end).
Qed.

(** ** Runs to the end *)

Lemma ends_observe {R} (t u : itree E R) tr r : observe t = observe u -> ends t tr r -> ends u tr r.
Proof.
  intros Ho H. destruct H as [t r H|t t' tr r H H'|t X e k x tr r H H']; rewrite Ho in H.
  - by apply ends_ret.
  - by eapply ends_tau.
  - by eapply ends_vis.
Qed.

(** The three inversions, by what the tree shows. *)
Lemma ends_inv {R} (t : itree E R) tr r : ends t tr r ->
  match observe t with
  | RetF r' => tr = [] /\ r = r'
  | TauF t' => ends t' tr r
  | VisF e k => exists x tr', tr = Ev e x :: tr' /\ ends (k x) tr' r
  end.
Proof. intros []; match goal with H : observe _ = _ |- _ => rewrite H end; eauto. Qed.

Lemma ends_bind {R S} (t : itree E R) (k : R -> itree E S) tr s : ends (ITree.bind t k) tr s ->
  exists tr1 tr2 r, tr = tr1 ++ tr2 /\ ends t tr1 r /\ ends (k r) tr2 s.
Proof.
  intros H. remember (ITree.bind t k) as b eqn:Eb. assert (Hb : observe b = observe (ITree.bind t k)) by by subst.
  clear Eb. revert t Hb. induction H as [b r H|b b' tr r H H' IH|b X e h x tr r H H' IH];
    intros t Hb; rewrite observe_bind in Hb; destruct (observe t) as [r0|t0|Y e0 h0] eqn:Et; rewrite H in Hb; try done.
  - exists [], [], r0. split_and!; [done|by apply ends_ret|]. by apply ends_ret.
  - exists [], tr, r0. split_and!; [done|by apply ends_ret|]. by eapply ends_tau.
  - injection Hb as ->. destruct (IH t0 eq_refl) as (tr1 & tr2 & r0 & -> & H1 & H2).
    exists tr1, tr2, r0. split_and!; [done|by eapply ends_tau|done].
  - exists [], (Ev e x :: tr), r0. split_and!; [done|by apply ends_ret|]. by eapply ends_vis.
  - pose (P := fun Z (e : E Z) (k' : Z -> itree E S) => forall x,
      (forall t0, observe (k' x) = observe (ITree.bind t0 k) -> exists tr1 tr2 r1,
         tr = tr1 ++ tr2 /\ ends t0 tr1 r1 /\ ends (k r1) tr2 r) ->
      exists tr1 tr2 r1, Ev e x :: tr = tr1 ++ tr2 /\ ends t tr1 r1 /\ ends (k r1) tr2 r).
    revert IH. refine (VisF_elim _ _ _ _ P (eq_sym Hb) _ x). unfold P. intros y Hy.
    destruct (Hy (h0 y) eq_refl) as (tr1 & tr2 & r1 & -> & H1 & H2).
    exists (Ev e0 y :: tr1), tr2, r1. split_and!; [done|by eapply ends_vis|done].
Qed.

Lemma ends_Ret {R} (r r' : R) tr : ends (Ret r) tr r' -> tr = [] /\ r' = r.
Proof. exact (ends_inv (Ret r) tr r'). Qed.

Lemma ends_trigger {X} (e : E X) tr x : ends (ITree.trigger e) tr x -> tr = [Ev e x].
Proof.
  intros H. destruct (ends_inv _ _ _ H) as (y & tr' & -> & Hy). by apply ends_Ret in Hy as [-> ->].
Qed.

Lemma ends_Ret_bind {R S} (r : R) (k : R -> itree E S) tr s : ends (ITree.bind (Ret r) k) tr s -> ends (k r) tr s.
Proof. apply ends_observe, observe_bind. Qed.

(** A loop: [Inv] of the loop variable and the events so far. *)
Lemma ends_iter {I R} (Inv : I -> list event -> Prop) (body : I -> itree E (I + R)) i tr r :
  Inv i [] ->
  (forall i acc tr1 i', Inv i acc -> ends (body i) tr1 (inl i') -> Inv i' (acc ++ tr1)) ->
  ends (ITree.iter body i) tr r ->
  exists i acc tr1, Inv i acc /\ ends (body i) tr1 (inr r) /\ tr = acc ++ tr1.
Proof.
  intros H0 Hstep H.
  pose (K := fun lr : I + R => match lr with inl i => Tau (ITree.iter body i) | inr r => Ret r end).
  assert (Hgen : forall (b : itree E R) tr r, ends b tr r ->
    (forall i acc pre t, Inv i acc -> observe b = observe (ITree.bind t K) ->
       (forall tr1 lr, ends t tr1 lr -> ends (body i) (pre ++ tr1) lr) ->
       exists i' acc' tr1, Inv i' acc' /\ ends (body i') tr1 (inr r) /\ acc ++ pre ++ tr = acc' ++ tr1)).
  { clear i tr r H0 H. intros b tr r H. induction H as [b r H|b b' tr r H H' IH|b X e h x tr r H H' IH];
      intros i acc pre t Hi Hb Ht; rewrite observe_bind in Hb;
      destruct (observe t) as [[i'|r0]|t0|Y e0 h0] eqn:Et; rewrite H in Hb; cbn in Hb; try done.
    - injection Hb as <-. exists i, acc, (pre ++ []). split_and!; [done| |done]. apply Ht. by apply ends_ret.
    - injection Hb as ->. specialize (IH i' (acc ++ pre) [] (body i')). cbn [app] in IH.
      rewrite <- app_assoc in IH. apply IH.
      + apply (Hstep i). { done. } rewrite <- (app_nil_r pre). apply Ht. by apply ends_ret.
      + done.
      + done.
    - injection Hb as ->. apply (IH i acc pre t0); [done|done|]. intros tr1 lr H1. apply Ht. by eapply ends_tau.
    - pose (P := fun Z (e : E Z) (k' : Z -> itree E R) => forall x,
        (forall i acc pre t, Inv i acc -> observe (k' x) = observe (ITree.bind t K) ->
           (forall tr1 lr, ends t tr1 lr -> ends (body i) (pre ++ tr1) lr) ->
           exists i' acc' tr1, Inv i' acc' /\ ends (body i') tr1 (inr r) /\ acc ++ pre ++ tr = acc' ++ tr1) ->
        exists i' acc' tr1, Inv i' acc' /\ ends (body i') tr1 (inr r) /\ acc ++ pre ++ Ev e x :: tr = acc' ++ tr1).
      revert IH. refine (VisF_elim _ _ _ _ P (eq_sym Hb) _ x). unfold P. intros y Hy.
      destruct (Hy i acc (pre ++ [Ev e0 y]) (h0 y)) as (i' & acc' & tr1 & H1 & H2 & H3); [done|done| |].
      + intros tr1 lr Hl. rewrite <- app_assoc. apply Ht. by eapply ends_vis.
      + exists i', acc', tr1. split_and!; [done|done|]. by rewrite <- H3, <- !app_assoc. }
  destruct (Hgen _ _ _ H i [] [] (body i)) as (i' & acc & tr1 & H1 & H2 & H3); [done|done|done|].
  by exists i', acc, tr1.
Qed.

(** ** Every run that ends *)

Definition wp {R} (t : itree E R) (Q : list event -> R -> Prop) : Prop :=
  forall tr r, ends t tr r -> Q tr r.

Lemma wp_mono {R} (t : itree E R) (Q Q' : list event -> R -> Prop) :
  wp t Q -> (forall tr r, Q tr r -> Q' tr r) -> wp t Q'.
Proof. intros H HQ tr r Hr. by apply HQ, H. Qed.

Lemma wp_ret {R} (r : R) (Q : list event -> R -> Prop) : Q [] r -> wp (Ret r) Q.
Proof. intros H tr r' Hr. by apply ends_Ret in Hr as [-> ->]. Qed.

Lemma wp_event {X} (e : E X) (Q : list event -> X -> Prop) :
  (forall x, Q [Ev e x] x) -> wp (ITree.trigger e) Q.
Proof. intros H tr x Hr. by apply ends_trigger in Hr as ->. Qed.

Lemma wp_bind {R S} (t : itree E R) (k : R -> itree E S) Q :
  wp t (fun tr r => wp (k r) (fun tr' s => Q (tr ++ tr') s)) -> wp (ITree.bind t k) Q.
Proof. intros H tr s Hs. apply ends_bind in Hs as (tr1 & tr2 & r & -> & H1 & H2). by apply (H tr1 r). Qed.

Lemma wp_iter {I R} (Inv : I -> list event -> Prop) (body : I -> itree E (I + R)) i Q :
  Inv i [] ->
  (forall i acc, Inv i acc -> wp (body i) (fun tr lr =>
     match lr with inl i' => Inv i' (acc ++ tr) | inr r => Q (acc ++ tr) r end)) ->
  wp (ITree.iter body i) Q.
Proof.
  intros H0 Hb tr r Hr. apply (ends_iter Inv) in Hr as (i' & acc & tr1 & Hi & H1 & ->).
  - exact (Hb i' acc Hi tr1 (inr r) H1).
  - done.
  - intros j acc tr1 j' Hj H1. exact (Hb j acc Hj tr1 (inl j') H1).
Qed.

(** ** Every run, and that it ends

    The environment is restricted to the histories [adm] admits. *)

Inductive twp {R} (adm : list event -> Prop) (Q : list event -> R -> Prop) : list event -> itree E R -> Prop :=
  | twp_obs_ret h t r : observe t = RetF r -> Q h r -> twp adm Q h t
  | twp_obs_tau h t t' : observe t = TauF t' -> twp adm Q h t' -> twp adm Q h t
  | twp_obs_vis h t X (e : E X) k : observe t = VisF e k ->
      (forall x, adm (h ++ [Ev e x]) -> twp adm Q (h ++ [Ev e x]) (k x)) -> twp adm Q h t.

Section Total.
Context (adm : list event -> Prop).

Lemma twp_observe {R} Q h (t u : itree E R) : observe t = observe u -> twp adm Q h t -> twp adm Q h u.
Proof.
  intros Ho H. destruct H as [h t r H|h t t' H|h t X e k H]; rewrite Ho in H.
  - by eapply twp_obs_ret.
  - by eapply twp_obs_tau.
  - by eapply twp_obs_vis.
Qed.

Lemma twp_mono {R} Q Q' h (t : itree E R) :
  twp adm Q h t -> (forall h r, Q h r -> Q' h r) -> twp adm Q' h t.
Proof. induction 1; intros HQ; [eapply twp_obs_ret|eapply twp_obs_tau|eapply twp_obs_vis]; eauto. Qed.

Lemma twp_ret {R} Q h (r : R) : Q h r -> twp adm Q h (Ret r).
Proof. by apply twp_obs_ret. Qed.

Lemma twp_event {X} (e : E X) Q h :
  (forall x, adm (h ++ [Ev e x]) -> Q (h ++ [Ev e x]) x) -> twp adm Q h (ITree.trigger e).
Proof. intros H. eapply twp_obs_vis; [done|]. intros x Hx. by eapply twp_obs_ret; [|apply H]. Qed.

Lemma twp_bind {R S} (t : itree E R) (k : R -> itree E S) Q h :
  twp adm (fun h' r => twp adm Q h' (k r)) h t -> twp adm Q h (ITree.bind t k).
Proof.
  induction 1 as [h t r H HQ|h t t' H _ IH|h t X e h' H _ IH].
  - eapply twp_observe; [|exact HQ]. by rewrite observe_bind, H.
  - eapply twp_obs_tau; [|exact IH]. by rewrite observe_bind, H.
  - eapply twp_obs_vis; [|exact IH]. by rewrite observe_bind, H.
Qed.

Lemma twp_iter_unfold {I R} (body : I -> itree E (I + R)) i Q h :
  twp adm (fun h' lr => match lr with inl i' => twp adm Q h' (ITree.iter body i') | inr r => Q h' r end) h (body i) ->
  twp adm Q h (ITree.iter body i).
Proof.
  intros H. eapply twp_observe; [|eapply twp_bind, twp_mono; [exact H|]].
  - exact (eq_refl : observe (ITree.bind (body i)
      (fun lr => match lr with inl i' => Tau (ITree.iter body i') | inr r => Ret r end)) = _).
  - intros h' [i'|r] Hlr; [by eapply twp_obs_tau|by eapply twp_obs_ret].
Qed.

(** An end comes after an admitted history. *)
Lemma twp_frame {R} Q h (t : itree E R) : adm h -> twp adm Q h t ->
  twp adm (fun h' r => Q h' r /\ adm h' /\ exists tr, h' = h ++ tr) h t.
Proof.
  intros Hh H. induction H as [h t r H HQ|h t t' H _ IH|h t X e k H _ IH].
  - eapply twp_obs_ret; [done|]. split_and!; [done|done|]. exists []. by rewrite app_nil_r.
  - eapply twp_obs_tau; [done|]. by apply IH.
  - eapply twp_obs_vis; [done|]. intros x Hx. eapply twp_mono; [by apply IH|].
    intros h' r (HQ & Ha & tr & ->). split_and!; [done|done|]. exists (Ev e x :: tr). by rewrite <- app_assoc.
Qed.

(** Total correctness from its two halves. *)
Lemma twp_wp {R} Q P h (t : itree E R) : twp adm Q h t -> wp t P ->
  twp adm (fun h' r => exists tr, h' = h ++ tr /\ P tr r) h t.
Proof.
  intros H. revert P. induction H as [h t r H HQ|h t t' H _ IH|h t X e k H _ IH]; intros P HP.
  - eapply twp_obs_ret; [done|]. exists []. split; [by rewrite app_nil_r|]. by apply HP, ends_ret.
  - eapply twp_obs_tau; [done|]. apply IH. intros tr r Hr. by eapply HP, ends_tau.
  - eapply twp_obs_vis; [done|]. intros x Hx. eapply twp_mono; [apply (IH x Hx (fun tr r => P (Ev e x :: tr) r))|].
    + intros tr r Hr. by eapply HP, ends_vis.
    + intros h' r (tr & -> & Hp). exists (Ev e x :: tr). split; [by rewrite <- app_assoc|done].
Qed.

(** A loop whose measure decreases at every turn. *)
Lemma twp_iter {I R} (Inv : I -> list event -> Prop) (mu : I -> list event -> nat)
    (body : I -> itree E (I + R)) i Q h :
  Inv i h ->
  (forall i h, Inv i h -> twp adm (fun h' lr =>
     match lr with inl i' => Inv i' h' /\ (mu i' h' < mu i h)%nat | inr r => Q h' r end) h (body i)) ->
  twp adm Q h (ITree.iter body i).
Proof.
  intros H0 Hb. remember (mu i h) as n eqn:En. revert i h H0 En.
  induction n as [n IH] using (well_founded_induction lt_wf). intros i h H0 ->.
  apply twp_iter_unfold. eapply twp_mono; [by apply Hb|].
  intros h' [i'|r] HQ; [|done]. destruct HQ as [Hi Hm]. by eapply IH.
Qed.

End Total.

(** ** Every point of every run *)

Definition along {R} (t : itree E R) (P : list event -> Prop) : Prop := forall tr u, goes t tr u -> P tr.

Lemma goes_inv {R} (t : itree E R) tr u : goes t tr u ->
  (tr = [] /\ u = t) \/
  match observe t with
  | RetF _ => False
  | TauF t' => goes t' tr u
  | VisF e k => exists x tr', tr = Ev e x :: tr' /\ goes (k x) tr' u
  end.
Proof. intros [|? ? ? ? H|? ? ? ? ? ? ? H]; [by left|rewrite H; eauto|rewrite H; eauto 6]. Qed.

Lemma along_mono {R} (t : itree E R) (P P' : list event -> Prop) :
  along t P -> (forall tr, P tr -> P' tr) -> along t P'.
Proof. intros H HP tr u Hu. by eapply HP, H. Qed.

Lemma along_ret {R} (r : R) (P : list event -> Prop) : P [] -> along (Ret r) P.
Proof. intros H tr u Hu. by apply goes_inv in Hu as [[-> _]|]. Qed.

Lemma along_event {X} (e : E X) (P : list event -> Prop) :
  P [] -> (forall x, P [Ev e x]) -> along (ITree.trigger e) P.
Proof.
  intros H0 H tr u Hu. apply goes_inv in Hu as [[-> _]|(x & tr' & -> & Hu)]; [done|].
  by apply goes_inv in Hu as [[-> _]|].
Qed.

Lemma goes_bind {R S} (t : itree E R) (k : R -> itree E S) tr u : goes (ITree.bind t k) tr u ->
  (exists t', goes t tr t') \/ exists tr1 tr2 r, tr = tr1 ++ tr2 /\ ends t tr1 r /\ goes (k r) tr2 u.
Proof.
  intros H. remember (ITree.bind t k) as b eqn:Eb. assert (Hb : observe b = observe (ITree.bind t k)) by by subst.
  clear Eb. revert t Hb. induction H as [b|b b' tr u H H' IH|b X e h x tr u H H' IH];
    intros t Hb; [left; exists t; constructor|..]; rewrite observe_bind in Hb;
    destruct (observe t) as [r0|t0|Y e0 h0] eqn:Et; rewrite H in Hb; try done.
  - right. exists [], tr, r0. split_and!; [done|by apply ends_ret|]. by eapply goes_tau.
  - injection Hb as ->. destruct (IH t0 eq_refl) as [[t' Ht]|(tr1 & tr2 & r0 & -> & H1 & H2)].
    + left. exists t'. by eapply goes_tau.
    + right. exists tr1, tr2, r0. split_and!; [done|by eapply ends_tau|done].
  - right. exists [], (Ev e x :: tr), r0. split_and!; [done|by apply ends_ret|]. by eapply goes_vis.
  - pose (P := fun Z (e : E Z) (k' : Z -> itree E S) => forall x,
      (forall t0, observe (k' x) = observe (ITree.bind t0 k) -> (exists t', goes t0 tr t') \/
         exists tr1 tr2 r1, tr = tr1 ++ tr2 /\ ends t0 tr1 r1 /\ goes (k r1) tr2 u) ->
      (exists t', goes t (Ev e x :: tr) t') \/
      exists tr1 tr2 r1, Ev e x :: tr = tr1 ++ tr2 /\ ends t tr1 r1 /\ goes (k r1) tr2 u).
    revert IH. refine (VisF_elim _ _ _ _ P (eq_sym Hb) _ x). unfold P. intros y Hy.
    destruct (Hy (h0 y) eq_refl) as [[t' Ht]|(tr1 & tr2 & r1 & -> & H1 & H2)].
    + left. exists t'. by eapply goes_vis.
    + right. exists (Ev e0 y :: tr1), tr2, r1. split_and!; [done|by eapply ends_vis|done].
Qed.

Lemma along_bind {R S} (t : itree E R) (k : R -> itree E S) P :
  along t P -> wp t (fun tr r => along (k r) (fun tr' => P (tr ++ tr'))) -> along (ITree.bind t k) P.
Proof.
  intros Ht Hk tr u Hu. apply goes_bind in Hu as [[t' H]|(tr1 & tr2 & r & -> & H1 & H2)].
  - by eapply Ht.
  - exact (Hk tr1 r H1 tr2 u H2).
Qed.

Lemma along_iter {I R} (Inv : I -> list event -> Prop) (body : I -> itree E (I + R)) i (P : list event -> Prop) :
  Inv i [] ->
  (forall i acc, Inv i acc -> along (body i) (fun tr => P (acc ++ tr)) /\
     wp (body i) (fun tr lr => match lr with inl i' => Inv i' (acc ++ tr) | inr _ => True end)) ->
  along (ITree.iter body i) P.
Proof.
  intros H0 Hb. set (K := fun lr : I + R => match lr with inl i => Tau (ITree.iter body i) | inr r => Ret r end).
  assert (Hgen : forall b tr u, goes b tr u -> forall i acc pre t, Inv i acc -> observe b = observe (ITree.bind t K) ->
    (forall tr1 lr, ends t tr1 lr -> ends (body i) (pre ++ tr1) lr) ->
    (forall tr1 v, goes t tr1 v -> exists v', goes (body i) (pre ++ tr1) v') -> P (acc ++ pre ++ tr)).
  { clear i H0. intros b tr u H. induction H as [b|b b' tr u H H' IH|b X e h x tr u H H' IH];
      intros i acc pre t Hi Ho Ht Hg; [destruct (Hg [] t (goes_nil t)) as [v Hv]; by apply (proj1 (Hb i acc Hi)) in Hv|..];
      rewrite observe_bind in Ho; destruct (observe t) as [[i'|r0]|t0|Y e0 h0] eqn:Et; rewrite H in Ho; cbn in Ho; try done.
    - injection Ho as ->. specialize (Ht [] (inl i') (ends_ret _ _ Et)). rewrite app_nil_r in Ht.
      rewrite app_assoc. apply (IH i' (acc ++ pre) [] (body i')); [|done|done|by eauto].
      exact (proj2 (Hb i acc Hi) pre (inl i') Ht).
    - injection Ho as ->. apply (IH i acc pre t0); [done|done| |].
      + intros tr1 lr H1. apply Ht. by eapply ends_tau.
      + intros tr1 v H1. eapply Hg, goes_tau; [exact Et|exact H1].
    - pose (P' := fun Z (e : E Z) (k' : Z -> itree E R) => forall x,
        (forall i acc pre t, Inv i acc -> observe (k' x) = observe (ITree.bind t K) ->
          (forall tr1 lr, ends t tr1 lr -> ends (body i) (pre ++ tr1) lr) ->
          (forall tr1 v, goes t tr1 v -> exists v', goes (body i) (pre ++ tr1) v') -> P (acc ++ pre ++ tr)) ->
        P (acc ++ pre ++ Ev e x :: tr)).
      revert IH. refine (VisF_elim _ _ _ _ P' (eq_sym Ho) _ x). unfold P'. intros y Hy.
      assert (Hy' : P (acc ++ (pre ++ [Ev e0 y]) ++ tr)).
      { apply (Hy i acc (pre ++ [Ev e0 y]) (h0 y)); [done|done| |].
        + intros tr1 lr Hl. rewrite <- app_assoc. apply Ht. by eapply ends_vis.
        + intros tr1 v Hl. rewrite <- app_assoc. eapply Hg, goes_vis; [exact Et|exact Hl]. }
      by rewrite <- app_assoc in Hy'. }
  intros tr u Hu. apply (Hgen _ _ _ Hu i [] [] (body i)); eauto.
Qed.

(** ** Monitors

    A safety property of runs, as an automaton that reads the events. *)

Section Monitor.
Context {M : Type} (mon : M -> event -> option M).

Fixpoint track (m : M) (tr : list event) : option M :=
  match tr with
  | [] => Some m
  | ev :: tr => match mon m ev with Some m => track m tr | None => None end
  end.

Definition obeys {R} (m : M) (t : itree E R) (Q : M -> R -> Prop) : Prop :=
  along t (fun tr => is_Some (track m tr)) /\
  wp t (fun tr r => exists m', track m tr = Some m' /\ Q m' r).

Lemma track_app m m' tr tr' : track m tr = Some m' -> track m (tr ++ tr') = track m' tr'.
Proof.
  revert m. induction tr as [|ev tr IH]; cbn; intros m; [by intros [= ->]|].
  destruct (mon m ev) as [m1|]; [|done]. by apply IH.
Qed.

Lemma obeys_mono {R} m (t : itree E R) (Q Q' : M -> R -> Prop) :
  obeys m t Q -> (forall m r, Q m r -> Q' m r) -> obeys m t Q'.
Proof.
  intros [Ha Hw] HQ. split; [done|]. eapply wp_mono; [done|]. intros tr r (m' & Ht & H). eauto.
Qed.

Lemma obeys_ret {R} m (r : R) (Q : M -> R -> Prop) : Q m r -> obeys m (Ret r) Q.
Proof. intros H. split; [by apply along_ret; eexists|apply wp_ret]. by exists m. Qed.

Lemma obeys_event {X} m (e : E X) (Q : M -> X -> Prop) :
  (forall x, exists m', mon m (Ev e x) = Some m' /\ Q m' x) -> obeys m (ITree.trigger e) Q.
Proof.
  intros H. split.
  - apply along_event; [by eexists|]. intros x. destruct (H x) as (m' & Hm & _). cbn. rewrite Hm. by eexists.
  - apply wp_event. intros x. destruct (H x) as (m' & Hm & HQ). cbn. rewrite Hm. eauto.
Qed.

Lemma obeys_bind {R S} m (t : itree E R) (k : R -> itree E S) Q :
  obeys m t (fun m' r => obeys m' (k r) Q) -> obeys m (ITree.bind t k) Q.
Proof.
  intros [Ha Hw]. split.
  - apply along_bind; [done|]. eapply wp_mono; [done|]. intros tr r (m' & Ht & Hk & _).
    eapply along_mono; [done|]. intros tr' H. by rewrite (track_app _ _ _ _ Ht).
  - apply wp_bind. eapply wp_mono; [done|]. intros tr r (m' & Ht & _ & Hk).
    eapply wp_mono; [done|]. intros tr' s. by rewrite (track_app _ _ _ _ Ht).
Qed.

Lemma obeys_iter {I R} (Inv : I -> M -> Prop) (body : I -> itree E (I + R)) m i Q :
  Inv i m ->
  (forall i m, Inv i m -> obeys m (body i) (fun m' lr => match lr with inl i' => Inv i' m' | inr r => Q m' r end)) ->
  obeys m (ITree.iter body i) Q.
Proof.
  intros H0 Hb. split.
  - apply (along_iter (fun i acc => exists m', track m acc = Some m' /\ Inv i m')); [by exists m|].
    intros j acc (m' & Ht & Hj). destruct (Hb j m' Hj) as [Ha Hw]. split.
    + eapply along_mono; [done|]. intros tr. by rewrite (track_app _ _ _ _ Ht).
    + eapply wp_mono; [done|]. intros tr [j'|r] (m1 & Hm & HI); [|done]. exists m1. by rewrite (track_app _ _ _ _ Ht).
  - apply (wp_iter (fun i acc => exists m', track m acc = Some m' /\ Inv i m')); [by exists m|].
    intros j acc (m' & Ht & Hj). destruct (Hb j m' Hj) as [_ Hw].
    eapply wp_mono; [done|]. intros tr [j'|r] (m1 & Hm & HI); exists m1; by rewrite (track_app _ _ _ _ Ht).
Qed.

(** One step at a time. *)
Lemma obeys_end {R} m (t : itree E R) r Q : observe t = RetF r -> obeys m t Q -> Q m r.
Proof. intros Ho [_ Hw]. by destruct (Hw [] r (ends_ret _ _ Ho)) as (m' & [= <-] & HQ). Qed.

Lemma obeys_tau {R} m (t t' : itree E R) Q : observe t = TauF t' -> obeys m t Q -> obeys m t' Q.
Proof.
  intros Ho [Ha Hw]. split.
  - intros tr u Hu. by eapply Ha, goes_tau.
  - intros tr r Hr. by eapply Hw, ends_tau.
Qed.

Lemma obeys_vis {R X} m (t : itree E R) (e : E X) k Q x : observe t = VisF e k -> obeys m t Q ->
  exists m', mon m (Ev e x) = Some m' /\ obeys m' (k x) Q.
Proof.
  intros Ho [Ha Hw]. destruct (Ha [Ev e x] (k x)) as [m' Hm].
  { eapply goes_vis; [done|]. constructor. }
  cbn in Hm. destruct (mon m (Ev e x)) as [m1|] eqn:E1; [|done]. exists m1. split; [done|]. split.
  - intros tr u Hu. destruct (Ha (Ev e x :: tr) u) as [m2 H2]; [by eapply goes_vis|]. cbn in H2. rewrite E1 in H2. by exists m2.
  - intros tr r Hr. destruct (Hw (Ev e x :: tr) r) as (m2 & H2 & HQ); [by eapply ends_vis|]. cbn in H2. rewrite E1 in H2. by exists m2.
Qed.

End Monitor.

End Runs.

(** ** Runs by computation

    [h] answers an event from the environment's state, or refuses it. *)

Fixpoint exec {E : Type -> Type} {S R : Type} (h : forall X, E X -> S -> option (X * S))
    (fuel : nat) (t : itree E R) (s : S) : option (list event * R * S) :=
  match fuel with
  | O => None
  | Datatypes.S n =>
    match observe t with
    | RetF r => Some ([], r, s)
    | TauF t' => exec h n t' s
    | VisF e k =>
      match h _ e s with
      | Some (x, s') =>
        match exec h n (k x) s' with Some (tr, r, s') => Some (Ev e x :: tr, r, s') | None => None end
      | None => None
      end
    end
  end.

Lemma exec_ends {E S R} (h : forall X, E X -> S -> option (X * S)) fuel (t : itree E R) s tr r s' :
  exec h fuel t s = Some (tr, r, s') -> ends t tr r.
Proof.
  revert t s tr. induction fuel as [|n IH]; intros t s tr; cbn; [done|].
  destruct (observe t) as [r0|t0|X e k] eqn:Eo.
  - intros [= <- <- <-]. by apply ends_ret.
  - intros H. eapply ends_tau; [done|by eapply IH].
  - destruct (h X e s) as [[x s1]|]; [|done]. destruct (exec h n (k x) s1) as [[[tr1 r1] s2]|] eqn:Er; [|done].
    intros [= <- <- <-]. eapply ends_vis; [done|by eapply IH].
Qed.

(** The run, when there is one. *)
Definition run_of {E S R} (h : forall X, E X -> S -> option (X * S)) fuel (t : itree E R) s : list (@event E) :=
  match exec h fuel t s with Some (tr, _, _) => tr | None => [] end.
Definition finishes {E S R} (h : forall X, E X -> S -> option (X * S)) fuel (t : itree E R) s : bool :=
  match exec h fuel t s with Some _ => true | None => false end.

Lemma finishes_ends {E S} (h : forall X, E X -> S -> option (X * S)) fuel (t : itree E unit) s :
  finishes h fuel t s = true -> ends t (run_of h fuel t s) tt.
Proof.
  unfold finishes, run_of. destruct (exec h fuel t s) as [[[tr []] s']|] eqn:Ee; [|done].
  intros _. by eapply exec_ends.
Qed.
