(* ===== verification/KafkaClient.v ===== *)
(** * The client the examples use (examples/go/internal/kafkaclient)

    The calls the examples make of franz-go (kgo, kadm, kmsg), of the clock, of the
    process environment and of the terminal are the events of [clientE], whose
    answers are unconstrained; those of Go's synchronisation are [syncE].  A client is its
    handle and its options.  A context is the list of its timeouts, outermost
    first; cancel functions only release it early and are left out.  A print is
    its format string. *)

From S2P Require Import Prelude GoStr Script.
From Stdlib Require Import Ascii.
From ITree Require Import ITree.
Local Open Scope string_scope.
Local Open Scope Z_scope.
Local Open Scope prog_scope.

(** ** Data of the client library *)

(** What errors.Is can tell apart, and the text. *)
Inductive err_kind := MessageTooLarge | InvalidTopicException | InvalidPartitions
  | TopicAuthorizationFailed | SaslAuthenticationFailed | UnknownTopicOrPartition
  | DeadlineExceeded | Canceled | OtherError.
Record error := mk_error { err_code : err_kind; err_text : string }.

#[export] Instance err_kind_eq_dec : EqDecision err_kind.
Proof. solve_decision. Defined.
#[export] Instance error_eq_dec : EqDecision error.
Proof. solve_decision. Defined.

Definition errors_Is (e : error) (k : err_kind) : bool := bool_decide (err_code e = k).
Definition errorf_w (text : string) (e : error) : error := mk_error (err_code e) (text ++s ": " ++s err_text e).

Inductive acks := NoAck | LeaderAck | AllISRAcks.
Inductive offset := AtStart | AtEnd | At (n : Z).
Inductive codec := NoCompression | GzipCompression | SnappyCompression | Lz4Compression | ZstdCompression.
Inductive sasl := Plain (user pass : string) | ScramSha256 (user pass : string) | ScramSha512 (user pass : string).

Inductive opt :=
  | SeedBrokers (seeds : list string) | ClientID (id : string) | DialTimeout (ns : Z)
  | DefaultProduceTopic (topic : string) | RequiredAcks (a : acks) | DisableIdempotentWrite
  | MaxProduceRequestsInflightPerBroker (n : Z) | ProducerBatchCompression (c : codec)
  | ProducerBatchMaxBytes (n : Z) | ManualPartitioner
  | TransactionalID (id : string) | TransactionTimeout (ns : Z)
  | ConsumeTopics (topic : string) | ConsumePartitions (topic : string) (partition : Z) (o : offset)
  | ConsumeResetOffset (o : offset) | ConsumerGroup (group : string) | DisableAutoCommit
  | CooperativeStickyBalancer | FetchMaxWait (ns : Z) | ReadCommitted | SASL (m : sasl).

#[export] Instance acks_eq_dec : EqDecision acks.
Proof. solve_decision. Defined.
#[export] Instance offset_eq_dec : EqDecision offset.
Proof. solve_decision. Defined.
#[export] Instance codec_eq_dec : EqDecision codec.
Proof. solve_decision. Defined.
#[export] Instance sasl_eq_dec : EqDecision sasl.
Proof. solve_decision. Defined.
#[export] Instance opt_eq_dec : EqDecision opt.
Proof. solve_decision. Defined.

Record client := mk_client { cl_id : nat; cl_opts : list opt }.
#[export] Instance client_eq_dec : EqDecision client.
Proof. solve_decision. Defined.

Definition context := list Z.
Definition WithTimeout (ctx : context) (ns : Z) : context := (ctx ++ [ns])%list.
Definition Second : Z := 1000000000.
Definition Millisecond : Z := 1000000.

(** A record's key, value, partition and offset; the last two of a record to
    produce are zero unless set. *)
Record Record_ := mk_Record { r_Key : string; r_Value : string; r_Partition : Z; r_Offset : Z }.
Definition value_record (v : string) : Record_ := mk_Record "" v 0 0.

Record Fetches := mk_Fetches { f_Errors : list error; f_records : list Record_ }.
Record ListedOffset := mk_ListedOffset { lo_Offset : Z; lo_Err : option error }.
Record OffsetResponse := mk_OffsetResponse { or_At : Z; or_Err : option error }.
Record TopicDetail := mk_TopicDetail { td_Partitions : list Z; td_Err : option error }.
Record Config := mk_Config { c_Key : string; c_Value : option string }.
Record Metadata := mk_Metadata { m_Cluster : string; m_Brokers : list Z }.
Record ListOffsetsRequest := mk_ListOffsetsRequest {
  lr_ReplicaID : Z; lr_IsolationLevel : Z; lr_Topic : string; lr_Partition : Z;
  lr_CurrentLeaderEpoch : Z; lr_Timestamp : Z }.
Record PartitionResponse := mk_PartitionResponse { pr_ErrorCode : Z; pr_Offset : Z }.

(** kadm's maps by topic and partition; a failed lookup gives Go's zero value. *)
Definition ListedOffsets := gmap (string * Z) ListedOffset.
Definition Lookup (l : ListedOffsets) (topic : string) (p : Z) : ListedOffset * bool :=
  match l !! (topic, p) with Some o => (o, true) | None => (mk_ListedOffset 0 None, false) end.

(** TopicDetails.Has: the topic is listed, and not as unknown. *)
Definition Has (l : gmap string TopicDetail) (topic : string) : bool :=
  match l !! topic with
  | Some d => match td_Err d with Some e => negb (errors_Is e UnknownTopicOrPartition) | None => true end
  | None => false
  end.
Definition Partitions (l : gmap string TopicDetail) (topic : string) : Z :=
  match l !! topic with Some d => Z.of_nat (length (td_Partitions d)) | None => 0 end.

Definition Empty (fs : Fetches) : bool := match f_records fs with [] => true | _ => false end.

(** ** The calls *)

Inductive clientE : Type -> Type :=
  | Stdout (format : string) : clientE unit
  | Log (format : string) : clientE unit
  | Fatal (format : string) : clientE Empty_set
  | Now : clientE Z
  | Sleep (ns : Z) : clientE unit
  | CtxErr (ctx : context) : clientE (option error)
  | NewUUID : clientE string
  | NewClient (opts : list opt) : clientE (error + nat)
  | Close (cl : client) : clientE unit
  | ProduceSync (ctx : context) (cl : client) (rs : list Record_) : clientE (list (Record_ * option error))
  | PollFetches (ctx : context) (cl : client) : clientE Fetches
  | ProducerID (ctx : context) (cl : client) : clientE (error + Z * Z)
  | BeginTransaction (cl : client) : clientE (option error)
  | EndTransaction (ctx : context) (cl : client) (commit : bool) : clientE (option error)
  | CommitRecords (ctx : context) (cl : client) (rs : list Record_) : clientE (option error)
  | LeaveGroup (ctx : context) (cl : client) : clientE (option error)
  | CreateTopic (ctx : context) (adm : client) (partitions replicas : Z)
      (configs : list (string * string)) (topic : string) : clientE (option error)
  | DeleteTopics (ctx : context) (adm : client) (topic : string) : clientE (error + list (string * option error))
  | ListTopics (ctx : context) (adm : client) : clientE (error + gmap string TopicDetail)
  (* The second sum is the result of On for the topic. *)
  | DescribeTopicConfigs (ctx : context) (adm : client) (topic : string) : clientE (error + (error + list Config))
  | BrokerMetadata (ctx : context) (adm : client) : clientE (error + Metadata)
  | UpdatePartitions (ctx : context) (adm : client) (set : Z) (topic : string) : clientE (list (string * option error) * option error)
  | AlterTopicConfigs (ctx : context) (adm : client) (key value topic : string) : clientE (option error)
  | DeleteRecords (ctx : context) (adm : client) (topic : string) (partition below : Z) : clientE (option error)
  | ListStartOffsets (ctx : context) (adm : client) (topic : string) : clientE (error + ListedOffsets)
  | ListEndOffsets (ctx : context) (adm : client) (topic : string) : clientE (error + ListedOffsets)
  | ListOffsetsAfterMilli (ctx : context) (adm : client) (ms : Z) (topic : string) : clientE (error + ListedOffsets)
  | RequestListOffsets (ctx : context) (cl : client) (req : ListOffsetsRequest) : clientE (error + list (list PartitionResponse))
  | FetchOffsets (ctx : context) (adm : client) (group : string) : clientE (error + gmap (string * Z) OffsetResponse).

(** Go's synchronisation, as far as the examples use it: one mutex, one map of
    counters it protects, channels that are only closed, one wait group, and the
    start of a goroutine for a member of a consumer group. *)
Inductive syncE : Type -> Type :=
  | Lock : syncE unit
  | Unlock : syncE unit
  | Increment (key : string) : syncE unit
  | Count (key : string) : syncE Z
  | MapLen : syncE Z
  | CloseChan (ch : string) : syncE unit
  | IsClosed (ch : string) : syncE bool
  | WgAdd (n : Z) : syncE unit
  | WgDone : syncE unit
  | WgWait : syncE unit
  | Go (member : string) (cl : client) (stop : string) : syncE unit.

(** ** Programs *)

Notation goE := (clientE +' syncE).
Notation prog := (itree goE).

Definition call {X} (e : clientE X) : prog X := ITree.trigger (inl1 e).
Definition sync {X} (e : syncE X) : prog X := ITree.trigger (inr1 e).

(** log.Fatalf: the process exits with status 1, deferred calls do not run. *)
Definition fatal {A} (format : string) : prog A := x ← call (Fatal format); match x : Empty_set with end.

(** [if err != nil { log.Fatalf(format, err) }] *)
Definition must {A} (format : string) (t : prog (error + A)) : prog A :=
  r ← t; match r with inl _ => fatal format | inr v => Ret v end.
Definition check (format : string) (t : prog (option error)) : prog unit :=
  r ← t; match r with Some _ => fatal format | None => Ret tt end.

(** [if cond { log.Fatalf(format, ...) }] *)
Definition fail_if (cond : bool) (format : string) : prog unit := if cond then fatal format else Ret tt.

(** A range statement. *)
Fixpoint each {A} (l : list A) (body : A -> prog unit) : prog unit :=
  match l with [] => Ret tt | a :: l => body a ;; each l body end.

(** [for { body }], where [inr] leaves the loop. *)
Definition forever {I R} (body : I -> prog (I + R)) : I -> prog R := ITree.iter body.

(** [for cond && time.Now().Before(deadline) { body }], where [inr] is a return
    or break from inside; [exit] follows the loop. *)
Definition for_before {I R} (deadline : Z) (cond : I -> bool) (body : I -> prog (I + R)) (exit : I -> prog R) : I -> prog R :=
  forever (fun i =>
    if cond i
    then now ← call Now; if now <? deadline then body i else r ← exit i; Ret (inr r)
    else r ← exit i; Ret (inr r)).

(** ProduceResults: First is the first result, FirstErr the first error. *)
Definition First (rs : list (Record_ * option error)) : prog (error + Record_) :=
  match rs with
  | [] => fatal "panic: index out of range"
  | (_, Some e) :: _ => Ret (inl e)
  | (r, None) :: _ => Ret (inr r)
  end.
Fixpoint FirstErr (rs : list (Record_ * option error)) : option error :=
  match rs with
  | [] => None
  | (_, Some e) :: _ => Some e
  | (_, None) :: rs => FirstErr rs
  end.

(** The tail of every example: the responses of DeleteTopics, which hold the
    errors of single topics, are dropped. *)
Definition tear_down (ctx : context) (adm : client) (topic pass : string) : prog unit :=
  del ← call (DeleteTopics ctx adm topic);
  match del with inl _ => call (Log "warning: DeleteTopics: %v") | inr _ => Ret tt end;;
  call (Stdout "DeleteTopic: ok");;
  call (Stdout pass).

(** ** kafkaclient.go *)

Definition DefaultBootstrap : string := "localhost:9092".

Section Env.
Context (getenv : string -> string).

Definition Bootstrap : string :=
  let v := getenv "KUBEMQ_KAFKA_BOOTSTRAP" in if negb (String.eqb v "") then v else DefaultBootstrap.

Definition is_blank (c : ascii) : bool := Ascii.eqb c " " || Ascii.eqb c "009".
Fixpoint trimLeft (s : string) : string :=
  match s with String c s' => if is_blank c then trimLeft s' else s | EmptyString => EmptyString end.
Definition trimSpace (s : string) : string := rev_string (trimLeft (rev_string (trimLeft s))).

Fixpoint splitComma_loop (s cur : string) (out : list string) : list string :=
  match s with
  | EmptyString => (out ++ [trimSpace cur])%list
  | String r s =>
    if Ascii.eqb r "," then splitComma_loop s "" (out ++ [trimSpace cur])%list
    else splitComma_loop s (cur ++s String r "") out
  end.
Definition splitComma (s : string) : list string := splitComma_loop s "" [].

Definition seeds : list string :=
  let out := base.filter (fun s => s <> "") (splitComma Bootstrap) in
  match out with [] => [DefaultBootstrap] | _ => out end.

(** append(base, opts...): of two options that set the same thing the last wins. *)
Definition base (opts : list opt) : list opt :=
  ([SeedBrokers seeds; ClientID "kubemq-kafka-examples-go"; DialTimeout (5 * Second)] ++ opts)%list.

Definition New (opts : list opt) : prog (error + client) :=
  r ← call (NewClient (base opts));
  match r with
  | inl err => Ret (inl (errorf_w "create kgo client" err))
  | inr id => Ret (inr (mk_client id (base opts)))
  end.

(** The kadm client wraps the kgo client and is used through it. *)
Definition Admin (opts : list opt) : prog (error + client) := New opts.

Definition Topic (family short : string) : prog string :=
  id ← call NewUUID;
  Ret ("kafka-ex-" ++s family ++s "-" ++s short ++s "-" ++s take_string 8 id).

Definition Banner (example : string) : prog unit :=
  call (Stdout ("[kubemq-kafka] " ++s example ++s " | bootstrap=" ++s Bootstrap ++s " partitioner=murmur2(franz-go)")).

End Env.
