(* ===== verification/KafkaFacts.v ===== *)
(** * Reasoning about the examples

    The rules of [wp] and [twp] for the client's calls and the control flow of
    KafkaClient, what a trace says (its polls, its clients), and the tactics [run]
    and [use] that walk through a program. *)

From ITree Require Import ITree.
From S2P Require Import Prelude GoStr Script KafkaClient.
Local Open Scope string_scope.
Local Open Scope Z_scope.

Notation trace := (list (@event goE)).
Notation "e >-> x" := (Ev (E := goE) (inl1 e) x) (at level 60).

(** ** What a trace says *)

Definition same (c cl : client) : Z := if decide (c = cl) then 1 else 0.

(** Clients opened and not closed. *)
Definition owed_ev (c : client) (ev : @event goE) : Z :=
  match ev with
  | Ev e x =>
    match e with
    | inl1 e =>
      match e in clientE X return X -> Z with
      | NewClient opts => fun r => match r with inr id => same c (mk_client id opts) | inl _ => 0 end
      | Close cl => fun _ => - same c cl
      | _ => fun _ => 0
      end
    | inr1 _ => fun _ => 0
    end x
  end.
Fixpoint owed (c : client) (tr : trace) : Z :=
  match tr with [] => 0 | ev :: tr => owed_ev c ev + owed c tr end.

(** Every client the trace opens is closed once in it. *)
Definition tidy (tr : trace) : Prop := forall c, owed c tr = 0.

(** The answers to the polls of the selected clients. *)
Definition poll_ev (sel : client -> bool) (ev : @event goE) : list Fetches :=
  match ev with
  | Ev e x =>
    match e with
    | inl1 e =>
      match e in clientE X return X -> list Fetches with
      | PollFetches _ cl => fun fs => if sel cl then [fs] else []
      | _ => fun _ => []
      end
    | inr1 _ => fun _ => []
    end x
  end.
Fixpoint polls (sel : client -> bool) (tr : trace) : list Fetches :=
  match tr with [] => [] | ev :: tr => (poll_ev sel ev ++ polls sel tr)%list end.

Definition clean (fs : Fetches) : bool := match f_Errors fs with [] => true | _ => false end.
Definition delivered (sel : client -> bool) (tr : trace) : list Record_ :=
  concat (map f_records (base.filter clean (polls sel tr))).

Definition has (cl : client) (o : opt) : Prop := o ∈ cl_opts cl.

Lemma owed_app c tr tr' : owed c (tr ++ tr') = owed c tr + owed c tr'.
Proof. induction tr as [|ev tr IH]; cbn [owed app]; lia. Qed.

Lemma tidy_app tr tr' : tidy tr -> tidy tr' -> tidy (tr ++ tr').
Proof. intros H H' c. by rewrite owed_app, H, H'. Qed.

Lemma polls_app sel tr tr' : polls sel (tr ++ tr') = (polls sel tr ++ polls sel tr')%list.
Proof. induction tr as [|ev tr IH]; cbn [polls app]; [done|]. by rewrite IH, app_assoc. Qed.

Lemma delivered_app sel tr tr' : delivered sel (tr ++ tr') = (delivered sel tr ++ delivered sel tr')%list.
Proof. unfold delivered. by rewrite polls_app, filter_app, map_app, concat_app. Qed.

Definition is_client (cl : client) : client -> bool := fun c => bool_decide (c = cl).
Lemma is_client_self cl : is_client cl cl = true.
Proof. by apply bool_decide_eq_true. Qed.

Lemma delivered_skip sel ev tr : poll_ev sel ev = [] -> delivered sel (ev :: tr) = delivered sel tr.
Proof. unfold delivered. cbn [polls]. by intros ->. Qed.

Lemma delivered_poll sel ctx cl fs tr : sel cl = true ->
  delivered sel (PollFetches ctx cl >-> fs :: tr) =
  ((if clean fs then f_records fs else []) ++ delivered sel tr)%list.
Proof. unfold delivered. cbn [polls poll_ev]. intros ->. cbn. by destruct (clean fs). Qed.

Lemma delivered_other ctx cl cl' fs tr : cl' <> cl ->
  delivered (is_client cl') (PollFetches ctx cl >-> fs :: tr) = delivered (is_client cl') tr.
Proof.
  intros Hne. apply delivered_skip. cbn. unfold is_client. by rewrite bool_decide_eq_false_2 by congruence.
Qed.

Lemma delivered_quiet sel tr : (forall sel, polls sel tr = []) -> delivered sel tr = [].
Proof. unfold delivered. by intros ->. Qed.

Lemma clean_true fs : f_Errors fs = [] -> clean fs = true.
Proof. unfold clean. by intros ->. Qed.

Lemma clean_false fs e l : f_Errors fs = e :: l -> clean fs = false.
Proof. unfold clean. by intros ->. Qed.

(** A lookup that succeeds shows an entry. *)
Lemma Lookup_ok l topic p lo ok : Lookup l topic p = (lo, ok) -> ok = true -> lo_Err lo = None ->
  l !! (topic, p) = Some (mk_ListedOffset (lo_Offset lo) None).
Proof.
  unfold Lookup. destruct (l !! (topic, p)) as [o|]; intros [= <- <-] Hok He; [|done].
  destruct o. cbn in *. by subst.
Qed.

(** ** Rules *)

Lemma wp_call {X} (e : clientE X) (Q : trace -> X -> Prop) : (forall x, Q [e >-> x] x) -> wp (call e) Q.
Proof. apply wp_event. Qed.

Lemma wp_fatal {R} f (Q : trace -> R -> Prop) : wp (fatal f) Q.
Proof. apply wp_bind, wp_call. intros []. Qed.

Lemma wp_must {R} f (t : prog (error + R)) (Q : trace -> R -> Prop) :
  wp t (fun tr r => match r with inl _ => True | inr v => Q tr v end) -> wp (must f t) Q.
Proof.
  intros H. apply wp_bind. eapply wp_mono; [exact H|]. intros tr [e|v]; [intros; apply wp_fatal|].
  intros HQ. apply wp_ret. by rewrite app_nil_r.
Qed.

Lemma wp_check f (t : prog (option error)) (Q : trace -> unit -> Prop) :
  wp t (fun tr r => match r with Some _ => True | None => Q tr tt end) -> wp (check f t) Q.
Proof.
  intros H. apply wp_bind. eapply wp_mono; [exact H|]. intros tr [e|]; [intros; apply wp_fatal|].
  intros HQ. apply wp_ret. by rewrite app_nil_r.
Qed.

Lemma wp_fail_if c f (Q : trace -> unit -> Prop) : (c = false -> Q [] tt) -> wp (fail_if c f) Q.
Proof. destruct c; intros H; [apply wp_fatal|by apply wp_ret, H]. Qed.

Lemma wp_First rs (Q : trace -> error + Record_ -> Prop) :
  (forall r rest, rs = (r, None) :: rest -> Q [] (inr r)) -> (forall e, Q [] (inl e)) -> wp (First rs) Q.
Proof.
  intros H1 H2. destruct rs as [|[r [e|]] rest]; [apply wp_fatal|apply wp_ret, H2|by eapply wp_ret, H1].
Qed.

Lemma wp_New getenv opts (Q : trace -> error + client -> Prop) :
  (forall e e', Q [NewClient (base getenv opts) >-> inl e] (inl e')) ->
  (forall id cl, cl = mk_client id (base getenv opts) -> Q [NewClient (base getenv opts) >-> inr id] (inr cl)) ->
  wp (New getenv opts) Q.
Proof. intros H1 H2. apply wp_bind, wp_call. intros [e|id]; apply wp_ret; [apply H1|by apply H2]. Qed.

Lemma wp_Topic family short (Q : trace -> string -> Prop) :
  (forall id topic, topic = "kafka-ex-" ++s family ++s "-" ++s short ++s "-" ++s take_string 8 id ->
     Q [NewUUID >-> id] topic) -> wp (Topic family short) Q.
Proof. intros H. apply wp_bind, wp_call. intros id. by apply wp_ret, H. Qed.

Lemma wp_tear_down ctx adm topic pass (Q : trace -> unit -> Prop) :
  (forall tr, tidy tr -> (forall sel, polls sel tr = []) -> Q tr tt) -> wp (tear_down ctx adm topic pass) Q.
Proof.
  intros H. apply wp_bind, wp_call. intros [e|l]; apply wp_bind; [apply wp_call; intros []|apply wp_ret];
    apply wp_bind, wp_call; intros []; apply wp_call; intros []; by apply H.
Qed.

(** A range statement gives one piece of trace per element. *)
Lemma wp_each {A} (l : list A) body (P : A -> trace -> Prop) (Q : trace -> unit -> Prop) :
  (forall a, a ∈ l -> wp (body a) (fun tr _ => P a tr)) ->
  (forall trs, Forall2 P l trs -> Q (concat trs) tt) -> wp (each l body) Q.
Proof.
  revert Q. induction l as [|a l IH]; intros Q Hb HQ; cbn [each].
  - apply wp_ret. by apply (HQ []).
  - apply wp_bind. eapply wp_mono; [apply Hb; left|]. intros tr [] Ha.
    apply IH; [intros; apply Hb; by right|].
    intros trs Hl. apply (HQ (tr :: trs)). by constructor.
Qed.

(** What every turn shows, when more events do not unsay it. *)
Lemma wp_each_all {A} (l : list A) body (P : A -> trace -> Prop) :
  (forall a tr tr', sublist tr tr' -> P a tr -> P a tr') ->
  (forall a, wp (body a) (fun tr _ => tidy tr /\ P a tr)) ->
  wp (each l body) (fun tr _ => tidy tr /\ forall a, a ∈ l -> P a tr).
Proof.
  intros Hm Hb. eapply wp_each; [intros a _; apply Hb|]. induction 1 as [|a tr l trs [Ht Ha] _ [Ht' IH]]; cbn [concat].
  - split; [done|]. intros a Ha. by apply elem_of_nil in Ha.
  - split; [by apply tidy_app|]. intros b [->|Hb']%elem_of_cons.
    + eapply Hm, Ha. by apply sublist_inserts_r.
    + eapply Hm, IH; [|done]. by apply sublist_inserts_l.
Qed.

(** A loop of checks. *)
Lemma wp_each_fail_if {A} (l : list A) cond f (Q : trace -> unit -> Prop) :
  ((forall a, a ∈ l -> cond a = false) -> Q [] tt) -> wp (each l (fun a => fail_if (cond a) f)) Q.
Proof.
  intros HQ. apply (wp_each _ _ (fun a tr => tr = [] /\ cond a = false)).
  - intros a _. by apply wp_fail_if.
  - intros trs Hl. assert (Hc : concat trs = []) by (clear HQ; induction Hl as [|? ? ? ? [-> _] _ IH]; [done|exact IH]).
    rewrite Hc. apply HQ. intros a Ha. apply list_elem_of_lookup in Ha as [i Hi].
    destruct (Forall2_lookup_l _ _ _ _ _ Hl Hi) as (tr & _ & _ & Ha). done.
Qed.

(** A loop of acknowledged records. *)
Lemma wp_each_produce {A} (l : list A) body ctx prod (rec : A -> Record_) :
  (forall a, wp (body a) (fun tr _ => exists res, tr = [ProduceSync ctx prod [rec a] >-> res] /\ FirstErr res = None)) ->
  wp (each l body) (fun tr _ => tidy tr /\ (forall sel, polls sel tr = []) /\
    forall a, a ∈ l -> exists res, (ProduceSync ctx prod [rec a] >-> res) ∈ tr /\ FirstErr res = None).
Proof.
  intros Hb. eapply wp_each; [intros a _; apply Hb|]. induction 1 as [|a tr l trs (res & -> & Hres) _ IH]; cbn [concat].
  - split_and!; [done|done|]. intros a Ha. by apply elem_of_nil in Ha.
  - destruct IH as (Ht & Hp & Hl). split_and!.
    + intros c. apply Ht.
    + intros sel. apply Hp.
    + intros b [->|Hb']%elem_of_cons; [exists res; split; [by left|done]|].
      destruct (Hl b Hb') as (res' & H' & Hr'). exists res'. split; [by right|done].
Qed.

Lemma wp_for_before {I R} (Inv : I -> trace -> Prop) deadline cond body exit i (Q : trace -> R -> Prop) :
  Inv i [] ->
  (forall i acc now, Inv i acc -> cond i = true -> now < deadline -> wp (body i) (fun tr lr =>
     match lr with inl i' => Inv i' (acc ++ Now >-> now :: tr)%list | inr r => Q (acc ++ Now >-> now :: tr)%list r end)) ->
  (forall i acc tr, Inv i acc -> cond i = false /\ tr = [] \/ (exists now, deadline <= now /\ tr = [Now >-> now]) ->
     wp (exit i) (fun tr' r => Q (acc ++ tr ++ tr')%list r)) ->
  wp (for_before deadline cond body exit i) Q.
Proof.
  intros H0 Hb He. apply (wp_iter Inv); [done|]. intros j acc Hj. destruct (cond j) eqn:Ec.
  - apply wp_bind, wp_call. intros now. destruct (now <? deadline) eqn:Ed.
    + apply Z.ltb_lt in Ed. exact (Hb j acc now Hj Ec Ed).
    + apply Z.ltb_ge in Ed. apply wp_bind. eapply wp_mono; [eapply (He j acc [Now >-> now]); eauto|].
      intros tr r HQ. apply wp_ret. by rewrite app_nil_r.
  - apply wp_bind. eapply wp_mono; [eapply (He j acc []); eauto|].
    intros tr r HQ. apply wp_ret. by rewrite app_nil_r.
Qed.

(** A loop that polls until it has a record, and gives up at the deadline. *)
Definition first_polled (ctx : context) (cl : client) (tr : trace) (r : Record_) : Prop :=
  exists rest, (PollFetches ctx cl >-> mk_Fetches [] (r :: rest)) ∈ tr.

Lemma wp_poll_first ctx cl deadline (body : unit -> prog (unit + Record_)) f :
  (forall u, wp (body u) (fun tr lr => tidy tr /\ match lr with inr r => first_polled ctx cl tr r | inl _ => True end)) ->
  wp (for_before deadline (fun _ => true) body (fun _ => fatal f) tt)
    (fun tr r => tidy tr /\ first_polled ctx cl tr r).
Proof.
  intros Hb. apply (wp_for_before (fun _ tr => tidy tr)); [done| |intros; apply wp_fatal].
  intros i acc now Ht _ _. eapply wp_mono; [apply Hb|]. intros tr [u|r] [Htr H].
  - by apply (tidy_app acc (_ :: tr)).
  - split; [by apply (tidy_app acc (_ :: tr))|]. destruct H as [rest H].
    exists rest. apply elem_of_app. right. by right.
Qed.

(** ** Tactics

    [run] walks to the next loop or helper, [use H] applies what is known of one. *)

Ltac run1 :=
  lazymatch goal with
  | |- wp (Ret _) _ => apply wp_ret
  | |- wp (ITree.bind _ _) _ => apply wp_bind
  | |- wp (call (Stdout _)) _ => apply wp_call; intros []
  | |- wp (call (Log _)) _ => apply wp_call; intros []
  | |- wp (call (Sleep _)) _ => apply wp_call; intros []
  | |- wp (call (Close _)) _ => apply wp_call; intros []
  | |- wp (call _) _ => apply wp_call; intros ?
  | |- wp (fatal _) _ => apply wp_fatal
  | |- wp (must _ _) _ => apply wp_must
  | |- wp (check _ _) _ => apply wp_check
  | |- wp (fail_if _ _) _ => apply wp_fail_if; intros ?
  | |- wp (First _) _ => apply wp_First; [intros ? ? ->|intros ?]
  | |- wp (New _ _) _ => apply wp_New; [intros ? ?|intros ? ? ?]
  | |- wp (Admin _ _) _ => apply wp_New; [intros ? ?|intros ? ? ?]
  | |- wp (Topic _ _) _ => apply wp_Topic; intros ? ? ?
  | |- wp (Banner _ _) _ => apply wp_call; intros []
  | |- wp (tear_down _ _ _ _) _ => apply wp_tear_down; intros ? ? ?
  | |- wp (each _ (fun _ => fail_if _ _)) _ => apply wp_each_fail_if; intros ?
  | |- wp (match ?x with _ => _ end) _ => destruct x eqn:?
  | |- match ?x with _ => _ end => destruct x eqn:?; try exact I
  | |- True => exact I
  end; cbv beta iota.
Ltac run := cbv zeta; repeat run1.

Tactic Notation "use" uconstr(H) := eapply wp_mono; [eapply H|cbv beta].

(** [tidy] of a concrete trace with tidy pieces. *)
Ltac tidy :=
  let c := fresh "c" in
  subst; intros c;
  repeat match goal with H : tidy _ |- _ => specialize (H c); revert H end;
  repeat first [rewrite owed_app | progress cbn [owed owed_ev app]]; intros; lia.

(** [sublist] of a trace, taking the first match. *)
Ltac in_order :=
  cbn [app];
  lazymatch goal with
  | |- sublist [] _ => apply sublist_nil_l
  | H : ?a ∈ ?t |- sublist (?a' :: ?l) (?t ++ ?r)%list =>
    apply (sublist_app [a'] t l r); [apply singleton_sublist_l; exact H | in_order]
  | |- sublist _ (_ :: _) => first [apply sublist_skip | apply sublist_cons]; in_order
  | |- sublist _ ((_ ++ _) ++ _)%list => rewrite <- app_assoc; in_order
  | |- sublist _ (_ ++ _)%list => apply sublist_inserts_l; in_order
  end.

(** What a concrete trace delivers. *)
Ltac deliver :=
  repeat first [
    match goal with H : forall sel, polls sel ?t = [] |- context [delivered ?s ?t] => rewrite (delivered_quiet s t H) end
    | match goal with |- context [delivered ?s []] => change (delivered s []) with (@nil Record_) end
    | rewrite delivered_app | rewrite delivered_skip by reflexivity
    | rewrite delivered_other by done | rewrite delivered_poll by (apply is_client_self || reflexivity) | rewrite clean_true by done | erewrite clean_false by eassumption
    | progress cbn [app] | rewrite app_nil_r ].

(** A piece of a concrete trace. *)
Ltac piece :=
  cbn [app]; try reflexivity;
  lazymatch goal with
  | |- sublist ?t (?t ++ _)%list => apply sublist_inserts_r; reflexivity
  | |- sublist _ ((_ ++ _) ++ _)%list => rewrite <- app_assoc; piece
  | |- sublist _ (_ ++ _)%list => apply sublist_inserts_l; piece
  | |- sublist _ (_ :: _) => apply sublist_cons; piece
  end.

(** An event of a concrete trace. *)
Ltac in_trace :=
  cbn [app]; try eassumption;
  lazymatch goal with
  | |- _ ∈ (_ :: _) => first [left | right; in_trace]
  | |- _ ∈ ((_ ++ _) ++ _)%list => rewrite <- app_assoc; in_trace
  | |- _ ∈ (_ ++ _)%list => apply elem_of_app; first [left; eassumption | right; in_trace]
  end.

(** The trace around an event. *)
Lemma cut_here {A} (x : A) l : x :: l = ([] ++ x :: l)%list.
Proof. done. Qed.
Lemma cut_mid {A} (x : A) k l : (k ++ x :: l = k ++ x :: l)%list.
Proof. done. Qed.
Lemma cut_cons {A} (x y : A) l l1 l2 : l = (l1 ++ x :: l2)%list -> y :: l = ((y :: l1) ++ x :: l2)%list.
Proof. by intros ->. Qed.
Lemma cut_app {A} (x : A) k l l1 l2 : l = (l1 ++ x :: l2)%list -> (k ++ l = (k ++ l1) ++ x :: l2)%list.
Proof. intros ->. by rewrite app_assoc. Qed.
Lemma cut_assoc {A} (k1 k2 l r : list A) : (k1 ++ k2 ++ l)%list = r -> ((k1 ++ k2) ++ l)%list = r.
Proof. by rewrite app_assoc. Qed.
Ltac cut_trace :=
  cbn [app];
  lazymatch goal with
  | |- _ :: _ = _ => first [apply cut_here | apply cut_cons; cut_trace]
  | |- ((_ ++ _) ++ _)%list = _ => apply cut_assoc; cut_trace
  | |- (_ ++ _)%list = _ => first [apply cut_mid | apply cut_app; cut_trace]
  end.

(** Options of a client just made. *)
Ltac has_opt := subst; unfold has; cbn; repeat first [left; reflexivity | right].

(** The conditions that let the program go on, as propositions. *)
Ltac conds :=
  repeat match goal with
  | H : negb _ = false |- _ => apply negb_false_iff in H
  | H : negb _ = true |- _ => apply negb_true_iff in H
  | H : String.eqb _ _ = true |- _ => apply String.eqb_eq in H
  | H : String.eqb _ _ = false |- _ => apply String.eqb_neq in H
  | H : bool_decide _ = true |- _ => apply bool_decide_eq_true in H
  | H : bool_decide _ = false |- _ => apply bool_decide_eq_false in H
  | H : errors_Is _ _ = true |- _ => apply bool_decide_eq_true in H
  | H : ~ is_Some _ |- _ => apply eq_None_not_Some in H
  | H : _ || _ = false |- _ => apply orb_false_iff in H as [? ?]
  end; zify_bool.
