(* ===== verification/KafkaHalt.v ===== *)
(** * Termination of the examples

    The environment is fair when its clock advances with every reading and a
    context gives up after at most [patience] questions.  Under every such
    environment, from every point, the constructs of the examples come to an end:
    [Halts] is closed under all of them. *)

From ITree Require Import ITree.
From stdpp Require Import sorting.
From S2P Require Import Prelude GoStr Script KafkaClient KafkaFacts.
Local Open Scope string_scope.
Local Open Scope Z_scope.

(** The clock's readings, and the times a context was found alive. *)
Definition now_ev (ev : @event goE) : list Z :=
  match ev with
  | Ev e x =>
    match e with
    | inl1 e => match e in clientE X return X -> list Z with Now => fun t => [t] | _ => fun _ => [] end
    | inr1 _ => fun _ => []
    end x
  end.
Definition alive_ev (ev : @event goE) : nat :=
  match ev with
  | Ev e x =>
    match e with
    | inl1 e => match e in clientE X return X -> nat with
                | CtxErr _ => fun err => match err with None => 1%nat | Some _ => 0%nat end
                | _ => fun _ => 0%nat
                end
    | inr1 _ => fun _ => 0%nat
    end x
  end.
Definition nows (h : trace) : list Z := concat (map now_ev h).
Definition alive (h : trace) : nat := sum_list (map alive_ev h).

Definition fair (patience : nat) (h : trace) : Prop := StronglySorted Z.lt (nows h) /\ (alive h <= patience)%nat.

Lemma nows_app h h' : nows (h ++ h') = (nows h ++ nows h')%list.
Proof. unfold nows. by rewrite map_app, concat_app. Qed.
Lemma alive_app h h' : alive (h ++ h') = (alive h + alive h')%nat.
Proof. unfold alive. rewrite map_app. induction (map alive_ev h); cbn; lia. Qed.

Section Halts.
Context (patience : nat).

Definition halts {R} (h : trace) (t : prog R) : Prop := twp (fair patience) (fun _ _ => True) h t.
Definition Halts {R} (t : prog R) : Prop := forall h, fair patience h -> halts h t.

Lemma Halts_Ret {R} (r : R) : Halts (Ret r).
Proof. intros h _. by apply twp_ret. Qed.

Lemma Halts_call {X} (e : clientE X) : Halts (call e).
Proof. intros h _. by apply twp_event. Qed.

Lemma Halts_bind {R S} (t : prog R) (k : R -> prog S) : Halts t -> (forall r, Halts (k r)) -> Halts (ITree.bind t k).
Proof.
  intros Ht Hk h Hh. apply twp_bind. eapply twp_mono; [apply twp_frame; [done|by apply Ht]|].
  intros h' r (_ & Hh' & _). by apply Hk.
Qed.

(** Without answers there is nothing after. *)
Lemma twp_fatal {R} adm Q h f : twp adm Q h (fatal (A := R) f).
Proof. apply twp_bind, twp_event. intros []. Qed.
Lemma Halts_fatal {R} f : Halts (fatal (A := R) f).
Proof. intros h _. apply twp_fatal. Qed.

Lemma Halts_must {R} f (t : prog (error + R)) : Halts t -> Halts (must f t).
Proof. intros Ht. apply Halts_bind; [done|]. intros [e|r]; [apply Halts_fatal|apply Halts_Ret]. Qed.
Lemma Halts_check f (t : prog (option error)) : Halts t -> Halts (check f t).
Proof. intros Ht. apply Halts_bind; [done|]. intros [e|]; [apply Halts_fatal|apply Halts_Ret]. Qed.
Lemma Halts_fail_if c f : Halts (fail_if c f).
Proof. destruct c; [apply Halts_fatal|apply Halts_Ret]. Qed.
Lemma Halts_First rs : Halts (First rs).
Proof. destruct rs as [|[r [e|]] rs]; [apply Halts_fatal|apply Halts_Ret..]. Qed.
Lemma Halts_New getenv opts : Halts (New getenv opts).
Proof. apply Halts_bind; [apply Halts_call|]. intros [e|id]; apply Halts_Ret. Qed.
Lemma Halts_Topic family short : Halts (Topic family short).
Proof. apply Halts_bind; [apply Halts_call|]. intros id. apply Halts_Ret. Qed.
Lemma Halts_each {A} (l : list A) body : (forall a, Halts (body a)) -> Halts (each l body).
Proof. intros Hb. induction l; cbn [each]; [apply Halts_Ret|]. by apply Halts_bind. Qed.

(** A loop all of whose further turns read the clock before the deadline. *)
Lemma Halts_clock_loop {I R} deadline (body : I -> prog (I + R)) :
  (forall i h, fair patience h -> twp (fair patience) (fun h' lr =>
     match lr with inl _ => exists tr now, h' = (h ++ tr)%list /\ now ∈ nows tr /\ now < deadline | inr _ => True end) h (body i)) ->
  forall i, Halts (forever body i).
Proof.
  intros Hb.
  (* the last reading bounds the turns that are left *)
  assert (Hloop : forall n h i t, fair patience h -> t ∈ nows h -> Z.to_nat (deadline - t) = n -> halts h (forever body i)).
  { induction n as [n IH] using (well_founded_induction lt_wf). intros h i t Hh Ht Hn.
    apply twp_iter_unfold. eapply twp_mono; [apply twp_frame; [done|by apply Hb]|].
    intros h' [i'|r] (HQ & Hh' & _); [|done]. destruct HQ as (tr & now & -> & Hin & Hlt).
    assert (t < now).
    { destruct Hh' as [Hs _]. rewrite nows_app in Hs. by eapply StronglySorted_app_1_elem_of. }
    eapply (IH (Z.to_nat (deadline - now))); [lia|done| |done]. rewrite nows_app. apply elem_of_app. by right. }
  intros i h Hh. apply twp_iter_unfold. eapply twp_mono; [apply twp_frame; [done|by apply Hb]|].
  intros h' [i'|r] (HQ & Hh' & _); [|done]. destruct HQ as (tr & now & -> & Hin & Hlt).
  eapply Hloop; [done| |done]. rewrite nows_app. apply elem_of_app. by right.
Qed.

Lemma Halts_for_before {I R} deadline cond (body : I -> prog (I + R)) exit :
  (forall i, Halts (body i)) -> (forall i, Halts (exit i)) -> forall i, Halts (for_before deadline cond body exit i).
Proof.
  intros Hb He. apply (Halts_clock_loop deadline). intros i h Hh.
  assert (Hexit : forall h, fair patience h -> twp (fair patience) (fun h' (lr : I + R) => match lr with inl _ =>
    exists tr now, h' = (h ++ tr)%list /\ now ∈ nows tr /\ now < deadline | inr _ => True end) h
    (ITree.bind (exit i) (fun r => Ret (inr r)))).
  { intros h1 H1. apply twp_bind. eapply twp_mono; [by apply He|]. intros h' r _. by apply twp_ret. }
  destruct (cond i); [|by apply Hexit].
  apply twp_bind, twp_event. intros now Hn. destruct (now <? deadline) eqn:Ed; zify_bool.
  - eapply twp_mono; [apply twp_frame; [done|by apply Hb]|]. intros h' [i'|r] (_ & _ & tr & ->); [|done].
    exists (Now >-> now :: tr), now. split_and!; [by rewrite <- app_assoc|by left|done].
  - eapply twp_mono; [by apply Hexit|]. intros h' [i'|r]; [|done]. intros (tr & now' & -> & Hin & Hlt).
    exists (Now >-> now :: tr), now'. split_and!; [by rewrite <- app_assoc|by right|done].
Qed.

(** A loop every turn of which finds the context alive. *)
Lemma Halts_patient_loop {I R} (body : I -> prog (I + R)) :
  (forall i h, fair patience h -> twp (fair patience) (fun h' lr =>
     match lr with inl _ => (alive h < alive h')%nat | inr _ => True end) h (body i)) ->
  forall i, Halts (forever body i).
Proof.
  intros Hb i h Hh. apply (twp_iter _ (fun _ h => fair patience h) (fun _ h => (patience - alive h)%nat)); [done|].
  intros j h' Hh'. eapply twp_mono; [apply twp_frame; [done|by apply Hb]|].
  intros h1 [j'|r] (HQ & H1 & _); [|done]. split; [done|]. destruct H1. lia.
Qed.

End Halts.

Create HintDb halts.

(** Down the constructs of a program; the functions it calls are in the hint database [halts]. *)
Ltac halt1 :=
  lazymatch goal with
  | |- forall _, _ => intros ?
  | |- Halts _ (Ret _) => apply Halts_Ret
  | |- Halts _ (call _) => apply Halts_call
  | |- Halts _ (fatal _) => apply Halts_fatal
  | |- Halts _ (fail_if _ _) => apply Halts_fail_if
  | |- Halts _ (First _) => apply Halts_First
  | |- Halts _ (New _ _) => apply Halts_New
  | |- Halts _ (Topic _ _) => apply Halts_Topic
  | |- Halts _ (ITree.bind _ _) => apply Halts_bind
  | |- Halts _ (must _ _) => apply Halts_must
  | |- Halts _ (check _ _) => apply Halts_check
  | |- Halts _ (each _ _) => apply Halts_each
  | |- Halts _ (for_before _ _ _ _ _) => apply Halts_for_before
  | |- Halts _ (match ?x with _ => _ end) => destruct x
  | |- Halts _ _ => solve [assumption | auto with halts nocore]
  end.
Ltac halt := cbv zeta; repeat halt1.
