(* ===== verification/ExProduce.v ===== *)
(** * The produce examples (examples/go/produce)

    basic-acks, idempotent and compression-and-keys, one Module each. *)

From ITree Require Import ITree.
From S2P Require Import Prelude GoStr Script KafkaClient.
Local Open Scope string_scope.
Local Open Scope Z_scope.
Local Open Scope prog_scope.

(** ** produce/basic-acks *)

Module BasicAcks.
Section Main.
Context (getenv : string -> string).

Definition pollOne (ctx : context) (cl : client) : prog Record_ :=
  forever (fun _ : unit =>
    fs ← call (PollFetches ctx cl);
    match f_Errors fs with
    | _ :: _ => fatal "PollFetches: %v"
    | [] =>
      match f_records fs with
      | [] =>
        err ← call (CtxErr ctx);
        fail_if (bool_decide (is_Some err)) "FAIL: timed out waiting for the produced record";;
        Ret (inl tt)
      | r :: _ => Ret (inr r)
      end
    end) tt.

Definition body : string := "order #4242 — 3x widget, ship express".

(** make([]byte, n) *)
Definition zero_bytes (n : N) : string := N.iter n (String (chr 0)) "".
Definition big : string := zero_bytes 1572864.

Definition levels : list (string * acks) := [("acks=1", LeaderAck); ("acks=0", NoAck)].

Definition produce_level (ctx : context) (topic : string) (lvl : string * acks) : prog unit :=
  c ← must "producer %s: %v" (New getenv [DefaultProduceTopic topic; RequiredAcks lvl.2; DisableIdempotentWrite]);
  res ← call (ProduceSync ctx c [value_record lvl.1]);
  match FirstErr res with
  | Some _ => call (Close c);; fatal "Produce %s: %v"
  | None => call (Stdout "Produce(%s): ok\n");; call (Close c)
  end.

Definition main : prog unit :=
  Banner getenv "produce/basic-acks";;
  let ctx := WithTimeout [] (60 * Second) in
  topic ← Topic "produce" "acks";
  adm ← must "admin client: %v" (Admin getenv []);
  check "CreateTopic %s: %v" (call (CreateTopic ctx adm 1 1 [] topic));;
  call (Stdout "CreateTopic: %s (partitions=1)\n");;
  prod ← must "producer client: %v" (New getenv [DefaultProduceTopic topic; RequiredAcks AllISRAcks]);
  res ← call (ProduceSync ctx prod [value_record body]);
  r ← must "Produce acks=all: %v" (First res);
  call (Stdout "Produce(acks=all): partition=%d offset=%d\n");;
  call (Close prod);;
  cons ← must "consumer client: %v" (New getenv [ConsumeTopics topic; ConsumeResetOffset AtStart]);
  got ← pollOne ctx cons;
  call (Stdout "Fetch: offset=%d value=%q\n");;
  fail_if (negb (String.eqb (r_Value got) body)) "FAIL: read-back %q != produced %q";;
  each levels (produce_level ctx topic);;
  bigProd ← must "oversized producer: %v" (New getenv [DefaultProduceTopic topic; RequiredAcks AllISRAcks;
    ProducerBatchMaxBytes (4 * 1024 * 1024); ProducerBatchCompression NoCompression]);
  res ← call (ProduceSync ctx bigProd [value_record big]);
  call (Close bigProd);;
  match FirstErr res with
  | None => fatal "FAIL: 1.5 MiB record was accepted; expected MESSAGE_TOO_LARGE"
  | Some err =>
    fail_if (negb (errors_Is err MessageTooLarge)) "FAIL: oversized rejected with %v, expected MESSAGE_TOO_LARGE";;
    call (Stdout "Produce(1.5 MiB): rejected with %v (expected)\n");;
    tear_down ctx adm topic "PASS: produce acks 0/1/all round-trip + MESSAGE_TOO_LARGE verified";;
    call (Close cons);; call (Close adm)
  end.

End Main.
End BasicAcks.

(** ** produce/idempotent *)

Module Idempotent.
Section Main.
Context (getenv : string -> string).

Definition n : Z := 5.
Definition idem_record (i : Z) : string := "idem-record-" ++s FormatInt i.
Definition want : gset string := list_to_set (map idem_record (seqZ 0 n)).

(** The offsets and the values read back. *)
Definition seen : Type := gset Z * gset string.

Fixpoint scan (recs : list Record_) (s : seen) : prog seen :=
  match recs with
  | [] => Ret s
  | r :: recs =>
    fail_if (bool_decide (r_Offset r ∈ s.1)) "FAIL: duplicate offset %d — idempotence did not dedupe";;
    scan recs ({[r_Offset r]} ∪ s.1, {[r_Value r]} ∪ s.2)
  end.

Definition read_back (ctx : context) (cons : client) (deadline : Z) : seen -> prog seen :=
  for_before deadline (fun s => Z.of_nat (size s.2) <? n)
    (fun s =>
      fs ← call (PollFetches ctx cons);
      match f_Errors fs with
      | _ :: _ => fatal "PollFetches: %v"
      | [] => s ← scan (f_records fs) s; Ret (inl s)
      end)
    (fun s => Ret s).

Definition main : prog unit :=
  Banner getenv "produce/idempotent";;
  let ctx := WithTimeout [] (60 * Second) in
  topic ← Topic "produce" "idem";
  adm ← must "admin client: %v" (Admin getenv []);
  check "CreateTopic %s: %v" (call (CreateTopic ctx adm 1 1 [] topic));;
  call (Stdout "CreateTopic: %s (partitions=1)\n");;
  prod ← must "producer client: %v" (New getenv [DefaultProduceTopic topic; RequiredAcks AllISRAcks;
    MaxProduceRequestsInflightPerBroker 1]);
  '(id, epoch) ← must "ProducerID (InitProducerId): %v" (call (ProducerID ctx prod));
  fail_if (id <? 0) "FAIL: expected a non-negative Producer ID, got %d";;
  call (Stdout "ProducerID: id=%d epoch=%d (idempotence ON)\n");;
  each (seqZ 0 n) (fun i =>
    res ← call (ProduceSync ctx prod [value_record (idem_record i)]);
    check "Produce %q: %v" (Ret (FirstErr res)));;
  call (Stdout "Produce: %d idempotent records (acks=all)\n");;
  cons ← must "consumer client: %v" (New getenv [ConsumeTopics topic; ConsumeResetOffset AtStart;
    FetchMaxWait (2 * Second)]);
  now ← call Now;
  s ← read_back ctx cons (now + 15 * Second) (∅, ∅);
  fail_if (negb (Z.of_nat (size s.2) =? n)) "FAIL: read back %d distinct records, want %d";;
  each (elements want) (fun v => fail_if (bool_decide (v ∉ s.2)) "FAIL: missing produced record %q");;
  call (Stdout "Fetch: %d distinct records, %d distinct offsets (no duplicates)\n");;
  tear_down ctx adm topic "PASS: idempotent producer — PID assigned, no duplicate offsets";;
  call (Close cons);; call (Close prod);; call (Close adm).

End Main.
End Idempotent.

(** ** produce/compression-and-keys *)

Module CompressionAndKeys.

(** data[i]: out of range is a panic. *)
Definition index (data : list Z) (i : Z) : option Z := if i <? 0 then None else data !! Z.to_nat i.

Section Murmur2.
Local Open Scope stdpp_scope.
Definition seed : Z := 0x9747b28c.
Definition m : Z := 0x5bd1e995.
Definition r : Z := 24.

(** One turn of the loop over the blocks of four bytes. *)
Definition block (data : list Z) (h i : Z) : option Z :=
  b0 ← index data (i * 4); b1 ← index data (i * 4 + 1);
  b2 ← index data (i * 4 + 2); b3 ← index data (i * 4 + 3);
  let k := Z.lor (Z.lor (Z.lor b0 (Z.shiftl b1 8)) (Z.shiftl b2 16)) (Z.shiftl b3 24) in
  let k := u32_wrap (k * m) in
  let k := Z.lxor k (Z.shiftr k r) in
  let k := u32_wrap (k * m) in
  let h := u32_wrap (h * m) in
  Some (Z.lxor h k).

Fixpoint blocks (data : list Z) (h : Z) (todo : list Z) : option Z :=
  match todo with [] => Some h | i :: todo => h ← block data h i; blocks data h todo end.

(** The switch on length & 3, with its fallthroughs. *)
Definition tail_1 (data : list Z) (tail h : Z) : option Z :=
  b ← index data tail; Some (u32_wrap (Z.lxor h b * m)).
Definition tail_2 (data : list Z) (tail h : Z) : option Z :=
  b ← index data (tail + 1); tail_1 data tail (Z.lxor h (Z.shiftl b 8)).
Definition tail_3 (data : list Z) (tail h : Z) : option Z :=
  b ← index data (tail + 2); tail_2 data tail (Z.lxor h (Z.shiftl b 16)).

Definition murmur2 (data : list Z) : option Z :=
  let length := Z.of_nat (length data) in
  let nblocks := length / 4 in
  let tail := nblocks * 4 in
  h ← blocks data (Z.lxor seed (u32_wrap length)) (seqZ 0 nblocks);
  h ← match Z.land length 3 with
      | 3 => tail_3 data tail h
      | 2 => tail_2 data tail h
      | 1 => tail_1 data tail h
      | _ => Some h
      end;
  let h := Z.lxor h (Z.shiftr h 13) in
  let h := u32_wrap (h * m) in
  let h := Z.lxor h (Z.shiftr h 15) in
  Some (i32_wrap h).

Definition murmur2Partition (key : list Z) (partitions : Z) : option Z :=
  h ← murmur2 key; Some (Z.rem (Z.land h 0x7fffffff) partitions).
End Murmur2.

(** The hashes of kafka-clients' own test vectors. *)
Example murmur2_vectors :
  map (fun s => murmur2 (string_bytes s)) ["21"; "foobar"; "a-little-bit-long-string"; "abc"] =
  [Some (-973932308); Some (-790332482); Some (-985981536); Some 479470107].
Proof. vm_compute. reflexivity. Qed.

Section Main.
Context (getenv : string -> string).

Definition numPartitions : Z := 3.

Definition codecs : list (string * codec) :=
  [("none", NoCompression); ("gzip", GzipCompression); ("snappy", SnappyCompression);
   ("lz4", Lz4Compression); ("zstd", ZstdCompression)].

Definition readOffset (ctx : context) (topic : string) (partition offset : Z) : prog Record_ :=
  cons ← must "read consumer: %v" (New getenv [ConsumePartitions topic partition (At offset); FetchMaxWait (2 * Second)]);
  now ← call Now;
  got ← for_before (now + 15 * Second) (fun _ => true)
    (fun _ : unit =>
      fs ← call (PollFetches ctx cons);
      match f_Errors fs with
      | _ :: _ => fatal "PollFetches: %v"
      | [] => match f_records fs with r :: _ => Ret (inr r) | [] => Ret (inl tt) end
      end)
    (fun _ => fatal "FAIL: timed out reading offset %d on partition %d") tt;
  call (Close cons);; Ret got.

Definition codec_round_trip (ctx : context) (topic : string) (c : string * codec) : prog unit :=
  prod ← must "producer %s: %v" (New getenv [DefaultProduceTopic topic; RequiredAcks AllISRAcks;
    ProducerBatchCompression c.2]);
  let key := "codec-" ++s c.1 in
  let val := "payload compressed with " ++s c.1 in
  res ← call (ProduceSync ctx prod [mk_Record key val 0 0]);
  first ← First res;
  match first with
  | inl _ => call (Close prod);; fatal "Produce %s: %v"
  | inr r =>
    call (Close prod);;
    got ← readOffset ctx topic (r_Partition r) (r_Offset r);
    fail_if (negb (String.eqb (r_Value got) val) || negb (String.eqb (r_Key got) key))
      "FAIL: %s read-back key=%q val=%q want key=%q val=%q";;
    call (Stdout "Produce(%s): partition=%d offset=%d round-trip ok\n")
  end.

Definition fixedKey : string := "customer-42".

Definition keyed_produce (ctx : context) (prod : client) (wantPart i : Z) : prog unit :=
  res ← call (ProduceSync ctx prod [mk_Record fixedKey ("keyed-" ++s FormatInt i) 0 0]);
  r ← must "keyed Produce %d: %v" (First res);
  fail_if (negb (r_Partition r =? wantPart)) "FAIL: key %q landed on partition %d, murmur2 expects %d (gotcha #4)".

Definition main : prog unit :=
  Banner getenv "produce/compression-and-keys";;
  let ctx := WithTimeout [] (60 * Second) in
  topic ← Topic "produce" "comp";
  adm ← must "admin client: %v" (Admin getenv []);
  check "CreateTopic %s: %v" (call (CreateTopic ctx adm numPartitions 1 [] topic));;
  call (Stdout "CreateTopic: %s (partitions=%d)\n");;
  each codecs (codec_round_trip ctx topic);;
  match murmur2Partition (string_bytes fixedKey) numPartitions with
  | None => fatal "panic: index out of range"
  | Some wantPart =>
    prod ← must "keyed producer: %v" (New getenv [DefaultProduceTopic topic; RequiredAcks AllISRAcks]);
    each (seqZ 0 10) (keyed_produce ctx prod wantPart);;
    call (Stdout "Keyed: key %q -> partition %d for all 10 copies (murmur2 expected %d)\n");;
    tear_down ctx adm topic "PASS: all codecs round-trip + murmur2 keyed partitioning verified";;
    call (Close prod);; call (Close adm)
  end.

End Main.
End CompressionAndKeys.
