(* ===== verification/ExConsume.v ===== *)
(** * The consume and offsets examples (examples/go/consume, examples/go/offsets)

    from-beginning-latest, seek-offsets-timestamps and list-and-retention. *)

From ITree Require Import ITree.
From S2P Require Import Prelude GoStr Script KafkaClient.
Local Open Scope string_scope.
Local Open Scope Z_scope.
Local Open Scope prog_scope.

(** errors.Is(e, context.DeadlineExceeded) || errors.Is(e, context.Canceled) *)
Definition poll_expired (e : error) : bool := errors_Is e DeadlineExceeded || errors_Is e Canceled.

(** [for _, e := range errs]: only an expired poll is passed over. *)
Definition tolerate (errs : list error) : prog unit :=
  each errs (fun e => if poll_expired e then Ret tt else fatal "PollFetches: %v").

(** ** consume/from-beginning-latest *)

Module FromBeginningLatest.
Section Main.
Context (getenv : string -> string).

Definition seedCount : Z := 3.
Definition seed_value (i : Z) : string := "seed-" ++s FormatInt i.
Definition seedRecords (n : Z) : list Record_ := map (fun i => value_record (seed_value i)) (seqZ 0 n).

Definition produce (ctx : context) (topic : string) (recs : list Record_) : prog unit :=
  prod ← must "producer: %v" (New getenv [DefaultProduceTopic topic; RequiredAcks AllISRAcks]);
  res ← call (ProduceSync ctx prod recs);
  check "Produce: %v" (Ret (FirstErr res));;
  call (Close prod).

Definition drain (ctx : context) (cl : client) (want timeout : Z) : prog (list Record_) :=
  now ← call Now;
  for_before (now + timeout) (fun out => Z.of_nat (length out) <? want)
    (fun out =>
      let pollCtx := WithTimeout ctx (2 * Second) in
      fs ← call (PollFetches pollCtx cl);
      match f_Errors fs with
      | _ :: _ => tolerate (f_Errors fs);; Ret (inl out)
      | [] => Ret (inl (out ++ f_records fs)%list)
      end)
    (fun out => Ret out) [].

Definition post : string := "post-subscribe record".

Definition main : prog unit :=
  Banner getenv "consume/from-beginning-latest";;
  let ctx := WithTimeout [] (60 * Second) in
  topic ← Topic "consume" "reset";
  adm ← must "admin client: %v" (Admin getenv []);
  check "CreateTopic %s: %v" (call (CreateTopic ctx adm 1 1 [] topic));;
  call (Stdout "CreateTopic: %s (partitions=1)\n");;
  produce ctx topic (seedRecords seedCount);;
  call (Stdout "Seed: produced %d pre-existing records\n");;
  early ← must "earliest consumer: %v" (New getenv [ConsumeTopics topic; ConsumeResetOffset AtStart; FetchMaxWait (2 * Second)]);
  earlyRecs ← drain ctx early seedCount (15 * Second);
  call (Close early);;
  fail_if (negb (Z.of_nat (length earlyRecs) =? seedCount)) "FAIL: earliest read %d records, want %d";;
  call (Stdout "earliest (AtStart): read %d pre-existing records\n");;
  late ← must "latest consumer: %v" (New getenv [ConsumeTopics topic; ConsumeResetOffset AtEnd; FetchMaxWait (2 * Second)]);
  let warmCtx := WithTimeout ctx (3 * Second) in
  call (PollFetches warmCtx late);;
  produce ctx topic [value_record post];;
  call (Stdout "Produce: 1 record AFTER the latest consumer subscribed");;
  lateRecs ← drain ctx late 1 (15 * Second);
  match lateRecs with
  | [r] =>
    fail_if (negb (String.eqb (r_Value r) post)) "FAIL: latest read %q, want %q";;
    call (Stdout "latest (AtEnd): read only the post-subscribe record %q\n");;
    tear_down ctx adm topic "PASS: auto.offset.reset earliest/latest verified";;
    call (Close late);; call (Close adm)
  | _ => fatal "FAIL: latest read %d records, want exactly 1 (only the post-subscribe record)"
  end.

End Main.
End FromBeginningLatest.

(** [for i := 0; i < total; i++]: one record per turn, and in the middle a time
    boundary between two short sleeps. *)
Fixpoint produce_with_boundary (ctx : context) (prod : client) (value : Z -> string) (middle : Z)
    (todo : list Z) (boundaryMilli : Z) : prog Z :=
  match todo with
  | [] => Ret boundaryMilli
  | i :: todo =>
    boundaryMilli ←
      (if i =? middle
       then call (Sleep (50 * Millisecond));;
            now ← call Now;
            call (Sleep (50 * Millisecond));;
            Ret (now / Millisecond)
       else Ret boundaryMilli);
    res ← call (ProduceSync ctx prod [value_record (value i)]);
    match FirstErr res with
    | Some _ => call (Close prod);; fatal "Produce %d: %v"
    | None => produce_with_boundary ctx prod value middle todo boundaryMilli
    end
  end.

(** ** consume/seek-offsets-timestamps *)

Module SeekOffsetsTimestamps.
Section Main.
Context (getenv : string -> string).

Definition pollFirst (ctx : context) (cl : client) : prog Record_ :=
  now ← call Now;
  for_before (now + 15 * Second) (fun _ => true)
    (fun _ : unit =>
      let pollCtx := WithTimeout ctx (3 * Second) in
      fs ← call (PollFetches pollCtx cl);
      match f_Errors fs with
      | _ :: _ => tolerate (f_Errors fs);; Ret (inl tt)
      | [] => match f_records fs with r :: _ => Ret (inr r) | [] => Ret (inl tt) end
      end)
    (fun _ => fatal "FAIL: timed out waiting for a record after seek") tt.

Definition total : Z := 6.
Definition rec_value (i : Z) : string := "rec-" ++s FormatInt i.
Definition seekOffset : Z := 4.

Definition main : prog unit :=
  Banner getenv "consume/seek-offsets-timestamps";;
  let ctx := WithTimeout [] (90 * Second) in
  topic ← Topic "consume" "seek";
  adm ← must "admin client: %v" (Admin getenv []);
  check "CreateTopic %s: %v" (call (CreateTopic ctx adm 1 1 [] topic));;
  call (Stdout "CreateTopic: %s (partitions=1)\n");;
  prod ← must "producer: %v" (New getenv [DefaultProduceTopic topic; RequiredAcks AllISRAcks]);
  boundaryMilli ← produce_with_boundary ctx prod rec_value (total / 2) (seqZ 0 total) 0;
  call (Close prod);;
  call (Stdout "Produce: %d records, timestamp boundary between rec-2 and rec-3\n");;
  seeker ← must "seek consumer: %v" (New getenv [ConsumePartitions topic 0 (At seekOffset); FetchMaxWait (2 * Second)]);
  first ← pollFirst ctx seeker;
  fail_if (negb (r_Offset first =? seekOffset)) "FAIL: seek to offset %d delivered offset %d";;
  call (Stdout "seek-to-offset(%d): first delivered record offset=%d value=%q\n");;
  listed ← must "ListOffsetsAfterMilli: %v" (call (ListOffsetsAfterMilli ctx adm boundaryMilli topic));
  let '(lo, ok) := Lookup listed topic 0 in
  fail_if (negb ok || bool_decide (is_Some (lo_Err lo))) "FAIL: no offset resolved for ts=%d (ok=%v err=%v)";;
  call (Stdout "ListOffsets(by-ts=%d): resolved offset=%d\n");;
  fail_if (negb (lo_Offset lo =? 3)) "FAIL: by-timestamp offset %d, want 3 (first record after the boundary)";;
  tsSeeker ← must "ts seek consumer: %v"
    (New getenv [ConsumePartitions topic 0 (At (lo_Offset lo)); FetchMaxWait (2 * Second)]);
  tsFirst ← pollFirst ctx tsSeeker;
  fail_if (negb (r_Offset tsFirst =? lo_Offset lo) || negb (String.eqb (r_Value tsFirst) "rec-3"))
    "FAIL: by-ts seek delivered offset=%d value=%q, want offset=%d value=rec-3";;
  call (Stdout "by-timestamp seek: first delivered record offset=%d value=%q\n");;
  tear_down ctx adm topic "PASS: seek by offset + seek by timestamp verified";;
  call (Close tsSeeker);; call (Close seeker);; call (Close adm).

End Main.
End SeekOffsetsTimestamps.

(** ** offsets/list-and-retention *)

Module ListAndRetention.
Section Main.
Context (getenv : string -> string).

Definition total : Z := 5.
Definition r_value (i : Z) : string := "r-" ++s FormatInt i.
Definition retention : list (string * string) := [("retention.ms", "600000"); ("retention.bytes", "104857600")].

(** The last value of each key; nil values are skipped. *)
Definition config_map (cs : list Config) : gmap string string :=
  foldl (fun m c => match c_Value c with Some v => <[c_Key c := v]> m | None => m end) ∅ cs.
Definition config (cfg : gmap string string) (key : string) : string := default "" (cfg !! key).

Definition main : prog unit :=
  Banner getenv "offsets/list-and-retention";;
  let ctx := WithTimeout [] (60 * Second) in
  topic ← Topic "offsets" "ret";
  adm ← must "admin client: %v" (Admin getenv []);
  check "CreateTopic %s: %v" (call (CreateTopic ctx adm 1 1 retention topic));;
  call (Stdout "CreateTopic: %s (retention.ms=600000 retention.bytes=104857600)\n");;
  rcs ← must "DescribeTopicConfigs: %v" (call (DescribeTopicConfigs ctx adm topic));
  rc ← must "DescribeTopicConfigs.On: %v" (Ret rcs);
  let cfg := config_map rc in
  fail_if (negb (String.eqb (config cfg "retention.ms") "600000") ||
           negb (String.eqb (config cfg "retention.bytes") "104857600")) "FAIL: retention not accepted: ms=%q bytes=%q";;
  call (Stdout "DescribeTopicConfigs: retention.ms=%s retention.bytes=%s (accepted)\n");;
  prod ← must "producer: %v" (New getenv [DefaultProduceTopic topic; RequiredAcks AllISRAcks]);
  boundaryMilli ← produce_with_boundary ctx prod r_value 2 (seqZ 0 total) 0;
  call (Close prod);;
  call (Stdout "Produce: %d records\n");;
  starts ← must "ListStartOffsets: %v" (call (ListStartOffsets ctx adm topic));
  let so := (Lookup starts topic 0).1 in
  fail_if (negb (lo_Offset so =? 0)) "FAIL: earliest %d, want 0";;
  call (Stdout "ListStartOffsets (earliest): %d\n");;
  ends ← must "ListEndOffsets: %v" (call (ListEndOffsets ctx adm topic));
  let eo := (Lookup ends topic 0).1 in
  fail_if (negb (lo_Offset eo =? total)) "FAIL: latest %d, want %d";;
  call (Stdout "ListEndOffsets (latest): %d\n");;
  afters ← must "ListOffsetsAfterMilli: %v" (call (ListOffsetsAfterMilli ctx adm boundaryMilli topic));
  let ao := (Lookup afters topic 0).1 in
  fail_if (negb (lo_Offset ao =? 2)) "FAIL: by-timestamp offset %d, want 2";;
  call (Stdout "ListOffsetsAfterMilli (by-ts=%d): %d\n");;
  tear_down ctx adm topic "PASS: earliest/latest/by-timestamp offsets + retention config verified";;
  call (Close adm).

End Main.
End ListAndRetention.
