(* ===== verification/ExGroups.v ===== *)
(** * The commit-and-lag and transactions examples
      (examples/go/consumer-groups/commit-and-lag, examples/go/transactions) *)

From ITree Require Import ITree.
From S2P Require Import Prelude GoStr Script KafkaClient ExConsume.
Local Open Scope string_scope.
Local Open Scope Z_scope.
Local Open Scope prog_scope.

(** ** consumer-groups/commit-and-lag *)

Module CommitAndLag.
Section Main.
Context (getenv : string -> string).

Definition batch : Z := 10.
Definition half : Z := batch / 2.
Definition m_value (i : Z) : string := "m-" ++s FormatInt i.

(** [for it := fs.RecordIter(); !it.Done() && len(out) < n] *)
Fixpoint take_upto (n : Z) (recs out : list Record_) : list Record_ :=
  match recs with
  | [] => out
  | r :: recs => if Z.of_nat (length out) <? n then take_upto n recs (out ++ [r])%list else out
  end.

Definition take_ (ctx : context) (cl : client) (n : Z) : prog (list Record_) :=
  now ← call Now;
  for_before (now + 20 * Second) (fun out => Z.of_nat (length out) <? n)
    (fun out =>
      fs ← call (PollFetches ctx cl);
      match f_Errors fs with
      | _ :: _ => fatal "PollFetches: %v"
      | [] => Ret (inl (take_upto n (f_records fs) out))
      end)
    (fun out => Ret out) [].

Definition committedAndEnd (ctx : context) (adm : client) (group topic : string) : prog (Z * Z) :=
  fetched ← must "FetchOffsets: %v" (call (FetchOffsets ctx adm group));
  match fetched !! (topic, 0) with
  | Some (mk_OffsetResponse at_ None) =>
    ends ← must "ListEndOffsets: %v" (call (ListEndOffsets ctx adm topic));
    let '(eo, ok) := Lookup ends topic 0 in
    fail_if (negb ok || bool_decide (is_Some (lo_Err eo))) "FAIL: no end offset for %s (ok=%v err=%v)";;
    Ret (at_, lo_Offset eo)
  | _ => fatal "FAIL: no committed offset for group %s (ok=%v err=%v)"
  end.

Definition produce_one (ctx : context) (prod : client) (i : Z) : prog unit :=
  res ← call (ProduceSync ctx prod [value_record (m_value i)]);
  match FirstErr res with
  | Some _ => call (Close prod);; fatal "Produce %d: %v"
  | None => Ret tt
  end.

Definition member (group topic : string) : list opt :=
  [ConsumeTopics topic; ConsumerGroup group; ConsumeResetOffset AtStart; DisableAutoCommit; FetchMaxWait (1 * Second)].

(** A slice indexed at 0, or at its last element. *)
Definition first_of (l : list Record_) : prog Record_ :=
  match l with r :: _ => Ret r | [] => fatal "panic: index out of range" end.
Definition last_of (l : list Record_) : prog Record_ :=
  match last l with Some r => Ret r | None => fatal "panic: index out of range" end.

Definition main : prog unit :=
  Banner getenv "consumer-groups/commit-and-lag";;
  let ctx := WithTimeout [] (90 * Second) in
  topic ← Topic "cg" "commit";
  group ← Topic "cg" "cgrp";
  adm ← must "admin client: %v" (Admin getenv []);
  check "CreateTopic %s: %v" (call (CreateTopic ctx adm 1 1 [] topic));;
  call (Stdout "CreateTopic: %s (partitions=1) group=%s\n");;
  prod ← must "producer: %v" (New getenv [DefaultProduceTopic topic; RequiredAcks AllISRAcks]);
  each (seqZ 0 batch) (produce_one ctx prod);;
  call (Close prod);;
  call (Stdout "Produce: %d records\n");;
  c1 ← must "consumer #1: %v" (New getenv (member group topic));
  firstHalf ← take_ ctx c1 half;
  (if negb (Z.of_nat (length firstHalf) =? half)
   then call (Close c1);; fatal "FAIL: consumer #1 read %d records, want %d" else Ret tt);;
  err ← call (CommitRecords ctx c1 firstHalf);
  match err with Some _ => call (Close c1);; fatal "CommitRecords: %v" | None => Ret tt end;;
  lastRec ← last_of firstHalf;
  let lastCommitted := r_Offset lastRec in
  call (Stdout "Consumer #1: read + committed first %d records (through offset %d)\n");;
  call (Close c1);;
  '(committedNext, endOffset) ← committedAndEnd ctx adm group topic;
  let lag := i64_wrap (endOffset - committedNext) in
  call (Stdout "Lag: end=%d committed=%d lag=%d\n");;
  fail_if (negb (lag =? batch - half)) "FAIL: lag %d, want %d";;
  c2 ← must "consumer #2: %v" (New getenv (member group topic));
  secondHalf ← take_ ctx c2 (batch - half);
  fail_if (negb (Z.of_nat (length secondHalf) =? batch - half)) "FAIL: consumer #2 read %d records, want %d";;
  second0 ← first_of secondHalf;
  fail_if (negb (r_Offset second0 =? i64_wrap (lastCommitted + 1))) "FAIL: consumer #2 resumed at offset %d, want %d (committed+1)";;
  call (Stdout "Consumer #2: resumed at offset %d, read the remaining %d records (no re-read)\n");;
  tear_down ctx adm topic "PASS: commit + resume-from-committed + lag verified";;
  call (Close c2);; call (Close adm).

End Main.
End CommitAndLag.

(** ** transactions

    Both programs open the same transactional producer and end with the same
    read_committed consumer loop. *)

Module Transactions.
Section Main.
Context (getenv : string -> string).

Definition txn_producer (topic txnID : string) : list opt :=
  [DefaultProduceTopic topic; RequiredAcks AllISRAcks; TransactionalID txnID; TransactionTimeout (60 * Second)].

Definition rc_consumer (topic : string) : list opt :=
  [ConsumeTopics topic; ConsumeResetOffset AtStart; ReadCommitted; FetchMaxWait (2 * Second)].

(** Begin a transaction and produce one record into it. *)
Definition open_txn (ctx : context) (prod : client) (value begin_text produce_text : string) : prog unit :=
  check begin_text (call (BeginTransaction prod));;
  res ← call (ProduceSync ctx prod [value_record value]);
  check produce_text (Ret (FirstErr res)).

(** The values read: until a poll after the first record finds nothing, or the deadline. *)
Definition read_values (ctx : context) (cons : client) : prog (list string) :=
  now ← call Now;
  for_before (now + 20 * Second) (fun _ => true)
    (fun got =>
      let pollCtx := WithTimeout ctx (2 * Second) in
      fs ← call (PollFetches pollCtx cons);
      tolerate (f_Errors fs);;
      let got := (got ++ map r_Value (f_records fs))%list in
      if (1 <=? Z.of_nat (length got)) && Empty fs then Ret (inr got) else Ret (inl got))
    (fun got => Ret got) [].

(** *** transactions/eos-commit-abort *)

Definition eos_committed : string := "committed-order-1".
Definition eos_aborted : string := "aborted-order-2".

Definition eos_main : prog unit :=
  Banner getenv "transactions/eos-commit-abort";;
  let ctx := WithTimeout [] (90 * Second) in
  topic ← Topic "txn" "eos";
  txnID ← Topic "txn" "id";
  adm ← must "admin client: %v" (Admin getenv []);
  check "CreateTopic %s: %v" (call (CreateTopic ctx adm 1 1 [] topic));;
  call (Stdout "CreateTopic: %s (partitions=1) txn.id=%s\n");;
  prod ← must "transactional producer: %v" (New getenv (txn_producer topic txnID));
  must "ProducerID (InitProducerId): %v" (call (ProducerID ctx prod));;
  call (Stdout "InitProducerId: pid=%d epoch=%d\n");;
  open_txn ctx prod eos_committed "BeginTransaction #1: %v" "Produce (committed): %v";;
  check "EndTransaction commit: %v" (call (EndTransaction ctx prod true));;
  call (Stdout "Txn #1: produced %q, EndTransaction(commit)\n");;
  open_txn ctx prod eos_aborted "BeginTransaction #2: %v" "Produce (aborted): %v";;
  check "EndTransaction abort: %v" (call (EndTransaction ctx prod false));;
  call (Stdout "Txn #2: produced %q, EndTransaction(abort)\n");;
  cons ← must "read_committed consumer: %v" (New getenv (rc_consumer topic));
  got ← read_values ctx cons;
  match got with
  | [v] =>
    fail_if (negb (String.eqb v eos_committed)) "FAIL: read_committed saw %q, want %q";;
    each got (fun v => fail_if (String.eqb v eos_aborted) "FAIL: aborted record %q was visible under read_committed");;
    call (Stdout "read_committed: saw only %q (aborted %q absent)\n");;
    tear_down ctx adm topic "PASS: committed visible + aborted absent under read_committed (KIP-890 V1)";;
    call (Close cons);; call (Close prod);; call (Close adm)
  | _ => fatal "FAIL: read_committed saw %d records, want exactly 1 (the committed one)"
  end.

(** *** transactions/read-committed *)

Definition rc_committed : string := "committed-rc-1".
Definition rc_aborted : string := "aborted-rc-2".

Definition hwmOffset (ctx : context) (adm : client) (topic : string) : prog Z :=
  listed ← must "ListEndOffsets: %v" (call (ListEndOffsets ctx adm topic));
  Ret (lo_Offset (Lookup listed topic 0).1).

Definition lsoOffset (ctx : context) (cl : client) (topic : string) : prog Z :=
  let req := mk_ListOffsetsRequest (-1) 1 topic 0 (-1) (-1) in
  resp ← must "ListOffsets(read_committed): %v" (call (RequestListOffsets ctx cl req));
  match resp with
  | (p :: _) :: _ =>
    fail_if (negb (pr_ErrorCode p =? 0)) "ListOffsets(read_committed) partition error code %d";;
    Ret (pr_Offset p)
  | _ => fatal "FAIL: ListOffsets(read_committed) returned no partitions"
  end.

Definition rc_main : prog unit :=
  Banner getenv "transactions/read-committed";;
  let ctx := WithTimeout [] (90 * Second) in
  topic ← Topic "txn" "rc";
  txnID ← Topic "txn" "rcid";
  adm ← must "admin client: %v" (Admin getenv []);
  check "CreateTopic %s: %v" (call (CreateTopic ctx adm 1 1 [] topic));;
  call (Stdout "CreateTopic: %s (partitions=1) txn.id=%s\n");;
  prod ← must "transactional producer: %v" (New getenv (txn_producer topic txnID));
  open_txn ctx prod rc_committed "BeginTransaction (commit): %v" "Produce (committed): %v";;
  check "EndTransaction commit: %v" (call (EndTransaction ctx prod true));;
  call (Stdout "Txn #1: produced %q, committed\n");;
  open_txn ctx prod rc_aborted "BeginTransaction (open): %v" "Produce (open txn): %v";;
  call (Stdout "Txn #2: produced %q, LEFT OPEN\n");;
  lso ← lsoOffset ctx adm topic;
  hwm ← hwmOffset ctx adm topic;
  call (Stdout "While txn open: LSO(read_committed)=%d HWM(read_uncommitted)=%d\n");;
  fail_if (hwm <=? lso) "FAIL: expected LSO(%d) < HWM(%d) while a transaction is open";;
  check "EndTransaction abort: %v" (call (EndTransaction ctx prod false));;
  call (Stdout "Txn #2: aborted");;
  lsoAfter ← lsoOffset ctx adm topic;
  hwmAfter ← hwmOffset ctx adm topic;
  call (Stdout "After abort: LSO=%d HWM=%d\n");;
  fail_if (negb (lsoAfter =? hwmAfter)) "FAIL: after abort expected LSO(%d) == HWM(%d)";;
  cons ← must "read_committed consumer: %v" (New getenv (rc_consumer topic));
  got ← read_values ctx cons;
  (* The message shows firstOr(got). *)
  fail_if (negb (bool_decide (got = [rc_committed]))) "FAIL: read_committed delivered %d records (%q...); want only %q";;
  each got (fun v => fail_if (String.eqb v rc_aborted) "FAIL: aborted record %q delivered under read_committed");;
  call (Stdout "read_committed: delivered only %q (aborted never seen)\n");;
  tear_down ctx adm topic "PASS: LSO < HWM while open, aborted never delivered under read_committed";;
  call (Close cons);; call (Close prod);; call (Close adm).

End Main.
End Transactions.
