(* ===== verification/ExAdmin.v ===== *)
(** * The admin and security examples (examples/go/admin, examples/go/security) *)

From ITree Require Import ITree.
From S2P Require Import Prelude GoStr Script KafkaClient.
Local Open Scope string_scope.
Local Open Scope Z_scope.
Local Open Scope prog_scope.

(** ** admin/topics-lifecycle *)

Module TopicsLifecycle.
Section Main.
Context (getenv : string -> string).

(** Asks again until the topic is listed; the deadline is looked at after a miss. *)
Definition waitPresent (ctx : context) (adm : client) (topic : string) (timeout : Z) : prog (Z * bool) :=
  now ← call Now;
  let deadline := now + timeout in
  forever (fun _ : unit =>
    topics ← must "ListTopics: %v" (call (ListTopics ctx adm));
    if Has topics topic then Ret (inr (Partitions topics topic, true))
    else
      now ← call Now;
      if negb (now <? deadline) then Ret (inr (0, false))
      else call (Sleep (200 * Millisecond));; Ret (inl tt)) tt.

Definition waitGone (ctx : context) (adm : client) (topic : string) (timeout : Z) : prog bool :=
  now ← call Now;
  for_before (now + timeout) (fun _ => true)
    (fun _ : unit =>
      topics ← must "ListTopics: %v" (call (ListTopics ctx adm));
      if negb (Has topics topic) then Ret (inr true)
      else call (Sleep (200 * Millisecond));; Ret (inl tt))
    (fun _ => Ret false) tt.

(** The last readable value; it is printed, and nothing else. *)
Definition last_config (cs : list Config) (key : string) : string :=
  foldl (fun acc c => match c_Value c with Some v => if String.eqb (c_Key c) key then v else acc | None => acc end) "" cs.

Definition bad : string := "kafka-ex-admin-bad~name".

Definition main : prog unit :=
  Banner getenv "admin/topics-lifecycle";;
  let ctx := WithTimeout [] (60 * Second) in
  topic ← Topic "admin" "life";
  adm ← must "admin client: %v" (Admin getenv []);
  check "CreateTopic %s: %v" (call (CreateTopic ctx adm 2 1 [("retention.ms", "3600000")] topic));;
  call (Stdout "CreateTopic: %s (partitions=2)\n");;
  '(nparts, ok) ← waitPresent ctx adm topic (10 * Second);
  fail_if (negb ok) "FAIL: %s not present after create";;
  call (Stdout "ListTopics: %s present (%d partitions)\n");;
  rcs ← must "DescribeTopicConfigs: %v" (call (DescribeTopicConfigs ctx adm topic));
  rc ← must "DescribeTopicConfigs.On: %v" (Ret rcs);
  let retention := last_config rc "retention.ms" in
  call (Stdout ("DescribeTopicConfigs: retention.ms=" ++s retention));;
  meta ← must "BrokerMetadata: %v" (call (BrokerMetadata ctx adm));
  fail_if (Z.of_nat (length (m_Brokers meta)) =? 0) "FAIL: DescribeCluster returned no brokers";;
  call (Stdout "DescribeCluster: clusterID=%q brokers=%d\n");;
  must "DeleteTopics: %v" (call (DeleteTopics ctx adm topic));;
  gone ← waitGone ctx adm topic (10 * Second);
  fail_if (negb gone) "FAIL: %s still present after delete";;
  call (Stdout "DeleteTopics: %s removed\n");;
  err ← call (CreateTopic ctx adm 1 1 [] bad);
  match err with
  | None =>
    list ← call (ListTopics ctx adm);
    let created := match list with inr l => Has l bad | inl _ => false end in
    fail_if created "FAIL: topic with '~' was created; expected INVALID_TOPIC_EXCEPTION";;
    fatal "FAIL: create with '~' returned no error; expected INVALID_TOPIC_EXCEPTION"
  | Some err =>
    fail_if (negb (errors_Is err InvalidTopicException)) "FAIL: '~' rejected with %v, want INVALID_TOPIC_EXCEPTION";;
    call (Stdout "CreateTopic(%q): rejected with %v (expected)\n");;
    call (Stdout "PASS: topic lifecycle + reserved-char rejection verified");;
    call (Close adm)
  end.

End Main.
End TopicsLifecycle.

(** ** admin/partitions-and-configs *)

Module PartitionsAndConfigs.
Section Main.
Context (getenv : string -> string).

(** The last count seen, or 3 as soon as it is seen. *)
Definition partitionCount (ctx : context) (adm : client) (topic : string) : prog Z :=
  now ← call Now;
  for_before (now + 10 * Second) (fun _ => true)
    (fun _ : Z =>
      topics ← must "ListTopics: %v" (call (ListTopics ctx adm));
      let n := Partitions topics topic in
      if n =? 3 then Ret (inr n) else call (Sleep (200 * Millisecond));; Ret (inl n))
    (fun n => Ret n) 0.

(** The first readable value of the key. *)
Fixpoint find_config (cs : list Config) (key : string) : string :=
  match cs with
  | [] => ""
  | mk_Config k (Some v) :: cs => if String.eqb k key then v else find_config cs key
  | _ :: cs => find_config cs key
  end.

Definition readConfig (ctx : context) (adm : client) (topic key : string) : prog string :=
  rcs ← must "DescribeTopicConfigs: %v" (call (DescribeTopicConfigs ctx adm topic));
  rc ← must "DescribeTopicConfigs.On: %v" (Ret rcs);
  Ret (find_config rc key).

Definition d_value (i : Z) : string := "d-" ++s FormatInt i.

Definition produceTo (ctx : context) (topic : string) (n : Z) : prog unit :=
  prod ← must "producer: %v" (New getenv [DefaultProduceTopic topic; RequiredAcks AllISRAcks; ManualPartitioner]);
  each (seqZ 0 n) (fun i =>
    res ← call (ProduceSync ctx prod [value_record (d_value i)]);
    check "Produce %d: %v" (Ret (FirstErr res)));;
  call (Close prod).

Fixpoint first_invalid (resp : list (string * option error)) : option error :=
  match resp with
  | [] => Some (mk_error OtherError "no error returned; expected INVALID_PARTITIONS")
  | (_, Some e) :: resp =>
    if errors_Is e InvalidPartitions then None else Some (mk_error OtherError "got %v, want INVALID_PARTITIONS")
  | (_, None) :: resp => first_invalid resp
  end.

Definition expectInvalidPartitions (r : list (string * option error) * option error) : option error :=
  match r.2 with
  | Some topErr =>
    if errors_Is topErr InvalidPartitions then None else Some (mk_error OtherError "got %v, want INVALID_PARTITIONS")
  | None => first_invalid r.1
  end.

Definition main : prog unit :=
  Banner getenv "admin/partitions-and-configs";;
  let ctx := WithTimeout [] (60 * Second) in
  topic ← Topic "admin" "part";
  adm ← must "admin client: %v" (Admin getenv []);
  check "CreateTopic %s: %v" (call (CreateTopic ctx adm 1 1 [] topic));;
  call (Stdout "CreateTopic: %s (partitions=1)\n");;
  up ← call (UpdatePartitions ctx adm 3 topic);
  check "UpdatePartitions set=3: %v" (Ret up.2);;
  got ← partitionCount ctx adm topic;
  fail_if (negb (got =? 3)) "FAIL: after increase, partition count %d, want 3";;
  call (Stdout "UpdatePartitions(set=3): 1 -> 3 (final count 3)");;
  down ← call (UpdatePartitions ctx adm 2 topic);
  check "FAIL: decrease: %v" (Ret (expectInvalidPartitions down));;
  call (Stdout "UpdatePartitions(set=2): rejected with INVALID_PARTITIONS (increase-only)");;
  over ← call (UpdatePartitions ctx adm 300 topic);
  check "FAIL: >256: %v" (Ret (expectInvalidPartitions over));;
  call (Stdout "UpdatePartitions(set=300): rejected with INVALID_PARTITIONS (>256 cap)");;
  check "IncrementalAlterConfigs: %v" (call (AlterTopicConfigs ctx adm "retention.ms" "7200000" topic));;
  got ← readConfig ctx adm topic "retention.ms";
  fail_if (negb (String.eqb got "7200000")) "FAIL: retention.ms=%q after alter, want 7200000";;
  call (Stdout "IncrementalAlterConfigs: retention.ms=7200000 (partial, subset)");;
  produceTo ctx topic 6;;
  check "DeleteRecords: %v" (call (DeleteRecords ctx adm topic 0 3));;
  starts ← must "ListStartOffsets: %v" (call (ListStartOffsets ctx adm topic));
  let '(so, ok) := Lookup starts topic 0 in
  fail_if (negb ok || bool_decide (is_Some (lo_Err so))) "FAIL: no start offset after DeleteRecords (ok=%v err=%v)";;
  fail_if (negb (lo_Offset so =? 3)) "FAIL: log-start %d after DeleteRecords, want 3";;
  call (Stdout "DeleteRecords(<3): partition 0 log-start now %d (low-end truncation)\n");;
  tear_down ctx adm topic "PASS: increase-only partitions + partial config + DeleteRecords verified";;
  call (Close adm).

End Main.
End PartitionsAndConfigs.

(** ** security/sasl-plain-scram *)

Module SaslPlainScram.
Section Main.
Context (getenv : string -> string).

Definition mechanism (name user pass : string) : error + sasl :=
  if String.eqb name "PLAIN" then inr (Plain user pass)
  else if String.eqb name "SCRAM-SHA-256" then inr (ScramSha256 user pass)
  else if String.eqb name "SCRAM-SHA-512" then inr (ScramSha512 user pass)
  else inl (mk_error OtherError "unsupported mechanism %q (want PLAIN, SCRAM-SHA-256, or SCRAM-SHA-512)").

Definition pollOne (ctx : context) (cl : client) : prog Record_ :=
  now ← call Now;
  for_before (now + 15 * Second) (fun _ => true)
    (fun _ : unit =>
      fs ← call (PollFetches ctx cl);
      match f_Errors fs with
      | _ :: _ => fatal "PollFetches: %v"
      | [] => match f_records fs with r :: _ => Ret (inr r) | [] => Ret (inl tt) end
      end)
    (fun _ => fatal "FAIL: timed out waiting for the authenticated record") tt.

Definition body : string := "authenticated payload".

(** The optional principal that must be refused. *)
Definition denied_path (ctx : context) (topic mechName : string) : prog unit :=
  let dUser := getenv "KAFKA_SASL_DENIED_USER" in
  let dPass := getenv "KAFKA_SASL_DENIED_PASS" in
  if negb (String.eqb dUser "") && negb (String.eqb dPass "") then
    dMech ← must "denied mechanism: %v" (Ret (mechanism mechName dUser dPass));
    badProd ← must "denied producer: %v"
      (New getenv [SASL dMech; DefaultProduceTopic topic; RequiredAcks AllISRAcks]);
    res ← call (ProduceSync ctx badProd [value_record "nope"]);
    call (Close badProd);;
    match FirstErr res with
    | None => fatal "FAIL: denied principal %q produced successfully"
    | Some err =>
      fail_if (negb (errors_Is err TopicAuthorizationFailed) && negb (errors_Is err SaslAuthenticationFailed))
        "FAIL: denied principal rejected with %v, want *_AUTHORIZATION_FAILED";;
      call (Stdout "Denied principal %q: rejected with %v (expected)\n")
    end
  else call (Stdout "Denied-principal path: skipped (set KAFKA_SASL_DENIED_USER/PASS to exercise)").

(** strings.ToUpper on ASCII letters. *)
Definition ToUpper (s : string) : string :=
  String.string_of_list_ascii
    (map (fun c => if (97 <=? ord c) && (ord c <=? 122) then chr (ord c - 32) else c) (String.list_ascii_of_string s)).

Definition mech_name : string :=
  let name := ToUpper (getenv "KAFKA_SASL_MECHANISM") in if String.eqb name "" then "PLAIN" else name.

Definition main : prog unit :=
  Banner getenv "security/sasl-plain-scram";;
  let ctx := WithTimeout [] (60 * Second) in
  let user := getenv "KAFKA_SASL_USER" in
  let pass := getenv "KAFKA_SASL_PASS" in
  if String.eqb user "" || String.eqb pass "" then
    call (Stdout "SKIP: SASL example needs a broker with a credential store.");;
    call (Stdout "      Set KAFKA_SASL_USER / KAFKA_SASL_PASS (and optionally");;
    call (Stdout "      KAFKA_SASL_MECHANISM=PLAIN|SCRAM-SHA-256|SCRAM-SHA-512) and re-run.");;
    call (Stdout "PASS: nothing to assert without credentials (see README for setup)")
  else
    mech ← must "mechanism %s: %v" (Ret (mechanism mech_name user pass));
    call (Stdout "SASL: mechanism=%s user=%s\n");;
    topic ← Topic "sec" "sasl";
    adm ← must "admin client: %v" (Admin getenv [SASL mech]);
    check "authenticated CreateTopic: %v" (call (CreateTopic ctx adm 1 1 [] topic));;
    call (Stdout "CreateTopic (authenticated): %s\n");;
    prod ← must "producer: %v" (New getenv [SASL mech; DefaultProduceTopic topic; RequiredAcks AllISRAcks]);
    res ← call (ProduceSync ctx prod [value_record body]);
    match FirstErr res with Some _ => call (Close prod);; fatal "authenticated Produce: %v" | None => Ret tt end;;
    call (Close prod);;
    call (Stdout "Produce (authenticated): ok");;
    cons ← must "consumer: %v"
      (New getenv [SASL mech; ConsumeTopics topic; ConsumeResetOffset AtStart; FetchMaxWait (2 * Second)]);
    got ← pollOne ctx cons;
    call (Close cons);;
    fail_if (negb (String.eqb (r_Value got) body)) "FAIL: authenticated read-back %q != %q";;
    call (Stdout "Fetch (authenticated): %q round-trip ok\n");;
    denied_path ctx topic mech_name;;
    tear_down ctx adm topic "PASS: SASL authenticated round-trip verified";;
    call (Close adm).

End Main.
End SaslPlainScram.
