(* ===== verification/ExRebalance.v ===== *)
(** * consumer-groups/join-rebalance

    Two members of a group consume in goroutines while main watches the shared
    delivery counts, makes one member leave, and waits for the other to finish.
    The process is a transition system over its threads: each is a tree, the
    mutex, the map, the channels and the wait group are shared state. *)

From ITree Require Import ITree.
From S2P Require Import Prelude GoStr Script KafkaClient.
Local Open Scope string_scope.
Local Open Scope Z_scope.
Local Open Scope prog_scope.

Section Main.
Context (getenv : string -> string).

Definition partitions : Z := 4.
Definition totalRecs : Z := 40.
Definition msg_value (i : Z) : string := "msg-" ++s FormatInt i.
Definition msg_key (i : Z) : string := "k-" ++s FormatInt i.
Definition want : gset string := list_to_set (map msg_value (seqZ 0 totalRecs)).

Definition produce_one (ctx : context) (prod : client) (i : Z) : prog unit :=
  res ← call (ProduceSync ctx prod [mk_Record (msg_key i) (msg_value i) 0 0]);
  match FirstErr res with
  | Some _ => call (Close prod);; fatal "Produce %d: %v"
  | None => Ret tt
  end.

(** The closures over mu and got. *)
Definition record (recs : list Record_) : prog unit :=
  sync Lock;;
  each recs (fun r => sync (Increment (r_Value r)));;
  sync Unlock.

Definition total : prog Z :=
  sync Lock;;
  n ← sync MapLen;
  sync Unlock;;
  Ret n.

Definition newMember (topic group id : string) : prog client :=
  must "member %s: %v" (New getenv [ConsumeTopics topic; ConsumerGroup group; ConsumeResetOffset AtStart;
    CooperativeStickyBalancer; FetchMaxWait (1 * Second); ClientID id]).

(** The goroutine of a member. *)
Definition pump (ctx : context) (c : client) (stop : string) : prog unit :=
  forever (fun _ : unit =>
    stopped ← sync (IsClosed stop);
    if stopped : bool then sync WgDone;; Ret (inr tt)
    else
      let pollCtx := WithTimeout ctx (1 * Second) in
      fs ← call (PollFetches pollCtx c);
      match f_Errors fs with
      | _ :: _ => Ret (inl tt)
      | [] =>
        match f_records fs with
        | [] => Ret (inl tt)
        | _ :: _ =>
          record (f_records fs);;
          err ← call (CommitRecords ctx c (f_records fs));
          match err with Some _ => call (Log "member %s commit: %v") | None => Ret tt end;;
          Ret (inl tt)
        end
      end) tt.

Definition waitFor (cond : prog bool) (timeout : Z) : prog bool :=
  now ← call Now;
  for_before (now + timeout) (fun _ => true)
    (fun _ : unit =>
      b ← cond;
      if b : bool then Ret (inr true) else call (Sleep (200 * Millisecond));; Ret (inl tt))
    (fun _ => cond) tt.

Definition at_least (n : Z) : prog bool := t ← total; Ret (n <=? t).

Definition main_ctx : context := WithTimeout [] (120 * Second).

Definition main : prog unit :=
  Banner getenv "consumer-groups/join-rebalance";;
  let ctx := main_ctx in
  topic ← Topic "cg" "rebal";
  group ← Topic "cg" "grp";
  adm ← must "admin client: %v" (Admin getenv []);
  check "CreateTopic %s: %v" (call (CreateTopic ctx adm partitions 1 [] topic));;
  call (Stdout "CreateTopic: %s (partitions=%d) group=%s\n");;
  prod ← must "producer: %v" (New getenv [DefaultProduceTopic topic; RequiredAcks AllISRAcks]);
  each (seqZ 0 totalRecs) (produce_one ctx prod);;
  call (Close prod);;
  call (Stdout "Produce: %d records across %d partitions\n");;
  a ← newMember topic group "member-a";
  b ← newMember topic group "member-b";
  sync (WgAdd 2);;
  sync (Go "a" a "stopA");;
  sync (Go "b" b "stopB");;
  waitFor (at_least (totalRecs / 2)) (20 * Second);;
  total;;
  call (Stdout "Both members active: delivered %d/%d so far\n");;
  sync (CloseChan "stopA");;
  err ← call (LeaveGroup ctx a);
  match err with Some _ => call (Log "member A LeaveGroup: %v") | None => Ret tt end;;
  call (Close a);;
  call (Stdout "Member A left the group (LeaveGroup) -> rebalance");;
  ok ← waitFor (at_least totalRecs) (40 * Second);
  (if negb ok then
     sync (CloseChan "stopB");; sync WgWait;; call (Close b);;
     total;; fatal "FAIL: after rebalance only %d/%d records delivered"
   else Ret tt);;
  sync (CloseChan "stopB");;
  sync WgWait;;
  call (Close b);;
  each (elements want) (fun v =>
    n ← sync (Count v);
    fail_if (n =? 0) "FAIL: record %q was never delivered (lost across rebalance)");;
  call (Stdout "Delivered all %d records across the group (rebalance lost none)\n");;
  tear_down ctx adm topic "PASS: join/rebalance with no record loss verified";;
  call (Close adm).


(** ** The process

    Threads in the order they start, main first.  [None] of [sync_do] is a thread
    that cannot go on: it waits, or it has panicked. *)

Record shared := mk_shared { sh_lock : bool; sh_got : gmap string Z; sh_closed : gset string; sh_wg : Z }.

Definition sync_do {X} (e : syncE X) (s : shared) : option (X * shared) :=
  let '(mk_shared lock got closed wg) := s in
  match e in syncE X return option (X * shared) with
  | Lock => if lock then None else Some (tt, mk_shared true got closed wg)
  | Unlock => if lock then Some (tt, mk_shared false got closed wg) else None
  | Increment v => Some (tt, mk_shared lock (<[v := default 0 (got !! v) + 1]> got) closed wg)
  | Count v => Some (default 0 (got !! v), s)
  | MapLen => Some (Z.of_nat (size got), s)
  | CloseChan ch => if bool_decide (ch ∈ closed) then None else Some (tt, mk_shared lock got ({[ch]} ∪ closed) wg)
  | IsClosed ch => Some (bool_decide (ch ∈ closed), s)
  | WgAdd n => Some (tt, mk_shared lock got closed (wg + n))
  | WgDone => if wg =? 0 then None else Some (tt, mk_shared lock got closed (wg - 1))
  | WgWait => if wg =? 0 then Some (tt, s) else None
  | Go _ _ _ => Some (tt, s)
  end.

Definition spawned {X} (e : syncE X) : list (prog unit) :=
  match e with Go _ cl stop => [pump main_ctx cl stop] | _ => [] end.

Record sys := mk_sys { s_threads : list (prog unit); s_shared : shared; s_log : list (nat * @event goE) }.

Inductive step : sys -> sys -> Prop :=
  | step_tau ts sh l i t t' :
      ts !! i = Some t -> observe t = TauF t' -> step (mk_sys ts sh l) (mk_sys (<[i := t']> ts) sh l)
  | step_call ts sh l i t X (e : clientE X) k x :
      ts !! i = Some t -> observe t = VisF (inl1 e) k ->
      step (mk_sys ts sh l) (mk_sys (<[i := k x]> ts) sh (l ++ [(i, Ev (inl1 e) x)])%list)
  | step_sync ts sh l i t X (e : syncE X) k x sh' :
      ts !! i = Some t -> observe t = VisF (inr1 e) k -> sync_do e sh = Some (x, sh') ->
      step (mk_sys ts sh l) (mk_sys (<[i := k x]> ts ++ spawned e)%list sh' (l ++ [(i, Ev (inr1 e) x)])%list).

Definition start : sys := mk_sys [main] (mk_shared false ∅ ∅ 0) [].
(** main has returned, and with it the process. *)
Definition finished (s : sys) : Prop := exists t, s_threads s !! 0%nat = Some t /\ observe t = RetF tt.
Definition reachable : sys -> Prop := rtc step start.

End Main.
