(* ===== verification/ExProduceFacts.v ===== *)
(** * What a PASS of the produce examples stands for *)

From ITree Require Import ITree.
From S2P Require Import Prelude GoStr Script KafkaClient KafkaFacts ExProduce.
Local Open Scope string_scope.
Local Open Scope Z_scope.

Module BasicAcksFacts.
Import BasicAcks.
Section Main.
Context (getenv : string -> string).

Lemma pollOne_spec ctx cl : wp (pollOne ctx cl) (fun tr r => tidy tr /\ first_polled ctx cl tr r).
Proof.
  unfold pollOne, forever. apply (wp_iter (fun _ tr => tidy tr)); [done|]. intros [] acc Ht.
  run; subst.
  - tidy.
  - split; [tidy|]. exists l. destruct x as [errs recs]. cbn in *; subst. in_trace.
Qed.

Definition earned (tr : trace) : Prop :=
  exists ctx topic adm prod cons p1 p0 pbig r res got rest res1 res0 resb e,
    sublist [ CreateTopic ctx adm 1 1 [] topic >-> None;
              ProduceSync ctx prod [value_record body] >-> ((r, None) :: res);
              PollFetches ctx cons >-> mk_Fetches [] (got :: rest);
              ProduceSync ctx p1 [value_record "acks=1"] >-> res1;
              ProduceSync ctx p0 [value_record "acks=0"] >-> res0;
              ProduceSync ctx pbig [value_record big] >-> resb ] tr /\
    has prod (RequiredAcks AllISRAcks) /\ has prod (DefaultProduceTopic topic) /\
    has cons (ConsumeTopics topic) /\ has cons (ConsumeResetOffset AtStart) /\ r_Value got = body /\
    has p1 (RequiredAcks LeaderAck) /\ FirstErr res1 = None /\ has p0 (RequiredAcks NoAck) /\ FirstErr res0 = None /\
    FirstErr resb = Some e /\ err_code e = MessageTooLarge.

Lemma basic_acks_earned : wp (main getenv) (fun tr _ => tidy tr /\ earned tr).
Proof.
  unfold main. run. use pollOne_spec. intros tr got [Ht [more Hgot]]. run.
  cbn [each levels]. unfold produce_level. run.
  conds.
  split; [tidy|].
  do 16 eexists. split; [in_order|]. split_and!; try done; try has_opt.
Qed.

End Main.
End BasicAcksFacts.

Module IdempotentFacts.
Import Idempotent.
Section Main.
Context (getenv : string -> string).

(** What has been seen is what has been delivered, at distinct offsets. *)
Definition seen_of (recs : list Record_) : seen :=
  (list_to_set (reverse (map r_Offset recs)), list_to_set (reverse (map r_Value recs))).

Lemma scan_spec recs : forall old, NoDup (map r_Offset old) ->
  wp (scan recs (seen_of old)) (fun tr s => tr = [] /\ s = seen_of (old ++ recs) /\ NoDup (map r_Offset (old ++ recs))).
Proof.
  induction recs as [|r recs IH]; intros old Hold; cbn [scan].
  - run. by rewrite app_nil_r.
  - run. conds.
    assert (Hs : ({[r_Offset r]} ∪ (seen_of old).1, {[r_Value r]} ∪ (seen_of old).2) = seen_of (old ++ [r])).
    { unfold seen_of. cbn. by rewrite !map_app, !reverse_app. }
    rewrite Hs. eapply wp_mono; [apply IH|].
    + rewrite map_app. apply NoDup_app. split_and!; [done| |apply NoDup_singleton].
      cbn in H. set_solver.
    + intros tr s (-> & -> & Hn). rewrite <- app_assoc in *. done.
Qed.

Lemma read_back_spec ctx cons deadline : wp (read_back ctx cons deadline (∅, ∅)) (fun tr s =>
  tidy tr /\ s = seen_of (delivered (is_client cons) tr) /\ NoDup (map r_Offset (delivered (is_client cons) tr))).
Proof.
  unfold read_back. apply (wp_for_before (fun s tr =>
    tidy tr /\ s = seen_of (delivered (is_client cons) tr) /\ NoDup (map r_Offset (delivered (is_client cons) tr)))).
  - split_and!; [done|done|constructor].
  - intros s acc now (Ht & -> & Hn) _ _. run. use scan_spec; [done|]. intros tr s (-> & -> & Hn'). run.
    split_and!; [tidy|deliver; done..].
  - intros s acc tr (Ht & -> & Hn) Htr. run.
    destruct Htr as [[_ ->]|(now & _ & ->)]; (split_and!; [tidy|deliver; done..]).
Qed.

Definition earned (tr : trace) : Prop :=
  exists ctx topic prod cons pid epoch,
    (ProducerID ctx prod >-> inr (pid, epoch)) ∈ tr /\ 0 <= pid /\
    (forall i, 0 <= i < n -> exists res, (ProduceSync ctx prod [value_record (idem_record i)] >-> res) ∈ tr /\ FirstErr res = None) /\
    NoDup (map r_Offset (delivered (is_client cons) tr)) /\
    (forall v, v ∈ map r_Value (delivered (is_client cons) tr) <-> v ∈ map idem_record (seqZ 0 n)) /\
    has prod (DefaultProduceTopic topic) /\ has prod (RequiredAcks AllISRAcks) /\
    has cons (ConsumeTopics topic) /\ has cons (ConsumeResetOffset AtStart).

(** Five distinct values, each of them wanted, are the wanted ones. *)
Lemma same_set (X : gset string) : Z.of_nat (size X) = n -> (forall v, v ∈ want -> v ∈ X) -> X = want.
Proof.
  intros Hs Hi. symmetry. apply set_subseteq_size_eq; [done|].
  assert (size want = 5%nat) by (vm_compute; done). unfold n in Hs. lia.
Qed.

Lemma idempotent_earned : wp (main getenv) (fun tr _ => tidy tr /\ earned tr).
Proof.
  unfold main. run. use (wp_each_produce _ _ _ _ (fun i => value_record (idem_record i))).
  { intros i. run. eauto. }
  intros tr [] (Htr & Hp & Hres). run. use read_back_spec. intros tr' s (Htr' & -> & Hn). run.
  conds. split; [tidy|].
  assert (Hw : (seen_of (delivered (is_client cl1) tr')).2 = want).
  { apply same_set; [done|]. intros v Hv. specialize (H5 v ltac:(by apply elem_of_elements)).
    apply bool_decide_eq_false in H5. by destruct (decide (v ∈ (seen_of (delivered (is_client cl1) tr')).2)). }
  do 6 eexists. split_and!.
  - in_trace.
  - done.
  - intros i Hi. destruct (Hres i) as (res & Hin & Hr); [by apply elem_of_seqZ|]. exists res. split; [in_trace|done].
  - deliver. exact Hn.
  - deliver. intros v. trans (v ∈ want); [|apply elem_of_list_to_set].
    rewrite <- Hw. unfold seen_of. cbn. by rewrite elem_of_list_to_set, elem_of_reverse.
  - has_opt.
  - has_opt.
  - has_opt.
  - has_opt.
Qed.

End Main.
End IdempotentFacts.

Module CompressionAndKeysFacts.
Import CompressionAndKeys.
Section Main.
Context (getenv : string -> string).

Lemma readOffset_spec ctx topic p o : wp (readOffset getenv ctx topic p o) (fun tr r => tidy tr /\
  exists cons, has cons (ConsumePartitions topic p (At o)) /\ first_polled ctx cons tr r).
Proof.
  unfold readOffset. run. use wp_poll_first.
  - intros u. run; subst; (split; [tidy|]); [done|]. exists l. destruct x0. cbn in *; subst. in_trace.
  - intros tr r [Ht [rest Hr]]. run. split; [tidy|]. exists cl. split; [has_opt|]. exists rest. in_trace.
Qed.

(** A keyed record came back from the offset it was acknowledged at. *)
Definition round_trip (topic : string) (c : string * codec) (tr : trace) : Prop :=
  exists ctx prod cons r res got rest,
    sublist [ ProduceSync ctx prod [mk_Record ("codec-" ++s c.1) ("payload compressed with " ++s c.1) 0 0]
                >-> ((r, None) :: res);
              PollFetches ctx cons >-> mk_Fetches [] (got :: rest) ] tr /\
    r_Key got = "codec-" ++s c.1 /\ r_Value got = "payload compressed with " ++s c.1 /\
    has prod (DefaultProduceTopic topic) /\ has prod (ProducerBatchCompression c.2) /\
    has cons (ConsumePartitions topic (r_Partition r) (At (r_Offset r))).

Lemma codec_round_trip_spec ctx topic c :
  wp (codec_round_trip getenv ctx topic c) (fun tr _ => tidy tr /\ round_trip topic c tr).
Proof.
  unfold codec_round_trip. run. use readOffset_spec.
  intros tr got (Ht & cons & Hc & more & Hgot). run. conds. split; [tidy|].
  do 7 eexists. split; [in_order|]. split_and!; try done; has_opt.
Qed.

Lemma round_trip_mono topic c tr tr' : sublist tr tr' -> round_trip topic c tr -> round_trip topic c tr'.
Proof.
  intros Hs (ctx & prod & cons & r & res & got & more & Ho & H). exists ctx, prod, cons, r, res, got, more.
  split; [by etrans|done].
Qed.

(** The copy was acknowledged on the partition the key hashes to. *)
Definition keyed (prod : client) (part i : Z) (tr : trace) : Prop :=
  exists ctx r res,
    (ProduceSync ctx prod [mk_Record fixedKey ("keyed-" ++s FormatInt i) 0 0] >-> ((r, None) :: res)) ∈ tr /\
    r_Partition r = part.

Lemma keyed_mono prod part i tr tr' : sublist tr tr' -> keyed prod part i tr -> keyed prod part i tr'.
Proof. intros Hs (ctx & r & res & Hin & Hr). exists ctx, r, res. split; [by eapply elem_of_sublist|done]. Qed.

Definition earned (tr : trace) : Prop :=
  exists topic prod part,
    (forall c, c ∈ codecs -> round_trip topic c tr) /\
    murmur2Partition (string_bytes fixedKey) numPartitions = Some part /\
    (forall i, 0 <= i < 10 -> keyed prod part i tr) /\
    has prod (DefaultProduceTopic topic).

Lemma compression_earned : wp (main getenv) (fun tr _ => tidy tr /\ earned tr).
Proof.
  unfold main. run.
  use (wp_each_all _ _ (round_trip topic)); [intros; by eapply round_trip_mono|intros; apply codec_round_trip_spec|].
  intros tr [] [Ht Hrt]. run.
  use (wp_each_all _ _ (keyed cl0 z)); [intros; by eapply keyed_mono| |].
  { intros i. unfold keyed_produce. run. conds. split; [tidy|]. do 3 eexists. split; [in_trace|done]. }
  intros tr' [] [Ht' Hk]. run. split; [tidy|]. exists topic, cl0, z. split_and!; [|done| |has_opt].
  - intros c Hc. eapply round_trip_mono; [|by apply Hrt]. piece.
  - intros i Hi. eapply keyed_mono; [|apply Hk; by apply elem_of_seqZ]. piece.
Qed.

End Main.
End CompressionAndKeysFacts.

(** ** murmur2

    The loop over indices never leaves the slice, and computes what the
    recursion over the bytes does. *)

Module Murmur2Facts.
Import CompressionAndKeys.

Definition word (b0 b1 b2 b3 : Z) : Z :=
  Z.lor (Z.lor (Z.lor b0 (Z.shiftl b1 8)) (Z.shiftl b2 16)) (Z.shiftl b3 24).
Definition mix (h k : Z) : Z :=
  let k := u32_wrap (k * m) in
  Z.lxor (u32_wrap (h * m)) (u32_wrap (Z.lxor k (Z.shiftr k r) * m)).

(** Four bytes at a time, then the rest. *)
Fixpoint hash (data : list Z) (h : Z) : Z :=
  match data with
  | b0 :: b1 :: b2 :: b3 :: data => hash data (mix h (word b0 b1 b2 b3))
  | [b0; b1; b2] => u32_wrap (Z.lxor (Z.lxor (Z.lxor h (Z.shiftl b2 16)) (Z.shiftl b1 8)) b0 * m)
  | [b0; b1] => u32_wrap (Z.lxor (Z.lxor h (Z.shiftl b1 8)) b0 * m)
  | [b0] => u32_wrap (Z.lxor h b0 * m)
  | [] => h
  end.
Definition avalanche (h : Z) : Z :=
  let h := u32_wrap (Z.lxor h (Z.shiftr h 13) * m) in Z.lxor h (Z.shiftr h 15).
Definition reference (data : list Z) : Z :=
  i32_wrap (avalanche (hash data (Z.lxor seed (u32_wrap (Z.of_nat (length data)))))).

Lemma index_app pre data i j : i = Z.of_nat (length pre) + j -> 0 <= j -> index (pre ++ data) i = data !! Z.to_nat j.
Proof.
  intros -> Hj. unfold index. destruct (_ <? 0) eqn:E; zify_bool; [lia|].
  rewrite lookup_app_r by lia. f_equal. lia.
Qed.

Lemma block_app pre b0 b1 b2 b3 data h i : 4 * i = Z.of_nat (length pre) ->
  block (pre ++ b0 :: b1 :: b2 :: b3 :: data) h i = Some (mix h (word b0 b1 b2 b3)).
Proof.
  intros Hi. unfold block.
  rewrite (index_app pre _ (i * 4) 0), (index_app pre _ (i * 4 + 1) 1),
    (index_app pre _ (i * 4 + 2) 2), (index_app pre _ (i * 4 + 3) 3) by lia. done.
Qed.

(** The last bytes, by their number. *)
Definition finish (data : list Z) (tail h : Z) (n : Z) : option Z :=
  match n with 3 => tail_3 data tail h | 2 => tail_2 data tail h | 1 => tail_1 data tail h | _ => Some h end.

Lemma hash_blocks data : forall pre i h, 4 * i = Z.of_nat (length pre) ->
  (blocks (pre ++ data) h (seqZ i (Z.of_nat (length data) / 4)) ≫= fun h =>
   finish (pre ++ data) (4 * i + Z.of_nat (length data) / 4 * 4) h (Z.of_nat (length data) mod 4)) = Some (hash data h).
Proof.
  remember (length data) as n eqn:En. revert data En.
  induction n as [n IH] using (well_founded_induction lt_wf). intros data -> pre i h Hi.
  destruct data as [|b0 [|b1 [|b2 [|b3 data]]]].
  1-4: cbn -[index]; change (seqZ i _) with (@nil Z); cbn -[index];
    unfold finish; cbn -[index]; unfold tail_3, tail_2, tail_1;
    rewrite ?(index_app pre _ (4 * i + 0 + 2) 2), ?(index_app pre _ (4 * i + 0 + 1) 1), ?(index_app pre _ (4 * i + 0) 0) by lia; done.
  set (k := Z.of_nat (length (b0 :: b1 :: b2 :: b3 :: data))).
  assert (Hk : k = Z.of_nat (length data) + 1 * 4) by (unfold k; cbn [length]; lia).
  assert (Hd : k / 4 = Z.of_nat (length data) / 4 + 1) by (rewrite Hk, Z.div_add; lia).
  assert (Hm : k mod 4 = Z.of_nat (length data) mod 4) by (rewrite Hk, Z.mod_add; lia).
  rewrite Hd, Hm, seqZ_cons by (pose proof (Z.div_pos (Z.of_nat (length data)) 4); lia).
  cbn [blocks hash]. rewrite block_app by done. cbn [mbind option_bind].
  replace (Z.pred (Z.of_nat (length data) / 4 + 1)) with (Z.of_nat (length data) / 4) by lia.
  replace (4 * i + (Z.of_nat (length data) / 4 + 1) * 4) with (4 * Z.succ i + Z.of_nat (length data) / 4 * 4) by lia.
  replace (pre ++ b0 :: b1 :: b2 :: b3 :: data)%list with ((pre ++ [b0; b1; b2; b3]) ++ data)%list by by rewrite <- app_assoc.
  apply (IH (length data)); [cbn [length]; lia|done|]. rewrite length_app. cbn [length]. lia.
Qed.

Lemma murmur2_reference data : murmur2 data = Some (reference data).
Proof.
  pose proof (hash_blocks data [] 0 (Z.lxor seed (u32_wrap (Z.of_nat (length data)))) eq_refl) as H.
  cbn [app] in H. unfold murmur2.
  replace (Z.land (Z.of_nat (length data)) 3) with (Z.of_nat (length data) mod 4)
    by (by rewrite (Z.land_ones _ 2)).
  destruct (blocks _ _ _) as [h|]; [|done]. cbn [mbind option_bind] in *. unfold finish in H.
  rewrite Z.mul_0_r, Z.add_0_l in H. rewrite H. done.
Qed.

Lemma murmur2Partition_range key n : 0 < n ->
  exists p, murmur2Partition key n = Some p /\ 0 <= p < n.
Proof.
  intros Hn. unfold murmur2Partition. rewrite murmur2_reference. eexists. split; [done|].
  assert (0 <= Z.land (reference key) 0x7fffffff) by (apply Z.land_nonneg; lia).
  rewrite Z.rem_mod_nonneg by lia. apply Z.mod_pos_bound. lia.
Qed.
End Murmur2Facts.
