(* ===== verification/ExConsumeFacts.v ===== *)
(** * What a PASS of the consume and offsets examples stands for *)

From ITree Require Import ITree.
From S2P Require Import Prelude GoStr Script KafkaClient KafkaFacts ExConsume.
Local Open Scope string_scope.
Local Open Scope Z_scope.

Lemma tolerate_spec errs : wp (tolerate errs) (fun tr _ => tr = [] /\ forallb poll_expired errs = true).
Proof.
  unfold tolerate. induction errs as [|e errs IH]; cbn [each forallb]; run; [done|].
  use IH. intros tr [] [-> ->]. done.
Qed.

(** The records of a loop, each acknowledged. *)
Definition produced (prod : client) (value : Z -> string) (l : list Z) (tr : trace) : Prop :=
  forall i, i ∈ l -> exists ctx res, (ProduceSync ctx prod [value_record (value i)] >-> res) ∈ tr /\ FirstErr res = None.

Definition quiet (tr : trace) : Prop := tidy tr /\ forall sel, polls sel tr = [].

Lemma produced_cons ctx prod value i l tr res : FirstErr res = None -> produced prod value l tr ->
  produced prod value (i :: l) (ProduceSync ctx prod [value_record (value i)] >-> res :: tr).
Proof.
  intros Hr Hl j [->|Hj]%elem_of_cons.
  - exists ctx, res. split; [by left|done].
  - destruct (Hl j Hj) as (ctx' & res' & Hin & Hr'). exists ctx', res'. split; [by right|done].
Qed.

Lemma produced_mono prod value l tr tr' : sublist tr tr' -> produced prod value l tr -> produced prod value l tr'.
Proof.
  intros Hs Hl i Hi. destruct (Hl i Hi) as (ctx & res & Hin & Hr). exists ctx, res.
  split; [by eapply elem_of_sublist|done].
Qed.

Lemma produce_plain ctx prod value mid l : forall b, mid ∉ l ->
  wp (produce_with_boundary ctx prod value mid l b) (fun tr ms => quiet tr /\ produced prod value l tr /\ ms = b).
Proof.
  induction l as [|i l IH]; intros b Hm; cbn [produce_with_boundary].
  - run. split_and!; [by split|intros i Hi; by apply elem_of_nil in Hi|done].
  - apply not_elem_of_cons in Hm as [Hne Hm]. rewrite (proj2 (Z.eqb_neq i mid)) by done.
    run. use IH; [done|]. intros tr ms ([Ht Hp] & Hl & ->).
    split_and!; [split; [tidy|exact Hp]|cbn [app]; by apply produced_cons|done].
Qed.

(** The boundary is a clock reading between the two halves. *)
Lemma produce_boundary ctx prod value mid l1 l2 : forall b, mid ∉ l1 -> mid ∉ l2 ->
  wp (produce_with_boundary ctx prod value mid (l1 ++ mid :: l2) b) (fun tr ms => quiet tr /\
    exists tr1 now tr2, tr = (tr1 ++ (Now >-> now) :: tr2)%list /\ ms = now / Millisecond /\
      produced prod value l1 tr1 /\ produced prod value (mid :: l2) tr2).
Proof.
  induction l1 as [|i l1 IH]; intros b H1 H2; cbn [produce_with_boundary app].
  - rewrite Z.eqb_refl. run. use produce_plain; [done|]. intros tr ms ([Ht Hp] & Hl & ->).
    split; [split; [tidy|exact Hp]|].
    eexists _, _, _. split; [cut_trace|]. split_and!; [done| |].
    + intros i Hi. by apply elem_of_nil in Hi.
    + cbn [app]. intros j Hj. destruct (produced_cons ctx prod value mid l2 tr x0 Heqo Hl j Hj) as (c & res & Hin & Hr).
      exists c, res. split; [by right|done].
  - apply not_elem_of_cons in H1 as [Hne H1]. rewrite (proj2 (Z.eqb_neq i mid)) by done.
    run. use IH; [done|done|]. intros tr ms ([Ht Hp] & tr1 & now & tr2 & -> & -> & Hl1 & Hl2).
    split; [split; [tidy|exact Hp]|]. eexists _, _, _. split; [cut_trace|]. split_and!; [done| |done].
    cbn [app]. by apply produced_cons.
Qed.

Module FromBeginningLatestFacts.
Import FromBeginningLatest.
Section Main.
Context (getenv : string -> string).

Lemma produce_spec ctx topic recs : wp (produce getenv ctx topic recs) (fun tr _ => quiet tr /\
  exists prod res, has prod (DefaultProduceTopic topic) /\ (ProduceSync ctx prod recs >-> res) ∈ tr /\ FirstErr res = None).
Proof. unfold produce. run. split; [split; [tidy|done]|]. do 2 eexists. split_and!; [|in_trace|done]. has_opt. Qed.

(** drain returns what was delivered, in order. *)
Lemma drain_spec ctx cl want timeout : wp (drain ctx cl want timeout) (fun tr out => tidy tr /\
  out = delivered (is_client cl) tr /\ forall cl', cl' <> cl -> delivered (is_client cl') tr = []).
Proof.
  unfold drain. run. apply (wp_for_before (fun out tr => tidy tr /\
    out = delivered (is_client cl) tr /\ forall cl', cl' <> cl -> delivered (is_client cl') tr = [])).
  - split_and!; [done|done|done].
  - intros out acc now (Ht & -> & Hn) _ _. run.
    + deliver. split_and!; [tidy|done|]. intros cl' Hcl. deliver. by rewrite Hn.
    + use tolerate_spec. intros tr [] [-> _]. run.
      deliver. split_and!; [tidy|done|]. intros cl' Hcl. deliver. by rewrite Hn.
  - intros out acc tr (Ht & -> & Hn) Htr. run. 
    destruct Htr as [[_ ->]|(now & _ & ->)]; deliver; (split_and!; [tidy|done|intros cl' Hcl; deliver; by apply Hn]).
Qed.

(** Three seeds read from the start; one record read by the consumer from the
    end after its warm-up poll, whose own answer [warm] is dropped. *)
Definition earned (tr : trace) : Prop :=
  exists ctx topic early late p1 p2 c1 c2 res1 res2 warm r tr1 tr2,
    tr = (tr1 ++ PollFetches (WithTimeout ctx (3 * Second)) late >-> warm :: tr2)%list /\
    (ProduceSync c1 p1 (seedRecords seedCount) >-> res1) ∈ tr1 /\ FirstErr res1 = None /\
    Z.of_nat (length (delivered (is_client early) tr1)) = seedCount /\
    (ProduceSync c2 p2 [value_record post] >-> res2) ∈ tr2 /\ FirstErr res2 = None /\
    delivered (is_client late) tr2 = [r] /\ r_Value r = post /\
    has p1 (DefaultProduceTopic topic) /\ has p2 (DefaultProduceTopic topic) /\
    has early (ConsumeTopics topic) /\ has early (ConsumeResetOffset AtStart) /\
    has late (ConsumeTopics topic) /\ has late (ConsumeResetOffset AtEnd).

Lemma from_beginning_earned : wp (main getenv) (fun tr _ => tidy tr /\ earned tr).
Proof.
  unfold main. run. use produce_spec. intros t1 [] ([Ht1 Hq1] & p1 & res1 & Hp1 & Hin1 & Hr1). run.
  use drain_spec. intros t2 out (Ht2 & -> & Hn2). run.
  use produce_spec. intros t3 [] ([Ht3 Hq3] & p2 & res2 & Hp2 & Hin2 & Hr2). run.
  use drain_spec. intros t4 out (Ht4 & -> & Hn4). run. conds.
  split; [tidy|].
  do 14 eexists. split; [cut_trace|]. split_and!.
  - in_trace.
  - done.
  - deliver. done.
  - in_trace.
  - done.
  - deliver. done.
  - done.
  - done.
  - done.
  - has_opt.
  - has_opt.
  - has_opt.
  - has_opt.
Qed.

End Main.
End FromBeginningLatestFacts.

Module SeekFacts.
Import SeekOffsetsTimestamps.
Section Main.
Context (getenv : string -> string).

Lemma pollFirst_spec ctx cl : wp (pollFirst ctx cl) (fun tr r => tidy tr /\
  first_polled (WithTimeout ctx (3 * Second)) cl tr r).
Proof.
  unfold pollFirst. run. use wp_poll_first.
  - intros u. run.
    + split; [tidy|done].
    + split; [tidy|]. exists l. destruct x0. cbn in *; subst. in_trace.
    + use tolerate_spec. intros tr [] [-> _]. run. split; [tidy|done].
  - intros tr r [Ht [rest Hr]]. split; [tidy|]. exists rest. in_trace.
Qed.

Definition earned (tr : trace) : Prop :=
  exists ctx adm topic prod seeker ts now listed first first' tr1 tr2,
    tr = (tr1 ++ (Now >-> now) :: tr2)%list /\
    produced prod rec_value [0; 1; 2] tr1 /\ produced prod rec_value [3; 4; 5] tr2 /\
    first_polled (WithTimeout ctx (3 * Second)) seeker tr2 first /\ r_Offset first = seekOffset /\
    (ListOffsetsAfterMilli ctx adm (now / Millisecond) topic >-> inr listed) ∈ tr2 /\
    listed !! (topic, 0) = Some (mk_ListedOffset 3 None) /\
    first_polled (WithTimeout ctx (3 * Second)) ts tr2 first' /\ r_Offset first' = 3 /\ r_Value first' = "rec-3" /\
    has prod (DefaultProduceTopic topic) /\ has seeker (ConsumePartitions topic 0 (At seekOffset)) /\
    has ts (ConsumePartitions topic 0 (At 3)).

Lemma seek_earned : wp (main getenv) (fun tr _ => tidy tr /\ earned tr).
Proof.
  unfold main. run.
  use (produce_boundary _ _ _ 3 [0; 1; 2] [4; 5]); [set_solver|set_solver|].
  intros tr ms ([Ht Hq] & tr1 & now & tr2 & -> & -> & Hp1 & Hp2). run.
  use pollFirst_spec. intros tr3 first [Ht3 [more3 Hf3]]. run.
  use pollFirst_spec. intros tr4 first' [Ht4 [more4 Hf4]]. run. conds. split; [tidy|].
  apply Lookup_ok in Heqp; [|done|done].
  match goal with H : lo_Offset _ = 3 |- _ => rewrite H in * end.
  do 12 eexists. split; [cut_trace|]. split_and!.
  - eapply produced_mono; [|exact Hp1]. piece.
  - eapply produced_mono; [|exact Hp2]. piece.
  - exists more3. in_trace.
  - done.
  - in_trace.
  - done.
  - exists more4. in_trace.
  - assumption.
  - done.
  - has_opt.
  - has_opt.
  - has_opt.
Qed.

End Main.
End SeekFacts.

Module ListAndRetentionFacts.
Import ListAndRetention.
Section Main.
Context (getenv : string -> string).

(** What the answer [l] gives for partition 0: the offset listed, or 0 when it lists none. *)
Definition listed_as (l : ListedOffsets) (topic : string) (o : Z) : Prop :=
  lo_Offset (Lookup l topic 0).1 = o.

Definition earned (tr : trace) : Prop :=
  exists ctx adm topic prod configs starts ends afters now tr1 tr2,
    tr = (tr1 ++ (Now >-> now) :: tr2)%list /\
    produced prod r_value [0; 1] tr1 /\ produced prod r_value [2; 3; 4] tr2 /\
    sublist [ CreateTopic ctx adm 1 1 retention topic >-> None;
              DescribeTopicConfigs ctx adm topic >-> inr (inr configs) ] tr1 /\
    config_map configs !! "retention.ms" = Some "600000" /\
    config_map configs !! "retention.bytes" = Some "104857600" /\
    sublist [ ListStartOffsets ctx adm topic >-> inr starts;
              ListEndOffsets ctx adm topic >-> inr ends;
              ListOffsetsAfterMilli ctx adm (now / Millisecond) topic >-> inr afters ] tr2 /\
    listed_as starts topic 0 /\ listed_as ends topic 5 /\ listed_as afters topic 2 /\
    has prod (DefaultProduceTopic topic).

Lemma config_lookup cfg key v : config cfg key = v -> v <> "" -> cfg !! key = Some v.
Proof. unfold config. destruct (cfg !! key); cbn; congruence. Qed.

Lemma retention_earned : wp (main getenv) (fun tr _ => tidy tr /\ earned tr).
Proof.
  unfold main. run. use (produce_boundary _ _ _ 2 [0; 1] [3; 4]); [set_solver|set_solver|].
  intros tr ms ([Ht Hq] & tr1 & now & tr2 & -> & -> & Hp1 & Hp2). run. conds. split; [tidy|].
  do 11 eexists. split; [cut_trace|]. split_and!.
  - eapply produced_mono; [|exact Hp1]. piece.
  - eapply produced_mono; [|exact Hp2]. piece.
  - in_order.
  - by apply config_lookup.
  - by apply config_lookup.
  - in_order.
  - assumption.
  - assumption.
  - assumption.
  - has_opt.
Qed.

End Main.
End ListAndRetentionFacts.
