(* ===== verification/ExGroupsFacts.v ===== *)
(** * What a PASS of commit-and-lag and of the transactions examples stands for *)

From ITree Require Import ITree.
From S2P Require Import Prelude GoStr Script KafkaClient KafkaFacts ExConsume ExGroups ExConsumeFacts.
Local Open Scope string_scope.
Local Open Scope Z_scope.

Module CommitAndLagFacts.
Import CommitAndLag.
Section Main.
Context (getenv : string -> string).

Lemma take_upto_take n recs : forall out, Z.of_nat (length out) <= n ->
  take_upto n recs out = take (Z.to_nat n) (out ++ recs).
Proof.
  induction recs as [|r recs IH]; intros out Hn; cbn [take_upto].
  - rewrite app_nil_r, take_ge by lia. done.
  - destruct (_ <? n) eqn:E; zify_bool.
    + rewrite IH by (rewrite length_app; cbn [length]; lia). by rewrite <- app_assoc.
    + rewrite take_app_le, take_ge by lia. done.
Qed.

(** take returns the first [n] records delivered. *)
Lemma take_spec ctx cl n : 0 <= n -> wp (take_ ctx cl n) (fun tr out => tidy tr /\
  out = take (Z.to_nat n) (delivered (is_client cl) tr)).
Proof.
  intros Hn. unfold take_. run.
  apply (wp_for_before (fun out tr => tidy tr /\ out = take (Z.to_nat n) (delivered (is_client cl) tr))).
  - split; [done|]. by destruct (Z.to_nat n).
  - intros out acc now (Ht & ->) Hlt _. zify_bool. run. split; [tidy|]. deliver.
    rewrite length_take in Hlt.
    rewrite take_upto_take by (rewrite length_take; lia). by rewrite (take_ge (delivered _ _)) by lia.
  - intros out acc tr (Ht & ->) Htr. run.
    destruct Htr as [[_ ->]|(now & _ & ->)]; deliver; (split; [tidy|done]).
Qed.

Lemma committedAndEnd_spec ctx adm group topic :
  wp (committedAndEnd ctx adm group topic) (fun tr r => tidy tr /\ (forall sel, polls sel tr = []) /\
    exists fetched ends,
      (FetchOffsets ctx adm group >-> inr fetched) ∈ tr /\ fetched !! (topic, 0) = Some (mk_OffsetResponse r.1 None) /\
      (ListEndOffsets ctx adm topic >-> inr ends) ∈ tr /\ ends !! (topic, 0) = Some (mk_ListedOffset r.2 None)).
Proof.
  unfold committedAndEnd. run. conds. split_and!; [tidy|done|].
  apply Lookup_ok in Heqp; [|done|done].
  do 2 eexists. split_and!; [in_trace|eassumption|in_trace|done].
Qed.

Definition earned (tr : trace) : Prop :=
  exists ctx adm topic group prod c1 c2 tr1 tr2 firstHalf secondHalf l f committed end_ fetched ends,
    tr = (tr1 ++ CommitRecords ctx c1 firstHalf >-> None :: tr2)%list /\
    (forall i, 0 <= i < batch -> exists res, (ProduceSync ctx prod [value_record (m_value i)] >-> res) ∈ tr1 /\ FirstErr res = None) /\
    firstHalf = take 5 (delivered (is_client c1) tr1) /\ length firstHalf = 5%nat /\ last firstHalf = Some l /\
    (FetchOffsets ctx adm group >-> inr fetched) ∈ tr2 /\ fetched !! (topic, 0) = Some (mk_OffsetResponse committed None) /\
    (ListEndOffsets ctx adm topic >-> inr ends) ∈ tr2 /\ ends !! (topic, 0) = Some (mk_ListedOffset end_ None) /\
    i64_wrap (end_ - committed) = 5 /\
    secondHalf = take 5 (delivered (is_client c2) tr2) /\ length secondHalf = 5%nat /\ head secondHalf = Some f /\
    r_Offset f = i64_wrap (r_Offset l + 1) /\
    has prod (DefaultProduceTopic topic) /\
    has c1 (ConsumerGroup group) /\ has c1 (ConsumeTopics topic) /\ has c1 DisableAutoCommit /\
    has c2 (ConsumerGroup group) /\ has c2 (ConsumeTopics topic).

Lemma commit_and_lag_earned : wp (main getenv) (fun tr _ => tidy tr /\ earned tr).
Proof.
  unfold main. run. use (wp_each_produce _ _ _ _ (fun i => value_record (m_value i))).
  { intros i. unfold produce_one. run. eauto. }
  intros t1 [] (Ht1 & Hq1 & Hp). run. use take_spec; [done|]. intros t2 out (Ht2 & ->). run.
  unfold last_of. run. use committedAndEnd_spec. intros t3 [cm en] (Ht3 & Hq3 & fetched & ends & Hi3 & Hf & Hi4 & He). run.
  use take_spec; [done|]. intros t4 out (Ht4 & ->). run. unfold first_of. run. conds. split; [tidy|].
  change (batch - half) with 5 in *. change half with 5 in *. change (Z.to_nat 5) with 5%nat in *.
  do 17 eexists. split; [cut_trace|]. split_and!.
  - intros i Hi. destruct (Hp i) as (res & Hin & Hr); [by apply elem_of_seqZ|]. exists res. split; [in_trace|done].
  - deliver. done.
  - lia.
  - done.
  - in_trace.
  - done.
  - in_trace.
  - done.
  - done.
  - deliver. done.
  - lia.
  - done.
  - done.
  - has_opt.
  - has_opt.
  - has_opt.
  - has_opt.
  - has_opt.
  - has_opt.
Qed.

End Main.
End CommitAndLagFacts.

Module TransactionsFacts.
Import Transactions.
Section Main.
Context (getenv : string -> string).

(** Everything the consumer's polls returned. *)
Definition fetched (cl : client) (tr : trace) : list string :=
  map r_Value (concat (map f_records (polls (is_client cl) tr))).

Lemma fetched_app cl tr tr' : fetched cl (tr ++ tr') = (fetched cl tr ++ fetched cl tr')%list.
Proof. unfold fetched. by rewrite polls_app, map_app, concat_app, map_app. Qed.

Lemma fetched_quiet cl tr : (forall sel, polls sel tr = []) -> fetched cl tr = [].
Proof. unfold fetched. by intros ->. Qed.

Lemma fetched_poll ctx cl fs tr : fetched cl (PollFetches ctx cl >-> fs :: tr) = (map r_Value (f_records fs) ++ fetched cl tr)%list.
Proof. unfold fetched. cbn [polls poll_ev]. rewrite is_client_self. cbn. by rewrite map_app. Qed.

Lemma fetched_skip cl ev tr : poll_ev (is_client cl) ev = [] -> fetched cl (ev :: tr) = fetched cl tr.
Proof. unfold fetched. cbn [polls]. by intros ->. Qed.

Ltac fetch :=
  repeat first [
    match goal with H : forall sel, polls sel ?t = [] |- context [fetched ?c ?t] => rewrite (fetched_quiet c t H) end
    | match goal with |- context [fetched ?c []] => change (fetched c []) with (@nil string) end
    | rewrite fetched_app | rewrite fetched_skip by reflexivity | rewrite fetched_poll
    | progress cbn [app] | rewrite app_nil_r ].

Lemma read_values_spec ctx cons : wp (read_values ctx cons) (fun tr got => tidy tr /\ got = fetched cons tr).
Proof.
  unfold read_values. run. apply (wp_for_before (fun got tr => tidy tr /\ got = fetched cons tr)).
  - done.
  - intros got acc now (Ht & ->) _ _. run. use tolerate_spec. intros tr [] [-> _]. run; fetch; (split; [tidy|done]).
  - intros got acc tr (Ht & ->) Htr. run. destruct Htr as [[_ ->]|(now & _ & ->)]; fetch; (split; [tidy|done]).
Qed.

(** A transaction opened with one record in it. *)
Definition opened (ctx : context) (prod : client) (value : string) (res : list (Record_ * option error)) : trace :=
  [ BeginTransaction prod >-> None; ProduceSync ctx prod [value_record value] >-> res ].

Lemma open_txn_spec ctx prod value b p : wp (open_txn ctx prod value b p) (fun tr _ =>
  exists res, tr = opened ctx prod value res /\ FirstErr res = None).
Proof. unfold open_txn. run. subst. eexists. split; [|done]. done. Qed.

Definition eos_earned (tr : trace) : Prop :=
  exists ctx topic txnID prod cons res1 res2 tr1 tr2,
    tr = (tr1 ++ EndTransaction ctx prod false >-> None :: tr2)%list /\
    sublist (opened ctx prod eos_committed res1 ++ [EndTransaction ctx prod true >-> None] ++
             opened ctx prod eos_aborted res2)%list tr1 /\
    FirstErr res1 = None /\ FirstErr res2 = None /\
    fetched cons tr2 = [eos_committed] /\
    has prod (TransactionalID txnID) /\ has prod (DefaultProduceTopic topic) /\
    has cons (ConsumeTopics topic) /\ has cons ReadCommitted /\ has cons (ConsumeResetOffset AtStart).

Lemma eos_main_earned : wp (eos_main getenv) (fun tr _ => tidy tr /\ eos_earned tr).
Proof.
  unfold eos_main. run. use open_txn_spec. intros ? [] (res1 & -> & Hr1). run.
  use open_txn_spec. intros ? [] (res2 & -> & Hr2). run.
  use read_values_spec. intros t got (Ht & ->). unfold opened. run. conds. split; [tidy|].
  do 9 eexists. split; [cut_trace|]. split_and!.
  - unfold opened. in_order.
  - done.
  - done.
  - fetch. etrans; [eassumption|]. by subst.
  - has_opt.
  - has_opt.
  - has_opt.
  - has_opt.
  - has_opt.
Qed.

(** The read_committed and the read_uncommitted end of partition 0, asked for in this order. *)
Definition asked (ctx : context) (adm : client) (topic : string) (p : PartitionResponse) (ps : list PartitionResponse)
    (ts : list (list PartitionResponse)) (listed : ListedOffsets) : trace :=
  [ RequestListOffsets ctx adm (mk_ListOffsetsRequest (-1) 1 topic 0 (-1) (-1)) >-> inr ((p :: ps) :: ts);
    ListEndOffsets ctx adm topic >-> inr listed ].
Definition hwm (listed : ListedOffsets) (topic : string) : Z := lo_Offset (Lookup listed topic 0).1.

Definition rc_earned (tr : trace) : Prop :=
  exists ctx adm topic txnID prod cons res1 res2 p ps ts listed p' ps' ts' listed' tr1 tr2,
    tr = (tr1 ++ EndTransaction ctx prod false >-> None :: tr2)%list /\
    sublist (opened ctx prod rc_committed res1 ++ [EndTransaction ctx prod true >-> None] ++
             opened ctx prod rc_aborted res2 ++ asked ctx adm topic p ps ts listed)%list tr1 /\
    FirstErr res1 = None /\ FirstErr res2 = None /\
    pr_ErrorCode p = 0 /\ pr_Offset p < hwm listed topic /\
    sublist (asked ctx adm topic p' ps' ts' listed') tr2 /\
    pr_ErrorCode p' = 0 /\ pr_Offset p' = hwm listed' topic /\
    fetched cons tr2 = [rc_committed] /\
    has prod (TransactionalID txnID) /\ has prod (DefaultProduceTopic topic) /\
    has cons (ConsumeTopics topic) /\ has cons ReadCommitted /\ has cons (ConsumeResetOffset AtStart).

Lemma rc_main_earned : wp (rc_main getenv) (fun tr _ => tidy tr /\ rc_earned tr).
Proof.
  unfold rc_main. run. use open_txn_spec. intros ? [] (res1 & -> & Hr1). run.
  use open_txn_spec. intros ? [] (res2 & -> & Hr2). run. unfold lsoOffset, hwmOffset. run.
  use read_values_spec. intros t got (Ht & ->). unfold opened. run. conds. split; [tidy|].
  do 18 eexists. split; [cut_trace|]. split_and!.
  - unfold opened, asked. in_order.
  - done.
  - done.
  - done.
  - done.
  - unfold asked. in_order.
  - done.
  - done.
  - fetch. eassumption.
  - has_opt.
  - has_opt.
  - has_opt.
  - has_opt.
  - has_opt.
Qed.

End Main.
End TransactionsFacts.
