(* ===== verification/ExAdminFacts.v ===== *)
(** * What a PASS of the admin and security examples stands for *)

From ITree Require Import ITree.
From S2P Require Import Prelude GoStr Script KafkaClient KafkaFacts ExAdmin.
Local Open Scope string_scope.
Local Open Scope Z_scope.

Module TopicsLifecycleFacts.
Import TopicsLifecycle.
Section Main.
Context (getenv : string -> string).

Lemma waitPresent_spec ctx adm topic timeout : wp (waitPresent ctx adm topic timeout) (fun tr r => tidy tr /\
  (r.2 = true -> exists l, (ListTopics ctx adm >-> inr l) ∈ tr /\ Has l topic = true /\ r.1 = Partitions l topic)).
Proof.
  unfold waitPresent. run. apply (wp_iter (fun _ tr => tidy tr)); [done|]. intros [] acc Ht. run.
  - split; [tidy|]. intros _. exists g. split_and!; [in_trace|done|done].
  - split; [tidy|done].
  - tidy.
Qed.

Lemma waitGone_spec ctx adm topic timeout : wp (waitGone ctx adm topic timeout) (fun tr gone => tidy tr /\
  (gone = true -> exists l, (ListTopics ctx adm >-> inr l) ∈ tr /\ Has l topic = false)).
Proof.
  unfold waitGone. run. apply (wp_for_before (fun _ tr => tidy tr)); [done| |].
  - intros i acc now Ht _ _. run; conds.
    + split; [tidy|]. intros _. exists g. split; [in_trace|done].
    + tidy.
  - intros i acc tr Ht Htr. run. destruct Htr as [[? ?]|(now & _ & ->)]; [done|]. split; [tidy|done].
Qed.

(** The topic was listed after its creation and not after its deletion, brokers
    were advertised, and the reserved name was refused as such. *)
Definition earned (tr : trace) : Prop :=
  exists ctx adm topic l configs meta del l' e,
    sublist [ CreateTopic ctx adm 2 1 [("retention.ms", "3600000")] topic >-> None;
              ListTopics ctx adm >-> inr l;
              DescribeTopicConfigs ctx adm topic >-> inr (inr configs);
              BrokerMetadata ctx adm >-> inr meta;
              DeleteTopics ctx adm topic >-> inr del;
              ListTopics ctx adm >-> inr l';
              CreateTopic ctx adm 1 1 [] bad >-> Some e ] tr /\
    Has l topic = true /\ m_Brokers meta <> [] /\ Has l' topic = false /\ err_code e = InvalidTopicException.

Lemma lifecycle_earned : wp (main getenv) (fun tr _ => tidy tr /\ earned tr).
Proof.
  unfold main. run. use waitPresent_spec. intros t1 [np ok] [Ht1 Hs1]. run. conds. destruct Hs1 as (l1 & Hin1 & Hl1 & _); [done|].
  use waitGone_spec. intros t2 gone [Ht2 Hs2]. run. conds. destruct Hs2 as (l2 & Hin2 & Hl2); [done|].
  split; [tidy|]. do 9 eexists. split; [in_order|]. split_and!; try done.
  intros Hb. rewrite Hb in *. done.
Qed.

End Main.
End TopicsLifecycleFacts.

Module PartitionsAndConfigsFacts.
Import PartitionsAndConfigs.
Section Main.
Context (getenv : string -> string).

Lemma partitionCount_spec ctx adm topic : wp (partitionCount ctx adm topic) (fun tr n => tidy tr /\
  (n <> 0 -> exists l, (ListTopics ctx adm >-> inr l) ∈ tr /\ Partitions l topic = n)).
Proof.
  unfold partitionCount. run.
  apply (wp_for_before (fun n tr => tidy tr /\ (n <> 0 -> exists l, (ListTopics ctx adm >-> inr l) ∈ tr /\ Partitions l topic = n))).
  - done.
  - intros i acc now [Ht _] _ _. run; conds; (split; [tidy|]; intros _; exists g; split; [in_trace|done]).
  - intros i acc tr [Ht Hi] Htr. run. destruct Htr as [[? ?]|(now & _ & ->)]; [done|]. split; [tidy|].
    intros Hn. destruct (Hi Hn) as (l & Hin & Hl). exists l. split; [in_trace|done].
Qed.

(** The rejections INVALID_PARTITIONS, as a call's error or as the topic's. *)
Lemma expectInvalidPartitions_spec r : expectInvalidPartitions r = None ->
  exists e, (r.2 = Some e \/ r.2 = None /\ exists t, (t, Some e) ∈ r.1) /\ err_code e = InvalidPartitions.
Proof.
  unfold expectInvalidPartitions, errors_Is. destruct r as [resp [e|]]; cbn.
  - destruct (bool_decide _) eqn:E; [|done]. apply bool_decide_eq_true in E. eauto.
  - induction resp as [|[t [e|]] resp IH]; cbn; [done| |].
    + unfold errors_Is. destruct (bool_decide _) eqn:E; [|done]. apply bool_decide_eq_true in E. intros _.
      exists e. split; [|done]. right. split; [done|]. exists t. by left.
    + intros H. destruct (IH H) as (e & [?|[_ (t' & Hin)]] & He); [done|]. exists e. split; [|done].
      right. split; [done|]. exists t'. by right.
Qed.

Lemma readConfig_spec ctx adm topic key : wp (readConfig ctx adm topic key) (fun tr v => tidy tr /\
  exists cs, (DescribeTopicConfigs ctx adm topic >-> inr (inr cs)) ∈ tr /\ v = find_config cs key).
Proof. unfold readConfig. run. subst. split; [tidy|]. eexists. split; [in_trace|done]. Qed.

Lemma produceTo_spec ctx topic n : wp (produceTo getenv ctx topic n) (fun tr _ => tidy tr /\
  exists prod, has prod (DefaultProduceTopic topic) /\ has prod ManualPartitioner /\
    forall i, 0 <= i < n -> exists res, (ProduceSync ctx prod [value_record (d_value i)] >-> res) ∈ tr /\ FirstErr res = None).
Proof.
  unfold produceTo. run. use (wp_each_produce _ _ _ _ (fun i => value_record (d_value i))).
  { intros i. run. eauto. }
  intros tr [] (Ht & _ & Hp). run. split; [tidy|]. exists cl. split_and!; [has_opt|has_opt|].
  intros i Hi. destruct (Hp i) as (res & Hin & Hr); [by apply elem_of_seqZ|]. exists res. split; [in_trace|done].
Qed.

Lemma find_config_in cs key v : find_config cs key = v -> v <> "" -> mk_Config key (Some v) ∈ cs.
Proof.
  induction cs as [|[k [x|]] cs IH]; cbn; [congruence| |].
  - destruct (String.eqb k key) eqn:E; [|intros; right; by apply IH]. apply String.eqb_eq in E. intros. subst. by left.
  - intros. right. by apply IH.
Qed.

Definition rejected (r : list (string * option error) * option error) : Prop :=
  exists e, (r.2 = Some e \/ r.2 = None /\ exists t, (t, Some e) ∈ r.1) /\ err_code e = InvalidPartitions.

(** Three partitions after the increase, both other counts refused, the altered
    value readable, and the log starts at 3 after six records and the deletion below 3. *)
Definition earned (tr : trace) : Prop :=
  exists ctx adm topic prod up l down over cs starts tr1 tr2,
    tr = (tr1 ++ DeleteRecords ctx adm topic 0 3 >-> None :: tr2)%list /\
    sublist [ CreateTopic ctx adm 1 1 [] topic >-> None;
              UpdatePartitions ctx adm 3 topic >-> up;
              ListTopics ctx adm >-> inr l;
              UpdatePartitions ctx adm 2 topic >-> down;
              UpdatePartitions ctx adm 300 topic >-> over;
              AlterTopicConfigs ctx adm "retention.ms" "7200000" topic >-> None;
              DescribeTopicConfigs ctx adm topic >-> inr (inr cs) ] tr1 /\
    up.2 = None /\ Partitions l topic = 3 /\ rejected down /\ rejected over /\
    mk_Config "retention.ms" (Some "7200000") ∈ cs /\
    (forall i, 0 <= i < 6 -> exists res, (ProduceSync ctx prod [value_record (d_value i)] >-> res) ∈ tr1 /\ FirstErr res = None) /\
    (ListStartOffsets ctx adm topic >-> inr starts) ∈ tr2 /\ starts !! (topic, 0) = Some (mk_ListedOffset 3 None) /\
    has prod (DefaultProduceTopic topic) /\ has prod ManualPartitioner.

Lemma partitions_earned : wp (main getenv) (fun tr _ => tidy tr /\ earned tr).
Proof.
  unfold main. run. use partitionCount_spec. intros t1 n [Ht1 Hs1]. run. conds. subst n.
  destruct Hs1 as (l & Hin1 & Hl); [done|].
  use readConfig_spec. intros t2 v [Ht2 (cs & Hin2 & ->)]. run.
  use produceTo_spec. intros t3 [] (Ht3 & prod & Hprod & Hman & Hp). run. conds. split; [tidy|].
  apply Lookup_ok in Heqp as Hst; [|done|done].
  match goal with H : lo_Offset _ = 3 |- _ => rewrite H in * end.
  do 12 eexists. split; [cut_trace|]. split_and!.
  - in_order.
  - done.
  - done.
  - by apply expectInvalidPartitions_spec.
  - by apply expectInvalidPartitions_spec.
  - by apply find_config_in.
  - intros i Hi. destruct (Hp i Hi) as (res & Hin & Hr). exists res. split; [in_trace|done].
  - in_trace.
  - done.
  - done.
  - done.
Qed.

End Main.
End PartitionsAndConfigsFacts.

Module SaslPlainScramFacts.
Import SaslPlainScram.
Section Main.
Context (getenv : string -> string).

Lemma sasl_pollOne_spec ctx cl : wp (pollOne ctx cl) (fun tr r => tidy tr /\ first_polled ctx cl tr r).
Proof.
  unfold pollOne. run. use wp_poll_first.
  - intros u. run; (split; [tidy|]); [done|]. exists l. destruct x0. cbn in *; subst. in_trace.
  - intros tr r [Ht [more Hr]]. split; [tidy|]. exists more. in_trace.
Qed.

(** Without credentials nothing is asked of a broker. *)
Definition skipped : Prop := getenv "KAFKA_SASL_USER" = "" \/ getenv "KAFKA_SASL_PASS" = "".

(** The principal that must be refused was. *)
Definition denied (topic : string) (tr : trace) : Prop :=
  getenv "KAFKA_SASL_DENIED_USER" <> "" -> getenv "KAFKA_SASL_DENIED_PASS" <> "" ->
  exists ctx prod mech res e,
    mechanism (mech_name getenv) (getenv "KAFKA_SASL_DENIED_USER") (getenv "KAFKA_SASL_DENIED_PASS") = inr mech /\
    (ProduceSync ctx prod [value_record "nope"] >-> res) ∈ tr /\ has prod (SASL mech) /\ has prod (DefaultProduceTopic topic) /\
    FirstErr res = Some e /\ (err_code e = TopicAuthorizationFailed \/ err_code e = SaslAuthenticationFailed).

Definition earned (tr : trace) : Prop :=
  exists ctx mech topic adm prod cons res got more,
    mechanism (mech_name getenv) (getenv "KAFKA_SASL_USER") (getenv "KAFKA_SASL_PASS") = inr mech /\
    sublist [ CreateTopic ctx adm 1 1 [] topic >-> None;
              ProduceSync ctx prod [value_record body] >-> res;
              PollFetches ctx cons >-> mk_Fetches [] (got :: more) ] tr /\
    FirstErr res = None /\ r_Value got = body /\
    has adm (SASL mech) /\ has prod (SASL mech) /\ has prod (DefaultProduceTopic topic) /\
    has cons (SASL mech) /\ has cons (ConsumeTopics topic) /\
    denied topic tr.

Lemma denied_path_spec ctx topic : wp (denied_path getenv ctx topic (mech_name getenv)) (fun tr _ => tidy tr /\ denied topic tr).
Proof.
  unfold denied_path, denied. run; conds.
  - split; [tidy|]. intros _ _. do 5 eexists. split_and!; [done|in_trace|has_opt|has_opt|done|].
    match goal with H : _ && _ = false |- _ => apply andb_false_iff in H as [H|H] end; conds; auto.
  - split; [tidy|]. intros Hu Hp. apply String.eqb_neq in Hu, Hp. rewrite Hu, Hp in *. done.
Qed.

Lemma denied_mono topic tr tr' : sublist tr tr' -> denied topic tr -> denied topic tr'.
Proof.
  intros Hs Hd Hu Hp. destruct (Hd Hu Hp) as (ctx & prod & mech & res & e & Hm & Hin & H).
  exists ctx, prod, mech, res, e. split; [done|]. split; [by eapply elem_of_sublist|done].
Qed.

Lemma sasl_earned : wp (main getenv) (fun tr _ => tidy tr /\ (skipped \/ earned tr)).
Proof.
  unfold main. run.
  - split; [tidy|]. left. unfold skipped. apply orb_true_iff in Heqb as [Hb|Hb]; apply String.eqb_eq in Hb; auto.
  - use sasl_pollOne_spec. intros t1 got [Ht1 [more Hgot]]. run.
    use denied_path_spec. intros t2 [] [Ht2 Hd]. run. conds. split; [tidy|]. right.
    do 9 eexists. split_and!.
    + done.
    + in_order.
    + done.
    + done.
    + has_opt.
    + has_opt.
    + has_opt.
    + has_opt.
    + has_opt.
    + eapply denied_mono; [|exact Hd]. piece.
Qed.

End Main.
End SaslPlainScramFacts.
