(* ===== verification/ExRebalanceFacts.v ===== *)
(** * What a PASS of join-rebalance stands for

    Each thread obeys a monitor: main's says when it may touch the shared map and
    what it has checked, the pump's that it counts what it was delivered, in order
    and under the mutex.  The invariant of the process ties the monitors' states
    to the shared state and to the log. *)

From ITree Require Import ITree.
From S2P Require Import Prelude GoStr Script KafkaClient KafkaFacts ExRebalance.
Local Open Scope string_scope.
Local Open Scope Z_scope.

Notation "e +-> x" := (Ev (E := goE) (inr1 e) x) (at level 60).
Notation slog := (list (nat * @event goE)).

(** ** Traces and logs *)

(** The values counted, and the events of one thread. *)
Definition inc_ev (ev : @event goE) : list string :=
  match ev with
  | Ev e _ => match e with inr1 (Increment v) => [v] | _ => [] end
  end.
Definition increments (tr : trace) : list string := concat (map inc_ev tr).
Definition of_thread (i : nat) (l : slog) : trace :=
  concat (map (fun p => if decide (p.1 = i) then [p.2] else []) l).
Definition occurrences (v : string) (l : list string) : Z := Z.of_nat (length (base.filter (fun w => w = v) l)).

Lemma counted_app tr tr' : increments (tr ++ tr') = (increments tr ++ increments tr')%list.
Proof. unfold increments. by rewrite map_app, concat_app. Qed.
Lemma of_thread_app i l l' : of_thread i (l ++ l') = (of_thread i l ++ of_thread i l')%list.
Proof. unfold of_thread. by rewrite map_app, concat_app. Qed.
Lemma of_thread_self i ev : of_thread i [(i, ev)] = [ev].
Proof. unfold of_thread. cbn. by rewrite decide_True. Qed.
Lemma of_thread_other i j ev : i <> j -> of_thread i [(j, ev)] = [].
Proof. intros H. unfold of_thread. cbn. by rewrite decide_False by congruence. Qed.

Lemma elem_of_thread i ev l : ev ∈ of_thread i l <-> (i, ev) ∈ l.
Proof.
  induction l as [|[j ev'] l IH]; [by rewrite !elem_of_nil|].
  change ((j, ev') :: l) with ([(j, ev')] ++ l)%list at 1.
  rewrite of_thread_app, elem_of_app, IH, elem_of_cons. destruct (decide (i = j)) as [->|Hne].
  - rewrite of_thread_self, list_elem_of_singleton. naive_solver.
  - rewrite of_thread_other by done. rewrite elem_of_nil. naive_solver.
Qed.

(** ** The pump *)

Record pst := mk_pst { p_locked : bool; p_pending : list string; p_done : bool }.

(** It polls with nothing left to count, counts under the mutex what the poll
    delivered and nothing else, and does nothing after Done. *)
Definition pump_mon (p : pst) (ev : @event goE) : option pst :=
  let '(mk_pst locked pending done) := p in
  if done then None else
  match ev with
  | Ev e x =>
    match e with
    | inl1 e =>
      match e in clientE X return X -> option pst with
      | PollFetches _ _ => fun fs =>
          match pending with [] => Some (mk_pst locked (if clean fs then map r_Value (f_records fs) else []) false) | _ => None end
      | _ => fun _ => Some p
      end x
    | inr1 e =>
      match e with
      | Lock => if locked then None else Some (mk_pst true pending false)
      | Unlock => if locked then Some (mk_pst false pending false) else None
      | Increment v =>
        match pending with
        | w :: pending => if locked && bool_decide (v = w) then Some (mk_pst true pending false) else None
        | [] => None
        end
      | IsClosed _ => Some p
      | WgDone => if locked then None else match pending with [] => Some (mk_pst false [] true) | _ => None end
      | _ => None
      end
    end
  end.

Definition p_start : pst := mk_pst false [] false.

Lemma obeys_increments recs : obeys pump_mon (mk_pst true (map r_Value recs) false)
  (each recs (fun r => sync (Increment (r_Value r)))) (fun p _ => p = mk_pst true [] false).
Proof.
  induction recs as [|r recs IH]; cbn [each map]; [by apply obeys_ret|].
  apply obeys_bind, obeys_event. intros []. cbn. rewrite bool_decide_eq_true_2 by done. eexists. split; [done|exact IH].
Qed.

(** Down the program; loops and closures are lemmas. *)
Ltac ob :=
  repeat (lazymatch goal with
  | |- obeys _ _ (Ret _) _ => apply obeys_ret
  | |- obeys _ _ (ITree.bind _ _) _ => apply obeys_bind
  | |- obeys _ _ (call (Fatal _)) _ => apply obeys_event; intros []
  | |- obeys _ _ (call _) _ => apply obeys_event; intros ?; eexists; split; [reflexivity|]
  | |- obeys _ _ (sync _) _ => apply obeys_event; intros ?; eexists; split; [reflexivity|]
  | |- obeys _ _ (fatal _) _ => unfold fatal
  | |- obeys _ _ (must _ _) _ => unfold must
  | |- obeys _ _ (check _ _) _ => unfold check
  | |- obeys _ _ (fail_if _ _) _ => unfold fail_if
  | |- obeys _ _ (match ?x with _ => _ end) _ => destruct x eqn:?
  end; cbv beta iota).

Lemma obeys_pump ctx cl stop : obeys pump_mon p_start (pump ctx cl stop) (fun p _ => p_done p = true).
Proof.
  apply (obeys_iter _ (fun _ p => p = p_start)); [done|]. intros [] p ->. unfold p_start. ob; try done.
  - by destruct (clean x0).
  - unfold record. ob. rewrite clean_true by done.
    eapply obeys_mono; [apply (obeys_increments (r :: l))|]. intros p [] ->. ob; done.
  - by erewrite clean_false.
Qed.

(** ** main *)

Record mst := mk_mst { m_locked : bool; m_added : bool; m_gos : nat; m_waited : bool; m_seen : list string; m_made : list string }.

(** It starts two pumps after announcing two, looks at the size of the map under
    the mutex and at its counts only after the wait group; [m_seen] are the values
    found counted, [m_made] the values produced. *)
Definition main_mon (m : mst) (ev : @event goE) : option mst :=
  let '(mk_mst locked added gos waited seen made) := m in
  match ev with
  | Ev e x =>
    match e with
    | inl1 e =>
      match e in clientE X return X -> option mst with
      | PollFetches _ _ => fun _ => None
      | ProduceSync _ _ rs => fun res =>
          Some (mk_mst locked added gos waited seen
                  (match FirstErr res with None => map r_Value rs ++ made | Some _ => made end)%list)
      | _ => fun _ => Some m
      end x
    | inr1 e =>
      match e in syncE X return X -> option mst with
      | Lock => fun _ => if locked then None else Some (mk_mst true added gos waited seen made)
      | Unlock => fun _ => if locked then Some (mk_mst false added gos waited seen made) else None
      | MapLen => fun _ => if locked then Some m else None
      | Count v => fun n => if waited then Some (mk_mst locked added gos waited (if n =? 0 then seen else v :: seen) made) else None
      | WgAdd n => fun _ => if added || negb (n =? 2) then None else Some (mk_mst locked true gos waited seen made)
      | Go _ _ _ => fun _ => if added && (gos <? 2)%nat then Some (mk_mst locked added (S gos) waited seen made) else None
      | WgWait => fun _ => if (gos =? 2)%nat then Some (mk_mst locked added gos true seen made) else None
      | CloseChan _ => fun _ => Some m
      | Increment _ | WgDone | IsClosed _ => fun _ => None
      end x
    end
  end.

Definition m_start : mst := mk_mst false false 0 false [] [].

Section Main.
Context (getenv : string -> string).

Lemma obeys_produce ctx prod l a g w seen : forall made,
  obeys main_mon (mk_mst false a g w seen made) (each l (produce_one ctx prod))
    (fun m _ => exists made', m = mk_mst false a g w seen made' /\ (forall v, v ∈ made -> v ∈ made') /\
       forall i, i ∈ l -> msg_value i ∈ made').
Proof.
  induction l as [|i l IH]; intros made; cbn [each].
  - ob. exists made. split_and!; [done|done|]. intros i Hi. by apply elem_of_nil in Hi.
  - unfold produce_one. ob.
    eapply obeys_mono; [apply IH|]. intros m [] (made' & -> & H1 & H2). exists made'. split_and!; [done|set_solver|].
    intros j [->|Hj]%elem_of_cons; [set_solver|by apply H2].
Qed.

Lemma obeys_at_least n a g w seen made :
  obeys main_mon (mk_mst false a g w seen made) (at_least n) (fun m _ => m = mk_mst false a g w seen made).
Proof. unfold at_least, total. ob. done. Qed.

Lemma obeys_waitFor n t a g w seen made :
  obeys main_mon (mk_mst false a g w seen made) (waitFor (at_least n) t) (fun m _ => m = mk_mst false a g w seen made).
Proof.
  unfold waitFor, for_before, forever. ob.
  apply (obeys_iter _ (fun _ m => m = mk_mst false a g w seen made)); [done|]. intros [] m ->.
  ob; (eapply obeys_mono; [apply obeys_at_least|]); intros m b ->; ob; done.
Qed.

Lemma obeys_counts l a g made : forall seen,
  obeys main_mon (mk_mst false a g true seen made)
    (each l (fun v => ITree.bind (sync (Count v)) (fun n => fail_if (n =? 0) "FAIL: record %q was never delivered (lost across rebalance)")))
    (fun m _ => exists seen', m = mk_mst false a g true seen' made /\ (forall v, v ∈ seen -> v ∈ seen') /\ forall v, v ∈ l -> v ∈ seen').
Proof.
  induction l as [|v l IH]; intros seen; cbn [each].
  - ob. exists seen. split_and!; [done|done|]. intros v Hv. by apply elem_of_nil in Hv.
  - ob. eapply obeys_mono; [apply IH|]. intros m [] (seen' & -> & H1 & H2).
    exists seen'. split_and!; [done|set_solver|]. intros w [->|Hw]%elem_of_cons; [set_solver|by apply H2].
Qed.

Definition m_post (m : mst) : Prop :=
  (forall v, v ∈ want -> v ∈ m_seen m) /\ forall i, 0 <= i < totalRecs -> msg_value i ∈ m_made m.

Lemma obeys_main : obeys main_mon m_start (main getenv) (fun m _ => m_post m).
Proof.
  unfold main, m_start, Banner, Topic, Admin, New, newMember, New, tear_down, total. cbv zeta. ob.
  eapply obeys_mono; [apply obeys_produce|]. intros m [] (made & -> & _ & Hmade). ob.
  eapply obeys_mono; [apply obeys_waitFor|]. intros m b ->. ob.
  all: eapply obeys_mono; [apply obeys_waitFor|]; intros m b' ->; ob.
  all: eapply obeys_mono; [apply obeys_counts|]; intros m [] (seen & -> & _ & Hseen); ob.
  all: split; cbn; [intros v Hv; by apply Hseen, elem_of_elements|intros i Hi; by apply Hmade, elem_of_seqZ].
Qed.


(** ** The process *)

Definition bit (b : bool) : Z := if b then 1 else 0.
Fixpoint num (f : pst -> bool) (ps : list pst) : Z :=
  match ps with [] => 0 | p :: ps => bit (f p) + num f ps end.

Lemma num_app f ps ps' : num f (ps ++ ps') = num f ps + num f ps'.
Proof. induction ps as [|p ps IH]; cbn [num app]; lia. Qed.

Lemma num_insert f ps i p p' : ps !! i = Some p -> num f (<[i := p']> ps) = num f ps - bit (f p) + bit (f p').
Proof.
  revert i. induction ps as [|q ps IH]; intros [|i] Hi; cbn in Hi; try done.
  - injection Hi as ->. change (<[0%nat := p']> (p :: ps)) with (p' :: ps). cbn [num]. lia.
  - change (<[S i := p']> (q :: ps)) with (q :: <[i := p']> ps). cbn [num]. specialize (IH i Hi). lia.
Qed.

Lemma num_bound f ps : 0 <= num f ps <= Z.of_nat (length ps).
Proof. induction ps as [|p ps IH]; cbn [num length]; [lia|]. unfold bit. destruct (f p); lia. Qed.

Lemma num_lookup f ps i p : ps !! i = Some p -> bit (f p) <= num f ps.
Proof.
  revert i. induction ps as [|q ps IH]; intros [|i] Hi; cbn in Hi; try done; cbn [num].
  - injection Hi as ->. pose proof (num_bound f ps). lia.
  - specialize (IH i Hi). unfold bit in *. destruct (f q); lia.
Qed.

Lemma num_all f ps i p : num f ps = Z.of_nat (length ps) -> ps !! i = Some p -> f p = true.
Proof.
  revert i. induction ps as [|q ps IH]; intros i Hn Hi; [done|]. cbn [num length] in Hn.
  pose proof (num_bound f ps). unfold bit in Hn. destruct (f q) eqn:E; [|lia].
  destruct i as [|i]; cbn in Hi; [by injection Hi as <-|]. apply (IH i); [lia|done].
Qed.

Definition log_increments (l : slog) : list string := increments (map snd l).

Definition announced (m : mst) : Z := if m_added m then 2 else 0.

(** What the monitors' states say of the shared state and of the log. *)
Record agrees (m : mst) (ps : list pst) (sh : shared) (l : slog) : Prop := mk_agrees {
  g_got : forall v, default 0 (sh_got sh !! v) = occurrences v (log_increments l);
  g_lock : bit (sh_lock sh) = bit (m_locked m) + num p_locked ps;
  g_wg : sh_wg sh = announced m - num p_done ps;
  g_gos : length ps = m_gos m;
  g_added : (0 < m_gos m)%nat -> m_added m = true;
  g_waited : m_waited m = true -> m_gos m = 2%nat /\ num p_done ps = Z.of_nat (length ps);
  g_seen : forall v, v ∈ m_seen m -> v ∈ log_increments l
}.

Lemma log_increments_snoc l i ev : log_increments (l ++ [(i, ev)]) = (log_increments l ++ inc_ev ev)%list.
Proof. unfold log_increments. rewrite map_app, counted_app. unfold increments at 2. cbn. by rewrite app_nil_r. Qed.

Lemma occurrences_app v l l' : occurrences v (l ++ l') = occurrences v l + occurrences v l'.
Proof. unfold occurrences. rewrite filter_app, length_app. lia. Qed.

Lemma occurrences_in v l : occurrences v l <> 0 -> v ∈ l.
Proof.
  unfold occurrences. intros H. destruct (base.filter (fun w => w = v) l) as [|w l'] eqn:E; [done|].
  assert (Hw : w ∈ base.filter (fun w => w = v) l) by (rewrite E; left). by apply list_elem_of_filter in Hw as [-> ?].
Qed.

(** No call of the client touches any of this. *)
Lemma agrees_call_main m ps sh l {X} (e : clientE X) x m' : agrees m ps sh l ->
  main_mon m (Ev (inl1 e) x) = Some m' -> agrees m' ps sh (l ++ [(0%nat, Ev (inl1 e) x)]).
Proof.
  intros H Hm.
  assert (Hsame : m_locked m' = m_locked m /\ m_added m' = m_added m /\ m_gos m' = m_gos m /\
                  m_waited m' = m_waited m /\ m_seen m' = m_seen m).
  { destruct m, e; cbn in Hm; simplify_eq; done. }
  destruct Hsame as (E1 & E2 & E3 & E4 & E5). destruct H. unfold announced in *.
  split; unfold announced; rewrite ?log_increments_snoc, ?app_nil_r, ?E1, ?E2, ?E3, ?E4, ?E5; cbn [inc_ev]; rewrite ?app_nil_r; done.
Qed.

Lemma agrees_call_pump m ps sh l i p {X} (e : clientE X) x p' : agrees m ps sh l -> ps !! i = Some p ->
  pump_mon p (Ev (inl1 e) x) = Some p' -> agrees m (<[i := p']> ps) sh (l ++ [(S i, Ev (inl1 e) x)]).
Proof.
  intros H Hi Hp.
  assert (Hsame : p_locked p' = p_locked p /\ p_done p' = p_done p).
  { destruct p as [lk [|w pe] []], e; cbn in Hp; simplify_eq; done. }
  destruct Hsame as [E1 E2]. destruct H.
  split; rewrite ?log_increments_snoc; cbn [inc_ev]; rewrite ?app_nil_r, ?(num_insert _ _ _ _ _ Hi), ?length_insert, ?E1, ?E2; try done.
  - lia.
  - lia.
  - intros Hw. destruct (g_waited0 Hw). split; [done|lia].
Qed.

(** main synchronises: a started pump joins with an empty state. *)
Lemma agrees_sync_main m ps sh l {X} (e : syncE X) x m' sh' : agrees m ps sh l ->
  main_mon m (Ev (inr1 e) x) = Some m' -> sync_do e sh = Some (x, sh') ->
  agrees m' (ps ++ match e with Go _ _ _ => [p_start] | _ => [] end)%list sh' (l ++ [(0%nat, Ev (inr1 e) x)]).
Proof.
  intros [] Hm Hs. unfold announced in *. destruct m as [lk ad gos wt seen made], sh as [lock got closed wg]; cbn in *.
  destruct e; cbn in Hm, Hs; repeat case_match; simplify_eq;
    split; unfold announced; cbn; rewrite ?log_increments_snoc, ?app_nil_r; cbn [inc_ev]; rewrite ?app_nil_r, ?num_app, ?length_app; cbn [num bit length p_start p_locked p_done];
    try done; try lia.
  - intros v [->|Hv]%elem_of_cons; [|by apply g_seen0]. zify_bool. by apply occurrences_in; rewrite <- g_got0.
  - intros _. apply Nat.eqb_eq in H0. zify_bool. split; [done|lia].
  - apply Nat.eqb_eq in H0. discriminate g_added0. lia.
  - intros Hw. destruct (g_waited0 Hw) as [E _]. by rewrite E in H.
Qed.

(** A pump synchronises. *)
Lemma agrees_sync_pump m ps sh l i p {X} (e : syncE X) x p' sh' : agrees m ps sh l -> ps !! i = Some p ->
  pump_mon p (Ev (inr1 e) x) = Some p' -> sync_do e sh = Some (x, sh') ->
  agrees m (<[i := p']> ps) sh' (l ++ [(S i, Ev (inr1 e) x)]).
Proof.
  intros [] Hi Hp Hs.
  assert (Hw : m_waited m = true -> p_done p = true).
  { intros Hw. destruct (g_waited0 Hw) as [_ Hn]. by eapply num_all. }
  assert (Hd : p_done p = false) by (destruct p as [? ? []]; [done|done]).
  destruct p as [lk pe dn], sh as [lock got closed wg]; cbn in *; subst dn.
  assert (Hnw : m_waited m = false) by (destruct (m_waited m); [by specialize (Hw eq_refl)|done]). clear Hw.
  destruct e; cbn in Hp, Hs; repeat case_match; simplify_eq;
    repeat match goal with H : _ && _ = true |- _ => apply andb_true_iff in H as [-> H]; apply bool_decide_eq_true in H as -> end;
    split; cbn; rewrite ?log_increments_snoc, ?(num_insert _ _ _ _ _ Hi), ?length_insert; cbn [inc_ev p_locked p_done bit] in *;
    rewrite ?app_nil_r; try done; try lia; try (by rewrite Hnw).
  - intros v. rewrite occurrences_app, <- g_got0. unfold occurrences. cbn. destruct (decide (s = v)) as [->|Hne].
    + rewrite lookup_insert_eq. cbn. lia.
    + rewrite lookup_insert_ne by done. cbn. lia.
  - intros v Hv. apply elem_of_app. left. by apply g_seen0.
Qed.

(** Every thread obeys its monitor from where its part of the log has brought it. *)
Definition main_at (m : mst) (s : sys) : Prop := exists t,
  s_threads s !! 0%nat = Some t /\ track main_mon m_start (of_thread 0 (s_log s)) = Some m /\
  obeys main_mon m t (fun m _ => m_post m).
Definition pump_at (i : nat) (p : pst) (s : sys) : Prop := exists t,
  s_threads s !! S i = Some t /\ track pump_mon p_start (of_thread (S i) (s_log s)) = Some p /\
  obeys pump_mon p t (fun p _ => p_done p = true).

Record sound (m : mst) (ps : list pst) (s : sys) : Prop := mk_sound {
  d_main : main_at m s;
  d_pumps : forall i p, ps !! i = Some p -> pump_at i p s;
  d_len : length (s_threads s) = S (length ps);
  d_log : forall i ev, (i, ev) ∈ s_log s -> (i < length (s_threads s))%nat;
  d_agrees : agrees m ps (s_shared s) (s_log s)
}.

Lemma track_snoc {M} (mon : M -> @event goE -> option M) m0 tr m ev m' :
  track mon m0 tr = Some m -> mon m ev = Some m' -> track mon m0 (tr ++ [ev]) = Some m'.
Proof. intros Ht Hm. rewrite (track_app _ _ _ _ _ Ht). cbn. by rewrite Hm. Qed.

Lemma of_thread_snoc_self i l ev : of_thread i (l ++ [(i, ev)]) = (of_thread i l ++ [ev])%list.
Proof. by rewrite of_thread_app, of_thread_self. Qed.
Lemma of_thread_snoc_other i j l ev : i <> j -> of_thread i (l ++ [(j, ev)]) = of_thread i l.
Proof. intros H. by rewrite of_thread_app, of_thread_other, app_nil_r. Qed.

(** What another thread does leaves one where it was. *)
Lemma main_at_other m i t new ts sh sh' l l' : i <> 0%nat -> main_at m (mk_sys ts sh l) ->
  of_thread 0 l' = of_thread 0 l -> main_at m (mk_sys (<[i := t]> ts ++ new) sh' l').
Proof.
  intros Hi (t0 & H0 & Ht & Ho) Hl. exists t0. cbn -[of_thread] in *. rewrite Hl. split_and!; [|done|done].
  apply lookup_app_l_Some. by rewrite list_lookup_insert_ne.
Qed.

Lemma pump_at_other p j i t new ts sh sh' l l' : i <> S j -> pump_at j p (mk_sys ts sh l) ->
  of_thread (S j) l' = of_thread (S j) l -> pump_at j p (mk_sys (<[i := t]> ts ++ new) sh' l').
Proof.
  intros Hi (t0 & H0 & Ht & Ho) Hl. exists t0. cbn -[of_thread] in *. rewrite Hl. split_and!; [|done|done].
  apply lookup_app_l_Some. by rewrite list_lookup_insert_ne.
Qed.

(** The thread that moves goes on obeying. *)
Lemma main_at_self {X} (e : goE X) x m m' t (k : X -> prog unit) new ts sh sh' l : main_at m (mk_sys ts sh l) -> ts !! 0%nat = Some t ->
  observe t = VisF e k -> main_mon m (Ev e x) = Some m' ->
  main_at m' (mk_sys (<[0%nat := k x]> ts ++ new) sh' (l ++ [(0%nat, Ev e x)])).
Proof.
  intros (t0 & H0 & Ht & Ho) Hi Hv Hm. cbn -[of_thread pump_mon main_mon] in *. rewrite Hi in H0. injection H0 as <-.
  destruct (obeys_vis _ _ _ _ _ _ x Hv Ho) as (m1 & H1 & Hk). rewrite Hm in H1. injection H1 as <-.
  exists (k x). cbn -[of_thread]. split_and!; [|rewrite of_thread_snoc_self; by eapply track_snoc|done].
  apply lookup_app_l_Some, list_lookup_insert_eq. by eapply lookup_lt_Some.
Qed.

Lemma pump_at_self {X} (e : goE X) x i p p' t (k : X -> prog unit) new ts sh sh' l : pump_at i p (mk_sys ts sh l) -> ts !! S i = Some t ->
  observe t = VisF e k -> pump_mon p (Ev e x) = Some p' ->
  pump_at i p' (mk_sys (<[S i := k x]> ts ++ new) sh' (l ++ [(S i, Ev e x)])).
Proof.
  intros (t0 & H0 & Ht & Ho) Hi Hv Hm. cbn -[of_thread pump_mon main_mon] in *. rewrite Hi in H0. injection H0 as <-.
  destruct (obeys_vis _ _ _ _ _ _ x Hv Ho) as (m1 & H1 & Hk). rewrite Hm in H1. injection H1 as <-.
  exists (k x). cbn -[of_thread]. split_and!; [|rewrite of_thread_snoc_self; by eapply track_snoc|done].
  apply lookup_app_l_Some, list_lookup_insert_eq. by eapply lookup_lt_Some.
Qed.

Lemma of_thread_fresh i l : (forall j ev, (j, ev) ∈ l -> (j < i)%nat) -> of_thread i l = [].
Proof.
  induction l as [|[j ev] l IH]; intros H; [done|].
  change ((j, ev) :: l) with ([(j, ev)] ++ l)%list. rewrite of_thread_app, IH.
  - rewrite of_thread_other; [done|]. intros ->. specialize (H j ev ltac:(left)). lia.
  - intros j' ev' Hin. eapply H. by right.
Qed.

(** Threads and log lines up, whoever moved. *)
Lemma sound_log i l n m : (i < n)%nat -> (n <= m)%nat ->
  (forall j ev, (j, ev) ∈ l -> (j < n)%nat) -> forall ev' j ev, (j, ev) ∈ (l ++ [(i, ev')] : slog)%list -> (j < m)%nat.
Proof.
  intros Hi Hm H ev' j ev [Hj|Hj]%elem_of_app; [specialize (H _ _ Hj); lia|].
  apply list_elem_of_singleton in Hj as [= -> _]. lia.
Qed.

Lemma sound_main_moves {X} (e : goE X) x m m' ps ps' ts sh sh' l t (k : X -> prog unit) new :
  sound m ps (mk_sys ts sh l) -> ts !! 0%nat = Some t -> observe t = VisF e k -> main_mon m (Ev e x) = Some m' ->
  agrees m' (ps ++ ps') sh' (l ++ [(0%nat, Ev e x)]) ->
  (new = [] /\ ps' = [] \/ exists cl stop, new = [pump main_ctx cl stop] /\ ps' = [p_start]) ->
  sound m' (ps ++ ps') (mk_sys (<[0%nat := k x]> ts ++ new) sh' (l ++ [(0%nat, Ev e x)])).
Proof.
  intros [] Hi Hv Hm Hag Hnew. cbn in *.
  assert (Hlen : length new = length ps') by (destruct Hnew as [[-> ->]|(? & ? & -> & ->)]; done).
  split; cbn.
  - by eapply main_at_self.
  - intros j p [Hj|[Hge Hj]]%lookup_app_Some.
    + eapply pump_at_other; [done|by apply d_pumps0|by apply of_thread_snoc_other].
    + destruct Hnew as [[-> ->]|(cl & stop & -> & ->)]; [done|]. apply list_lookup_singleton_Some in Hj as [Hj <-].
      assert (E : j = length ps) by lia. exists (pump main_ctx cl stop). cbn -[of_thread]. split_and!.
      * rewrite lookup_app_r by (rewrite length_insert; lia). rewrite length_insert, d_len0, E, Nat.sub_diag. done.
      * rewrite of_thread_snoc_other by done. rewrite of_thread_fresh; [done|]. intros j' ev Hin. specialize (d_log0 _ _ Hin). lia.
      * apply obeys_pump.
  - rewrite !length_app, length_insert. lia.
  - intros j ev. eapply (sound_log 0 l (length ts)); [lia| |done]. rewrite length_app, length_insert. lia.
  - done.
Qed.

Lemma sound_pump_moves {X} (e : goE X) x i p p' m ps ts sh sh' l t (k : X -> prog unit) :
  sound m ps (mk_sys ts sh l) -> ts !! S i = Some t -> ps !! i = Some p -> observe t = VisF e k ->
  pump_mon p (Ev e x) = Some p' -> agrees m (<[i := p']> ps) sh' (l ++ [(S i, Ev e x)]) ->
  sound m (<[i := p']> ps) (mk_sys (<[S i := k x]> ts) sh' (l ++ [(S i, Ev e x)])).
Proof.
  intros [] Hi Hp Hv Hm Hag. cbn in *. rewrite <- (app_nil_r (<[S i := k x]> ts)).
  split; cbn.
  - eapply main_at_other; [done|done|by apply of_thread_snoc_other].
  - intros j q Hj. destruct (decide (i = j)) as [->|Hne].
    + rewrite list_lookup_insert_eq in Hj by (by eapply lookup_lt_Some). injection Hj as <-.
      eapply pump_at_self; [by apply d_pumps0|done|done|done].
    + rewrite list_lookup_insert_ne in Hj by done.
      eapply pump_at_other; [congruence|by apply d_pumps0|apply of_thread_snoc_other; congruence].
  - by rewrite app_nil_r, !length_insert.
  - intros j ev. apply (sound_log (S i) l (length ts)); [by eapply lookup_lt_Some| |done]. rewrite app_nil_r, length_insert. lia.
  - done.
Qed.

Lemma sound_main m ps s t : sound m ps s -> s_threads s !! 0%nat = Some t -> obeys main_mon m t (fun m _ => m_post m).
Proof. intros [(t0 & H0 & _ & Ho) _ _ _ _] Hi. rewrite Hi in H0. by injection H0 as <-. Qed.

Lemma sound_pump m ps s i t : sound m ps s -> s_threads s !! S i = Some t ->
  exists p, ps !! i = Some p /\ obeys pump_mon p t (fun p _ => p_done p = true).
Proof.
  intros [_ Hp Hl _ _] Hi. destruct (lookup_lt_is_Some_2 ps i) as [p Hpi].
  { apply lookup_lt_Some in Hi. lia. }
  destruct (Hp i p Hpi) as (t0 & H0 & _ & Ho). rewrite Hi in H0. injection H0 as <-. eauto.
Qed.

Lemma sound_tau m ps ts sh l i t t' : sound m ps (mk_sys ts sh l) -> ts !! i = Some t -> observe t = TauF t' ->
  sound m ps (mk_sys (<[i := t']> ts) sh l).
Proof.
  intros [] Hi Ho. cbn in *. split; cbn; [| |by rewrite length_insert|by intros; rewrite length_insert; eapply d_log0|done].
  - destruct d_main0 as (t0 & H0 & Ht & Hob). destruct i as [|i]; rewrite <- (app_nil_r (<[_ := t']> ts)).
    + cbn in H0. rewrite Hi in H0. injection H0 as <-. exists t'. rewrite app_nil_r.
      split_and!; [apply list_lookup_insert_eq; by eapply lookup_lt_Some|done|by eapply obeys_tau].
    + eapply main_at_other; [done|by exists t0|done].
  - intros j p Hj. destruct (d_pumps0 j p Hj) as (t0 & H0 & Ht & Hob). destruct (decide (i = S j)) as [->|Hne].
    + cbn in H0. rewrite Hi in H0. injection H0 as <-. exists t'.
      split_and!; [apply list_lookup_insert_eq; by eapply lookup_lt_Some|done|by eapply obeys_tau].
    + rewrite <- (app_nil_r (<[_ := t']> ts)). eapply pump_at_other; [done|by exists t0|done].
Qed.

Lemma sound_step m ps s s' : sound m ps s -> step s s' -> exists m' ps', sound m' ps' s'.
Proof.
  intros Hs Hstep. destruct Hstep as [ts sh l i t t' Hi Ho|ts sh l i t X e k x Hi Ho|ts sh l i t X e k x sh' Hi Ho Hdo].
  - exists m, ps. by eapply sound_tau.
  - destruct i as [|i].
    + destruct (obeys_vis _ _ _ _ _ _ x Ho (sound_main _ _ _ _ Hs Hi)) as (m' & Hm & _).
      exists m', (ps ++ [])%list. rewrite <- (app_nil_r (<[_ := k x]> ts)).
      eapply sound_main_moves; [done|done|done|done| |by left]. rewrite app_nil_r. eapply agrees_call_main; [apply Hs|done].
    + destruct (sound_pump _ _ _ _ _ Hs Hi) as (p & Hp & Hob).
      destruct (obeys_vis _ _ _ _ _ _ x Ho Hob) as (p' & Hm & _).
      exists m, (<[i := p']> ps). eapply sound_pump_moves; [done|done|done|done|done|]. eapply agrees_call_pump; [apply Hs|done|done].
  - destruct i as [|i].
    + destruct (obeys_vis _ _ _ _ _ _ x Ho (sound_main _ _ _ _ Hs Hi)) as (m' & Hm & _).
      eexists m', (ps ++ _)%list. eapply sound_main_moves; [done|done|done|done| |].
      * eapply agrees_sync_main; [apply Hs|done|done].
      * destruct e; cbn; eauto.
    + destruct (sound_pump _ _ _ _ _ Hs Hi) as (p & Hp & Hob).
      destruct (obeys_vis _ _ _ _ _ _ x Ho Hob) as (p' & Hm & _).
      assert (Hnew : spawned e = []) by (destruct p as [? ? []], e; done). rewrite Hnew, app_nil_r.
      exists m, (<[i := p']> ps). eapply sound_pump_moves; [done|done|done|done|done|].
      eapply agrees_sync_pump; [apply Hs|done|done|done].
Qed.

Lemma sound_start : sound m_start [] (start getenv).
Proof.
  split; cbn; [|done|done|intros i ev Hin; by apply elem_of_nil in Hin|].
  - exists (main getenv). split_and!; [done|done|apply obeys_main].
  - split; cbn; try done. lia.
Qed.

Lemma sound_reachable s : reachable getenv s -> exists m ps, sound m ps s.
Proof.
  revert s. refine (rtc_ind_r _ _ _ _).
  - exists m_start, []. apply sound_start.
  - intros s s' _ Hstep (m & ps & Hs). by eapply sound_step.
Qed.

(** ** What the monitors say of a trace *)

(** A pump has counted what it was delivered, up to what is left of the last poll. *)
Lemma pump_counts tr : forall p p', track pump_mon p tr = Some p' ->
  (p_pending p ++ map r_Value (delivered (fun _ => true) tr) = increments tr ++ p_pending p')%list.
Proof.
  induction tr as [|[X e x] tr IH]; intros p p' Ht; [by injection Ht as ->; rewrite app_nil_r|].
  cbn [track] in Ht. destruct (pump_mon p (Ev e x)) as [q|] eqn:Ep; [|done]. specialize (IH q p' Ht).
  destruct p as [lk pe []]; [done|].
  destruct e as [e|e]; destruct e; cbn in Ep; try done; try (injection Ep as <-; exact IH).
  - destruct pe; [|done]. injection Ep as <-. rewrite delivered_poll by done. rewrite map_app. by destruct (clean x).
  - destruct lk; [done|]. injection Ep as <-. exact IH.
  - destruct lk; [|done]. injection Ep as <-. exact IH.
  - destruct pe as [|w pe]; [done|]. destruct (lk && _) eqn:E; [|done]. injection Ep as <-.
    apply andb_true_iff in E as [_ ->%bool_decide_eq_true]. cbn [p_pending app] in *.
    change (increments (Increment w +-> x :: tr)) with (w :: increments tr). cbn [app]. by rewrite <- IH.
  - destruct lk; [done|]. destruct pe; [|done]. injection Ep as <-. exact IH.
Qed.

(** main has counted nothing and made what it says. *)
Lemma main_counts tr : forall m m', track main_mon m tr = Some m' -> increments tr = [] /\
  forall v, v ∈ m_made m' -> v ∈ m_made m \/ exists ctx cl rs res,
    (ProduceSync ctx cl rs >-> res) ∈ tr /\ FirstErr res = None /\ v ∈ map r_Value rs.
Proof.
  induction tr as [|[X e x] tr IH]; intros m m' Ht; [by injection Ht as ->; auto|].
  cbn [track] in Ht. destruct (main_mon m (Ev e x)) as [q|] eqn:Eq; [|done]. destruct (IH q m' Ht) as [Hi Hmade].
  assert (Hinc : inc_ev (Ev e x) = []).
  { destruct m, e as [e|e]; [done|]. by destruct e. }
  split; [change (increments (Ev e x :: tr)) with (inc_ev (Ev e x) ++ increments tr)%list; by rewrite Hinc, Hi|].
  intros v Hv. destruct (Hmade v Hv) as [Hq|(ctx & cl & rs & res & Hin & Hr)]; [|right; exists ctx, cl, rs, res; split; [by right|done]].
  destruct m as [lk ad gos wt seen made], e as [e|e]; destruct e; cbn in Eq; repeat case_match; simplify_eq; cbn in Hq; auto.
  apply elem_of_app in Hq as [Hq|Hq]; [|by left]. right. exists ctx, cl, rs, x. split; [left|done].
Qed.

Lemma delivered_in sel tr r : r ∈ delivered sel tr ->
  exists ctx cl fs, (PollFetches ctx cl >-> fs) ∈ tr /\ f_Errors fs = [] /\ r ∈ f_records fs.
Proof.
  induction tr as [|ev tr IH]; intros Hr; [by apply elem_of_nil in Hr|].
  change (ev :: tr) with ([ev] ++ tr)%list in Hr. rewrite delivered_app in Hr. apply elem_of_app in Hr as [Hr|Hr].
  - destruct ev as [X e x], e as [e|e]; destruct e; try by apply elem_of_nil in Hr.
    destruct (sel cl) eqn:Es; [|rewrite delivered_skip in Hr by (cbn; by rewrite Es); by apply elem_of_nil in Hr].
    rewrite delivered_poll in Hr by done. change (delivered sel []) with (@nil Record_) in Hr. rewrite app_nil_r in Hr.
    unfold clean in Hr. destruct (f_Errors x) eqn:Ee; [|by apply elem_of_nil in Hr].
    exists ctx, cl, x. split_and!; [left|done|done].
  - destruct (IH Hr) as (ctx & cl & fs & Hin & H). exists ctx, cl, fs. split; [by right|done].
Qed.

Lemma log_increment_thread v l : v ∈ log_increments l -> exists i, v ∈ increments (of_thread i l).
Proof.
  induction l as [|[i ev] l IH]; intros Hv; [by apply elem_of_nil in Hv|].
  change (log_increments ((i, ev) :: l)) with (inc_ev ev ++ log_increments l)%list in Hv.
  apply elem_of_app in Hv as [Hv|Hv].
  - exists i. change ((i, ev) :: l) with ([(i, ev)] ++ l)%list. rewrite of_thread_app, of_thread_self, counted_app.
    apply elem_of_app. left. unfold increments. cbn. by rewrite app_nil_r.
  - destruct (IH Hv) as [j Hj]. exists j. change ((i, ev) :: l) with ([(i, ev)] ++ l)%list.
    rewrite of_thread_app, counted_app. apply elem_of_app. by right.
Qed.

(** A counted value was delivered to a pump. *)
Lemma counted_delivered m ps s v : sound m ps s -> v ∈ log_increments (s_log s) ->
  exists i ctx cl fs r, (S i, PollFetches ctx cl >-> fs) ∈ s_log s /\ f_Errors fs = [] /\ r ∈ f_records fs /\ r_Value r = v.
Proof.
  intros Hs Hv. destruct (log_increment_thread v _ Hv) as [i Hi].
  assert (Hin : exists ev, (i, ev) ∈ s_log s).
  { destruct (of_thread i (s_log s)) as [|ev tr] eqn:E; [by apply elem_of_nil in Hi|].
    exists ev. apply elem_of_thread. rewrite E. left. }
  destruct Hin as [ev0 Hin]. apply (d_log _ _ _ Hs) in Hin. rewrite (d_len _ _ _ Hs) in Hin.
  destruct i as [|i].
  - destruct (d_main _ _ _ Hs) as (t & _ & Ht & _). apply main_counts in Ht as [Ht _]. rewrite Ht in Hi. by apply elem_of_nil in Hi.
  - destruct (lookup_lt_is_Some_2 ps i) as [p Hp]; [lia|]. destruct (d_pumps _ _ _ Hs i p Hp) as (t & _ & Ht & _).
    apply pump_counts in Ht. cbn [p_pending p_start app] in Ht.
    assert (Hd : v ∈ map r_Value (delivered (fun _ => true) (of_thread (S i) (s_log s)))).
    { rewrite Ht. apply elem_of_app. by left. }
    apply list_elem_of_fmap in Hd as (r & -> & Hr). apply delivered_in in Hr as (ctx & cl & fs & Hf & He & Hr).
    exists i, ctx, cl, fs, r. split_and!; [by apply elem_of_thread|done|done|done].
Qed.

(** Every record was acknowledged, and delivered to a member by a poll without errors. *)
Definition all_delivered (s : sys) : Prop := forall i, 0 <= i < totalRecs ->
  (exists ctx cl rs res, (0%nat, ProduceSync ctx cl rs >-> res) ∈ s_log s /\ FirstErr res = None /\
     msg_value i ∈ map r_Value rs) /\
  exists j ctx cl fs r, (S j, PollFetches ctx cl >-> fs) ∈ s_log s /\ f_Errors fs = [] /\ r ∈ f_records fs /\
     r_Value r = msg_value i.

Lemma no_loss s : reachable getenv s -> finished s -> all_delivered s.
Proof.
  intros Hr (t & Ht & Ho) i Hi. apply sound_reachable in Hr as (m & ps & Hs).
  destruct (obeys_end _ _ _ _ _ Ho (sound_main _ _ _ _ Hs Ht)) as [Hseen Hmade]. split.
  - destruct (d_main _ _ _ Hs) as (t0 & _ & Htr & _). apply main_counts in Htr as [_ Hm].
    destruct (Hm _ (Hmade i Hi)) as [Hn|(ctx & cl & rs & res & Hin & Hr)]; [by apply elem_of_nil in Hn|].
    exists ctx, cl, rs, res. split; [by apply elem_of_thread|done].
  - apply (counted_delivered m ps); [done|]. apply (g_seen _ _ _ _ (d_agrees _ _ _ Hs)), Hseen.
    apply elem_of_list_to_set, list_elem_of_fmap. exists i. split; [done|by apply elem_of_seqZ].
Qed.

(** ** The shared map *)

Definition about_to {X} (e : syncE X) (s : sys) (i : nat) : Prop :=
  exists t k, s_threads s !! i = Some t /\ observe t = VisF (inr1 e) k.

Definition about_to_access (s : sys) (i : nat) : Prop :=
  (exists v, about_to (Increment v) s i) \/ (exists v, about_to (Count v) s i) \/ about_to MapLen s i.

Lemma two_locked ps i j p q : i <> j -> ps !! i = Some p -> ps !! j = Some q ->
  p_locked p = true -> p_locked q = true -> 2 <= num p_locked ps.
Proof.
  intros Hij Hi Hj Hp Hq. pose proof (num_insert p_locked ps i p p_start Hi).
  assert (Hl : <[i := p_start]> ps !! j = Some q) by by rewrite list_lookup_insert_ne.
  pose proof (num_lookup p_locked _ _ _ Hl). unfold bit in *. rewrite Hp, Hq in *. cbn in *. lia.
Qed.

Lemma write_is_pump m ps s i v : sound m ps s -> about_to (Increment v) s i ->
  exists j p, i = S j /\ ps !! j = Some p /\ p_locked p = true /\ p_done p = false.
Proof.
  intros Hs (t & k & Ht & Ho). destruct i as [|i].
  - destruct (obeys_vis _ _ _ _ _ _ tt Ho (sound_main _ _ _ _ Hs Ht)) as (m' & Hm & _). by destruct m.
  - destruct (sound_pump _ _ _ _ _ Hs Ht) as (p & Hp & Hob). destruct (obeys_vis _ _ _ _ _ _ tt Ho Hob) as (p' & Hm & _).
    exists i, p. destruct p as [[] [|w pe] []]; done.
Qed.

(** No other access is possible where a thread is about to write. *)
Lemma write_excludes_pump m ps s i j p q : sound m ps s -> i <> j -> ps !! i = Some p -> p_locked p = true ->
  ps !! j = Some q -> p_locked q = true -> False.
Proof.
  intros Hs Hij Hp Hl Hq Hlq. pose proof (two_locked ps i j p q Hij Hp Hq Hl Hlq).
  pose proof (g_lock _ _ _ _ (d_agrees _ _ _ Hs)) as Hlk.
  unfold bit in Hlk. destruct (sh_lock (s_shared s)), (m_locked m); lia.
Qed.

Lemma write_excludes s i j v : reachable getenv s -> i <> j -> about_to (Increment v) s i -> ~ about_to_access s j.
Proof.
  intros Hr Hij Hw Ha. apply sound_reachable in Hr as (m & ps & Hs).
  destruct (write_is_pump _ _ _ _ _ Hs Hw) as (i' & p & -> & Hp & Hl & Hd).
  destruct Ha as [[w Ha]|[[w Ha]|Ha]].
  - destruct (write_is_pump _ _ _ _ _ Hs Ha) as (j' & q & -> & Hq & Hlq & _).
    eapply (write_excludes_pump _ _ _ i' j'); [done|congruence|done..].
  - destruct Ha as (t & k & Ht & Ho), j as [|j].
    + destruct (obeys_vis _ _ _ _ _ _ 0 Ho (sound_main _ _ _ _ Hs Ht)) as (m' & Hm & _).
      destruct m as [lk ad gos [] seen made]; [|done].
      destruct (g_waited _ _ _ _ (d_agrees _ _ _ Hs) eq_refl) as [_ Hall]. by rewrite (num_all _ _ _ _ Hall Hp) in Hd.
    + destruct (sound_pump _ _ _ _ _ Hs Ht) as (q & _ & Hob). destruct (obeys_vis _ _ _ _ _ _ 0 Ho Hob) as (q' & Hm & _).
      by destruct q as [? ? []].
  - destruct Ha as (t & k & Ht & Ho), j as [|j].
    + destruct (obeys_vis _ _ _ _ _ _ 0 Ho (sound_main _ _ _ _ Hs Ht)) as (m' & Hm & _).
      destruct m as [[] ad gos wt seen made]; [|done].
      pose proof (g_lock _ _ _ _ (d_agrees _ _ _ Hs)) as Hlk. pose proof (num_lookup p_locked _ _ _ Hp) as Hn.
      rewrite Hl in Hn. unfold bit in *. cbn in Hlk. destruct (sh_lock (s_shared s)); lia.
    + destruct (sound_pump _ _ _ _ _ Hs Ht) as (q & _ & Hob). destruct (obeys_vis _ _ _ _ _ _ 0 Ho Hob) as (q' & Hm & _).
      by destruct q as [? ? []].
Qed.

End Main.
