(* ===== verification/ExampleDemo.v ===== *)
(** * An in-memory broker to run the examples against

    Not a model of any broker: one environment, written for the witnesses, under
    which the examples finish.  A clock that advances with every call, topics with
    their records in order, per-client positions, committed offsets, and
    transactions whose end leaves a marker in the log. *)

From ITree Require Import ITree.
From stdpp Require Import sorting.
From S2P Require Import Prelude GoStr Script KafkaClient ExProduce ExRebalance ExRebalanceFacts.
Local Open Scope string_scope.
Local Open Scope Z_scope.

(** Whether an entry's transaction is committed, open or aborted; a marker is no record. *)
Inductive status := Committed | Pending | Aborted | Marker.
Record entry := mk_entry { e_rec : Record_; e_ms : Z; e_status : status }.

Record topic := mk_topic { t_partitions : Z; t_configs : list (string * string); t_start : Z; t_log : list entry }.
#[export] Instance eta_topic : Eta topic := fun t =>
  mk_topic (t_partitions t) (t_configs t) (t_start t) (t_log t).

Record broker := mk_broker {
  b_now : Z; b_next : nat; b_topics : gmap string topic; b_pos : gmap (nat * Z) Z; b_committed : gmap (string * string) Z }.
#[export] Instance eta_broker : Eta broker := fun b =>
  mk_broker (b_now b) (b_next b) (b_topics b) (b_pos b) (b_committed b).

Definition start_broker : broker := mk_broker 1700000000000000000 0 ∅ ∅ ∅.

Definition tick (b : broker) : broker := b <| b_now ::= fun t => t + Millisecond |>.

Definition find_opt {A} (f : opt -> option A) (cl : client) : option A :=
  foldl (fun acc o => match f o with Some a => Some a | None => acc end) None (cl_opts cl).
Definition produce_topic := find_opt (fun o => match o with DefaultProduceTopic t => Some t | _ => None end).
Definition consume_topic := find_opt (fun o => match o with ConsumeTopics t => Some t | ConsumePartitions t _ _ => Some t | _ => None end).
Definition group_of := find_opt (fun o => match o with ConsumerGroup g => Some g | _ => None end).
Definition reset_of := find_opt (fun o => match o with ConsumeResetOffset o => Some (None, o) | ConsumePartitions _ p o => Some (Some p, o) | _ => None end).
Definition user_of := find_opt (fun o => match o with SASL (Plain u _ | ScramSha256 u _ | ScramSha512 u _) => Some u | _ => None end).
Definition is_txn (cl : client) : bool := existsb (fun o => match o with TransactionalID _ => true | _ => false end) (cl_opts cl).
Definition is_read_committed (cl : client) : bool := existsb (fun o => match o with ReadCommitted => true | _ => false end) (cl_opts cl).

Definition on_partition (p : Z) (l : list entry) : list entry := List.filter (fun e => r_Partition (e_rec e) =? p) l.
Definition hwm_of (t : topic) (p : Z) : Z := Z.of_nat (length (on_partition p (t_log t))).
(** The first open transaction, or the end. *)
Definition lso_of (t : topic) (p : Z) : Z :=
  match List.find (fun e => match e_status e with Pending => true | _ => false end) (on_partition p (t_log t)) with
  | Some e => r_Offset (e_rec e)
  | None => hwm_of t p
  end.

Definition append (b : broker) (t : topic) (st : status) (r : Record_) : Record_ * topic :=
  let p := if String.eqb (r_Key r) "" then r_Partition r
           else default 0 (CompressionAndKeys.murmur2Partition (string_bytes (r_Key r)) (t_partitions t)) in
  let r := mk_Record (r_Key r) (r_Value r) p (hwm_of t p) in
  (r, t <| t_log ::= fun l => (l ++ [mk_entry r (b_now b / Millisecond) st])%list |>).

(** Too large is what a client that raised its batch ceiling sends. *)
Definition raised (cl : client) : bool := existsb (fun o => match o with ProducerBatchMaxBytes _ => true | _ => false end) (cl_opts cl).

Fixpoint append_all (b : broker) (t : topic) (st : status) (rs : list Record_) : list (Record_ * option error) * topic :=
  match rs with
  | [] => ([], t)
  | r :: rs =>
    let '(r, t) := append b t st r in
    let '(res, t) := append_all b t st rs in ((r, None) :: res, t)
  end.

Definition end_txn (b : broker) (commit : bool) (t : topic) : topic :=
  if existsb (fun e => match e_status e with Pending => true | _ => false end) (t_log t) then
    t <| t_log ::= fun l =>
      (map (fun e => match e_status e with
                     | Pending => mk_entry (e_rec e) (e_ms e) (if commit then Committed else Aborted)
                     | _ => e end) l ++
       [mk_entry (mk_Record "" "" 0 (hwm_of t 0)) (b_now b / Millisecond) Marker])%list |>
  else t.

(** Where a client reads partition [p] from. *)
Definition position (b : broker) (cl : client) (name : string) (t : topic) (p : Z) : Z :=
  match b_pos b !! (cl_id cl, p) with
  | Some o => o
  | None =>
    match group_of cl ≫= fun g => b_committed b !! (g, name) with
    | Some o => o
    | None =>
      match reset_of cl with
      | Some (Some p', At o) => if p =? p' then o else hwm_of t p
      | Some (_, AtEnd) => hwm_of t p
      | Some (_, At o) => o
      | _ => t_start t
      end
    end
  end.

Definition visible (cl : client) (e : entry) : bool :=
  match e_status e with Committed => true | Marker => false | _ => negb (is_read_committed cl) end.

Definition poll (b : broker) (ctx : context) (cl : client) : Fetches * broker :=
  match consume_topic cl ≫= fun name => pair name <$> b_topics b !! name with
  | None => (mk_Fetches [mk_error OtherError "no topic"] [], b)
  | Some (name, t) =>
    let one := fun '(recs, b) p =>
      let from := position b cl name t p in
      let upto := if is_read_committed cl then lso_of t p else hwm_of t p in
      let new := List.filter (fun e => (from <=? r_Offset (e_rec e)) && (r_Offset (e_rec e) <? upto) && visible cl e)
                   (on_partition p (t_log t)) in
      ((recs ++ map e_rec new)%list, b <| b_pos ::= <[(cl_id cl, p) := upto]> |>) in
    let '(recs, b) := foldl one ([], b) (seqZ 0 (t_partitions t)) in
    match recs, ctx with
    | [], _ :: _ :: _ => (mk_Fetches [mk_error DeadlineExceeded "context deadline exceeded"] [], b <| b_now ::= fun t => t + Second |>)
    | _, _ => (mk_Fetches [] recs, b)
    end
  end.

Definition listing (b : broker) (name : string) (f : topic -> Z) : error + ListedOffsets :=
  match b_topics b !! name with
  | Some t => inr {[ (name, 0) := mk_ListedOffset (f t) None ]}
  | None => inr ∅
  end.

Definition on_topic (b : broker) (name : string) (f : topic -> topic) : broker := b <| b_topics ::= alter f name |>.

Fixpoint has_tilde (s : string) : bool := match s with String c s => (ord c =? 126) || has_tilde s | EmptyString => false end.

Definition serve {X} (e : clientE X) (b : broker) : option (X * broker) :=
  match e in clientE X return broker -> option (X * broker) with
  | Stdout _ => fun b => Some (tt, b)
  | Log _ => fun b => Some (tt, b)
  | Fatal _ => fun _ => None
  | Now => fun b => Some (b_now b, b)
  | Sleep ns => fun b => Some (tt, b <| b_now ::= fun t => t + ns |>)
  | CtxErr _ => fun b => Some (None, b)
  | NewUUID => fun b => Some ("0000000" ++s FormatInt (Z.of_nat (b_next b)), b <| b_next ::= S |>)
  | NewClient _ => fun b => Some (inr (b_next b), b <| b_next ::= S |>)
  | Close _ => fun b => Some (tt, b)
  | ProduceSync _ cl rs => fun b =>
      match produce_topic cl ≫= fun name => pair name <$> b_topics b !! name with
      | Some (name, t) =>
        if bool_decide (user_of cl = Some "mallory")
        then Some (map (fun r => (r, Some (mk_error TopicAuthorizationFailed "denied"))) rs, b)
        else if raised cl then Some (map (fun r => (r, Some (mk_error MessageTooLarge "too large"))) rs, b)
        else let '(res, t) := append_all b t (if is_txn cl then Pending else Committed) rs in
             Some (res, b <| b_topics ::= <[name := t]> |>)
      | None => Some (map (fun r => (r, Some (mk_error UnknownTopicOrPartition "unknown topic"))) rs, b)
      end
  | PollFetches ctx cl => fun b => Some (poll b ctx cl)
  | ProducerID _ _ => fun b => Some (inr (7, 0), b)
  | BeginTransaction _ => fun b => Some (None, b)
  | EndTransaction _ cl commit => fun b =>
      Some (None, match produce_topic cl with Some name => on_topic b name (end_txn b commit) | None => b end)
  | CommitRecords _ cl rs => fun b =>
      Some (None, match group_of cl, consume_topic cl, last rs with
                  | Some g, Some name, Some r => b <| b_committed ::= <[(g, name) := r_Offset r + 1]> |>
                  | _, _, _ => b end)
  | LeaveGroup _ _ => fun b => Some (None, b)
  | CreateTopic _ _ n _ configs name => fun b =>
      if has_tilde name then Some (Some (mk_error InvalidTopicException "invalid topic"), b)
      else Some (None, b <| b_topics ::= <[name := mk_topic n configs 0 []]> |>)
  | DeleteTopics _ _ name => fun b => Some (inr [(name, None)], b <| b_topics ::= delete name |>)
  | ListTopics _ _ => fun b => Some (inr (fmap (fun t => mk_TopicDetail (seqZ 0 (t_partitions t)) None) (b_topics b)), b)
  | DescribeTopicConfigs _ _ name => fun b =>
      Some (inr (match b_topics b !! name with
                 | Some t => inr (map (fun '(k, v) => mk_Config k (Some v)) (t_configs t))
                 | None => inl (mk_error UnknownTopicOrPartition "unknown topic") end), b)
  | BrokerMetadata _ _ => fun b => Some (inr (mk_Metadata "demo" [1]), b)
  | UpdatePartitions _ _ n name => fun b =>
      if 256 <? n then Some (([], Some (mk_error InvalidPartitions "too many")), b)
      else match b_topics b !! name with
           | Some t => if n <? t_partitions t
                       then Some (([(name, Some (mk_error InvalidPartitions "decrease"))], None), b)
                       else Some (([(name, None)], None), on_topic b name (fun t => t <| t_partitions := n |>))
           | None => Some (([(name, Some (mk_error UnknownTopicOrPartition "unknown topic"))], None), b)
           end
  | AlterTopicConfigs _ _ k v name => fun b =>
      Some (None, on_topic b name (fun t => t <| t_configs ::= fun l => ((k, v) :: l)%list |>))
  | DeleteRecords _ _ name _ below => fun b => Some (None, on_topic b name (fun t => t <| t_start := below |>))
  | ListStartOffsets _ _ name => fun b => Some (listing b name t_start, b)
  | ListEndOffsets _ _ name => fun b => Some (listing b name (fun t => hwm_of t 0), b)
  | ListOffsetsAfterMilli _ _ ms name => fun b =>
      Some (listing b name (fun t => match List.find (fun e => ms <=? e_ms e) (t_log t) with
                                     | Some e => r_Offset (e_rec e) | None => -1 end), b)
  | RequestListOffsets _ _ req => fun b =>
      Some (match b_topics b !! lr_Topic req with
            | Some t => inr [[mk_PartitionResponse 0 (lso_of t (lr_Partition req))]]
            | None => inr [[mk_PartitionResponse 3 (-1)]] end, b)
  | FetchOffsets _ _ group => fun b =>
      Some (inr (map_fold (fun '(g, name) o m => if String.eqb g group then <[(name, 0) := mk_OffsetResponse o None]> m else m)
                   ∅ (b_committed b)), b)
  end (tick b).

(** The sequential examples need no synchronisation. *)
Definition demo : forall X, goE X -> broker -> option (X * broker) :=
  fun X e b => match e with inl1 e => serve e b | inr1 _ => None end.

(** Credentials for the security example. *)
Definition demo_env (key : string) : string :=
  if String.eqb key "KAFKA_SASL_USER" then "alice"
  else if String.eqb key "KAFKA_SASL_PASS" then "secret"
  else if String.eqb key "KAFKA_SASL_MECHANISM" then "scram-sha-256"
  else if String.eqb key "KAFKA_SASL_DENIED_USER" then "mallory"
  else if String.eqb key "KAFKA_SASL_DENIED_PASS" then "guess"
  else "".

(** ** Threads by turns *)

Section Turns.
Context (getenv : string -> string).

Definition sys_step (i : nat) (s : sys) (b : broker) : option (sys * broker) :=
  match s_threads s !! i with
  | None => None
  | Some t =>
    match observe t with
    | RetF _ => None
    | TauF t' => Some (mk_sys (<[i := t']> (s_threads s)) (s_shared s) (s_log s), b)
    | VisF (inl1 e) k =>
      match serve e b with
      | Some (x, b') => Some (mk_sys (<[i := k x]> (s_threads s)) (s_shared s) (s_log s ++ [(i, Ev (inl1 e) x)])%list, b')
      | None => None
      end
    | VisF (inr1 e) k =>
      match sync_do e (s_shared s) with
      | Some (x, sh') => Some (mk_sys (<[i := k x]> (s_threads s) ++ spawned e)%list sh' (s_log s ++ [(i, Ev (inr1 e) x)])%list, tick b)
      | None => None
      end
    end
  end.

Definition main_done (s : sys) : bool :=
  match s_threads s !! 0%nat with Some t => match observe t with RetF _ => true | _ => false end | None => false end.

Lemma main_done_finished s : main_done s = true -> finished s.
Proof.
  unfold main_done, finished. destruct (s_threads s !! 0%nat) as [t|]; [|done]. intros H. exists t. split; [done|].
  destruct (observe t) as [[]|t'|X e k]; done.
Qed.

(** The value a thread is about to count. *)
Definition writes (s : sys) (i : nat) : option string :=
  match (s_threads s !! i : option (prog unit)) with
  | Some t =>
    match observe t with
    | VisF (inr1 e) _ => match e with Increment v => Some v | _ => None end
    | _ => None
    end
  | None => None
  end.

Lemma writes_about_to s i v : writes s i = Some v -> about_to (Increment v) s i.
Proof.
  unfold writes, about_to. destruct (s_threads s !! i) as [t|]; [|done].
  destruct (observe t) as [r|t'|X [e|e] k] eqn:Ho; try done. destruct e; try done. intros [= ->]. by exists t, k.
Qed.

(** Round-robin over the threads; a blocked thread loses its turn. *)
Fixpoint turns (fuel i : nat) (s : sys) (b : broker) : sys :=
  match fuel with
  | O => s
  | S n =>
    if main_done s then s
    else let next := if (S i <? length (s_threads s))%nat then S i else 0%nat in
         match sys_step i s b with
         | Some (s', b') => turns n next s' b'
         | None => turns n next s b
         end
  end.

Lemma sys_step_step i s b s' b' : sys_step i s b = Some (s', b') -> step s s'.
Proof.
  unfold sys_step. destruct s as [ts sh l]. cbn. destruct (ts !! i) as [t|] eqn:Ht; [|done].
  destruct (observe t) as [r|t'|X [e|e] k] eqn:Ho; [done|..].
  - intros [= <- <-]. by eapply step_tau.
  - destruct (serve e b) as [[x b1]|]; [|done]. intros [= <- <-]. by eapply step_call.
  - destruct (sync_do e sh) as [[x sh1]|] eqn:Es; [|done]. intros [= <- <-]. by eapply step_sync.
Qed.

Lemma turns_reachable fuel : forall i s b, reachable getenv s -> reachable getenv (turns fuel i s b).
Proof.
  induction fuel as [|n IH]; intros i s b Hs; cbn [turns]; [done|]. destruct (main_done s); [done|].
  destruct (sys_step i s b) as [[s' b']|] eqn:E; apply IH; [|done].
  eapply rtc_r; [done|]. by eapply sys_step_step.
Qed.

Definition demo_sys (fuel : nat) : sys := turns fuel 0 (start getenv) start_broker.

End Turns.
