(* ===== verification/ExampleGaps.v ===== *)
(** * What a PASS of an example does not show

    Brokers that break what an example's doc promises, and under which the example
    still passes: each is the in-memory broker with one call changed. *)

From ITree Require Import ITree.
From S2P Require Import Prelude GoStr Script KafkaClient ExProduce ExConsume ExGroups ExAdmin ExRebalance ExRebalanceFacts ExampleDemo.
Local Open Scope string_scope.
Local Open Scope Z_scope.

(** [demo] with some calls of the client answered differently. *)
Definition altered (alter : forall X, clientE X -> broker -> option (option (X * broker)))
    : forall X, goE X -> broker -> option (X * broker) :=
  fun X e b =>
    match e with
    | inl1 c => match alter X c b with Some r => r | None => serve c b end
    | inr1 _ => None
    end.

(** Whether the run ends and prints the line. *)
Definition printed (line : string) (r : option (list (@event goE) * unit * broker)) : bool :=
  match r with
  | Some (tr, _, _) =>
    existsb (fun ev => match ev with Ev (inl1 e) _ => match e with Stdout f => String.eqb f line | _ => false end | _ => false end) tr
  | None => false
  end.
Definition passes_with (alter : forall X, clientE X -> broker -> option (option (X * broker))) (line : string) (p : prog unit) : bool :=
  printed line (exec (altered alter) 2000 p start_broker).

(** The broker writes every batch twice: each value is in the log at two offsets. *)
Definition writes_twice X (e : clientE X) (b : broker) : option (option (X * broker)) :=
  match e in clientE X return option (option (X * broker)) with
  | ProduceSync ctx cl rs =>
    Some (match serve (ProduceSync ctx cl rs) b with
          | Some (_, b) => serve (ProduceSync ctx cl rs) b
          | None => None
          end)
  | _ => None
  end.

Example idempotent_misses_copies :
  passes_with writes_twice "PASS: idempotent producer — PID assigned, no duplicate offsets" (Idempotent.main demo_env) = true.
Proof. vm_compute. reflexivity. Qed.

(** A latest consumer that starts at the beginning, and whose first poll, the one
    the example throws away, delivers all that was in the log. *)
Definition latest_is_earliest X (e : clientE X) (b : broker) : option (option (X * broker)) :=
  match e in clientE X return option (option (X * broker)) with
  | PollFetches ctx (mk_client id opts) =>
    let reset o := match o with ConsumeResetOffset AtEnd => ConsumeResetOffset AtStart | _ => o end in
    Some (serve (PollFetches ctx (mk_client id (map reset opts))) b)
  | _ => None
  end.

Example latest_misses_earliest :
  passes_with latest_is_earliest "PASS: auto.offset.reset earliest/latest verified" (FromBeginningLatest.main demo_env) = true.
Proof. vm_compute. reflexivity. Qed.

(** A broker that lists no start offset. *)
Definition no_start_offset X (e : clientE X) (b : broker) : option (option (X * broker)) :=
  match e in clientE X return option (option (X * broker)) with
  | ListStartOffsets _ _ _ => Some (Some (inr ∅, b))
  | _ => None
  end.

Example retention_misses_listing :
  passes_with no_start_offset "PASS: earliest/latest/by-timestamp offsets + retention config verified"
    (ListAndRetention.main demo_env) = true.
Proof. vm_compute. reflexivity. Qed.

(** A broker that describes no configuration. *)
Definition no_configs X (e : clientE X) (b : broker) : option (option (X * broker)) :=
  match e in clientE X return option (option (X * broker)) with
  | DescribeTopicConfigs _ _ _ => Some (Some (inr (inr []), b))
  | _ => None
  end.

Example lifecycle_misses_configs :
  passes_with no_configs "PASS: topic lifecycle + reserved-char rejection verified" (TopicsLifecycle.main demo_env) = true.
Proof. vm_compute. reflexivity. Qed.

(** A broker that refuses to delete the topic. *)
Definition refuses_delete X (e : clientE X) (b : broker) : option (option (X * broker)) :=
  match e in clientE X return option (option (X * broker)) with
  | DeleteTopics _ _ name => Some (Some (inr [(name, Some (mk_error TopicAuthorizationFailed "refused"))], b))
  | _ => None
  end.

Example refused_delete_is_ok :
  passes_with refuses_delete "DeleteTopic: ok" (BasicAcks.main demo_env) = true.
Proof. vm_compute. reflexivity. Qed.

(** Under the in-memory broker both members of the group read every partition. *)
Example rebalance_misses_copies :
  finished (demo_sys demo_env 2000) /\ sh_got (s_shared (demo_sys demo_env 2000)) !! "msg-0" = Some 2.
Proof. split; [apply main_done_finished; vm_compute; reflexivity|vm_compute; reflexivity]. Qed.
