(* ===== verification/Examples.v ===== *)
(** * The sequential examples together

    Every example as one type: what its PASS stands for, that it closes the
    clients it opens, and that it ends. *)

From ITree Require Import ITree.
From stdpp Require Import sorting.
From S2P Require Import Prelude GoStr Script KafkaClient KafkaFacts KafkaHalt ExProduce ExConsume ExGroups ExAdmin.
From S2P Require Import ExProduceFacts ExConsumeFacts ExGroupsFacts ExAdminFacts ExRebalance ExRebalanceFacts ExampleDemo.
Local Open Scope string_scope.
Local Open Scope Z_scope.

Inductive example :=
  | basic_acks | idempotent | compression_and_keys | from_beginning_latest | seek_offsets_timestamps
  | list_and_retention | commit_and_lag | eos_commit_abort | read_committed
  | topics_lifecycle | partitions_and_configs | sasl_plain_scram.

Definition main_of (getenv : string -> string) (ex : example) : prog unit :=
  match ex with
  | basic_acks => BasicAcks.main getenv
  | idempotent => Idempotent.main getenv
  | compression_and_keys => CompressionAndKeys.main getenv
  | from_beginning_latest => FromBeginningLatest.main getenv
  | seek_offsets_timestamps => SeekOffsetsTimestamps.main getenv
  | list_and_retention => ListAndRetention.main getenv
  | commit_and_lag => CommitAndLag.main getenv
  | eos_commit_abort => Transactions.eos_main getenv
  | read_committed => Transactions.rc_main getenv
  | topics_lifecycle => TopicsLifecycle.main getenv
  | partitions_and_configs => PartitionsAndConfigs.main getenv
  | sasl_plain_scram => SaslPlainScram.main getenv
  end.

(** ** Termination *)

Section Halting.
Context (patience : nat) (getenv : string -> string).

Lemma Halts_pollOne ctx cl : Halts patience (BasicAcks.pollOne ctx cl).
Proof.
  apply Halts_patient_loop. intros [] h Hh. apply twp_bind, twp_event. intros fs Hfs.
  destruct (f_Errors fs); [|apply twp_fatal]. destruct (f_records fs); [|by apply twp_ret].
  apply twp_bind, twp_event. intros [e|] He; apply twp_bind; [apply twp_fatal|].
  apply twp_ret, twp_ret. rewrite !alive_app. cbn. lia.
Qed.

Lemma Halts_tolerate errs : Halts patience (tolerate errs).
Proof. unfold tolerate. halt. Qed.

Lemma Halts_boundary ctx prod value mid l : forall b, Halts patience (produce_with_boundary ctx prod value mid l b).
Proof. induction l; intros b; cbn [produce_with_boundary]; halt. Qed.

Lemma Halts_scan recs : forall s, Halts patience (Idempotent.scan recs s).
Proof. induction recs; intros s; cbn [Idempotent.scan]; halt. Qed.

Lemma Halts_waitPresent ctx adm topic timeout : Halts patience (TopicsLifecycle.waitPresent ctx adm topic timeout).
Proof.
  apply Halts_bind; [apply Halts_call|]. intros t0. cbv zeta. apply (Halts_clock_loop _ (t0 + timeout)). intros [] h Hh.
  apply twp_bind, twp_bind, twp_event. intros [e|l] Hl; [apply twp_fatal|]. apply twp_ret.
  destruct (Has l topic); [by apply twp_ret|]. apply twp_bind, twp_event. intros now Hn.
  destruct (now <? _) eqn:Ed; zify_bool; [|by apply twp_ret].
  apply twp_bind, twp_event. intros [] Hs. apply twp_ret.
  eexists _, now. split_and!; [by rewrite <- !app_assoc|cbn; set_solver|done].
Qed.

End Halting.

#[export] Hint Resolve Halts_pollOne Halts_tolerate Halts_boundary Halts_scan Halts_waitPresent : halts.

Lemma mains_halt patience getenv ex : Halts patience (main_of getenv ex).
Proof.
  destruct ex; cbn [main_of].
  - unfold BasicAcks.main, BasicAcks.produce_level, Banner, Admin, tear_down. halt.
  - unfold Idempotent.main, Idempotent.read_back, Banner, Admin, tear_down. halt.
  - unfold CompressionAndKeys.main, CompressionAndKeys.codec_round_trip, CompressionAndKeys.readOffset,
      CompressionAndKeys.keyed_produce, Banner, Admin, tear_down. halt.
  - unfold FromBeginningLatest.main, FromBeginningLatest.produce, FromBeginningLatest.drain, Banner, Admin, tear_down. halt.
  - unfold SeekOffsetsTimestamps.main, SeekOffsetsTimestamps.pollFirst, Banner, Admin, tear_down. halt.
  - unfold ListAndRetention.main, Banner, Admin, tear_down. halt.
  - unfold CommitAndLag.main, CommitAndLag.produce_one, CommitAndLag.take_, CommitAndLag.committedAndEnd,
      CommitAndLag.first_of, CommitAndLag.last_of, Banner, Admin, tear_down. halt.
  - unfold Transactions.eos_main, Transactions.open_txn, Transactions.read_values, Banner, Admin, tear_down. halt.
  - unfold Transactions.rc_main, Transactions.open_txn, Transactions.read_values, Transactions.hwmOffset,
      Transactions.lsoOffset, Banner, Admin, tear_down. halt.
  - unfold TopicsLifecycle.main, TopicsLifecycle.waitGone, Banner, Admin, tear_down. halt.
  - unfold PartitionsAndConfigs.main, PartitionsAndConfigs.partitionCount, PartitionsAndConfigs.readConfig,
      PartitionsAndConfigs.produceTo, Banner, Admin, tear_down. halt.
  - unfold SaslPlainScram.main, SaslPlainScram.pollOne, SaslPlainScram.denied_path, Banner, Admin, tear_down. halt.
Qed.

(** ** What a PASS stands for *)

Definition earned_of (getenv : string -> string) (ex : example) (tr : trace) : Prop :=
  match ex with
  | basic_acks => BasicAcksFacts.earned tr
  | idempotent => IdempotentFacts.earned tr
  | compression_and_keys => CompressionAndKeysFacts.earned tr
  | from_beginning_latest => FromBeginningLatestFacts.earned tr
  | seek_offsets_timestamps => SeekFacts.earned tr
  | list_and_retention => ListAndRetentionFacts.earned tr
  | commit_and_lag => CommitAndLagFacts.earned tr
  | eos_commit_abort => TransactionsFacts.eos_earned tr
  | read_committed => TransactionsFacts.rc_earned tr
  | topics_lifecycle => TopicsLifecycleFacts.earned tr
  | partitions_and_configs => PartitionsAndConfigsFacts.earned tr
  | sasl_plain_scram => SaslPlainScramFacts.skipped getenv \/ SaslPlainScramFacts.earned getenv tr
  end.

Lemma mains_earn getenv ex : wp (main_of getenv ex) (fun tr _ => tidy tr /\ earned_of getenv ex tr).
Proof.
  destruct ex; cbn [main_of earned_of].
  - apply BasicAcksFacts.basic_acks_earned.
  - apply IdempotentFacts.idempotent_earned.
  - apply CompressionAndKeysFacts.compression_earned.
  - apply FromBeginningLatestFacts.from_beginning_earned.
  - apply SeekFacts.seek_earned.
  - apply ListAndRetentionFacts.retention_earned.
  - apply CommitAndLagFacts.commit_and_lag_earned.
  - apply TransactionsFacts.eos_main_earned.
  - apply TransactionsFacts.rc_main_earned.
  - apply TopicsLifecycleFacts.lifecycle_earned.
  - apply PartitionsAndConfigsFacts.partitions_earned.
  - apply SaslPlainScramFacts.sasl_earned.
Qed.

(** C11: what the end of an example shows.  A run of a sequential example that
    reaches its end, and not a fatal error, has made the observations that
    [earned_of] lists for it, with the answers and in the order listed: the records
    acknowledged and read back, the offsets, partitions and lags found, what a
    read-committed consumer was given, the errors of the requests that had to be
    refused; and it closed every client it opened exactly once.  The security example
    without credentials has asked nothing.  The observations are those the code's
    checks make and no more: they fall short of the words of the PASS line or of the
    example's doc where ExampleGaps.v has a broker that breaks those and passes
    (copies of a record at other offsets, a latest consumer that began at the start, a
    start offset that was not listed, a configuration not described, a deletion
    refused). *)
Theorem examples_earn_pass getenv ex tr :
  ends (main_of getenv ex) tr tt -> tidy tr /\ earned_of getenv ex tr.
Proof. intros H. exact (mains_earn getenv ex tr tt H). Qed.

Lemma examples_earn_pass_witness :
  let shown ex := run_of demo 2000 (main_of demo_env ex) start_broker in
  (tidy (shown idempotent) /\ earned_of demo_env idempotent (shown idempotent)) /\
  (tidy (shown read_committed) /\ earned_of demo_env read_committed (shown read_committed)).
Proof.
  split.
  - apply (examples_earn_pass demo_env idempotent). apply finishes_ends. vm_compute. reflexivity.
  - apply (examples_earn_pass demo_env read_committed). apply finishes_ends. vm_compute. reflexivity.
Defined.

(** C17: when main of join-rebalance returns, in any interleaving of main and the
    two members and under any behaviour of the broker, every one of the 40 records
    was acknowledged and was delivered to a member by a poll without errors. *)
Theorem rebalance_no_loss getenv s : reachable getenv s -> finished s -> all_delivered s.
Proof. apply no_loss. Qed.

Lemma demo_finished : finished (demo_sys demo_env 2000).
Proof. apply main_done_finished. vm_compute. reflexivity. Qed.

Lemma rebalance_no_loss_witness : all_delivered (demo_sys demo_env 2000).
Proof. apply (rebalance_no_loss demo_env); [apply turns_reachable, rtc_refl|exact demo_finished]. Defined.

(** C23: the counts the members share are free of data races: in no reachable
    state is a thread about to write one while another is about to read or write any. *)
Theorem rebalance_race_free getenv s i j v :
  reachable getenv s -> i <> j -> about_to (Increment v) s i -> ~ about_to_access s j.
Proof. apply write_excludes. Qed.

Lemma rebalance_race_free_witness :
  about_to (Increment "msg-2") (demo_sys demo_env 62) 1 /\ ~ about_to_access (demo_sys demo_env 62) 2.
Proof.
  assert (H : about_to (Increment "msg-2") (demo_sys demo_env 62) 1) by (apply writes_about_to; vm_compute; reflexivity).
  split; [exact H|]. apply (rebalance_race_free demo_env _ 1 2 "msg-2"); [apply turns_reachable, rtc_refl|lia|exact H].
Defined.

(** C24: every sequential example ends under a clock that advances and a context
    that expires, whatever the broker answers; and when it ends normally it has
    earned its PASS. *)
Theorem examples_halt patience getenv ex :
  twp (fair patience) (fun tr _ => tidy tr /\ earned_of getenv ex tr) [] (main_of getenv ex).
Proof.
  eapply twp_mono; [eapply twp_wp; [apply mains_halt|apply mains_earn]|].
  - split; [constructor|cbn; lia].
  - intros h r (tr & -> & H). exact H.
Qed.
